(* ===== verification/_CoqProject ===== *)
-Q . S2P
Prelude.v
GoStr.v
GoTime.v
GoNet.v
Base64.v
GoAny.v
GoFloat.v
GoSort.v
StatName.v
Supervisor.v
SupervisorSpec.v
Bolt.v
UsageStore.v
UsageSpec.v
UsageBilling.v
AccessAudit.v
AuditSpec.v
AuditDelivery.v
Collector.v
CollectorSpec.v
RuntimeState.v
RuntimeSpec.v
NodeConfig.v
SingBoxConfig.v
ConfigSpec.v
Users.v
UsersSpec.v
Activation.v
ActivationSpec.v
Lifecycle.v
LifecycleSpec.v
Stats.v
StatsSpec.v
UsageCapture.v
CaptureSpec.v
Plugin.v
PluginSpec.v
ForwardRules.v
ForwardRender.v
CoreApi.v
ForwardProbe.v
Forwarding.v
ForwardSpec.v
ForwardManager.v
ForwardManagerSpec.v
Benchmark.v
BenchmarkSpec.v
BenchmarkNet.v
BenchmarkTest.v
BenchmarkHardware.v
Connections.v
Geocheck.v
SystemStats.v
SystemSnapshot.v
Auth.v
HttpApi.v
Sockets.v
CorePorts.v
RulePorts.v
Agent.v
Boot.v
ApiSpec.v
AgentSpec.v
AgentQueue.v
