(* ===== verification/Prelude.v ===== *)
(** * A verification library for the Remnawave node agent (Go)

    The agent runs on a proxy node.  A panel controls it over an authenticated HTTP API: it
    starts and stops sing-box (the {e core}) under supervisord, edits the users of its
    inbounds, installs nftables filters (the {e plugin}) and port forwardings, bills traffic
    through a durable queue, keeps an access audit, and runs benchmarks and geolocation checks.
    The program is translated into pure functions, store-passing procedures and step
    relations; what is outside the repository is a parameter with the documented behaviour
    that the code relies on.

    ** Conventions

    - A Go string is a [string] of bytes ([GoStr]); int64 and uint64 arithmetic is [Z] with the
      wrap written out ([wrap64], [uwrap64]); decoded JSON is [GoAny.any],
      where Go's [int] and [float64] differ; a slice is a list and a map a [gmap].  The two
      orders that Go leaves open, those of [sort.Slice] and of map iteration, are parameters
      with laws ([GoSort]).
    - An error is an [error]; a function that can fail returns a [result].  A handler that
      holds a mutex over its whole body is one procedure on a state, [proc].  Outside code (the
      file system, supervisord, the core, nft, DNS, the clock) answers through the methods of a
      class, and an answer may depend on the whole history of what was asked before.
    - Files of operations are [X.v], their theorems are in [XSpec.v] (and [UsageBilling.v],
      [AuditDelivery.v]); the files on benchmarks' measurements, connections, geolocation, the
      machine, the core's client and the process hold both.  The constants of the examples are in a Module [...Demo], on which
      the witnesses compute.

    ** The parts, and the code they model

    Values and libraries: [GoStr], [GoTime], [GoNet], [Base64], [GoAny], [GoSort], [GoFloat]
    (what the code uses of the Go library), [Bolt] (the interface to bbolt and JSON records, with an
    implementation in memory).

    - [StatName]: internal/statname/user_inbound.go.  Used by everything that reads the names
      of counters and connections.
    - [UsageStore], [UsageSpec], [UsageBilling]: internal/usagesnapshot/store.go.  The queue is
      a refinement of an append-only history with an acknowledgement mark.
    - [UsageCapture], [CaptureSpec]: the capture of samples in internal/node/manager.go, over
      the queue, the core ([StatsClient]) and forwarding ([ForwardingUsage]).
    - [AccessAudit], [AuditSpec], [AuditDelivery]: internal/accessaudit/store.go.
    - [Collector], [CollectorSpec]: internal/accessaudit/collector.go and native.go, the
      stream that feeds the store, as a step relation over the store's operations.
    - [Supervisor], [SupervisorSpec]: internal/supervisor/client.go, XML-RPC to supervisord.
    - [RuntimeState], [RuntimeSpec]: internal/state/state.go, the state that the handlers share.
    - [NodeConfig]: internal/config/config.go.
    - [SingBoxConfig], [ConfigSpec]: the functions of manager.go on configuration documents.
    - [Users], [UsersSpec]: user requests (manager.go) and their checks (validation.go).
    - [Activation], [ActivationSpec]: restartSingBox of manager.go, with the candidate file,
      the preflight check, the copy of the last good file, and the way back.
    - [Lifecycle], [LifecycleSpec]: the handlers Start, Stop and those of users, over
      [Activation], [Users] and [RuntimeState]; a [CoreGuard] says whether a configuration
      collides with forwarding.
    - [Stats], [StatsSpec]: the statistics queries of manager.go.
    - [Plugin], [PluginSpec]: plugin compilation and synchronisation in manager.go, against an
      abstract nftables table.
    - [ForwardRules], [ForwardRender], [ForwardProbe], [Forwarding], [ForwardSpec]:
      internal/forwarding (forwarding.go, listeners.go, host_firewall.go).
    - [ForwardManager], [ForwardManagerSpec]: the forwarding handlers of manager.go and
      runtime_status.go; the instances that discharge [ForwardingUsage] and [CoreGuard].
    - [CoreApi]: internal/coreapi/stats.go, the statistics client of the core.
    - [Benchmark], [BenchmarkSpec]: internal/benchmark/runner.go; [BenchmarkNet],
      [BenchmarkTest]: network.go (the targets, then latency and transfers);
      [BenchmarkHardware]: hardware.go.
    - [Connections]: internal/node/user_connection_provider.go and the requests that use it.
    - [Geocheck]: internal/geocheck/geocheck.go.
    - [SystemStats], [SystemSnapshot]: internal/system/stats.go (parsers and network monitor,
      then the description of the machine and its interfaces).
    - [Auth], [HttpApi], [ApiSpec]: internal/auth and internal/httpapi.
    - [Boot]: the start and the end of the process (cmd/remnawave-node-go/main.go, NewManager,
      NewServer, Close, Shutdown).
    - [Agent]: the state of all components, every request from its arrival to its answer, the
      timers of main.go and the work in the background.  [Sockets], [CorePorts], [RulePorts],
      [AgentSpec] and [AgentQueue] prove what the components guarantee together.

    The interfaces between components are classes: the client is proved against the class and
    the other component gives the instance ([ForwardingUsage], [CoreGuard], [StatsClient] in
    one direction, [BucketOps], [TxOps] and [Codec] with their laws in the other).

    ** What the theorems show

    - Billing: the bill of a counter accounts for what the captures saw of it, over any course
      of samples, failed commits, silent cores, restarts, activations and acknowledgements; it
      is what the counter counted, except for the old baseline of a counter that came back
      after a restart in a sample that is not marked ([capture_billing],
      [billing_conservation]; [gap_shortfall] and [gap_observations] are such courses);
      the queue implements its abstract history ([exec_refines]) and delivers it in order and
      within its limits ([pull_spec], [pull_progress]); no two counters share a baseline
      ([sample_distinct]); what a synchronisation of the forwarding rules seals before it
      replaces them, which is nothing while the service does not count ([sync_sealed],
      [unsealed_after_rejection]).
    - Activation: only checked files reach the core ([start_only_checked]); an activation
      succeeds, changes nothing, goes back, or says that it could not
      ([restart_transaction]); a successful request is in effect ([user_change_in_effect],
      [start_in_effect]); when a restart is needed ([should_restart_exact]); what happens to
      documents ([apply_config_idempotent]); what supervisord is asked ([call_read_back]).
    - Plugin and forwarding: what a plugin compiles to, in terms of its configuration
      ([compile_sound]); what accepted and rejected synchronisations leave, those that remove
      the plugin included, where the old filters may stay ([removal_keeps_filters]) and the
      plugin may be forgotten ([removal_forgets]) ([sync_in_effect], [sync_rejected]); the
      outcome of a synchronisation of the forwarding rules ([sync_outcome]) and of their
      refresh ([refresh_never]); which configurations forwarding excludes ([guard_exact]).
    - The agent: over every course of requests, timers and background work, the core and the
      forwarding rules never want the same port ([ports_exclusive]), unless a configuration
      file could not be put back ([unrestored_clash] is such a course).  This composes
      [guard_exact]'s check, the check of the rules against the core, the way back of an
      activation, and the calls of all other components, which leave both alone.  Over the
      same courses a sealed snapshot of usage stays until it is acknowledged
      ([sealed_until_acked]).
    - The process: in which order it opens what it uses, what is open while it serves, and
      in which order it is released ([main_life]).
    - Access audit: the invariant of every reachable state ([audit_invariant]), delivery
      ([audit_pull]), who is audited ([audit_selected_only]), the events of the stream
      ([read_events_back]) and the goroutines around the store ([collector_sound]).
    - Benchmarks: the runner over crashes and restarts ([runner_sound], [runner_budget],
      [worker_finishes], [cancel_panics]), and what the tests do to the network and to the
      machine ([network_test_sound], [hardware_sound]).
    - Requests and queries: which tokens and bodies are accepted and what reaches the manager
      ([verify_exact], [validate_exact], [serve_exact]; users of AnyTLS, Hysteria2 and TUIC
      are refused); names and figures
      ([user_inbound_roundtrip], [users_stats_exact], [inventory_exact]).

    ** Bounds and fuel

    Recursion is structural on the data but for a few functions with fuel.
    [GoStr.replace_all] takes one more than the length of the string, and each turn removes
    the non-empty pattern.  [GoNet.v6_groups] takes 8, the rounds of the loop of the library,
    which stops when the address is full; [GoNet.hex_digits] takes 4, and a group has 16 bits.
    [Benchmark.prune_count] deletes a job at each turn and starts with their number
    ([prune_count_spec]); [SystemStats.sort_from] starts with the length of the list
    ([sort_strings_spec]).  The decoders of XML-RPC take one more than the number of tokens,
    of which every turn consumes one ([unmarshal_fuel]).  The loops of the pulls recurse on
    the items of the bucket.  The worker of benchmarks is a step relation, whose end is
    proved with its number of steps ([worker_finishes]).

    ** Not modelled

    - TLS, HTTP itself, the JSON decoder, RSA, X.509, PEM and XML tokens, gRPC and its
      transport, sockets and commands: interfaces.  The encoding of answers, their headers and
      compression are left out.
    - The overflow of float64, and requests that are answered while the servers shut down.
    - Steps of different requests that interleave within one call: a call is one step, which
      [Manager.coreMu] and the locks of the components make it ([Agent]).
    - Tests, build files, and the patches of sing-box: not part of the agent at run time.

    ** Plan

    Next: what else holds between the parts of the agent (that the events of [capture_billing]
    are those of the courses of [Agent], that the audit keeps its invariant there), and the steps that do not
    hold [Manager.coreMu] as interleavings of their own. *)

From stdpp Require Export base tactics list gmap strings fin_maps sorting pretty.
From Stdlib Require Export ZArith Lia Ascii.

#[export] Set Default Goal Selector "!".

#[global] Arguments String.append _%_string _%_string : simpl nomatch.

Create HintDb node.
Create Rewrite HintDb node.

(** ** Go errors

    [errors.New], [fmt.Errorf] without [%w] are [ErrMsg]; [fmt.Errorf] with [%w]
    is [ErrWrap]; the sentinels and the typed errors that the code recognises
    with [errors.Is] and [errors.As] have constructors of their own. *)
Inductive error : Type :=
| ErrMsg (msg : string)
| ErrWrap (msg : string) (inner : error)
| ErrNotActive
| ErrCoreUnavailable
| ErrBusy
| ErrEOF
| ErrDNS (target : string) (inner : error)
| ErrConflict (protocol : string) (port : Z) (conflictsWith detail : string).

(** [err.Error()], for the errors whose text the code keeps: messages and wrapped messages *)
Fixpoint error_text (e : error) : string :=
  match e with ErrMsg m => m | ErrWrap m inner => m +:+ ": " +:+ error_text inner | _ => "error" end.

(** [errors.Is]/[errors.As] look through the [%w] chain. *)
Fixpoint error_chain (p : error → bool) (e : error) : bool :=
  p e || match e with
         | ErrWrap _ inner => error_chain p inner
         | ErrDNS _ inner => error_chain p inner
         | _ => false
         end.

(** ** The error monad: Go's [(value, error)] returns *)
Inductive result (A : Type) : Type :=
| Ok (a : A)
| Err (e : error).
Arguments Ok {A} a.
Arguments Err {A} e.

#[export] Instance result_ret : MRet result := λ A a, Ok a.
#[export] Instance result_bind : MBind result := λ A B f m,
  match m with Ok a => f a | Err e => Err e end.
#[export] Instance result_fmap : FMap result := λ A B f m,
  match m with Ok a => Ok (f a) | Err e => Err e end.

Definition is_ok {A} (r : result A) : bool :=
  match r with Ok _ => true | Err _ => false end.

(** [if cond { return err }] *)
Definition fail_if (cond : bool) (e : error) : result unit :=
  if cond then Err e else Ok tt.

(** A loop whose body may return an error: [for _, x := range l { ... }]. *)
Fixpoint foldr_result {A S} (step : S → A → result S) (s : S) (l : list A) : result S :=
  match l with
  | [] => Ok s
  | x :: rest => s' ← step s x; foldr_result step s' rest
  end.

Lemma bind_ok {A B} (m : result A) (f : A → result B) b :
  m ≫= f = Ok b ↔ ∃ a, m = Ok a ∧ f a = Ok b.
Proof. destruct m; cbn; split; [eauto|by intros (? & [= <-] & ?)|done|by intros (? & ? & ?)]. Qed.

Lemma fail_if_ok c e u : fail_if c e = Ok u ↔ c = false.
Proof. destruct c, u; cbn; naive_solver. Qed.

(** The loop invariant rule. *)
Lemma foldr_result_inv {A S} (step : S → A → result S) (P : S → Prop) l s s' :
  P s → (∀ x s1 s2, x ∈ l → P s1 → step s1 x = Ok s2 → P s2) →
  foldr_result step s l = Ok s' → P s'.
Proof.
  revert s. induction l as [|x l IH]; intros s Hs Hstep; cbn; [naive_solver|].
  rewrite bind_ok. intros (s1 & H1 & H2). eapply IH; [| |exact H2].
  - eapply Hstep; [left|exact Hs|exact H1].
  - intros y s2 s3 Hy. apply Hstep. by right.
Qed.

(** The loop returns when every iteration started in a good state does. *)
Lemma foldr_result_total {A S} (step : S → A → result S) (P : S → Prop) l s :
  P s → (∀ x s1, x ∈ l → P s1 → ∃ s2, step s1 x = Ok s2 ∧ P s2) →
  ∃ s', foldr_result step s l = Ok s' ∧ P s'.
Proof.
  revert s. induction l as [|x l IH]; intros s Hs Hstep; cbn; [eauto|].
  destruct (Hstep x s) as (s1 & -> & H1); [left|done|]. cbn.
  apply IH; [done|]. intros y s2 Hy. apply Hstep. by right.
Qed.

Lemma foldr_result_app {A S} (step : S → A → result S) l1 l2 s :
  foldr_result step s (l1 ++ l2) = (s1 ← foldr_result step s l1; foldr_result step s1 l2).
Proof.
  revert s. induction l1 as [|x l IH]; intros s; cbn; [done|].
  destruct (step s x); cbn; [apply IH|done].
Qed.

(** [cbn] the monad, split the binds of the hypotheses. *)
Ltac inv_res :=
  repeat match goal with
  | H : Ok _ = Ok _ |- _ => injection H as H; subst
  | H : Err _ = Ok _ |- _ => discriminate H
  | H : Ok _ = Err _ |- _ => discriminate H
  | H : mbind _ _ = Ok _ |- _ =>
      let a := fresh "a" in let Ha := fresh "H" in
      apply bind_ok in H; destruct H as (a & Ha & H)
  | H : fail_if _ _ = Ok _ |- _ => apply fail_if_ok in H
  | H : mret _ = Ok _ |- _ => cbv [mret result_ret] in H
  end.

(** [bind_as E x Hx]: the first step of the computation [E] returned [x]. *)
Tactic Notation "bind_as" hyp(E) simple_intropattern(x) ident(Hx) :=
  apply bind_ok in E; destruct E as (x & Hx & E).

(** ** Code with state: procedures

    A Go method that changes a state and returns an error: the state is kept when it
    fails.  [attempt] is a call whose error the caller looks at. *)
Definition proc (S A : Type) : Type := S → S * result A.

#[export] Instance proc_ret S : MRet (proc S) := λ A a s, (s, Ok a).
#[export] Instance proc_bind S : MBind (proc S) := λ A B f m s,
  match m s with (s', Ok a) => f a s' | (s', Err e) => (s', Err e) end.

Definition get {S} : proc S S := λ s, (s, Ok s).
Definition gets {S A} (f : S → A) : proc S A := λ s, (s, Ok (f s)).
Definition modify {S} (f : S → S) : proc S unit := λ s, (f s, Ok tt).
Definition throw {S A} (e : error) : proc S A := λ s, (s, Err e).
Definition lift {S A} (r : result A) : proc S A := λ s, (s, r).
Definition attempt {S A} (m : proc S A) : proc S (result A) := λ s, let '(s', r) := m s in (s', Ok r).
Definition when {S} (b : bool) (m : proc S unit) : proc S unit := if b then m else mret tt.

(** The loops of such methods: [for _, x := range l { ... }], with an accumulator. *)
Fixpoint proc_fold {S A B} (step : B → A → proc S B) (b : B) (l : list A) : proc S B :=
  match l with
  | [] => mret b
  | x :: rest => b' ← step b x; proc_fold step b' rest
  end.
Definition proc_iter {S A} (step : A → proc S unit) (l : list A) : proc S unit :=
  proc_fold (λ _ x, step x) tt l.

Lemma proc_bind_ok {S A B} (m : proc S A) (f : A → proc S B) s s' b :
  (m ≫= f) s = (s', Ok b) ↔ ∃ s1 a, m s = (s1, Ok a) ∧ f a s1 = (s', Ok b).
Proof.
  unfold mbind, proc_bind. destruct (m s) as [s1 [a|e]]; split; naive_solver.
Qed.

Lemma proc_bind_run {S A B} (m : proc S A) (f : A → proc S B) s s1 r :
  m s = (s1, r) → (m ≫= f) s = match r with Ok a => f a s1 | Err e => (s1, Err e) end.
Proof. unfold mbind, proc_bind. by intros ->. Qed.

(** A run of a sequence is a run of its first step, then of the rest. *)
Lemma proc_bind_inv {S A B} (m : proc S A) (f : A → proc S B) s s' r :
  (m ≫= f) s = (s', r) → ∃ s1 a, m s = (s1, a) ∧
    match a with Ok x => f x s1 = (s', r) | Err e => s' = s1 ∧ r = Err e end.
Proof.
  unfold mbind, proc_bind. destruct (m s) as [s1 [x|e]]; intros E; exists s1; eauto.
  exists (Err e). by injection E as <- <-.
Qed.

Lemma attempt_inv {S A} (m : proc S A) s s' r :
  attempt m s = (s', r) → ∃ a, m s = (s', a) ∧ r = Ok a.
Proof. unfold attempt. destruct (m s) as [s1 a]. intros [= <- <-]. eauto. Qed.

(** [step E s r Hr]: the first step of the run [E] went to [s] and returned [r]. *)
Tactic Notation "step" hyp(E) ident(s) simple_intropattern(r) ident(Hr) :=
  apply proc_bind_inv in E; destruct E as (s & r & Hr & E).

(** The same when that step is an [attempt]. *)
Tactic Notation "step_attempt" hyp(E) ident(s) simple_intropattern(r) ident(Hr) :=
  let x := fresh "x" in let Hx := fresh "Hx" in
  step E s x Hx; apply attempt_inv in Hx; destruct Hx as (r & Hr & ->).

(** What every procedure of a sequence preserves, the sequence preserves, whether it
    fails or not. *)
Definition preserves {S A} (P : S → Prop) (m : proc S A) : Prop := ∀ s, P s → P (m s).1.

Lemma preserves_bind {S A B} (P : S → Prop) (m : proc S A) (f : A → proc S B) :
  preserves P m → (∀ a, preserves P (f a)) → preserves P (m ≫= f).
Proof.
  intros Hm Hf s Hs. specialize (Hm s Hs). unfold mbind, proc_bind.
  destruct (m s) as [s1 [a|e]]; [by apply Hf|done].
Qed.
Lemma preserves_ret {S A} (P : S → Prop) (a : A) : preserves P (mret a : proc S A).
Proof. intros s Hs. exact Hs. Qed.
Lemma preserves_get {S} (P : S → Prop) : preserves P get.
Proof. intros s Hs. exact Hs. Qed.
Lemma preserves_gets {S A} (P : S → Prop) (f : S → A) : preserves P (gets f).
Proof. intros s Hs. exact Hs. Qed.
Lemma preserves_throw {S A} (P : S → Prop) e : preserves P (throw e : proc S A).
Proof. intros s Hs. exact Hs. Qed.
Lemma preserves_lift {S A} (P : S → Prop) (r : result A) : preserves P (lift r).
Proof. intros s Hs. exact Hs. Qed.
Lemma preserves_modify {S} (P : S → Prop) (f : S → S) : (∀ s, P s → P (f s)) → preserves P (modify f).
Proof. intros Hf s. apply Hf. Qed.
Lemma preserves_attempt {S A} (P : S → Prop) (m : proc S A) : preserves P m → preserves P (attempt m).
Proof. intros Hm s Hs. specialize (Hm s Hs). unfold attempt. by destruct (m s). Qed.
Lemma preserves_when {S} (P : S → Prop) b (m : proc S unit) : preserves P m → preserves P (when b m).
Proof. intros Hm. destruct b; [exact Hm|apply preserves_ret]. Qed.
Lemma preserves_fold {S A B} (P : S → Prop) (step : B → A → proc S B) b l :
  (∀ b x, x ∈ l → preserves P (step b x)) → preserves P (proc_fold step b l).
Proof.
  revert b. induction l as [|x l IH]; intros b Hl; [apply preserves_ret|].
  apply preserves_bind; [apply Hl; left|]. intros b'. apply IH. intros. apply Hl. by right.
Qed.

Lemma proc_iter_fmap {S A B} (step : B → proc S unit) (f : A → B) l s :
  proc_iter step (f <$> l) s = proc_iter (λ x, step (f x)) l s.
Proof.
  unfold proc_iter. revert s. induction l as [|x l IH]; intros s; [done|].
  cbn [fmap list_fmap proc_fold]. unfold mbind, proc_bind.
  destruct (step (f x) s) as [? [[]|]]; [apply IH|done].
Qed.

#[export] Hint Resolve preserves_ret preserves_get preserves_gets preserves_throw preserves_lift
  preserves_attempt preserves_when : node.

(** [proc_as E s x Hx]: the first step of the successful run [E] went to [s] with [x]. *)
Tactic Notation "proc_as" hyp(E) ident(s) simple_intropattern(x) ident(Hx) :=
  apply proc_bind_ok in E; destruct E as (s & x & Hx & E).

(** ** Machine integers *)
Module Int.
(** Reduction to the range of a Go [int64] (and [int] on 64-bit hosts). *)
Definition wrap64 (z : Z) : Z := (z + 2 ^ 63) mod 2 ^ 64 - 2 ^ 63.
(** Reduction to the range of a Go [uint64]. *)
Definition uwrap64 (z : Z) : Z := z mod 2 ^ 64.

Definition max_int64 : Z := 2 ^ 63 - 1.
Definition in_int64 (z : Z) : Prop := (- 2 ^ 63 ≤ z < 2 ^ 63)%Z.
Definition in_uint64 (z : Z) : Prop := (0 ≤ z < 2 ^ 64)%Z.

Lemma wrap64_id z : in_int64 z → wrap64 z = z.
Proof. unfold in_int64, wrap64. intros. rewrite Z.mod_small; lia. Qed.
Lemma uwrap64_id z : in_uint64 z → uwrap64 z = z.
Proof. unfold in_uint64, uwrap64. intros. rewrite Z.mod_small; lia. Qed.
Lemma wrap64_range z : in_int64 (wrap64 z).
Proof. unfold in_int64, wrap64. pose proof (Z.mod_pos_bound (z + 2^63) (2^64)). lia. Qed.
Lemma uwrap64_range z : in_uint64 (uwrap64 z).
Proof. unfold in_uint64, uwrap64. apply Z.mod_pos_bound. lia. Qed.
Lemma wrap64_add_l a b : wrap64 (wrap64 a + b) = wrap64 (a + b).
Proof.
  unfold wrap64. f_equal. rewrite (Z.mod_eq (a + 2 ^ 63)) by lia.
  set (q := ((a + 2 ^ 63) / 2 ^ 64)%Z).
  replace (a + 2 ^ 63 - 2 ^ 64 * q - 2 ^ 63 + b + 2 ^ 63)%Z with (a + b + 2 ^ 63 + (- q) * 2 ^ 64)%Z by lia.
  by rewrite Z.mod_add.
Qed.
Lemma wrap64_add_r a b : wrap64 (a + wrap64 b) = wrap64 (a + b).
Proof. rewrite Z.add_comm, wrap64_add_l. f_equal. lia. Qed.
Lemma wrap64_idem a : wrap64 (wrap64 a) = wrap64 a.
Proof. pose proof (wrap64_add_l a 0) as E. by rewrite !Z.add_0_r in E. Qed.
(** [int64(uint64(v))] gives [v] back. *)
Lemma wrap64_uwrap64 z : wrap64 (uwrap64 z) = wrap64 z.
Proof.
  unfold wrap64, uwrap64. f_equal.
  rewrite Z.add_mod_idemp_l by lia. done.
Qed.
End Int.

#[export] Hint Resolve Int.wrap64_range Int.uwrap64_range : node.
#[export] Hint Rewrite Int.wrap64_id Int.uwrap64_id using (assumption) : node.

(** ** Lists *)
Lemma forallb_elem_of {A} (p : A → bool) l :
  forallb p l = true ↔ ∀ x, x ∈ l → p x = true.
Proof.
  rewrite forallb_forall. setoid_rewrite <- list_elem_of_In. done.
Qed.

Lemma existsb_elem_of {A} (p : A → bool) l :
  existsb p l = true ↔ ∃ x, x ∈ l ∧ p x = true.
Proof.
  rewrite existsb_exists. setoid_rewrite <- list_elem_of_In. done.
Qed.

Fixpoint sum_Z (l : list Z) : Z :=
  match l with [] => 0 | z :: l' => z + sum_Z l' end%Z.

Lemma sum_Z_app l1 l2 : sum_Z (l1 ++ l2) = (sum_Z l1 + sum_Z l2)%Z.
Proof. induction l1; cbn; lia. Qed.

Lemma sum_Z_perm l1 l2 : l1 ≡ₚ l2 → sum_Z l1 = sum_Z l2.
Proof. induction 1; cbn; lia. Qed.

#[export] Instance sum_Z_proper : Proper ((≡ₚ) ==> (=)) sum_Z.
Proof. intros l1 l2. apply sum_Z_perm. Qed.

Lemma sum_Z_nonneg l : (∀ z, z ∈ l → (0 ≤ z)%Z) → (0 ≤ sum_Z l)%Z.
Proof.
  induction l as [|z l IH]; cbn; intros H; [lia|].
  specialize (H z ltac:(left)) as Hz.
  assert (0 ≤ sum_Z l)%Z by (apply IH; intros; apply H; by right). lia.
Qed.

#[export] Hint Rewrite sum_Z_app : node.

(** Pairs of lists that are related elementwise stay related. *)
Lemma Forall2_fmap_eq {A B C} (f : A → C) (g : B → C) l1 l2 :
  Forall2 (λ x y, f x = g y) l1 l2 ↔ f <$> l1 = g <$> l2.
Proof.
  split.
  - induction 1; cbn; congruence.
  - revert l2. induction l1 as [|x l1 IH]; intros [|y l2]; cbn; try done.
    intros [= H1 H2]. constructor; auto.
Qed.

Lemma NoDup_fmap_filter {A B} (f : A → B) (P : A → Prop) `{∀ x, Decision (P x)} l :
  NoDup (f <$> l) → NoDup (f <$> filter P l).
Proof.
  induction l as [|x l IH]; [done|]. rewrite fmap_cons, filter_cons. intros [Hx Hl]%NoDup_cons.
  case_decide; [|by apply IH]. rewrite fmap_cons. constructor; [|by apply IH].
  intros (y & Hy & Hin)%list_elem_of_fmap. apply Hx. apply list_elem_of_filter in Hin as [_ Hin].
  apply list_elem_of_fmap. eauto.
Qed.

Lemma StronglySorted_impl {A} (R S : A → A → Prop) l :
  (∀ x y, R x y → S x y) → StronglySorted R l → StronglySorted S l.
Proof.
  intros HRS. induction 1 as [|x l _ IH F]; constructor; [done|].
  eapply Forall_impl; [exact F|]. auto.
Qed.

Lemma filter_true {A} (P : A → Prop) `{∀ x, Decision (P x)} (l : list A) : (∀ x, x ∈ l → P x) → filter P l = l.
Proof.
  induction l as [|x l IH]; [done|]. intros Hl. rewrite filter_cons, decide_True by (apply Hl; left).
  f_equal. apply IH. intros. apply Hl. by right.
Qed.

Lemma filter_false {A} (P : A → Prop) `{∀ x, Decision (P x)} (l : list A) : (∀ x, x ∈ l → ¬ P x) → filter P l = [].
Proof.
  induction l as [|x l IH]; [done|]. intros Hl. rewrite filter_cons, decide_False by (apply Hl; left).
  apply IH. intros. apply Hl. by right.
Qed.
