(* ===== verification/GoStr.v ===== *)
(** * Go strings: the functions of packages [strings], [unicode/utf8],
    [strconv] and [encoding/binary] that the agent uses.

    A Go string is a sequence of bytes: here a [string], whose characters are
    8-bit.  Functions that Go defines on runes decode UTF-8 first. *)
From S2P Require Import Prelude.

Definition byte_of (c : ascii) : Z := Z.of_N (N_of_ascii c).
Definition chr (z : Z) : ascii := ascii_of_N (Z.to_N z).
Definition slen (s : string) : Z := Z.of_nat (String.length s).

Lemma byte_of_range c : (0 ≤ byte_of c < 256)%Z.
Proof. unfold byte_of. pose proof (N_ascii_bounded c). lia. Qed.

Lemma chr_byte_of c : chr (byte_of c) = c.
Proof. unfold chr, byte_of. rewrite N2Z.id. apply ascii_N_embedding. Qed.

Lemma byte_of_chr z : (0 ≤ z < 256)%Z → byte_of (chr z) = z.
Proof. intros. unfold chr, byte_of. rewrite N_ascii_embedding by lia. lia. Qed.

Lemma byte_of_inj c1 c2 : byte_of c1 = byte_of c2 → c1 = c2.
Proof. intros H. rewrite <-(chr_byte_of c1), <-(chr_byte_of c2). by rewrite H. Qed.

(** ** Concatenation *)
Lemma app_nil_r_str (s : string) : s +:+ "" = s.
Proof. induction s; cbn; congruence. Qed.
Lemma app_assoc_str (a b c : string) : a +:+ (b +:+ c) = (a +:+ b) +:+ c.
Proof. induction a; cbn; congruence. Qed.
Lemma slen_app a b : slen (a +:+ b) = (slen a + slen b)%Z.
Proof. unfold slen. induction a as [|x a IH]; cbn; [done|]. cbn in IH. lia. Qed.
Lemma length_app_str a b : String.length (a +:+ b) = (String.length a + String.length b)%nat.
Proof. induction a; cbn; lia. Qed.
Lemma slen_nonneg s : (0 ≤ slen s)%Z.
Proof. unfold slen. lia. Qed.
Lemma app_inj_l (a b c : string) : a +:+ b = a +:+ c → b = c.
Proof. induction a; cbn; [done|]. intros [= H]. auto. Qed.
Lemma slen_nil s : slen s = 0%Z → s = "".
Proof. destruct s; unfold slen; cbn; [done|lia]. Qed.

#[export] Hint Rewrite app_nil_r_str slen_app : node.

(** ** Prefixes, suffixes and separators *)

(** [strings.CutPrefix] *)
Fixpoint strip_prefix (p s : string) : option string :=
  match p, s with
  | EmptyString, _ => Some s
  | String a p', String b s' => if Ascii.eqb a b then strip_prefix p' s' else None
  | _, _ => None
  end.
(** [strings.HasPrefix] *)
Definition has_prefix (s p : string) : bool :=
  match strip_prefix p s with Some _ => true | None => false end.
(** [strings.TrimPrefix] *)
Definition trim_prefix (s p : string) : string :=
  default s (strip_prefix p s).

Fixpoint srev (s : string) : string :=
  match s with EmptyString => "" | String c s' => srev s' +:+ String c "" end.
(** [strings.CutSuffix] *)
Definition strip_suffix (x s : string) : option string :=
  srev <$> strip_prefix (srev x) (srev s).
Definition has_suffix (s x : string) : bool :=
  match strip_suffix x s with Some _ => true | None => false end.
(** [strings.TrimSuffix] *)
Definition trim_suffix (s x : string) : string := default s (strip_suffix x s).

(** [strings.Cut]: around the first occurrence of the separator. *)
Fixpoint cut (s sep : string) : option (string * string) :=
  match strip_prefix sep s with
  | Some rest => Some ("", rest)
  | None =>
      match s with
      | EmptyString => None
      | String c s' =>
          match cut s' sep with
          | Some (l, r) => Some (String c l, r)
          | None => None
          end
      end
  end.
(** [strings.Contains] *)
Definition contains (s sub : string) : bool :=
  match cut s sub with Some _ => true | None => false end.

(** Around the last occurrence: what the code computes with [strings.LastIndex]. *)
Fixpoint cut_last (s sep : string) : option (string * string) :=
  match s with
  | EmptyString => match sep with EmptyString => Some ("", "") | _ => None end
  | String c s' =>
      match cut_last s' sep with
      | Some (l, r) => Some (String c l, r)
      | None => match strip_prefix sep s with Some rest => Some ("", rest) | None => None end
      end
  end.

(** [strings.Split] on a one-byte separator. *)
Fixpoint split_byte (sep : ascii) (s : string) : list string :=
  match s with
  | EmptyString => [""]
  | String c s' =>
      if Ascii.eqb c sep then "" :: split_byte sep s'
      else match split_byte sep s' with
           | [] => [String c ""]
           | w :: ws => String c w :: ws
           end
  end.
(** [strings.ReplaceAll] for a non-empty [old]: the rounds are at most the bytes. *)
Fixpoint replace_all_fuel (fuel : nat) (s old new : string) : string :=
  match fuel with
  | O => s
  | S n => match cut s old with
           | Some (l, r) => l +:+ new +:+ replace_all_fuel n r old new
           | None => s
           end
  end.
Definition replace_all (s old new : string) : string :=
  replace_all_fuel (S (String.length s)) s old new.

(** [strings.Join] *)
Definition join (sep : string) (l : list string) : string :=
  match l with
  | [] => ""
  | x :: rest => foldl (λ acc y, acc +:+ sep +:+ y) x rest
  end.
(** [strings.ContainsAny], for a set of one-byte characters. *)
Fixpoint contains_any (s chars : string) : bool :=
  match s with
  | EmptyString => false
  | String c s' => existsb (Ascii.eqb c) (String.list_ascii_of_string chars) || contains_any s' chars
  end.
(** [strings.Count] of a one-byte substring *)
Fixpoint count_byte (c : ascii) (s : string) : Z :=
  match s with
  | EmptyString => 0
  | String b s' => (if Ascii.eqb b c then 1 else 0) + count_byte c s'
  end%Z.

Lemma strip_prefix_spec p s r : strip_prefix p s = Some r ↔ s = p +:+ r.
Proof.
  revert s. induction p as [|a p IH]; intros [|b s]; cbn; try naive_solver.
  destruct (Ascii.eqb_spec a b) as [->|Hne]; [rewrite IH|]; naive_solver.
Qed.

Lemma strip_prefix_app p r : strip_prefix p (p +:+ r) = Some r.
Proof. by apply strip_prefix_spec. Qed.

Lemma has_prefix_spec s p : has_prefix s p = true ↔ ∃ r, s = p +:+ r.
Proof.
  unfold has_prefix. destruct (strip_prefix p s) as [r|] eqn:E.
  - apply strip_prefix_spec in E. naive_solver.
  - split; [done|]. intros [r ->]. by rewrite strip_prefix_app in E.
Qed.

Lemma trim_prefix_app p r : trim_prefix (p +:+ r) p = r.
Proof. unfold trim_prefix. by rewrite strip_prefix_app. Qed.

Lemma srev_app a b : srev (a +:+ b) = srev b +:+ srev a.
Proof.
  induction a as [|c a IH]; cbn; [by rewrite app_nil_r_str|].
  by rewrite IH, app_assoc_str.
Qed.
Lemma srev_involutive s : srev (srev s) = s.
Proof. induction s as [|c s IH]; cbn; [done|]. by rewrite srev_app, IH. Qed.

Lemma strip_suffix_spec x s r : strip_suffix x s = Some r ↔ s = r +:+ x.
Proof.
  unfold strip_suffix. split.
  - destruct (strip_prefix _ _) as [r'|] eqn:E; cbn; intros [= <-].
    apply strip_prefix_spec in E.
    rewrite <-(srev_involutive s), E, srev_app. by rewrite srev_involutive.
  - intros ->. rewrite srev_app, strip_prefix_app. cbn. by rewrite srev_involutive.
Qed.

Lemma trim_suffix_app s x : trim_suffix (s +:+ x) x = s.
Proof. unfold trim_suffix. by rewrite (proj2 (strip_suffix_spec x (s +:+ x) s)). Qed.

Lemma cut_unfold s sep :
  cut s sep = match strip_prefix sep s with
              | Some rest => Some ("", rest)
              | None => match s with
                        | EmptyString => None
                        | String c s' => match cut s' sep with
                                         | Some (l, r) => Some (String c l, r)
                                         | None => None end end end.
Proof. by destruct s. Qed.

(** [cut] splits the string. *)
Lemma cut_some s sep l r : cut s sep = Some (l, r) → s = l +:+ sep +:+ r.
Proof.
  revert l r. induction s as [|c s IH]; intros l r; rewrite cut_unfold;
    destruct (strip_prefix sep _) as [rest|] eqn:E.
  1,3: intros [= <- <-]; by apply strip_prefix_spec in E.
  - done.
  - destruct (cut s sep) as [[l' r']|]; [|done]. intros [= <- <-].
    cbn. f_equal. by apply IH.
Qed.

(** A left part in which the separator does not start, not even across the
    boundary with the separator that follows, is found by [cut]. *)
Lemma cut_app_first l sep r :
  (∀ a b, l = a +:+ b → b ≠ "" → strip_prefix sep (b +:+ sep +:+ r) = None) →
  cut (l +:+ sep +:+ r) sep = Some (l, r).
Proof.
  induction l as [|c l IH]; intros H.
  - rewrite cut_unfold. cbn [String.append]. by rewrite strip_prefix_app.
  - rewrite cut_unfold, (H "" (String c l)) by done. cbn [String.append].
    rewrite IH; [done|]. intros a b ->. apply (H (String c a)). done.
Qed.

Lemma cut_none s sep :
  cut s sep = None ↔ ∀ l r, s ≠ l +:+ sep +:+ r.
Proof.
  induction s as [|c s IH]; rewrite cut_unfold.
  - destruct (strip_prefix sep "") as [r|] eqn:E.
    + apply strip_prefix_spec in E. split; [done|]. intros H. by destruct (H "" r).
    + split; [|done]. intros _ l r Heq. symmetry in Heq.
      destruct l; [|done]. cbn in Heq. rewrite <-Heq, strip_prefix_app in E. done.
  - destruct (strip_prefix sep (String c s)) as [r|] eqn:E.
    + apply strip_prefix_spec in E. split; [done|]. intros H. by destruct (H "" r).
    + destruct (cut s sep) as [[l' r']|] eqn:E'.
      * split; [done|]. intros H. apply cut_some in E'. destruct (H (String c l') r').
        by rewrite E'.
      * split; [|done]. intros _ [|d l] r.
        -- cbn. intros Heq. by rewrite Heq, strip_prefix_app in E.
        -- cbn. intros [= -> Heq]. by eapply IH.
Qed.

(** Every byte of the string satisfies the predicate. *)
Fixpoint all_bytes (p : ascii → bool) (s : string) : bool :=
  match s with EmptyString => true | String c s' => p c && all_bytes p s' end.

Lemma all_bytes_app p a b : all_bytes p (a +:+ b) = all_bytes p a && all_bytes p b.
Proof. induction a; cbn; [done|]. by rewrite IHa, andb_assoc. Qed.

Lemma all_bytes_impl (p q : ascii → bool) s :
  (∀ c, p c = true → q c = true) → all_bytes p s = true → all_bytes q s = true.
Proof.
  intros Hpq. induction s as [|c s IH]; [done|]. cbn [all_bytes].
  rewrite !andb_true_iff. intros [??]. auto.
Qed.

(** The part before a separator that does not occur in it is determined. *)
Lemma sep_app_inj (c : ascii) a b x y :
  all_bytes (λ d, negb (Ascii.eqb d c)) a = true → all_bytes (λ d, negb (Ascii.eqb d c)) b = true →
  a +:+ String c x = b +:+ String c y → a = b ∧ x = y.
Proof.
  revert b. induction a as [|d a IH]; intros [|d' b]; cbn; intros Ha Hb E.
  - by injection E.
  - injection E as <- _. by rewrite Ascii.eqb_refl in Hb.
  - injection E as -> _. by rewrite Ascii.eqb_refl in Ha.
  - injection E as -> E. apply andb_true_iff in Ha as [_ Ha], Hb as [_ Hb].
    by destruct (IH b Ha Hb E) as [-> ->].
Qed.

Lemma all_bytes_split p sep s :
  forallb (all_bytes p) (split_byte sep s) = true →
  all_bytes (λ c, p c || Ascii.eqb c sep) s = true.
Proof.
  induction s as [|c s IH]; [done|]. cbn [split_byte all_bytes].
  destruct (Ascii.eqb c sep); [rewrite orb_true_r; exact IH|].
  destruct (split_byte sep s) as [|w ws]; cbn [forallb all_bytes].
  - rewrite orb_false_r, !andb_true_iff. intros [[-> _] _]. split; [done|by apply IH].
  - rewrite orb_false_r, !andb_true_iff. intros [[-> ?] ?]. split; [done|]. apply IH. cbn. by apply andb_true_iff.
Qed.

Lemma split_byte_nonempty sep s : split_byte sep s ≠ [].
Proof. destruct s as [|c s]; cbn; [done|]. repeat case_match; done. Qed.

(** A piece of a split never holds the separator. *)
Lemma split_byte_no_sep sep s w :
  w ∈ split_byte sep s → all_bytes (λ c, negb (Ascii.eqb c sep)) w = true.
Proof.
  revert w. induction s as [|c s IH]; cbn; intros w.
  - rewrite list_elem_of_singleton. by intros ->.
  - destruct (Ascii.eqb_spec c sep) as [->|Hne].
    + rewrite elem_of_cons. intros [->|H]; [done|auto].
    + destruct (split_byte sep s) as [|w0 ws] eqn:E; [by destruct (split_byte_nonempty sep s)|].
      rewrite elem_of_cons. intros [->|H].
      * cbn. apply Ascii.eqb_neq in Hne. rewrite Hne. cbn. apply IH. by left.
      * apply IH. by right.
Qed.

(** ** UTF-8 *)

(** A decoded rune and the bytes it came from; Go yields [RuneError] (U+FFFD)
    for one byte of invalid input. *)
Definition rune : Type := Z * string.
Definition rune_error : Z := 65533.

Definition in_range (lo hi z : Z) : bool := (lo <=? z)%Z && (z <=? hi)%Z.

Definition cont_range (lead : Z) : Z * Z :=
  (if lead =? 224 then (160, 191)
   else if lead =? 237 then (128, 159)
   else if lead =? 240 then (144, 191)
   else if lead =? 244 then (128, 143)
   else (128, 191))%Z.

(** [utf8.DecodeRuneInString], repeatedly: what [for _, r := range s] visits. *)
Fixpoint runes (s : string) : list rune :=
  match s with
  | EmptyString => []
  | String c0 s1 =>
      let b0 := byte_of c0 in
      let bad := (rune_error, String c0 "") in
      let '(lo, hi) := cont_range b0 in
      if (b0 <? 128)%Z then (b0, String c0 "") :: runes s1
      else match s1 with
      | EmptyString => bad :: runes s1
      | String c1 s2 =>
          let b1 := byte_of c1 in
          if negb (in_range lo hi b1) then bad :: runes s1
          else if in_range 194 223 b0 then
            ((b0 - 192) * 64 + (b1 - 128), String c0 (String c1 "")) :: runes s2
          else match s2 with
          | EmptyString => bad :: runes s1
          | String c2 s3 =>
              let b2 := byte_of c2 in
              if negb (in_range 128 191 b2) then bad :: runes s1
              else if in_range 224 239 b0 then
                ((b0 - 224) * 4096 + (b1 - 128) * 64 + (b2 - 128),
                  String c0 (String c1 (String c2 ""))) :: runes s3
              else match s3 with
              | EmptyString => bad :: runes s1
              | String c3 s4 =>
                  let b3 := byte_of c3 in
                  if negb (in_range 128 191 b3) then bad :: runes s1
                  else if in_range 240 244 b0 then
                    ((b0 - 240) * 262144 + (b1 - 128) * 4096 + (b2 - 128) * 64 + (b3 - 128),
                      String c0 (String c1 (String c2 (String c3 "")))) :: runes s4
                  else bad :: runes s1
              end
          end
      end
  end%Z.

(** [utf8.EncodeRune] *)
Definition encode_rune (r : Z) : string :=
  (if r <? 128 then String (chr r) ""
   else if r <? 2048 then String (chr (192 + r / 64)) (String (chr (128 + r mod 64)) "")
   else if r <? 65536 then
     String (chr (224 + r / 4096)) (String (chr (128 + (r / 64) mod 64)) (String (chr (128 + r mod 64)) ""))
   else String (chr (240 + r / 262144)) (String (chr (128 + (r / 4096) mod 64))
          (String (chr (128 + (r / 64) mod 64)) (String (chr (128 + r mod 64)) ""))))%Z.

Definition concat_bytes (l : list rune) : string := foldr (λ r acc, snd r +:+ acc) "" l.

(** What [encoding/json] keeps of a string: every invalid byte becomes U+FFFD. *)
Definition utf8_clean (s : string) : string :=
  concat_bytes ((λ r, (fst r, if Z.eqb (fst r) rune_error then encode_rune rune_error else snd r)) <$> runes s).

#[global] Arguments utf8_clean : simpl never.

Definition is_ascii (s : string) : bool := all_bytes (λ c, byte_of c <? 128)%Z s.

Lemma runes_ascii s :
  is_ascii s = true → runes s = (λ c, (byte_of c, String c "")) <$> String.list_ascii_of_string s.
Proof.
  unfold is_ascii. induction s as [|c s IH]; [done|]. cbn [all_bytes]. intros [Hc Hs]%andb_true_iff.
  cbn [runes String.list_ascii_of_string fmap list_fmap]. rewrite Hc.
  destruct (cont_range _). by rewrite IH.
Qed.

Lemma utf8_clean_ascii s : is_ascii s = true → utf8_clean s = s.
Proof.
  intros Ha. unfold utf8_clean. rewrite runes_ascii by done. revert Ha. unfold is_ascii.
  induction s as [|c s IH]; [done|]. cbn [all_bytes]. intros [Hc Hs]%andb_true_iff.
  specialize (IH Hs). unfold concat_bytes in *. cbn [String.list_ascii_of_string fmap list_fmap foldr].
  rewrite IH. cbn [fst snd].
  destruct (Z.eqb_spec (byte_of c) rune_error) as [E|]; [|done].
  unfold rune_error in E. apply Z.ltb_lt in Hc. lia.
Qed.

(** Cleaned strings stay: a decoded rune is decoded again from its own bytes. *)
Definition solid (r : rune) : Prop := ∀ t, runes (r.2 +:+ t) = r :: runes t.

Lemma solid_error : solid (rune_error, encode_rune rune_error).
Proof.
  assert (encode_rune rune_error = String "239" (String "191" (String "189" ""))) as -> by (vm_compute; done).
  intros t. cbn [snd String.append runes].
  change (cont_range (byte_of "239")) with (128, 191)%Z. cbn [fst snd].
  assert ((byte_of "239" <? 128)%Z = false) as -> by (vm_compute; done).
  assert (in_range 128 191 (byte_of "191") = true) as -> by (vm_compute; done).
  assert (in_range 194 223 (byte_of "239") = false) as -> by (vm_compute; done).
  assert (in_range 128 191 (byte_of "189") = true) as -> by (vm_compute; done).
  assert (in_range 224 239 (byte_of "239") = true) as -> by (vm_compute; done).
  cbn [negb]. repeat f_equal.
Qed.

Lemma runes_solid n s :
  (String.length s ≤ n)%nat → Forall (λ r, solid r ∨ r.1 = rune_error) (runes s).
Proof.
  revert s. induction n as [|n IH]; intros [|c0 s1] Hn; cbn [runes]; try (constructor; fail).
  { cbn in Hn. lia. }
  cbn [String.length] in Hn.
  assert (Forall (λ r, solid r ∨ r.1 = rune_error) ((rune_error, String c0 "") :: runes s1)) as Hbad.
  { constructor; [by right|]. apply IH. lia. }
  destruct (cont_range (byte_of c0)) as [lo hi] eqn:Hc.
  destruct (byte_of c0 <? 128)%Z eqn:E0.
  { constructor; [left|apply IH; lia]. intros t. cbn. by rewrite Hc, E0. }
  destruct s1 as [|c1 s2]; [done|].
  destruct (in_range lo hi (byte_of c1)) eqn:E1; cbn [negb]; [|done].
  destruct (in_range 194 223 (byte_of c0)) eqn:E2.
  { cbn [String.length] in Hn. constructor; [left|apply IH; lia]. intros t. cbn.
    by rewrite Hc, E0, E1, E2. }
  destruct s2 as [|c2 s3]; [done|].
  destruct (in_range 128 191 (byte_of c2)) eqn:E3; cbn [negb]; [|done].
  destruct (in_range 224 239 (byte_of c0)) eqn:E4.
  { cbn [String.length] in Hn. constructor; [left|apply IH; lia]. intros t. cbn.
    by rewrite Hc, E0, E1, E2, E3, E4. }
  destruct s3 as [|c3 s4]; [done|].
  destruct (in_range 128 191 (byte_of c3)) eqn:E5; cbn [negb]; [|done].
  destruct (in_range 240 244 (byte_of c0)) eqn:E6; [|done].
  cbn [String.length] in Hn. constructor; [left|apply IH; lia]. intros t. cbn.
  by rewrite Hc, E0, E1, E2, E3, E4, E5, E6.
Qed.

Definition clean_rune (r : rune) : rune :=
  (fst r, if Z.eqb (fst r) rune_error then encode_rune rune_error else snd r).

Lemma runes_concat l : Forall solid l → runes (concat_bytes l) = l.
Proof.
  induction 1 as [|r l Hr _ IH]; [done|]. unfold concat_bytes in *. cbn [foldr]. by rewrite Hr, IH.
Qed.

Lemma runes_clean s : runes (utf8_clean s) = clean_rune <$> runes s.
Proof.
  unfold utf8_clean. apply runes_concat. apply Forall_fmap.
  eapply Forall_impl; [by apply (runes_solid (String.length s))|].
  intros [r b] Hr. change (solid (clean_rune (r, b))). unfold clean_rune. cbn [fst snd] in *.
  destruct (Z.eqb_spec r rune_error) as [->|Hne]; [apply solid_error|].
  destruct Hr as [Hr|Hr]; [exact Hr|by destruct Hne].
Qed.

Lemma utf8_clean_idem s : utf8_clean (utf8_clean s) = utf8_clean s.
Proof.
  unfold utf8_clean at 1. rewrite runes_clean. unfold utf8_clean. f_equal.
  rewrite <-list_fmap_compose. apply list_fmap_ext. intros i [r b] _. unfold clean_rune. cbn.
  by destruct (Z.eqb_spec r rune_error).
Qed.

(** [unicode.IsSpace] *)
Definition is_space (r : Z) : bool :=
  (in_range 9 13 r || Z.eqb r 32 || Z.eqb r 133 || Z.eqb r 160 || Z.eqb r 5760 ||
   in_range 8192 8202 r || Z.eqb r 8232 || Z.eqb r 8233 || Z.eqb r 8239 || Z.eqb r 8287 || Z.eqb r 12288)%Z.
(** [unicode.IsControl] *)
Definition is_control (r : Z) : bool := in_range 0 31 r || in_range 127 159 r.

Fixpoint drop_while {A} (p : A → bool) (l : list A) : list A :=
  match l with [] => [] | x :: l' => if p x then drop_while p l' else l end.
Fixpoint take_while {A} (p : A → bool) (l : list A) : list A :=
  match l with [] => [] | x :: l' => if p x then x :: take_while p l' else [] end.
Definition trim_right_by {A} (p : A → bool) (l : list A) : list A :=
  reverse (drop_while p (reverse l)).

(** [strings.TrimSpace] *)
Definition trim_space (s : string) : string :=
  concat_bytes (trim_right_by (λ r, is_space (fst r)) (drop_while (λ r, is_space (fst r)) (runes s))).

(** [strings.Fields] *)
Fixpoint fields_aux (cur : string) (l : list rune) : list string :=
  match l with
  | [] => if bool_decide (cur = "") then [] else [cur]
  | r :: l' =>
      if is_space (fst r) then (if bool_decide (cur = "") then [] else [cur]) ++ fields_aux "" l'
      else fields_aux (cur +:+ snd r) l'
  end.
Definition fields (s : string) : list string := fields_aux "" (runes s).

(** [strings.Trim] with a cutset of one-byte characters *)
Definition trim_set (s cutset : string) : string :=
  let p := λ c, existsb (Ascii.eqb c) (String.list_ascii_of_string cutset) in
  String.string_of_list_ascii (trim_right_by p (drop_while p (String.list_ascii_of_string s))).

(** Case mapping beyond ASCII is the Unicode tables of the Go runtime: a parameter. *)
Class UnicodeCase := { lower_rune : Z → Z; upper_rune : Z → Z }.

Definition ascii_lower (r : Z) : Z := if in_range 65 90 r then (r + 32)%Z else r.
Definition ascii_upper (r : Z) : Z := if in_range 97 122 r then (r - 32)%Z else r.

(** [strings.Map] for a mapping that never drops a rune *)
Definition map_runes (f : Z → Z) (s : string) : string :=
  foldr (λ r acc, encode_rune (f (fst r)) +:+ acc) "" (runes s).
(** [strings.ToLower] and [strings.ToUpper] *)
Definition to_lower `{UnicodeCase} (s : string) : string :=
  map_runes (λ r, if (r <? 128)%Z then ascii_lower r else lower_rune r) s.
Definition to_upper `{UnicodeCase} (s : string) : string :=
  map_runes (λ r, if (r <? 128)%Z then ascii_upper r else upper_rune r) s.

(** [strings.EqualFold] against an ASCII constant: the only non-ASCII runes in
    the folding orbit of an ASCII letter are U+017F (long s) and U+212A (kelvin). *)
Definition fold_rune (r : Z) : Z :=
  if Z.eqb r 383 then 115%Z else if Z.eqb r 8490 then 107%Z else ascii_lower r.
Definition equal_fold (s constant : string) : bool :=
  bool_decide (fold_rune <$> (runes s).*1 = fold_rune <$> (runes constant).*1).

(** ** [strconv] *)
Definition is_digit (c : ascii) : bool := in_range 48 57 (byte_of c).

Fixpoint digits_value (acc : Z) (s : string) : Z :=
  match s with
  | EmptyString => acc
  | String c s' => digits_value (acc * 10 + (byte_of c - 48)) s'
  end%Z.

(** [strconv.Atoi]: an optional sign and decimal digits, in the range of [int]. *)
Definition atoi (s : string) : option Z :=
  let '(neg, body) := match s with
                      | String "-" t => (true, t)
                      | String "+" t => (false, t)
                      | _ => (false, s)
                      end in
  if negb (bool_decide (body = "")) && all_bytes is_digit body then
    let v := digits_value 0 body in
    let v := if neg then (- v)%Z else v in
    if (- 2 ^ 63 <=? v)%Z && (v <? 2 ^ 63)%Z then Some v else None
  else None.

(** The number [strconv.Atoi] returns beside its error: 0, or the bound exceeded. *)
Definition atoi_value (s : string) : Z :=
  let '(neg, body) := match s with
                      | String "-" t => (true, t)
                      | String "+" t => (false, t)
                      | _ => (false, s)
                      end in
  if negb (bool_decide (body = "")) && all_bytes is_digit body then
    let v := digits_value 0 body in
    Z.max (- 2 ^ 63) (Z.min (2 ^ 63 - 1) (if (neg : bool) then (- v)%Z else v))
  else 0%Z.

(** [strconv.Itoa], [strconv.FormatInt(_, 10)], [%d] *)
Definition itoa (z : Z) : string := pretty z.

(** ** [encoding/binary]: 8-byte big-endian integers *)
Fixpoint be_bytes (n : nat) (v : Z) : string :=
  match n with
  | O => ""
  | S n' => String (chr ((v / 256 ^ Z.of_nat n') mod 256)) (be_bytes n' v)
  end%Z.
(** [binary.BigEndian.PutUint64] *)
Definition put_uint64 (v : Z) : string := be_bytes 8 v.
Fixpoint be_value (acc : Z) (s : string) : Z :=
  match s with
  | EmptyString => acc
  | String c s' => be_value (acc * 256 + byte_of c) s'
  end%Z.
(** [binary.BigEndian.Uint64] *)
Definition uint64_of (s : string) : Z := be_value 0 s.

#[global] Arguments put_uint64 : simpl never.
#[global] Arguments uint64_of : simpl never.
#[global] Arguments itoa : simpl never.

(** Byte-wise lexicographic order, the order of [bytes.Compare]. *)
Fixpoint str_ltb (a b : string) : bool :=
  match a, b with
  | EmptyString, String _ _ => true
  | String x a', String y b' =>
      if (byte_of x <? byte_of y)%Z then true
      else if (byte_of x =? byte_of y)%Z then str_ltb a' b' else false
  | _, _ => false
  end.

Lemma be_bytes_length n v : String.length (be_bytes n v) = n.
Proof. induction n as [|n IH]; cbn; congruence. Qed.

Lemma be_value_app acc a b : be_value acc (a +:+ b) = be_value (be_value acc a) b.
Proof. revert acc. induction a; intros; cbn; auto. Qed.

Lemma be_value_bytes n v acc :
  be_value acc (be_bytes n v) = (acc * 256 ^ Z.of_nat n + v mod 256 ^ Z.of_nat n)%Z.
Proof.
  revert acc. induction n as [|n IH]; intros acc.
  - cbn. rewrite Z.mod_1_r. lia.
  - cbn [be_bytes be_value]. rewrite IH.
    rewrite byte_of_chr by (apply Z.mod_pos_bound; lia).
    rewrite Nat2Z.inj_succ, Z.pow_succ_r by lia.
    set (p := (256 ^ Z.of_nat n)%Z).
    assert (0 < p)%Z by (apply Z.pow_pos_nonneg; lia).
    rewrite (Z.mul_comm 256 p), Z.rem_mul_r by lia. lia.
Qed.

Lemma uint64_of_put v : Int.in_uint64 v → uint64_of (put_uint64 v) = v.
Proof.
  intros Hv. unfold uint64_of, put_uint64. rewrite be_value_bytes.
  change (256 ^ Z.of_nat 8)%Z with (2 ^ 64)%Z. rewrite Z.mod_small; [lia|exact Hv].
Qed.

Lemma put_uint64_inj a b :
  Int.in_uint64 a → Int.in_uint64 b → put_uint64 a = put_uint64 b → a = b.
Proof.
  intros Ha Hb H. rewrite <-(uint64_of_put a), <-(uint64_of_put b) by done. by rewrite H.
Qed.

Lemma put_uint64_length v : String.length (put_uint64 v) = 8%nat.
Proof. apply be_bytes_length. Qed.

Lemma str_ltb_irrefl a : str_ltb a a = false.
Proof. induction a as [|c a IH]; cbn; [done|]. by rewrite Z.ltb_irrefl, Z.eqb_refl. Qed.

Lemma str_ltb_trans a b c : str_ltb a b = true → str_ltb b c = true → str_ltb a c = true.
Proof.
  revert b c. induction a as [|x a IH]; intros [|y b] [|z c]; cbn; try done.
  destruct (Z.ltb_spec (byte_of x) (byte_of y)), (Z.ltb_spec (byte_of y) (byte_of z)),
    (Z.ltb_spec (byte_of x) (byte_of z)), (Z.eqb_spec (byte_of x) (byte_of y)),
    (Z.eqb_spec (byte_of y) (byte_of z)), (Z.eqb_spec (byte_of x) (byte_of z));
    try done; try lia; eauto.
Qed.

Lemma str_ltb_total a b : str_ltb a b = false → str_ltb b a = false → a = b.
Proof.
  revert b. induction a as [|x a IH]; intros [|y b]; cbn; try done.
  destruct (Z.ltb_spec (byte_of x) (byte_of y)), (Z.ltb_spec (byte_of y) (byte_of x)),
    (Z.eqb_spec (byte_of x) (byte_of y)), (Z.eqb_spec (byte_of y) (byte_of x));
    try done; try lia.
  intros. f_equal; [by apply byte_of_inj|auto].
Qed.

Lemma pow256_pos n : (0 < 256 ^ Z.of_nat n)%Z.
Proof. apply Z.pow_pos_nonneg; lia. Qed.
Lemma pow256_S n : (256 ^ Z.of_nat (S n) = 256 * 256 ^ Z.of_nat n)%Z.
Proof. rewrite Nat2Z.inj_succ, Z.pow_succ_r by lia. done. Qed.
#[export] Hint Resolve pow256_pos : node.

(** The leading byte of an in-range value, and the bytes that follow it. *)
Lemma be_lead n v :
  (0 ≤ v < 256 ^ Z.of_nat (S n))%Z →
  ((v / 256 ^ Z.of_nat n) mod 256 = v / 256 ^ Z.of_nat n)%Z.
Proof.
  rewrite pow256_S. intros Hv. pose proof (pow256_pos n).
  apply Z.mod_small. split; [apply Z.div_pos; lia|]. apply Z.div_lt_upper_bound; lia.
Qed.

Lemma be_bytes_mod n v : be_bytes n (v mod 256 ^ Z.of_nat n) = be_bytes n v.
Proof.
  revert v. induction n as [|n IH]; intros v; [done|].
  cbn [be_bytes]. rewrite pow256_S. pose proof (pow256_pos n).
  rewrite (Z.mul_comm 256), Z.rem_mul_r by lia. f_equal.
  - f_equal. rewrite (Z.mul_comm (256 ^ _)), Z.div_add by lia.
    rewrite (Z.div_small (v mod _)) by (apply Z.mod_pos_bound; lia).
    by rewrite Z.add_0_l, Z.mod_mod by lia.
  - rewrite <-IH. rewrite (Z.mul_comm (256 ^ _)), Z.mod_add by lia.
    by rewrite Z.mod_mod, IH by lia.
Qed.

(** Byte order of the big-endian encoding is the numeric order. *)
Lemma be_bytes_ltb n a b :
  (0 ≤ a < 256 ^ Z.of_nat n)%Z → (0 ≤ b < 256 ^ Z.of_nat n)%Z →
  str_ltb (be_bytes n a) (be_bytes n b) = (a <? b)%Z.
Proof.
  revert a b. induction n as [|n IH]; intros a b Ha Hb.
  { cbn in *. symmetry. apply Z.ltb_ge. lia. }
  cbn [be_bytes str_ltb].
  rewrite !byte_of_chr by (apply Z.mod_pos_bound; lia). rewrite !be_lead by done.
  rewrite <-(be_bytes_mod n a), <-(be_bytes_mod n b).
  pose proof (pow256_pos n) as Hp. rewrite IH by (apply Z.mod_pos_bound; lia).
  set (p := (256 ^ Z.of_nat n)%Z) in *.
  pose proof (Z.div_mod a p ltac:(lia)). pose proof (Z.div_mod b p ltac:(lia)).
  pose proof (Z.mod_pos_bound a p ltac:(lia)). pose proof (Z.mod_pos_bound b p ltac:(lia)).
  destruct (Z.ltb_spec (a / p) (b / p)), (Z.eqb_spec (a / p) (b / p)),
    (Z.ltb_spec (a mod p) (b mod p)), (Z.ltb_spec a b); try done; nia.
Qed.

Lemma put_uint64_ltb a b :
  Int.in_uint64 a → Int.in_uint64 b → str_ltb (put_uint64 a) (put_uint64 b) = (a <? b)%Z.
Proof. intros Ha Hb. by apply be_bytes_ltb. Qed.

#[export] Hint Rewrite put_uint64_length : node.

(** ** [drop_while] and [take_while] *)
Lemma take_drop_while {A} (p : A → bool) l : take_while p l ++ drop_while p l = l.
Proof. induction l as [|x l IH]; cbn; [done|]. destruct (p x); cbn; congruence. Qed.

Lemma Forall2_drop_while {A B} (R : A → B → Prop) (p : A → bool) (q : B → bool) l1 l2 :
  (∀ x y, R x y → p x = q y) → Forall2 R l1 l2 → Forall2 R (drop_while p l1) (drop_while q l2).
Proof.
  intros Hpq. induction 1 as [|x y l1 l2 Hxy H IH]; cbn; [constructor|].
  rewrite <-(Hpq x y Hxy). destruct (p x); [done|by constructor].
Qed.

Lemma take_while_all {A} (p : A → bool) l : (∀ x, x ∈ take_while p l → p x = true).
Proof.
  induction l as [|x l IH]; cbn; intros y; [by intros ?%not_elem_of_nil|].
  destruct (p x) eqn:E; [|by intros ?%not_elem_of_nil].
  intros [->|H]%elem_of_cons; auto.
Qed.

Lemma drop_while_head {A} (p : A → bool) l x l' : drop_while p l = x :: l' → p x = false.
Proof.
  induction l as [|y l IH]; cbn; [done|]. destruct (p y) eqn:E; [done|]. by intros [= <- _].
Qed.

(** Dropping a bound's worth of consecutive numbers. *)
Lemma drop_while_seqZ (t m n : Z) :
  (m - 1 ≤ t)%Z → (t ≤ m + n - 1)%Z →
  drop_while (λ z, z <=? t)%Z (seqZ m n) = seqZ (t + 1) (m + n - 1 - t).
Proof.
  intros Hm Hn. remember (Z.to_nat n) as k eqn:Hk. revert m n Hm Hn Hk.
  induction k as [|k IH]; intros m n Hm Hn Hk.
  - rewrite !seqZ_nil by lia. done.
  - rewrite seqZ_cons by lia. cbn. destruct (Z.leb_spec m t).
    + rewrite IH by lia. f_equal; lia.
    + assert (t = m - 1)%Z as -> by lia.
      rewrite (seqZ_cons (m - 1 + 1)) by lia. f_equal; [lia|]. f_equal; lia.
Qed.

Lemma fmap_drop_while {A B} (f : A → B) (p : B → bool) l :
  f <$> drop_while (λ x, p (f x)) l = drop_while p (f <$> l).
Proof. induction l as [|x l IH]; cbn; [done|]. by destruct (p (f x)). Qed.

(** On a sorted list, a test that is closed downwards selects a prefix. *)
Lemma take_while_sorted {A} (R : A → A → Prop) (p : A → bool) l x :
  StronglySorted R l → (∀ y z, y ∈ l → z ∈ l → R y z → p z = true → p y = true) →
  x ∈ take_while p l ↔ x ∈ l ∧ p x = true.
Proof.
  induction 1 as [|y l Hl IH F]; intros Hp; cbn [take_while]; [set_solver|].
  rewrite Forall_forall in F. destruct (p y) eqn:Ey.
  - rewrite !elem_of_cons, IH; [naive_solver|]. intros ????. apply Hp; by right.
  - split; [by intros ?%not_elem_of_nil|]. intros [[->|Hin]%elem_of_cons Hx]; [congruence|].
    rewrite (Hp y x) in Ey; [done|left|by right|by apply F|done].
Qed.

(** Decimal numbers are ASCII. *)
Lemma pretty_N_go_ascii x s : is_ascii s = true → is_ascii (pretty_N_go x s) = true.
Proof.
  revert s. induction (N.lt_wf_0 x) as [x _ IH]. intros s Hs.
  destruct (decide (0 < x)%N) as [Hx|Hx].
  - rewrite pretty_N_go_step by done. apply IH; [by apply N.div_lt|].
    unfold is_ascii in *. cbn [all_bytes]. rewrite Hs, andb_true_r.
    unfold pretty_N_char. by repeat case_match.
  - assert (x = 0%N) as -> by lia. by rewrite pretty_N_go_0.
Qed.

Lemma itoa_ascii z : is_ascii (itoa z) = true.
Proof.
  assert (∀ n : N, is_ascii (pretty n) = true) as HN.
  { intros n. unfold pretty, pretty_N. case_decide; [done|]. by apply pretty_N_go_ascii. }
  unfold itoa. destruct z as [|p|p]; [done|exact (HN (Npos p))|].
  change (is_ascii ("-" +:+ pretty (Npos p)) = true). unfold is_ascii in *. by rewrite all_bytes_app, HN.
Qed.

(** Decimal numbers are read back by [strconv.Atoi]. *)
Lemma pretty_N_char_value x : (x < 10)%N → is_digit (pretty_N_char x) = true ∧ (byte_of (pretty_N_char x) - 48 = Z.of_N x)%Z.
Proof.
  intros Hx. assert (x = 0 ∨ x = 1 ∨ x = 2 ∨ x = 3 ∨ x = 4 ∨ x = 5 ∨ x = 6 ∨ x = 7 ∨ x = 8 ∨ x = 9)%N as H by lia.
  by repeat destruct H as [->|H]; [..|subst].
Qed.

Lemma pretty_N_go_digits x s :
  digits_value 0 (pretty_N_go x s) = digits_value (Z.of_N x) s ∧
  (all_bytes is_digit s = true → all_bytes is_digit (pretty_N_go x s) = true).
Proof.
  revert s. induction (N.lt_wf_0 x) as [x _ IH]; intros s.
  assert (x = 0 ∨ 0 < x)%N as [->|Hx] by lia; [by rewrite pretty_N_go_0|].
  rewrite pretty_N_go_step by done.
  destruct (pretty_N_char_value (x `mod` 10)) as [Hd Hv]; [by apply N.mod_lt|].
  destruct (IH (x `div` 10)%N ltac:(by apply N.div_lt) (String (pretty_N_char (x `mod` 10)) s)) as [-> Hall]. split.
  - cbn [digits_value]. rewrite Hv. f_equal. pose proof (N.div_mod x 10). lia.
  - intros Hs. apply Hall. cbn [all_bytes]. by rewrite Hd.
Qed.

(** [strconv.Atoi] of digits, without a sign and with one. *)
Lemma atoi_digits s :
  all_bytes is_digit s = true → s ≠ "" →
  (atoi s = let v := digits_value 0 s in if (- 2 ^ 63 <=? v) && (v <? 2 ^ 63) then Some v else None)%Z ∧
  (atoi ("-" +:+ s) = let v := - digits_value 0 s in if (- 2 ^ 63 <=? v) && (v <? 2 ^ 63) then Some v else None)%Z.
Proof.
  intros Hd Hne. assert (negb (bool_decide (s = "")) && all_bytes is_digit s = true) as Hb.
  { rewrite Hd, andb_true_r. by rewrite bool_decide_eq_false_2. }
  split.
  - assert (atoi s = if negb (bool_decide (s = "")) && all_bytes is_digit s
      then let v := digits_value 0 s in if ((- 2 ^ 63 <=? v) && (v <? 2 ^ 63))%Z then Some v else None else None) as ->.
    { destruct s as [|c s]; [done|]. cbn [all_bytes] in Hd. apply andb_true_iff in Hd as [Hc _].
      destruct c as [[] [] [] [] [] [] [] []]; first [discriminate Hc|reflexivity]. }
    by rewrite Hb.
  - change (atoi ("-" +:+ s)) with (if negb (bool_decide (s = "")) && all_bytes is_digit s
      then let v := (- digits_value 0 s)%Z in if ((- 2 ^ 63 <=? v) && (v <? 2 ^ 63))%Z then Some v else None else None).
    by rewrite Hb.
Qed.

Lemma pretty_N_read (n : N) :
  all_bytes is_digit (pretty n) = true ∧ pretty n ≠ "" ∧ digits_value 0 (pretty n) = Z.of_N n.
Proof.
  unfold pretty, pretty_N. case_decide as Hn; [by subst|]. destruct (pretty_N_go_digits n "") as [Hv Hd].
  split; [by apply Hd|]. split; [|exact Hv]. intros E. rewrite E in Hv. cbn in Hv. lia.
Qed.

Lemma atoi_itoa z : (- 2 ^ 63 ≤ z < 2 ^ 63)%Z → atoi (itoa z) = Some z.
Proof.
  intros Hz. unfold itoa. destruct z as [|p|p]; [done|..]; destruct (pretty_N_read (Npos p)) as (Hd & Hne & Hv);
    destruct (atoi_digits _ Hd Hne) as [H1 H2].
  - change (atoi (pretty (Npos p)) = Some (Zpos p)). rewrite H1, Hv. cbn zeta.
    destruct (Z.leb_spec (- 2 ^ 63) (Z.of_N (N.pos p))), (Z.ltb_spec (Z.of_N (N.pos p)) (2 ^ 63)); cbn [andb]; [done|lia..].
  - change (atoi ("-" +:+ pretty (Npos p)) = Some (Zneg p)). rewrite H2, Hv. cbn zeta.
    destruct (Z.leb_spec (- 2 ^ 63) (- Z.of_N (N.pos p))), (Z.ltb_spec (- Z.of_N (N.pos p)) (2 ^ 63)); cbn [andb]; [done|lia..].
Qed.
