(* ===== verification/GoTime.v ===== *)
(** * Go times: package [time].

    A [time.Time] in UTC is its distance from the Unix epoch in nanoseconds; a
    [time.Duration] is a number of nanoseconds. *)
From S2P Require Import Prelude GoStr.

Local Open Scope Z_scope.

Definition time : Type := Z.
Definition nanosecond : Z := 1.
Definition millisecond : Z := 1000000.
Definition second : Z := 1000 * millisecond.
Definition minute : Z := 60 * second.
Definition hour : Z := 60 * minute.

(** [time.Time{}]: January 1 of year 1. *)
Definition zero_time : time := - 62135596800 * second.
(** [time.Unix(sec, 0)], [time.UnixMilli] and the method [UnixMilli] *)
Definition unix (sec : Z) : time := sec * second.
Definition unix_milli (ms : Z) : time := ms * millisecond.
Definition to_unix_milli (t : time) : Z := t / millisecond.

Definition after (t u : time) : bool := u <? t.
Definition before (t u : time) : bool := t <? u.

(** The proleptic Gregorian date of a day number (0 is 1970-01-01). *)
Definition civil (days : Z) : Z * Z * Z :=
  let z := days + 719468 in
  let era := z / 146097 in
  let doe := z mod 146097 in
  let yoe := (doe - doe / 1460 + doe / 36524 - doe / 146096) / 365 in
  let doy := doe - (365 * yoe + yoe / 4 - yoe / 100) in
  let mp := (5 * doy + 2) / 153 in
  let d := doy - (153 * mp + 2) / 5 + 1 in
  let m := if mp <? 10 then mp + 3 else mp - 9 in
  (yoe + era * 400 + (if m <=? 2 then 1 else 0), m, d).

Fixpoint pad (width : nat) (z : Z) : string :=
  match width with
  | O => ""
  | S w => pad w (z / 10) +:+ String (chr (48 + z mod 10)) ""
  end.

(** The digits of a fraction of a second without the trailing zeros. *)
Fixpoint trim_zeros (s : string) : string :=
  match s with
  | EmptyString => ""
  | String c s' =>
      match trim_zeros s' with
      | EmptyString => if Ascii.eqb c "0" then "" else String c ""
      | t => String c t
      end
  end.

(** [t.UTC().Format(time.RFC3339)] and [t.UTC().Format(time.RFC3339Nano)] *)
Definition format_seconds (t : time) : string :=
  let '(y, m, d) := civil (t / (24 * hour)) in
  let s := t / second mod 86400 in
  pad 4 y +:+ "-" +:+ pad 2 m +:+ "-" +:+ pad 2 d +:+ "T" +:+
  pad 2 (s / 3600) +:+ ":" +:+ pad 2 (s / 60 mod 60) +:+ ":" +:+ pad 2 (s mod 60).
Definition format_rfc3339 (t : time) : string := format_seconds t +:+ "Z".
Definition format_rfc3339nano (t : time) : string :=
  let frac := trim_zeros (pad 9 (t mod second)) in
  format_seconds t +:+ (if bool_decide (frac = "") then "" else "." +:+ frac) +:+ "Z".

Example format_epoch : format_rfc3339nano (unix 1) = "1970-01-01T00:00:01Z".
Proof. vm_compute. reflexivity. Qed.
Example format_recent :
  format_rfc3339nano (unix 1792411445 + 120500000) = "2026-10-19T12:04:05.1205Z".
Proof. vm_compute. reflexivity. Qed.
Example format_zero : format_rfc3339 zero_time = "0001-01-01T00:00:00Z".
Proof. vm_compute. reflexivity. Qed.
