(* ===== verification/GoNet.v ===== *)
(** * Internet addresses: package [net]

    A [net.IP] is its 16-byte form as a number; an IPv4 address is the
    IPv4-mapped one.  [parse_ip], [parse_cidr] and [split_host_port] follow the
    grammar of the standard library, errors as [None]. *)
From S2P Require Import Prelude GoStr.

Local Open Scope Z_scope.

Definition ip : Type := Z.

(** [::ffff:0:0/96] *)
Definition v4_prefix : Z := 281470681743360.
Definition of_v4 (v : Z) : ip := v4_prefix + v.
(** [ip.To4()], as a number *)
Definition to4 (a : ip) : option Z :=
  if a / 2 ^ 32 =? 65535 then Some (a mod 2 ^ 32) else None.
Definition is_v4 (a : ip) : bool := a / 2 ^ 32 =? 65535.

(** ** Parsing *)

Definition parse_octet (s : string) : option Z :=
  if bool_decide (s = "") || negb (all_bytes is_digit s) then None
  else if (3 <? slen s) || ((1 <? slen s) && has_prefix s "0") then None
  else let v := digits_value 0 s in if v <=? 255 then Some v else None.

(** Four decimal octets without leading zeros. *)
Definition parse_v4 (s : string) : option Z :=
  match mapM parse_octet (split_byte "." s) with
  | Some [a; b; c; d] => Some (((a * 256 + b) * 256 + c) * 256 + d)
  | _ => None
  end.

Definition hex_value (c : ascii) : option Z :=
  let b := byte_of c in
  if in_range 48 57 b then Some (b - 48)
  else if in_range 97 102 b then Some (b - 87)
  else if in_range 65 70 b then Some (b - 55)
  else None.

(** The leading hexadecimal digits, their value, and the rest. *)
Fixpoint hex_group (acc : Z) (n : nat) (s : string) : nat * Z * string :=
  match s with
  | EmptyString => (n, acc, s)
  | String c s' =>
      match hex_value c with
      | Some v => hex_group (acc * 16 + v) (S n) s'
      | None => (n, acc, s)
      end
  end.

(** The loop over the groups: [groups] read so far, the position of the [::].
    Eight rounds fill the sixteen bytes. *)
Fixpoint v6_groups (fuel : nat) (s : string) (groups : list Z) (ellipsis : option nat)
    : option (list Z * option nat * string) :=
  match fuel with
  | O => Some (groups, ellipsis, s)
  | S fuel' =>
      let '(n, acc, rest) := hex_group 0 0 s in
      if (n =? 0)%nat || (4 <? n)%nat then None
      else match rest with
      | EmptyString => Some (groups ++ [acc], ellipsis, "")
      | String "." _ =>
          if (match ellipsis with None => negb (length groups =? 6)%nat | Some _ => false end) ||
             (6 <? length groups)%nat then None
          else v ← parse_v4 s; Some (groups ++ [v / 65536; v mod 65536], ellipsis, "")
      | String ":" EmptyString => None
      | String ":" (String ":" rest') =>
          match ellipsis with
          | Some _ => None
          | None =>
              let groups := groups ++ [acc] in
              if bool_decide (rest' = "") then Some (groups, Some (length groups), "")
              else v6_groups fuel' rest' groups (Some (length groups))
          end
      | String ":" rest' => v6_groups fuel' rest' (groups ++ [acc]) ellipsis
      | _ => None
      end
  end.

Definition join_groups (l : list Z) : Z := foldl (λ acc g, acc * 65536 + g) 0 l.

Definition parse_v6 (s : string) : option Z :=
  let '(ellipsis, body) := match strip_prefix "::" s with
                           | Some t => (Some 0%nat, t)
                           | None => (None, s)
                           end in
  if bool_decide (ellipsis = Some 0%nat) && bool_decide (body = "") then Some 0
  else
    '(groups, ellipsis, rest) ← v6_groups 8 body [] ellipsis;
    if negb (bool_decide (rest = "")) then None
    else match ellipsis with
    | None => if (length groups =? 8)%nat then Some (join_groups groups) else None
    | Some e =>
        if (8 <=? length groups)%nat then None
        else Some (join_groups (take e groups ++ replicate (8 - length groups) 0 ++ drop e groups))
    end.

(** The first of the characters [.:%] decides; zones are not accepted. *)
Fixpoint addr_kind (s : string) : option ascii :=
  match s with
  | EmptyString => None
  | String c s' =>
      if Ascii.eqb c "." || Ascii.eqb c ":" || Ascii.eqb c "%" then Some c else addr_kind s'
  end.

(** [netip.ParseAddr] without zone: the number and whether it is an IPv4 literal. *)
Definition parse_addr (s : string) : option (ip * bool) :=
  match addr_kind s with
  | Some "."%char => v ← parse_v4 s; Some (of_v4 v, true)
  | Some ":"%char => v ← parse_v6 s; Some (v, false)
  | _ => None
  end.

(** [net.ParseIP] *)
Definition parse_ip (s : string) : option ip := fst <$> parse_addr s.

(** [ip.String()] *)
Definition v4_string (v : Z) : string :=
  itoa (v / 16777216 mod 256) +:+ "." +:+ itoa (v / 65536 mod 256) +:+ "." +:+
  itoa (v / 256 mod 256) +:+ "." +:+ itoa (v mod 256).

Definition hex_char (v : Z) : ascii := chr (if v <? 10 then 48 + v else 87 + v).
Fixpoint hex_digits (fuel : nat) (v : Z) : string :=
  match fuel with
  | O => ""
  | S n => (if v <? 16 then "" else hex_digits n (v / 16)) +:+ String (hex_char (v mod 16)) ""
  end.

Definition groups_of (a : Z) : list Z :=
  (λ i, a / 65536 ^ (7 - i) mod 65536) <$> seqZ 0 8.

(** The first longest run of two or more zero groups: its start and length. *)
Fixpoint zero_run (l : list Z) : nat :=
  match l with 0 :: l' => S (zero_run l') | _ => O end.
Fixpoint best_run (i : nat) (l : list Z) (best : nat * nat) : nat * nat :=
  match l with
  | [] => best
  | _ :: l' =>
      let n := zero_run l in
      best_run (S i) l' (if (1 <? n)%nat && (best.2 <? n)%nat then (i, n) else best)
  end.

Definition v6_string (a : Z) : string :=
  let l := groups_of a in
  let text := λ gs : list Z, join ":" (hex_digits 4 <$> gs) in
  match best_run 0 l (O, O) with
  | (_, O) => text l
  | (e, n) => text (take e l) +:+ "::" +:+ text (drop (e + n) l)
  end.

Definition ip_string (a : ip) : string :=
  match to4 a with Some v => v4_string v | None => v6_string a end.

(** [net.ParseCIDR]: the address, the network address, whether the literal is
    IPv4, and the prefix length. *)
Definition mask_number (s : string) : option Z :=
  if bool_decide (s = "") || negb (all_bytes is_digit s) then None
  else let v := digits_value 0 s in if v <? 16777215 then Some v else None.

Definition parse_cidr (s : string) : option (ip * ip * bool * Z) :=
  '(a, m) ← cut s "/";
  '(v, lit4) ← parse_addr a;
  n ← mask_number m;
  let bits : Z := if (lit4 : bool) then 32 else 128 in
  let size := 2 ^ (bits - n) in
  if bits <? n then None else Some (v, v / size * size, lit4, n).

(** [network.String()] *)
Definition cidr_string (network : ip) (lit4 : bool) (n : Z) : string :=
  ip_string network +:+ "/" +:+ itoa (if lit4 then n else if is_v4 network then n - 96 else n).

(** [net.SplitHostPort] *)
Definition split_host_port (s : string) : option (string * string) :=
  '(front, port) ← cut_last s ":";
  if has_prefix s "[" then
    '(host, rest) ← cut s "]";
    let host := trim_prefix host "[" in
    if contains host "[" || negb (bool_decide (rest = ":" +:+ port)) ||
       contains rest "[" || contains rest "]" then None
    else Some (host, port)
  else if contains front ":" || contains s "[" || contains s "]" then None
  else Some (front, port).

(** [net.JoinHostPort] *)
Definition join_host_port (host port : string) : string :=
  (if contains host ":" then "[" +:+ host +:+ "]" else host) +:+ ":" +:+ port.

Example parse_ip_examples :
  ip_string <$> parse_ip "10.0.0.1" = Some "10.0.0.1" ∧
  ip_string <$> parse_ip "2001:DB8::1:0:0:1" = Some "2001:db8::1:0:0:1" ∧
  ip_string <$> parse_ip "::ffff:10.0.0.1" = Some "10.0.0.1" ∧
  ip_string <$> parse_ip "::" = Some "::" ∧
  ip_string <$> parse_ip "1:2:3:4:5:6:7:0" = Some "1:2:3:4:5:6:7:0" ∧
  parse_ip "1::2::3" = None ∧ parse_ip "10.0.0.01" = None ∧ parse_ip "1:2:3:4:5:6:7::8" = None ∧
  parse_ip "1.2.3" = None ∧ parse_ip "fe80::1%eth0" = None ∧ parse_ip "" = None.
Proof. vm_compute. done. Qed.

Example parse_cidr_examples :
  (λ '(_, n, l, k), cidr_string n l k) <$> parse_cidr "10.1.2.3/8" = Some "10.0.0.0/8" ∧
  (λ '(_, n, l, k), cidr_string n l k) <$> parse_cidr "2001:db8::1/32" = Some "2001:db8::/32" ∧
  (λ '(_, n, l, k), cidr_string n l k) <$> parse_cidr "::ffff:1.2.3.4/120" = Some "1.2.3.0/24" ∧
  parse_cidr "10.1.2.3/33" = None ∧ parse_cidr "10.1.2.3" = None.
Proof. vm_compute. done. Qed.

Example split_host_port_examples :
  split_host_port "1.2.3.4:443" = Some ("1.2.3.4", "443") ∧
  split_host_port "[::1]:443" = Some ("::1", "443") ∧
  split_host_port "::1:443" = None ∧ split_host_port "host" = None ∧
  split_host_port "[::1]" = None ∧ split_host_port "[::1]x:1" = None.
Proof. vm_compute. done. Qed.
