(* ===== verification/Base64.v ===== *)
(** * Unpadded URL base64: [base64.RawURLEncoding] of the Go library.

    [EncodeToString] and [DecodeString] as executable functions on byte strings,
    and the round trip.  As in Go, decoding skips line breaks, refuses a group of
    one character and ignores the unused low bits of a partial group. *)
From S2P Require Import Prelude GoStr.

Local Open Scope Z_scope.

Definition b64_char (v : Z) : ascii :=
  chr (if v <? 26 then 65 + v else if v <? 52 then 71 + v
       else if v <? 62 then v - 4 else if v =? 62 then 45 else 95).

Definition b64_val (c : ascii) : option Z :=
  let b := byte_of c in
  if in_range 65 90 b then Some (b - 65)
  else if in_range 97 122 b then Some (b - 71)
  else if in_range 48 57 b then Some (b + 4)
  else if b =? 45 then Some 62 else if b =? 95 then Some 63 else None.

Fixpoint b64_encode (s : string) : string :=
  match s with
  | EmptyString => ""
  | String a EmptyString =>
      let a := byte_of a in
      String (b64_char (a / 4)) (String (b64_char (a mod 4 * 16)) "")
  | String a (String b EmptyString) =>
      let a := byte_of a in let b := byte_of b in
      String (b64_char (a / 4)) (String (b64_char (a mod 4 * 16 + b / 16))
        (String (b64_char (b mod 16 * 4)) ""))
  | String a (String b (String c rest)) =>
      let a := byte_of a in let b := byte_of b in let c := byte_of c in
      String (b64_char (a / 4)) (String (b64_char (a mod 4 * 16 + b / 16))
        (String (b64_char (b mod 16 * 4 + c / 64)) (String (b64_char (c mod 64)) (b64_encode rest))))
  end.

(** The sextets of the input; [None] at a byte outside the alphabet. *)
Fixpoint b64_sextets (s : string) : option (list Z) :=
  match s with
  | EmptyString => Some []
  | String c s' =>
      if (byte_of c =? 10) || (byte_of c =? 13) then b64_sextets s'
      else v ← b64_val c; l ← b64_sextets s'; Some (v :: l)
  end.

Fixpoint b64_groups (l : list Z) : option string :=
  match l with
  | [] => Some ""
  | [_] => None
  | [d0; d1] => Some (String (chr (d0 * 4 + d1 / 16)) "")
  | [d0; d1; d2] =>
      Some (String (chr (d0 * 4 + d1 / 16)) (String (chr (d1 mod 16 * 16 + d2 / 4)) ""))
  | d0 :: d1 :: d2 :: d3 :: rest =>
      t ← b64_groups rest;
      Some (String (chr (d0 * 4 + d1 / 16)) (String (chr (d1 mod 16 * 16 + d2 / 4))
        (String (chr (d2 mod 4 * 64 + d3)) t)))
  end.

Definition b64_decode (s : string) : option string :=
  l ← b64_sextets s; b64_groups l.

(** ** The round trip *)

Lemma b64_val_char v : 0 ≤ v < 64 → b64_val (b64_char v) = Some v.
Proof.
  intros Hv. unfold b64_val, b64_char, in_range. rewrite byte_of_chr.
  - repeat case_match; try lia; f_equal; lia.
  - repeat case_match; lia.
Qed.

Lemma b64_char_visible v : 0 ≤ v < 64 →
  (byte_of (b64_char v) =? 10) || (byte_of (b64_char v) =? 13) = false.
Proof. intros Hv. unfold b64_char. rewrite byte_of_chr; repeat case_match; lia. Qed.

(** An encoding holds only characters of the alphabet, hence never a dot. *)
Definition b64_alphabet (c : ascii) : bool :=
  match b64_val c with Some _ => true | None => false end.

Lemma b64_sextets_char v s : 0 ≤ v < 64 →
  b64_sextets (String (b64_char v) s) = (l ← b64_sextets s; Some (v :: l)).
Proof. intros Hv. cbn. by rewrite b64_char_visible, b64_val_char. Qed.

Ltac byte_ranges :=
  repeat match goal with
  | |- context [byte_of ?c] =>
      lazymatch goal with
      | H : 0 ≤ byte_of c < 256 |- _ => fail
      | _ => pose proof (byte_of_range c)
      end
  end.

Lemma string_ind3 (P : string → Prop) :
  P "" → (∀ a, P (String a "")) → (∀ a b, P (String a (String b ""))) →
  (∀ a b c s, P s → P (String a (String b (String c s)))) → ∀ s, P s.
Proof.
  intros H0 H1 H2 H3. fix IH 1.
  intros [|a [|b [|c s]]]; [exact H0|apply H1|apply H2|apply H3, IH].
Qed.

Ltac b64_step :=
  byte_ranges; repeat (rewrite b64_sextets_char by (Z.div_mod_to_equations; lia)); cbn.

Lemma b64_roundtrip s : b64_decode (b64_encode s) = Some s.
Proof.
  assert (Hchr : ∀ c z, z = byte_of c → chr z = c) by (intros c z ->; apply chr_byte_of).
  unfold b64_decode. induction s as [|a|a b|a b c s IH] using string_ind3;
    cbn [b64_encode]; [done|..]; b64_step.
  - repeat f_equal; apply Hchr; Z.div_mod_to_equations; lia.
  - repeat f_equal; apply Hchr; Z.div_mod_to_equations; lia.
  - destruct (b64_sextets (b64_encode s)) as [l|]; cbn in *; [|done].
    rewrite IH. cbn. repeat f_equal; apply Hchr; Z.div_mod_to_equations; lia.
Qed.

Lemma b64_encode_nonempty s : s ≠ "" → b64_encode s ≠ "".
Proof. by destruct s as [|a [|b [|c s]]]. Qed.

Lemma b64_alphabet_char v : 0 ≤ v < 64 → b64_alphabet (b64_char v) = true.
Proof. intros. unfold b64_alphabet. by rewrite b64_val_char. Qed.

Lemma b64_encode_alphabet s : all_bytes b64_alphabet (b64_encode s) = true.
Proof.
  induction s as [|a|a b|a b c s IH] using string_ind3; cbn [b64_encode all_bytes]; [done|..];
    rewrite ?IH; byte_ranges;
    rewrite !b64_alphabet_char by (Z.div_mod_to_equations; lia); done.
Qed.
