(* ===== verification/GoAny.v ===== *)
(** * Dynamic JSON values: Go's [any] and [map[string]any]

    Configurations travel through the agent as decoded JSON.  [any] has a
    constructor per dynamic type the code stores: decoded JSON holds [AFloat]
    numbers only, the agent itself also stores [AInt] ([int]) values, and Go tells
    them apart ([reflect.DeepEqual]).  The accessors are those of
    [internal/node/manager.go] and [internal/state/state.go]. *)
From S2P Require Import Prelude GoStr.

(** ** Values *)

(** A float64 that is a number: [mant * 2 ^ exp], with an odd [mant] or 0 and 0. *)
Record float64 := { mant : Z; exp : Z }.

#[export] Instance float64_eq_dec : EqDecision float64.
Proof. solve_decision. Defined.

Inductive any :=
| ANil
| ABool (b : bool)
| AInt (n : Z)
| AFloat (f : float64)
| AStr (s : string)
| AArr (l : list any)
| AObj (m : gmap string any).

#[export] Instance any_eq_dec : EqDecision any.
Proof.
  refine (fix go (x y : any) : Decision (x = y) :=
    let _ : EqDecision any := @go in
    match x, y with
    | ANil, ANil => left eq_refl
    | ABool a, ABool b => cast_if (decide (a = b))
    | AInt a, AInt b => cast_if (decide (a = b))
    | AFloat a, AFloat b => cast_if (decide (a = b))
    | AStr a, AStr b => cast_if (decide (a = b))
    | AArr a, AArr b => cast_if (decide (a = b))
    | AObj a, AObj b => cast_if (decide (a = b))
    | _, _ => right _
    end); abstract congruence.
Defined.

Abbreviation object := (gmap string any).

(** [float64(n)]: the nearest multiple of a power of two with 53 bits, ties to even. *)
Fixpoint strip_twos (p : positive) : positive * Z :=
  match p with xO q => let '(r, e) := strip_twos q in (r, e + 1)%Z | _ => (p, 0%Z) end.
Definition float_of_int (n : Z) : float64 :=
  let a := Z.abs n in
  let s := Z.max 0 (Z.log2 a - 52) in
  let q := Z.shiftr a s in
  let r := (a - Z.shiftl q s)%Z in
  let half := (2 ^ s)%Z in
  let q := if (half <? 2 * r)%Z || ((half =? 2 * r)%Z && Z.odd q) then (q + 1)%Z else q in
  let v := (Z.sgn n * Z.shiftl q s)%Z in
  match v with
  | Z0 => {| mant := 0; exp := 0 |}
  | Zpos p => let '(r, e) := strip_twos p in {| mant := Zpos r; exp := e |}
  | Zneg p => let '(r, e) := strip_twos p in {| mant := Zneg r; exp := e |}
  end.

(** [int(f)]: truncation; out of range, amd64 yields the least [int64]. *)
Definition int_of_float (f : float64) : Z :=
  let v := if (0 <=? exp f)%Z then Z.shiftl (mant f) (exp f) else Z.quot (mant f) (2 ^ (- exp f)) in
  if ((- 2 ^ 63 <=? v) && (v <? 2 ^ 63))%Z then v else (- 2 ^ 63)%Z.

(** [value == float64(int(value))] *)
Definition is_integral (f : float64) : bool := bool_decide (f = float_of_int (int_of_float f)).

Example float_of_int_examples :
  float_of_int 443 = {| mant := 443; exp := 0 |} ∧ float_of_int (-8) = {| mant := -1; exp := 3 |} ∧
  float_of_int (2 ^ 53 + 1) = float_of_int (2 ^ 53) ∧ is_integral (float_of_int 8080) = true ∧
  is_integral {| mant := 3; exp := -1 |} = false ∧ int_of_float {| mant := -3; exp := -1 |} = (-1)%Z.
Proof. vm_compute. done. Qed.

(** ** JSON round trips: [cloneMap]

    Encoding and decoding again turns every number into a [float64] and cleans
    strings; keys are written in order, so a later key wins when two become equal. *)

Definition entry_le (x y : string * any) : Prop := str_ltb y.1 x.1 = false.
#[export] Instance entry_le_dec : RelDecision entry_le.
Proof. intros x y. unfold entry_le. apply _. Defined.

Definition sorted_entries (m : object) : list (string * any) := merge_sort entry_le (map_to_list m).

Definition rekey (f : string → string) (l : list (string * any)) : object :=
  foldl (λ acc kv, <[f kv.1 := kv.2]> acc) ∅ l.

Fixpoint json_clone (v : any) : any :=
  match v with
  | ANil => ANil
  | ABool b => ABool b
  | AInt n => AFloat (float_of_int n)
  | AFloat f => AFloat f
  | AStr s => AStr (utf8_clean s)
  | AArr l => AArr (json_clone <$> l)
  | AObj m => AObj (rekey utf8_clean (sorted_entries (json_clone <$> m)))
  end.

Definition cloneMap (m : object) : object :=
  match json_clone (AObj m) with AObj m' => m' | _ => ∅ end.

#[global] Arguments cloneMap : simpl never.

(** A value that decoded JSON can hold: a JSON round trip gives it back. *)
Definition json_value (m : object) : Prop := cloneMap m = m.
#[export] Instance json_value_dec m : Decision (json_value m).
Proof. unfold json_value. apply _. Defined.

(** ** Accessors *)

(** [m[key]]: a missing key reads as [nil]. *)
Definition field (m : object) (k : string) : any := default ANil (m !! k).

Definition stringValue (v : any) : string := match v with AStr s => s | _ => "" end.

Definition boolValue (v : any) : bool :=
  match v with ABool b => b | AStr s => bool_decide (s = "true") | _ => false end.

Definition intValue (v : any) : Z :=
  match v with
  | AFloat f => int_of_float f
  | AInt n => n
  | AStr s => atoi_value s
  | _ => 0
  end%Z.

Definition stringSlice (v : any) : list string :=
  match v with
  | AArr l => omap (λ x, match x with AStr s => Some s | _ => None end) l
  | _ => []
  end.

Definition asAnySlice (v : any) : list any := match v with AArr l => l | _ => [] end.

Definition asMapSlice (v : any) : list object :=
  match v with
  | AArr l => omap (λ x, match x with AObj m => Some m | _ => None end) l
  | _ => []
  end.

(** The object under a key: what [ensureMap] returns; the caller's writes to it are
    writes to the parent. *)
Definition ensureMap (parent : object) (k : string) : object :=
  match field parent k with AObj m => m | _ => ∅ end.

Definition ensureConfigMap (v : any) : object := match v with AObj m => m | _ => ∅ end.

(** The slice of [ensureSliceMap]; [asMapSlice] is never [nil], so its second half
    is not reached. *)
Definition ensureSliceMap (parent : object) (k : string) : list object := asMapSlice (field parent k).

Definition toAnySlice (l : list object) : list any := AObj <$> l.
Definition toAnyStringSlice (l : list string) : list any := AStr <$> l.

Definition firstNonEmpty (values : list string) : string :=
  default "" (head (filter (λ v, v ≠ "") values)).

(** [for _, inbound := range asMapSlice(config[key]) { ... }], where the body changes
    the visited objects in place. *)
Definition update_objects (f : object → object) (v : any) : any :=
  match v with
  | AArr l => AArr ((λ x, match x with AObj m => AObj (f m) | _ => x end) <$> l)
  | _ => v
  end.

(** ** Lemmas *)

Lemma cloneMap_empty : cloneMap ∅ = ∅.
Proof. done. Qed.

Lemma field_insert m k v k' : field (<[k := v]> m) k' = if decide (k = k') then v else field m k'.
Proof. unfold field. rewrite lookup_insert. by case_decide. Qed.

Lemma field_insert_eq m k v : field (<[k := v]> m) k = v.
Proof. rewrite field_insert. by rewrite decide_True. Qed.

Lemma field_insert_ne m k v k' : k ≠ k' → field (<[k := v]> m) k' = field m k'.
Proof. intros. rewrite field_insert. by rewrite decide_False. Qed.

Lemma ensureMap_insert p k m : ensureMap (<[k := AObj m]> p) k = m.
Proof. unfold ensureMap. by rewrite field_insert_eq. Qed.

Lemma field_delete m k k' : field (delete k m) k' = if decide (k = k') then ANil else field m k'.
Proof. unfold field. rewrite lookup_delete. by case_decide. Qed.

Lemma asMapSlice_toAnySlice l : asMapSlice (AArr (toAnySlice l)) = l.
Proof. unfold asMapSlice, toAnySlice. induction l as [|m l IH]; cbn; [done|]. by rewrite IH. Qed.

Lemma asMapSlice_update f v : asMapSlice (update_objects f v) = f <$> asMapSlice v.
Proof.
  destruct v as [| | | | |l|]; try done. cbn. induction l as [|x l IH]; [done|].
  destruct x; cbn; rewrite IH; done.
Qed.

Lemma update_objects_compose f g v :
  update_objects f (update_objects g v) = update_objects (λ m, f (g m)) v.
Proof.
  destruct v as [| | | | |l|]; try done. cbn. f_equal. rewrite <-list_fmap_compose.
  apply list_fmap_ext. intros i x _. by destruct x.
Qed.

Lemma update_objects_ext f g v :
  (∀ m, m ∈ asMapSlice v → f m = g m) → update_objects f v = update_objects g v.
Proof.
  destruct v as [| | | | |l|]; try done. cbn. intros H. f_equal. apply list_fmap_ext.
  intros i x Hx. destruct x as [| | | | | |m]; try done. f_equal. apply H.
  apply list_elem_of_omap. exists (AObj m). split; [by eapply list_elem_of_lookup_2|done].
Qed.

Lemma rekey_lookup f l k v :
  NoDup (f ∘ fst <$> l) → rekey f l !! k = Some v ↔ ∃ k0, (k0, v) ∈ l ∧ f k0 = k.
Proof.
  unfold rekey.
  assert (∀ acc : object, NoDup (f ∘ fst <$> l) → (∀ kv, kv ∈ l → acc !! f kv.1 = None) →
    (foldl (λ acc kv, <[f kv.1 := kv.2]> acc) acc l : object) !! k = Some v ↔
    acc !! k = Some v ∨ ∃ k0, (k0, v) ∈ l ∧ f k0 = k) as Hgen.
  { induction l as [|[k1 v1] l IH]; intros acc Hnd Hacc; cbn [foldl].
    - split; [by left|]. intros [?|(k0 & Hin & _)]; [done|by apply not_elem_of_nil in Hin].
    - cbn in Hnd. apply NoDup_cons in Hnd as [Hnin Hnd]. rewrite IH; [|done|].
      + cbn. rewrite lookup_insert. case_decide as Hk.
        * split.
          -- intros [[= ->]|(k0 & Hin & Hf)]; right; [exists k1; split; [left|done]|].
             exists k0. split; [by right|done].
          -- intros [Ha|(k0 & [[= -> ->]|Hin]%elem_of_cons & Hf)].
             ++ pose proof (Hacc (k1, v1) ltac:(left)) as Hn. cbn in Hn. congruence.
             ++ by left.
             ++ right. eauto.
        * split.
          -- intros [?|(k0 & Hin & Hf)]; [by left|right]. exists k0. split; [by right|done].
          -- intros [?|(k0 & [[= -> ->]|Hin]%elem_of_cons & Hf)]; [by left|done|right; eauto].
      + intros [k2 v2] Hin. cbn. rewrite lookup_insert_ne; [apply (Hacc (k2, v2)); by right|].
        intros Heq. apply Hnin. apply list_elem_of_fmap. by exists (k2, v2). }
  intros Hnd. rewrite Hgen; [|done|intros; apply lookup_empty]. rewrite lookup_empty. naive_solver.
Qed.

(** ** Values that a JSON round trip leaves alone *)

Fixpoint any_size (v : any) : nat :=
  match v with
  | AArr l => S (sum_list (any_size <$> l))
  | AObj m => S (map_fold (λ _ x n, any_size x + n)%nat 0%nat m)
  | _ => 1%nat
  end.

Lemma sum_list_elem x l : x ∈ l → (x ≤ sum_list l)%nat.
Proof. induction l as [|y l IH]; [by intros ?%not_elem_of_nil|]. intros [->|?%IH]%elem_of_cons; cbn; lia. Qed.

Lemma map_size_elem (m : object) k x :
  m !! k = Some x → (any_size x ≤ map_fold (λ _ x n, any_size x + n)%nat 0%nat m)%nat.
Proof.
  intros Hk. rewrite <-(insert_delete_id m k x) by done.
  rewrite map_fold_insert_L; [lia|intros; lia|by rewrite lookup_delete_eq].
Qed.

Lemma any_ind_nested (P : any → Prop) :
  P ANil → (∀ b, P (ABool b)) → (∀ n, P (AInt n)) → (∀ f, P (AFloat f)) → (∀ s, P (AStr s)) →
  (∀ l, (∀ x, x ∈ l → P x) → P (AArr l)) → (∀ m : object, (∀ k x, m !! k = Some x → P x) → P (AObj m)) →
  ∀ v, P v.
Proof.
  intros H1 H2 H3 H4 H5 Harr Hobj v. remember (any_size v) as n eqn:Hn. revert v Hn.
  induction (lt_wf n) as [n _ IH]. intros v ->.
  destruct v as [| | | | |l|m]; auto.
  - apply Harr. intros x Hx. eapply IH; [|reflexivity]. cbn.
    assert (any_size x ≤ sum_list (any_size <$> l))%nat; [|lia].
    apply sum_list_elem. apply list_elem_of_fmap. eauto.
  - apply Hobj. intros k x Hx. eapply IH; [|reflexivity]. cbn [any_size].
    pose proof (map_size_elem m k x Hx). lia.
Qed.

Fixpoint clean_any (v : any) : bool :=
  match v with
  | AInt _ => false
  | AStr s => bool_decide (utf8_clean s = s)
  | AArr l => forallb clean_any l
  | AObj m => map_fold (λ k x acc, bool_decide (utf8_clean k = k) && clean_any x && acc) true m
  | _ => true
  end.

Definition clean_object (m : object) : Prop :=
  ∀ k x, m !! k = Some x → utf8_clean k = k ∧ clean_any x = true.

Lemma clean_obj m : clean_any (AObj m) = true ↔ clean_object m.
Proof.
  cbn [clean_any]. unfold clean_object. induction m as [|k x m Hk Hfst IH] using map_first_key_ind.
  - rewrite map_fold_empty. split; [by intros _ k x; rewrite lookup_empty|done].
  - rewrite map_fold_insert_L; [|intros; by destruct (bool_decide _), (bool_decide _), (clean_any _), (clean_any _)|done].
    rewrite !andb_true_iff, bool_decide_eq_true, IH. split.
    + intros [[Hc Hx] Hm] k1 x1 [[<- <-]|[_ ?]]%lookup_insert_Some; [done|eauto].
    + intros Hm. split; [apply Hm; by rewrite lookup_insert_eq|]. intros k' x' Hk'. apply Hm.
      rewrite lookup_insert_ne; [done|congruence].
Qed.

Lemma sorted_entries_elem m k x : (k, x) ∈ sorted_entries m ↔ m !! k = Some x.
Proof. unfold sorted_entries. rewrite merge_sort_Permutation. apply elem_of_map_to_list. Qed.

Lemma sorted_entries_nodup m : NoDup (sorted_entries m).*1.
Proof. unfold sorted_entries. rewrite merge_sort_Permutation. apply NoDup_fst_map_to_list. Qed.

(** Every entry of a re-keyed object comes from the list. *)
Lemma rekey_inv f l k x : rekey f l !! k = Some x → ∃ k0, (k0, x) ∈ l ∧ f k0 = k.
Proof.
  unfold rekey.
  assert (∀ acc : object, (foldl (λ acc kv, <[f kv.1 := kv.2]> acc) acc l : object) !! k = Some x →
    acc !! k = Some x ∨ ∃ k0, (k0, x) ∈ l ∧ f k0 = k) as Hgen.
  { induction l as [|[k1 x1] l IH]; intros acc; cbn [foldl]; [by left|].
    intros [Ha|(k0 & Hin & Hf)]%IH; [|right; exists k0; split; [by right|done]].
    cbn in Ha. apply lookup_insert_Some in Ha as [[Hk ->]|[_ Ha]]; [right|by left].
    exists k1. split; [left|done]. }
  intros [Hk|?]%Hgen; [by rewrite lookup_empty in Hk|done].
Qed.

Lemma json_clone_id v : clean_any v = true → json_clone v = v.
Proof.
  induction v as [| | | |s|l IH|m IH] using any_ind_nested; try done.
  - cbn. by intros ->%bool_decide_eq_true.
  - cbn. rewrite forallb_elem_of. intros Hl. f_equal. rewrite <-(list_fmap_id l) at 2.
    apply list_fmap_ext. intros i x Hx. apply list_elem_of_lookup_2 in Hx. auto.
  - rewrite clean_obj. intros Hm. cbn [json_clone]. f_equal. apply map_eq. intros k.
    assert (json_clone <$> m = m) as ->.
    { apply map_eq. intros k'. rewrite lookup_fmap. destruct (m !! k') as [x|] eqn:E; [|done]. cbn.
      rewrite (IH _ _ E); [done|]. by apply (Hm _ _ E). }
    assert (∀ k' x, rekey utf8_clean (sorted_entries m) !! k' = Some x ↔ m !! k' = Some x) as Hr.
    { intros k' x. rewrite rekey_lookup.
      - split.
        + intros (k0 & Hin & Hf). apply sorted_entries_elem in Hin.
          destruct (Hm _ _ Hin) as [Hc _]. congruence.
        + intros Hx. exists k'. rewrite sorted_entries_elem. split; [done|]. by apply (Hm _ _ Hx).
      - assert (utf8_clean ∘ fst <$> sorted_entries m = (sorted_entries m).*1) as ->; [|apply sorted_entries_nodup].
        apply list_fmap_ext. intros i [k1 x1] Hx. cbn. apply list_elem_of_lookup_2, sorted_entries_elem in Hx.
        by apply (Hm _ _ Hx). }
    destruct (m !! k) as [x|] eqn:E; [by apply Hr|].
    destruct (rekey _ _ !! k) as [x|] eqn:E'; [|done]. apply Hr in E'. congruence.
Qed.

Lemma clean_json_clone v : clean_any (json_clone v) = true.
Proof.
  induction v as [| | | |s|l IH|m IH] using any_ind_nested; try done.
  - cbn. apply bool_decide_eq_true, utf8_clean_idem.
  - cbn. apply forallb_elem_of. intros x (y & -> & Hy)%list_elem_of_fmap. auto.
  - cbn [json_clone]. apply clean_obj. intros k x (k0 & Hin & <-)%rekey_inv.
    split; [apply utf8_clean_idem|]. apply sorted_entries_elem in Hin.
    rewrite lookup_fmap in Hin. destruct (m !! k0) as [y|] eqn:E; [|done].
    injection Hin as <-. eauto.
Qed.

Lemma cloneMap_clean m : clean_object (cloneMap m).
Proof.
  pose proof (clean_json_clone (AObj m)) as H. unfold cloneMap.
  cbn [json_clone] in *. by apply clean_obj.
Qed.

Lemma cloneMap_id m : clean_object m → cloneMap m = m.
Proof. intros H%clean_obj%json_clone_id. unfold cloneMap. by rewrite H. Qed.

Lemma cloneMap_idem m : cloneMap (cloneMap m) = cloneMap m.
Proof. apply cloneMap_id, cloneMap_clean. Qed.

Lemma clean_field m k : clean_object m → clean_any (field m k) = true.
Proof. intros Hm. unfold field. destruct (m !! k) as [x|] eqn:E; [by apply (Hm _ _ E)|done]. Qed.

Lemma clean_insert m k x :
  clean_object m → utf8_clean k = k → clean_any x = true → clean_object (<[k := x]> m).
Proof. intros Hm Hk Hx k' x' [[<- <-]|[_ ?]]%lookup_insert_Some; [done|by apply Hm]. Qed.

Lemma clean_update_objects f v :
  clean_any v = true → (∀ m, clean_object m → clean_object (f m)) → clean_any (update_objects f v) = true.
Proof.
  destruct v as [| | | | |l|]; try done. cbn [update_objects clean_any]. rewrite !forallb_elem_of.
  intros Hl Hf x (y & -> & Hy)%list_elem_of_fmap. specialize (Hl y Hy).
  destruct y; try done. apply clean_obj. apply Hf. by apply clean_obj.
Qed.

Lemma clean_asMapSlice v m : clean_any v = true → m ∈ asMapSlice v → clean_object m.
Proof.
  destruct v as [| | | | |l|]; try (by intros _ ?%not_elem_of_nil).
  cbn [clean_any asMapSlice]. rewrite forallb_elem_of. intros Hl ([] & Hin & E)%list_elem_of_omap; try done.
  injection E as ->. apply clean_obj. auto.
Qed.

Lemma clean_toAnySlice l : (∀ m, m ∈ l → clean_object m) → clean_any (AArr (toAnySlice l)) = true.
Proof.
  intros Hl. cbn. apply forallb_elem_of. intros x (m & -> & Hm)%list_elem_of_fmap. by apply clean_obj, Hl.
Qed.

#[export] Hint Resolve cloneMap_clean clean_field : node.
#[export] Hint Rewrite cloneMap_idem field_insert_eq asMapSlice_toAnySlice asMapSlice_update : node.
