(* ===== verification/GoFloat.v ===== *)
(** * Arithmetic of float64

    The operations round to the nearest float64, ties to even.  Overflow and the loss of
    precision below [2 ^ -1022] are left out: no figure of the agent is that large or small. *)
From S2P Require Import Prelude GoStr GoAny.

Local Open Scope Z_scope.

(** [m * 2 ^ e] *)
Definition scaled (m e : Z) : float64 :=
  match m with
  | Z0 => {| mant := 0; exp := 0 |}
  | Zpos p => let '(r, s) := strip_twos p in {| mant := Zpos r; exp := s + e |}
  | Zneg p => let '(r, s) := strip_twos p in {| mant := Zneg r; exp := s + e |}
  end.

(** [n / d] for a positive [d], rounded: [s] is such that the quotient has 53 bits. *)
Definition round_ratio (n d : Z) : float64 :=
  let a := Z.abs n in
  let s := Z.log2 a - Z.log2 d - 52 in
  let s := if a * 2 ^ Z.max 0 (- (s + 52)) <? d * 2 ^ Z.max 0 (s + 52) then s - 1 else s in
  let num := a * 2 ^ Z.max 0 (- s) in
  let den := d * 2 ^ Z.max 0 s in
  let q := num / den in
  let r := num mod den in
  let q := if (den <? 2 * r) || ((2 * r =? den) && Z.odd q) then q + 1 else q in
  scaled (Z.sgn n * q) s.

(** The power of two of an exponent, above and below the line *)
Definition up (e : Z) : Z := 2 ^ Z.max 0 e.

Definition fdiv (x y : float64) : float64 :=
  round_ratio (Z.sgn (mant y) * mant x * up (exp x) * up (- exp y)) (Z.abs (mant y) * up (exp y) * up (- exp x)).
Definition fmul (x y : float64) : float64 :=
  round_ratio (mant x * mant y * up (exp x + exp y)) (up (- (exp x + exp y))).
Definition fadd (x y : float64) : float64 :=
  let e := Z.min (exp x) (exp y) in
  round_ratio ((mant x * 2 ^ (exp x - e) + mant y * 2 ^ (exp y - e)) * up e) (up (- e)).
Definition fneg (x : float64) : float64 := {| mant := - mant x; exp := exp x |}.
Definition fsub (x y : float64) : float64 := fadd x (fneg y).
Definition flt (x y : float64) : bool :=
  let e := Z.min (exp x) (exp y) in mant x * 2 ^ (exp x - e) <? mant y * 2 ^ (exp y - e).

(** [Duration.Seconds] *)
Definition seconds (d : Z) : float64 :=
  fadd (float_of_int (Z.quot d 1000000000)) (fdiv (float_of_int (Z.rem d 1000000000)) (float_of_int 1000000000)).

(** 0.1, 1/3, 0.1 * 3 and 0.3 - 0.1 as IEEE 754 has them *)
Example float_examples :
  let tenth := fdiv (float_of_int 1) (float_of_int 10) in
  tenth = {| mant := 3602879701896397; exp := -55 |} ∧
  fdiv (float_of_int 1) (float_of_int 3) = {| mant := 6004799503160661; exp := -54 |} ∧
  fmul tenth (float_of_int 3) = {| mant := 1351079888211149; exp := -52 |} ∧
  fsub (fdiv (float_of_int 3) (float_of_int 10)) tenth = {| mant := 7205759403792793; exp := -55 |} ∧
  fdiv (float_of_int (-7)) (float_of_int 2) = {| mant := -7; exp := -1 |} ∧
  flt tenth (float_of_int 1) = true ∧ seconds 1500000000 = {| mant := 3; exp := -1 |}.
Proof. vm_compute. split_and!; reflexivity. Qed.
