(* ===== verification/GoSort.v ===== *)
(** * Orders that Go leaves open: [sort.Slice] and map iteration

    [sort.Slice] is not stable and a map is visited in any order: both are
    parameters with the laws their documentation gives.  [Merge] implements them. *)
From S2P Require Import Prelude GoStr.

(** The order a comparison function describes, when it describes one. *)
Definition not_less {A} (less : A → A → bool) (x y : A) : Prop := less y x = false.

#[export] Instance not_less_dec {A} (less : A → A → bool) : RelDecision (not_less less).
Proof. intros x y. unfold not_less. apply _. Defined.

Class SortSlice := sort_slice : ∀ {A}, (A → A → bool) → list A → list A.
Class SortSliceLaws `{SortSlice} : Prop := {
  law_sort_perm {A} (less : A → A → bool) l : sort_slice less l ≡ₚ l;
  law_sort_sorted {A} (less : A → A → bool) l :
    Transitive (not_less less) → Total (not_less less) → StronglySorted (not_less less) (sort_slice less l)
}.

Class MapRange := range_map : ∀ {V}, gmap string V → list (string * V).
Class MapRangeLaws `{MapRange} : Prop :=
  law_range : ∀ V (m : gmap string V), range_map m ≡ₚ map_to_list m.

(** [sort.Strings] and [sort.Ints]: equal elements are the same. *)
Definition str_le (x y : string) : Prop := str_ltb y x = false.
#[export] Instance str_le_dec : RelDecision str_le.
Proof. intros x y. unfold str_le. apply _. Defined.
Definition sort_strings (l : list string) : list string := merge_sort str_le l.
Definition sort_ints (l : list Z) : list Z := merge_sort Z.le l.

#[export] Instance str_le_total : Total str_le.
Proof.
  intros x y. unfold str_le. destruct (str_ltb y x) eqn:E; [|by left]. right.
  destruct (str_ltb x y) eqn:E'; [|done].
  pose proof (str_ltb_trans _ _ _ E E') as Ht. by rewrite str_ltb_irrefl in Ht.
Qed.
#[export] Instance str_le_trans : Transitive str_le.
Proof.
  intros x y z. unfold str_le. intros H1 H2.
  destruct (str_ltb z x) eqn:E; [|done]. destruct (str_ltb x y) eqn:E1.
  - by rewrite (str_ltb_trans _ _ _ E E1) in H2.
  - rewrite (str_ltb_total _ _ E1 H1) in E. congruence.
Qed.
#[export] Instance str_le_anti : AntiSymm (=) str_le.
Proof. intros x y Hxy Hyx. by apply str_ltb_total. Qed.

Lemma sort_strings_perm l : sort_strings l ≡ₚ l.
Proof. apply merge_sort_Permutation. Qed.
Lemma sort_strings_sorted l : StronglySorted str_le (sort_strings l).
Proof. apply StronglySorted_merge_sort; apply _. Qed.
Lemma sort_ints_perm l : sort_ints l ≡ₚ l.
Proof. apply merge_sort_Permutation. Qed.
Lemma sort_ints_sorted l : StronglySorted Z.le (sort_ints l).
Proof. apply StronglySorted_merge_sort; apply _. Qed.

(** The result of sorting strings depends on the multiset only. *)
Lemma sort_strings_eq l1 l2 : l1 ≡ₚ l2 → sort_strings l1 = sort_strings l2.
Proof.
  intros E. apply (StronglySorted_unique str_le).
  - apply sort_strings_sorted.
  - apply sort_strings_sorted.
  - by rewrite !sort_strings_perm.
Qed.

Lemma not_less_key {A K} (f : A → K) (R : K → K → bool) :
  Transitive (not_less R) → Transitive (not_less (λ x y, R (f x) (f y))).
Proof. intros Ht x y z. unfold not_less. apply Ht. Qed.
Lemma not_less_key_total {A K} (f : A → K) (R : K → K → bool) :
  Total (not_less R) → Total (not_less (λ x y, R (f x) (f y))).
Proof. intros Ht x y. apply Ht. Qed.

(** ** An implementation *)
Module Merge.
#[export] Instance sort : SortSlice := λ A less l,
  merge_sort (not_less less) l.
#[export] Instance sort_laws : SortSliceLaws.
Proof.
  constructor.
  - intros. apply merge_sort_Permutation.
  - intros A less l Ht Hto. by apply StronglySorted_merge_sort.
Qed.
#[export] Instance range : MapRange := λ V m, map_to_list m.
#[export] Instance range_laws : MapRangeLaws.
Proof. by intros V m. Qed.
End Merge.
