(* ===== verification/StatName.v ===== *)
(** * Statistics names: package [internal/statname].

  A sing-box statistics user name carries the panel's user id and the inbound
  tag: [UserInbound] builds it, [ParseUserInbound] and [UserID] take it apart.
  Every component that reads user names goes through these functions. *)
From S2P Require Import Prelude GoStr Base64.

Definition userInboundSeparator : string := ".rwib.".

Definition UserInbound (userID inboundTag : string) : string :=
  userID +:+ userInboundSeparator +:+ b64_encode inboundTag.

(** [Some (userID, inboundTag)] is the [ok = true] return. *)
Definition ParseUserInbound (value : string) : option (string * string) :=
  match cut value userInboundSeparator with
  | None => None
  | Some (l, r) =>
      if bool_decide (l = "") || bool_decide (r = "") then None
      else match b64_decode r with
           | None => None
           | Some decoded => if bool_decide (decoded = "") then None else Some (l, decoded)
           end
  end.

Definition UserID (value : string) : string :=
  match ParseUserInbound value with Some (userID, _) => userID | None => value end.

(** A user id in which the separator starts nowhere, not even by running into
    the separator appended to it. *)
Definition plain_user (u : string) : Prop :=
  cut (u +:+ userInboundSeparator) userInboundSeparator = Some (u, "").

#[export] Instance plain_user_dec u : Decision (plain_user u).
Proof. unfold plain_user. apply _. Defined.

(** An occurrence of [sep] that starts inside [u] ends inside [u ++ sep]. *)
Lemma strip_prefix_shorten p s r :
  (String.length p ≤ String.length s)%nat →
  strip_prefix p s = None → strip_prefix p (s +:+ r) = None.
Proof.
  revert s. induction p as [|a p IH]; intros [|b s]; cbn; try done; [lia|].
  destruct (Ascii.eqb a b); [|done]. intros. apply IH; [lia|done].
Qed.

Lemma cut_left_short s sep l r a :
  cut (a +:+ s) sep = Some (l, r) → is_Some (strip_prefix sep s) →
  (String.length l ≤ String.length a)%nat.
Proof.
  revert l r. induction a as [|c a IH]; intros l r; rewrite cut_unfold; cbn [String.append].
  - intros H [r' E]. rewrite E in H. injection H as <- _. done.
  - destruct (strip_prefix sep (String c (a +:+ s))); [intros [= <- _]; cbn; lia|].
    destruct (cut (a +:+ s) sep) as [[l' r']|]; [|done].
    intros [= <- <-] Hs. cbn. specialize (IH l' r' eq_refl Hs). lia.
Qed.


Lemma plain_user_suffix u a b :
  plain_user u → u = a +:+ b → b ≠ "" →
  strip_prefix userInboundSeparator (b +:+ userInboundSeparator) = None.
Proof.
  intros Hp -> Hb. unfold plain_user in Hp. rewrite <-app_assoc_str in Hp.
  destruct (strip_prefix _ (b +:+ _)) as [r|] eqn:E; [exfalso|done].
  apply cut_left_short in Hp; [|by rewrite E].
  rewrite length_app_str in Hp. destruct b; cbn in Hp; [done|lia].
Qed.

Lemma cut_plain u r :
  plain_user u → cut (u +:+ userInboundSeparator +:+ r) userInboundSeparator = Some (u, r).
Proof.
  intros Hp. apply cut_app_first. intros a b -> Hb.
  rewrite app_assoc_str. apply strip_prefix_shorten.
  - rewrite length_app_str. lia.
  - by eapply plain_user_suffix.
Qed.

(** Without a dot in it, a user id is plain; the panel's ids are numbers. *)
Lemma no_dot_plain u :
  all_bytes (λ c, negb (Ascii.eqb c ".")) u = true → plain_user u.
Proof.
  intros H. unfold plain_user.
  rewrite <-(app_nil_r_str userInboundSeparator) at 1.
  apply cut_app_first. intros a b -> Hb. rewrite app_nil_r_str.
  rewrite all_bytes_app, andb_true_iff in H. destruct H as [_ H].
  destruct b as [|c b]; [done|]. cbn [all_bytes] in H.
  apply andb_true_iff in H as [H _]. apply negb_true_iff in H.
  unfold userInboundSeparator. cbn [strip_prefix String.append].
  by rewrite Ascii.eqb_sym, H.
Qed.

Lemma parse_user_inbound u t :
  plain_user u → u ≠ "" → t ≠ "" → ParseUserInbound (UserInbound u t) = Some (u, t).
Proof.
  intros Hp Hu Ht. unfold ParseUserInbound, UserInbound. rewrite cut_plain by done.
  rewrite !bool_decide_eq_false_2 by (try apply b64_encode_nonempty; done).
  cbn. by rewrite b64_roundtrip, bool_decide_eq_false_2.
Qed.

Lemma user_id_user_inbound u t :
  plain_user u → u ≠ "" → t ≠ "" → UserID (UserInbound u t) = u.
Proof. intros. unfold UserID. by rewrite parse_user_inbound. Qed.

Lemma user_id_plain u : plain_user u → UserID u = u.
Proof.
  intros Hp. unfold UserID, ParseUserInbound.
  destruct (cut u userInboundSeparator) as [[l r]|] eqn:E; [|done].
  exfalso. pose proof (cut_some _ _ _ _ E) as Hu.
  pose proof (plain_user_suffix u l (userInboundSeparator +:+ r) Hp Hu ltac:(done)) as H.
  by rewrite <-app_assoc_str, strip_prefix_app in H.
Qed.

#[export] Hint Rewrite user_id_plain user_id_user_inbound using (by auto) : node.

(** C26: a statistics name is decoded to exactly the user id and the inbound tag
    it was built from, for every non-empty tag (any bytes) and every non-empty
    user id in which the separator does not start; [UserID] of the name is the
    user id. *)
Theorem user_inbound_roundtrip u t :
  plain_user u → u ≠ "" → t ≠ "" →
  ParseUserInbound (UserInbound u t) = Some (u, t) ∧ UserID (UserInbound u t) = u.
Proof. intros. split; [by apply parse_user_inbound|by apply user_id_user_inbound]. Qed.

Lemma user_inbound_roundtrip_witness :
  plain_user "1017" ∧ ParseUserInbound (UserInbound "1017" "hy2-in") = Some ("1017", "hy2-in").
Proof.
  split; [vm_compute; reflexivity|].
  apply (user_inbound_roundtrip "1017" "hy2-in"); vm_compute; [reflexivity|discriminate..].
Defined.

(** [ParseUserInbound] accepts nothing with an empty component. *)
Theorem parse_nonempty v u t :
  ParseUserInbound v = Some (u, t) → u ≠ "" ∧ t ≠ "" ∧ ∃ r, v = u +:+ userInboundSeparator +:+ r.
Proof.
  unfold ParseUserInbound.
  destruct (cut v _) as [[l r]|] eqn:E; [|done].
  destruct (bool_decide_reflect (l = "")), (bool_decide_reflect (r = "")); cbn; try done.
  destruct (b64_decode r) as [d|]; [|done]. case_bool_decide; [done|].
  intros [= <- <-]. split_and!; [done..|]. exists r. by apply cut_some in E.
Qed.
