(* ===== verification/Supervisor.v ===== *)
(** * The supervisord client ([internal/supervisor/client.go])

    Calls are written as XML-RPC, and replies are decoded from the tokens that
    [encoding/xml] delivers; the socket and the tokenizer are the interface [RpcEnv].
    The theorems are in SupervisorSpec.v. *)
From S2P Require Import Prelude GoStr.

Module Supervisor.

Definition StateStopped : Z := 0.
Definition StateStarting : Z := 10.
Definition StateRunning : Z := 20.
Definition StateStopping : Z := 40.
Definition StateExited : Z := 100.
Definition StateFatal : Z := 200.

Record ProcessInfo := { Name : string; State : Z; StateName : string; Raw : string }.

Definition mapState (state : string) : Z :=
  if bool_decide (state = "RUNNING") then StateRunning
  else if bool_decide (state = "STARTING") then StateStarting
  else if bool_decide (state = "STOPPING") then StateStopping
  else if bool_decide (state ∈ ["EXITED"; "STOPPED"]) then StateStopped
  else if bool_decide (state ∈ ["FATAL"; "BACKOFF"]) then StateFatal
  else StateStopped.

Definition mapStateName (state : Z) : string :=
  if (state =? StateRunning)%Z then "RUNNING"
  else if (state =? StateStarting)%Z then "STARTING"
  else if (state =? StateStopping)%Z then "STOPPING"
  else if (state =? StateExited)%Z then "EXITED"
  else if (state =? StateFatal)%Z then "FATAL"
  else "STOPPED".

Definition stringOrDefault (value fallback : string) : string :=
  if bool_decide (value = "") then fallback else value.

(** ** Writing a call *)

(** The characters that XML can hold *)
Definition is_character (r : Z) : bool :=
  (Z.eqb r 9 || Z.eqb r 10 || Z.eqb r 13 || in_range 32 55295 r || in_range 57344 65533 r ||
   in_range 65536 1114111 r)%Z.

(** [xml.EscapeText], for one rune *)
Definition escape_rune (r : rune) : string :=
  let '(z, bytes) := r in
  (if z =? 34 then "&#34;" else if z =? 39 then "&#39;" else if z =? 38 then "&amp;"
   else if z =? 60 then "&lt;" else if z =? 62 then "&gt;" else if z =? 9 then "&#x9;"
   else if z =? 10 then "&#xA;" else if z =? 13 then "&#xD;"
   else if negb (is_character z) || ((z =? rune_error) && (slen bytes =? 1)) then encode_rune rune_error
   else bytes)%Z.
Definition escape_text (s : string) : string := foldr (λ r acc, escape_rune r +:+ acc) "" (runes s).

(** A parameter: [any], of which strings and booleans are supported *)
Inductive param := PString (value : string) | PBool (value : bool) | POther (type : string).

Definition marshal_param (buffer : string) (p : param) : result string :=
  let buffer := buffer +:+ "<param><value>" in
  buffer ← match p with
    | PString value => Ok (buffer +:+ "<string>" +:+ escape_text value +:+ "</string>")
    | PBool value => Ok (buffer +:+ (if value then "<boolean>1</boolean>" else "<boolean>0</boolean>"))
    | POther type => Err (ErrMsg ("unsupported XML-RPC param type " +:+ type))
    end;
  Ok (buffer +:+ "</value></param>").

Fixpoint marshal_params (buffer : string) (params : list param) : result string :=
  match params with
  | [] => Ok buffer
  | p :: rest => buffer ← marshal_param buffer p; marshal_params buffer rest
  end.

(** The quotation mark, which cannot be written in a literal here *)
Definition dquote : string := String (chr 34) "".

Definition marshalCall (method : string) (params : list param) : result string :=
  let buffer := "<?xml version=" +:+ dquote +:+ "1.0" +:+ dquote +:+ "?>" in
  let buffer := buffer +:+ "<methodCall><methodName>" in
  let buffer := buffer +:+ escape_text method in
  let buffer := buffer +:+ "</methodName><params>" in
  buffer ← marshal_params buffer params;
  Ok (buffer +:+ "</params></methodCall>").

(** ** Decoding a reply *)

(** What [xml.Decoder.Token] returns; comments, directives and processing instructions are
    [TOther]. *)
Inductive token := TStart (name : string) | TEnd (name : string) | TText (data : string) | TOther.

#[export] Instance token_eq_dec : EqDecision token.
Proof. solve_decision. Defined.

(** [xmlRPCValue]; [None] is a nil [Struct]. *)
Inductive xmlRPCValue :=
| Value (text : string) (int : Z) (bool : bool) (struct : option (gmap string xmlRPCValue)).

Definition no_value : xmlRPCValue := Value "" 0 false None.
Definition String_ (v : xmlRPCValue) : string := match v with Value s _ _ _ => s end.
Definition Int_ (v : xmlRPCValue) : Z := match v with Value _ n _ _ => n end.
Definition Bool_ (v : xmlRPCValue) : bool := match v with Value _ _ b _ => b end.
Definition Struct_ (v : xmlRPCValue) : option (gmap string xmlRPCValue) := match v with Value _ _ _ m => m end.
Definition with_string (s : string) (v : xmlRPCValue) : xmlRPCValue := Value s (Int_ v) (Bool_ v) (Struct_ v).
Definition with_int (n : Z) (v : xmlRPCValue) : xmlRPCValue := Value (String_ v) n (Bool_ v) (Struct_ v).
Definition with_bool (b : bool) (v : xmlRPCValue) : xmlRPCValue := Value (String_ v) (Int_ v) b (Struct_ v).
Definition with_struct (m : gmap string xmlRPCValue) (v : xmlRPCValue) : xmlRPCValue :=
  Value (String_ v) (Int_ v) (Bool_ v) (Some m).

(** A member of the map of [v], which may be nil *)
Definition member (v : xmlRPCValue) (name : string) : xmlRPCValue :=
  default no_value (Struct_ v ≫= lookup name).

(** A decoder: the tokens to come; [fin] is the error after the last one. *)
Abbreviation decoder A := (proc (list token) A).

Section decode.
Context (fin : error).

Definition next : decoder token := λ ts,
  match ts with [] => ([], Err fin) | t :: rest => (rest, Ok t) end.

(** [Decoder.Skip]: to the end of the element whose start was just read *)
Fixpoint skip_tokens (depth : nat) (ts : list token) : list token * result unit :=
  match ts with
  | [] => ([], Err fin)
  | TStart _ :: rest => skip_tokens (S depth) rest
  | TEnd _ :: rest => match depth with O => (rest, Ok tt) | S depth => skip_tokens depth rest end
  | _ :: rest => skip_tokens depth rest
  end.
Definition Skip : decoder unit := skip_tokens 0.

(** [DecodeElement] into a string: the text directly in the element *)
Fixpoint text_tokens (depth : nat) (data : string) (ts : list token) : list token * result string :=
  match ts with
  | [] => ([], Err fin)
  | TStart _ :: rest => text_tokens (S depth) data rest
  | TEnd _ :: rest => match depth with O => (rest, Ok data) | S depth => text_tokens depth data rest end
  | TText t :: rest => text_tokens depth (match depth with O => data +:+ t | _ => data end) rest
  | TOther :: rest => text_tokens depth data rest
  end.
Definition element_string : decoder string := text_tokens 0 "".

(** [DecodeElement] into an [int] *)
Definition element_int : decoder Z :=
  data ← element_string;
  if bool_decide (data = "") then mret 0%Z
  else match atoi (trim_space data) with Some n => mret n | None => throw (ErrMsg "invalid syntax") end.

(** [UnmarshalXML], [decodeStruct] and [decodeMember]: one turn of a loop takes one token at
    least, so the number of tokens is enough fuel. *)
Fixpoint unmarshal_value (fuel : nat) (start : string) (v : xmlRPCValue) (text : string) : decoder xmlRPCValue :=
  match fuel with
  | O => throw fin
  | S fuel =>
      element ← next;
      match element with
      | TStart name =>
          if bool_decide (name = "string") then
            s ← element_string; unmarshal_value fuel start (with_string s v) text
          else if bool_decide (name ∈ ["int"; "i4"]) then
            n ← element_int; unmarshal_value fuel start (with_int n v) text
          else if bool_decide (name = "boolean") then
            raw ← element_string;
            unmarshal_value fuel start
              (with_bool (bool_decide (raw = "1") || equal_fold raw "true") v) text
          else if bool_decide (name = "struct") then
            members ← decode_struct fuel name ∅; unmarshal_value fuel start (with_struct members v) text
          else _ ← Skip; unmarshal_value fuel start v text
      | TText data => unmarshal_value fuel start v (text +:+ data)
      | TEnd name =>
          if bool_decide (name = start) then
            mret (if bool_decide (String_ v = "") && (Int_ v =? 0)%Z && bool_decide (Struct_ v = None)
                  then with_string (trim_space text) v else v)
          else unmarshal_value fuel start v text
      | TOther => unmarshal_value fuel start v text
      end
  end
with decode_struct (fuel : nat) (start : string) (members : gmap string xmlRPCValue)
    : decoder (gmap string xmlRPCValue) :=
  match fuel with
  | O => throw fin
  | S fuel =>
      element ← next;
      match element with
      | TStart name =>
          if negb (bool_decide (name = "member")) then _ ← Skip; decode_struct fuel start members
          else nv ← decode_member fuel name "" no_value;
               decode_struct fuel start (<[fst nv := snd nv]> members)
      | TEnd name => if bool_decide (name = start) then mret members else decode_struct fuel start members
      | _ => decode_struct fuel start members
      end
  end
with decode_member (fuel : nat) (start name : string) (value : xmlRPCValue) : decoder (string * xmlRPCValue) :=
  match fuel with
  | O => throw fin
  | S fuel =>
      element ← next;
      match element with
      | TStart e =>
          if bool_decide (e = "name") then n ← element_string; decode_member fuel start n value
          else if bool_decide (e = "value") then
            v ← unmarshal_value fuel e value ""; decode_member fuel start name v
          else _ ← Skip; decode_member fuel start name value
      | TEnd e => if bool_decide (e = start) then mret (name, value) else decode_member fuel start name value
      | _ => decode_member fuel start name value
      end
  end.

(** [methodResponse]: what [xml.Unmarshal] does by the tags of its fields *)
Record methodResponse := { Params : list xmlRPCValue; Fault : option xmlRPCValue }.

(** An element with a field [xml:"value"]: a parameter, a fault *)
Fixpoint decode_holder (fuel : nat) (value : xmlRPCValue) : decoder xmlRPCValue :=
  match fuel with
  | O => throw fin
  | S fuel =>
      element ← next;
      match element with
      | TStart "value" => v ← unmarshal_value fuel "value" value ""; decode_holder fuel v
      | TStart _ => _ ← Skip; decode_holder fuel value
      | TEnd _ => mret value
      | _ => decode_holder fuel value
      end
  end.

Fixpoint decode_params (fuel : nat) (params : list xmlRPCValue) : decoder (list xmlRPCValue) :=
  match fuel with
  | O => throw fin
  | S fuel =>
      element ← next;
      match element with
      | TStart "param" => v ← decode_holder fuel no_value; decode_params fuel (params ++ [v])
      | TStart _ => _ ← Skip; decode_params fuel params
      | TEnd _ => mret params
      | _ => decode_params fuel params
      end
  end.

Fixpoint decode_response (fuel : nat) (r : methodResponse) : decoder methodResponse :=
  match fuel with
  | O => throw fin
  | S fuel =>
      element ← next;
      match element with
      | TStart "params" => ps ← decode_params fuel (Params r); decode_response fuel {| Params := ps; Fault := Fault r |}
      | TStart "fault" =>
          v ← decode_holder fuel (default no_value (Fault r));
          decode_response fuel {| Params := Params r; Fault := Some v |}
      | TStart _ => _ ← Skip; decode_response fuel r
      | TEnd _ => mret r
      | _ => decode_response fuel r
      end
  end.

(** The tokens before the root element are dropped. *)
Fixpoint root (ts : list token) : option (list token) :=
  match ts with [] => None | TStart _ :: rest => Some rest | _ :: rest => root rest end.

Definition unmarshal_response (ts : list token) : result methodResponse :=
  match root ts with
  | None => Err fin
  | Some rest => snd (decode_response (S (length rest)) {| Params := []; Fault := None |} rest)
  end.
End decode.

(** ** Calls *)

Record Client := { socketPath : string; username : string; password : string }.

Record Request := { body : string; basicAuth : option (string * string) }.

(** The socket, whose answers may depend on the requests before (newest first), and the
    tokens of a text with the error that follows them *)
Class RpcEnv := {
  exchange : list Request → result (Z * string);
  tokens : string → list token * error
}.

Section calls.
Context {EnvI : RpcEnv} {CaseI : UnicodeCase} (c : Client).

Definition send (r : Request) : proc (list Request) (Z * string) := λ log,
  (r :: log, exchange (r :: log)).

Definition call (method : string) (params : list param) : proc (list Request) xmlRPCValue :=
  if bool_decide (socketPath c = "") then throw (ErrMsg "supervisord socket path is empty")
  else
    body ← lift (marshalCall method params);
    let basicAuth := if negb (bool_decide (username c = "")) || negb (bool_decide (password c = ""))
                     then Some (username c, password c) else None in
    response ← send {| body := body; basicAuth := basicAuth |};
    let '(code, text) := response in
    if (code <? 200)%Z || (300 <=? code)%Z then
      throw (ErrMsg ("supervisord " +:+ method +:+ " failed: HTTP " +:+ itoa code +:+ " (" +:+ trim_space text +:+ ")"))
    else
      match unmarshal_response (snd (tokens text)) (fst (tokens text)) with
      | Err e => throw (ErrWrap ("supervisord " +:+ method +:+ " returned invalid XML") e)
      | Ok r =>
          match Fault r with
          | Some fault =>
              throw (ErrMsg ("supervisord " +:+ method +:+ " fault " +:+ itoa (Int_ (member fault "faultCode")) +:+
                             ": " +:+ String_ (member fault "faultString")))
          | None => mret (match Params r with [] => no_value | v :: _ => v end)
          end
      end.

Definition GetState : proc (list Request) unit :=
  if bool_decide (socketPath c = "") then throw (ErrMsg "supervisord socket path is empty")
  else _ ← call "supervisor.getState" []; mret tt.

Definition StartProcess (name : string) : proc (list Request) unit :=
  if bool_decide (name = "") then throw (ErrMsg "process name is empty")
  else _ ← call "supervisor.startProcess" [PString name; PBool true]; mret tt.

Definition StopProcess (name : string) : proc (list Request) unit :=
  if bool_decide (name = "") then throw (ErrMsg "process name is empty")
  else _ ← call "supervisor.stopProcess" [PString name; PBool true]; mret tt.

Definition process_info (name : string) (info : xmlRPCValue) : ProcessInfo :=
  let stateName := to_upper (String_ (member info "statename")) in
  let state := Int_ (member info "state") in
  {| Name := stringOrDefault (String_ (member info "name")) name; State := state;
     StateName := if bool_decide (stateName = "") then mapStateName state else stateName;
     Raw := String_ (member info "description") |}.

Definition GetProcessInfo (name : string) : proc (list Request) ProcessInfo :=
  if bool_decide (name = "") then throw (ErrMsg "process name is empty")
  else value ← call "supervisor.getProcessInfo" [PString name]; mret (process_info name value).
End calls.
End Supervisor.
