(* ===== verification/SupervisorSpec.v ===== *)
(** * What the supervisord client guarantees

    [call_read_back]: a server reads from the text of a call exactly its method and its
    parameters.  [process_info_decoded]: the reply to [getProcessInfo], written in any way that
    XML-RPC allows, is decoded to the members it holds.  [unmarshal_fuel]: the fuel of the
    decoder is enough for every input. *)
From S2P Require Import Prelude GoStr Supervisor.
Import Supervisor.

(** ** Calls *)

(** The bytes of the runes of a string: one below 128, or several from 128 on *)
Definition rune_bytes (r : rune) : Prop :=
  (∃ c, r = (byte_of c, String c "") ∧ (byte_of c < 128)%Z) ∨
  (128 ≤ r.1)%Z ∧ all_bytes (λ c, 128 <=? byte_of c)%Z r.2 = true.

Lemma in_range_iff lo hi z : in_range lo hi z = true ↔ (lo ≤ z ≤ hi)%Z.
Proof. unfold in_range. rewrite andb_true_iff, !Z.leb_le. lia. Qed.

Lemma cont_range_bounds b :
  (128 ≤ (cont_range b).1)%Z ∧ (b = 224 → (cont_range b).1 = 160)%Z ∧ (b = 240 → (cont_range b).1 = 144)%Z.
Proof. unfold cont_range. repeat case_match; cbn; lia. Qed.

Lemma runes_bytes n s : (String.length s ≤ n)%nat → Forall rune_bytes (runes s).
Proof.
  revert s. induction n as [|n IH]; intros [|c0 s1] Hn; cbn [runes]; try (constructor; fail); [cbn in Hn; lia|].
  cbn [String.length] in Hn. pose proof (cont_range_bounds (byte_of c0)) as (L & L224 & L240).
  destruct (cont_range (byte_of c0)) as [lo hi]. cbn [fst] in *.
  destruct (byte_of c0 <? 128)%Z eqn:E0.
  { apply Z.ltb_lt in E0. constructor; [left; eauto|apply IH; lia]. }
  apply Z.ltb_ge in E0.
  assert (Forall rune_bytes ((rune_error, String c0 "") :: runes s1)) as Hbad.
  { constructor; [|apply IH; lia]. right. split; [done|]. cbn. by rewrite (proj2 (Z.leb_le _ _) E0). }
  assert (∀ c, (128 ≤ byte_of c)%Z → (128 <=? byte_of c)%Z = true) as B by (intros; by apply Z.leb_le).
  destruct s1 as [|c1 s2]; [done|].
  destruct (in_range lo hi (byte_of c1)) eqn:E1; cbn [negb]; [apply in_range_iff in E1|done].
  assert (128 ≤ byte_of c1)%Z as B1 by lia.
  destruct (in_range 194 223 (byte_of c0)) eqn:E2; [apply in_range_iff in E2|].
  { cbn [String.length] in Hn. constructor; [|apply IH; lia]. right. cbn. rewrite !B by done. split; [lia|done]. }
  destruct s2 as [|c2 s3]; [done|].
  destruct (in_range 128 191 (byte_of c2)) eqn:E3; cbn [negb]; [apply in_range_iff in E3|done].
  destruct (in_range 224 239 (byte_of c0)) eqn:E4; [apply in_range_iff in E4|].
  { cbn [String.length] in Hn. constructor; [|apply IH; lia]. right. cbn. rewrite !B by lia. split; [|done].
    destruct (decide (byte_of c0 = 224%Z)) as [E|E]; [specialize (L224 E)|]; lia. }
  destruct s3 as [|c3 s4]; [done|].
  destruct (in_range 128 191 (byte_of c3)) eqn:E5; cbn [negb]; [apply in_range_iff in E5|done].
  destruct (in_range 240 244 (byte_of c0)) eqn:E6; [apply in_range_iff in E6|done].
  cbn [String.length] in Hn. constructor; [|apply IH; lia]. right. cbn. rewrite !B by lia. split; [|done].
  destruct (decide (byte_of c0 = 240%Z)) as [E|E]; [specialize (L240 E)|]; lia.
Qed.

(** The server's side: character references, then the text up to the next tag *)
Definition references : list (string * string) :=
  [("&#34;", dquote); ("&#39;", "'"); ("&amp;", "&"); ("&lt;", "<"); ("&gt;", ">");
   ("&#x9;", String (chr 9) ""); ("&#xA;", String (chr 10) ""); ("&#xD;", String (chr 13) "")].

Fixpoint reference (l : list (string * string)) (s : string) : option (string * string) :=
  match l with
  | [] => None
  | (name, c) :: l => match strip_prefix name s with Some rest => Some (c, rest) | None => reference l s end
  end.

Fixpoint read_text (fuel : nat) (s : string) : string * string :=
  match fuel, s with
  | S fuel, String c rest =>
      if Ascii.eqb c "<" then ("", s)
      else match reference references s with
           | Some (d, rest) => let '(t, r) := read_text fuel rest in (d +:+ t, r)
           | None => let '(t, r) := read_text fuel rest in (String c t, r)
           end
  | _, _ => ("", s)
  end.

Fixpoint read_params (fuel : nat) (s : string) : option (list param) :=
  match fuel with
  | O => None
  | S fuel =>
      if bool_decide (s = "</params></methodCall>") then Some []
      else
        '(p, rest) ← match strip_prefix "<param><value><string>" s with
          | Some rest => let '(t, rest) := read_text (String.length rest) rest in
                         rest ← strip_prefix "</string></value></param>" rest; Some (PString t, rest)
          | None =>
              match strip_prefix "<param><value><boolean>1</boolean></value></param>" s with
              | Some rest => Some (PBool true, rest)
              | None => rest ← strip_prefix "<param><value><boolean>0</boolean></value></param>" s;
                        Some (PBool false, rest)
              end
          end;
        ps ← read_params fuel rest; Some (p :: ps)
  end.

Definition call_header : string :=
  "<?xml version=" +:+ dquote +:+ "1.0" +:+ dquote +:+ "?><methodCall><methodName>".
Definition read_call (s : string) : option (string * list param) :=
  rest ← strip_prefix call_header s;
  let '(method, rest) := read_text (String.length rest) rest in
  rest ← strip_prefix "</methodName><params>" rest;
  ps ← read_params (String.length rest) rest; Some (method, ps).

(** What XML can hold of a string: anything else becomes U+FFFD. *)
Definition xml_rune (r : rune) : string :=
  if negb (is_character r.1) || ((r.1 =? rune_error)%Z && (slen r.2 =? 1)%Z) then encode_rune rune_error else r.2.
Definition xml_clean (s : string) : string := foldr (λ r acc, xml_rune r +:+ acc) "" (runes s).
Definition read_back (p : param) : param := match p with PString s => PString (xml_clean s) | _ => p end.

Lemma strip_prefix_ne a t c s : a ≠ c → strip_prefix (String a t) (String c s) = None.
Proof. intros H. cbn [strip_prefix]. by rewrite (proj2 (Ascii.eqb_neq _ _) H). Qed.

(** Bytes that start no tag and no reference are copied. *)
Lemma reference_none l c s : Forall (λ p, ∃ t, p.1 = String "&" t) l → c ≠ "&"%char → reference l (String c s) = None.
Proof.
  intros H Hc. induction H as [|[name d] l (t & Ht) _ IH]; [done|]. cbn [fst] in Ht. subst name. cbn [reference].
  by rewrite strip_prefix_ne.
Qed.
Lemma references_amp : Forall (λ p, ∃ t, p.1 = String "&" t) references.
Proof. repeat constructor; eexists; reflexivity. Qed.

Lemma read_plain bytes : all_bytes (λ c, negb (Ascii.eqb c "<") && negb (Ascii.eqb c "&")) bytes = true →
  ∀ fuel s, (String.length (bytes +:+ s) ≤ fuel)%nat → ∃ fuel', (String.length s ≤ fuel')%nat ∧
    read_text fuel (bytes +:+ s) = let '(t, r) := read_text fuel' s in (bytes +:+ t, r).
Proof.
  induction bytes as [|c bytes IH]; intros Hb fuel s Hf.
  - exists fuel. split; [exact Hf|]. cbn [String.append]. destruct (read_text fuel s). reflexivity.
  - cbn [all_bytes] in Hb. apply andb_true_iff in Hb as [[Hc1 Hc2]%andb_true_iff Hb].
    rewrite negb_true_iff in Hc1, Hc2. destruct fuel as [|fuel]; [cbn in Hf; lia|].
    destruct (IH Hb fuel s) as (f & Hs & E); [cbn in Hf; lia|]. exists f. split; [exact Hs|].
    change (String c bytes +:+ s) with (String c (bytes +:+ s)). cbn [read_text]. rewrite Hc1.
    rewrite (reference_none _ _ _ references_amp (proj1 (Ascii.eqb_neq _ _) Hc2)). rewrite E. by destruct (read_text f s).
Qed.

(** A reference is read as its character. *)
Lemma read_reference name c : (name, c) ∈ references →
  ∀ fuel s, (String.length (name +:+ s) ≤ fuel)%nat → ∃ fuel', (String.length s ≤ fuel')%nat ∧
    read_text fuel (name +:+ s) = let '(t, r) := read_text fuel' s in (c +:+ t, r).
Proof.
  intros Hin fuel s Hf. destruct fuel as [|fuel].
  - exfalso. unfold references in Hin. rewrite !elem_of_cons, elem_of_nil in Hin.
    destruct_or! Hin; try (injection Hin as -> ->); cbn in Hf; (lia || done).
  - exists fuel. unfold references in Hin. rewrite !elem_of_cons, elem_of_nil in Hin.
    destruct_or! Hin; try (injection Hin as -> ->); try done; (split; [cbn in Hf; lia|reflexivity]).
Qed.

Lemma high_plain bytes : all_bytes (λ c, 128 <=? byte_of c)%Z bytes = true →
  all_bytes (λ c, negb (Ascii.eqb c "<") && negb (Ascii.eqb c "&")) bytes = true.
Proof.
  apply all_bytes_impl. intros c Hc%Z.leb_le.
  destruct (Ascii.eqb_spec c "<") as [->|]; [by vm_compute in Hc|]. by destruct (Ascii.eqb_spec c "&") as [->|]; [vm_compute in Hc|].
Qed.

(** What one rune is written as is read as what XML can hold of it. *)
Lemma read_rune r : rune_bytes r → ∀ fuel s, (String.length (escape_rune r +:+ s) ≤ fuel)%nat →
  ∃ fuel', (String.length s ≤ fuel')%nat ∧
    read_text fuel (escape_rune r +:+ s) = let '(t, r') := read_text fuel' s in (xml_rune r +:+ t, r').
Proof.
  assert (all_bytes (λ c, 128 <=? byte_of c)%Z (encode_rune rune_error) = true) as HE by by vm_compute.
  intros [(c & -> & Hc)|[Hz Hb]].
  - assert (∀ name d, (name, d) ∈ references → escape_rune (byte_of c, String c "") = name →
      xml_rune (byte_of c, String c "") = d → ∀ fuel s, (String.length (escape_rune (byte_of c, String c "") +:+ s) ≤ fuel)%nat →
      ∃ fuel', (String.length s ≤ fuel')%nat ∧ read_text fuel (escape_rune (byte_of c, String c "") +:+ s) =
        let '(t, r') := read_text fuel' s in (xml_rune (byte_of c, String c "") +:+ t, r')) as Href.
    { intros name d Hin -> ->. by apply read_reference. }
    assert (∀ z, byte_of c = z → c = chr z) as Hchr by (intros z <-; symmetry; apply chr_byte_of).
    destruct (decide (byte_of c ∈ [34; 39; 38; 60; 62; 9; 10; 13]%Z)) as [Hs|Hs].
    + rewrite !elem_of_cons, elem_of_nil in Hs.
      destruct_or! Hs; try done; apply Hchr in Hs; subst c;
        (eapply Href; [|vm_compute; reflexivity|vm_compute; reflexivity]; unfold references, dquote; rewrite !elem_of_cons; vm_compute; tauto).
    + rewrite !not_elem_of_cons in Hs. destruct Hs as (H1 & H2 & H3 & H4 & H5 & H6 & H7 & H8 & _).
      apply Z.eqb_neq in H1, H2, H3, H4, H5, H6, H7, H8.
      assert ((byte_of c =? rune_error)%Z = false) as HR by (unfold rune_error; lia).
      unfold escape_rune, xml_rune. cbn [fst snd]. rewrite H1, H2, H3, H4, H5, H6, H7, H8, HR, andb_false_l, orb_false_r.
      destruct (negb (is_character (byte_of c))); [by apply read_plain, high_plain|].
      apply read_plain. cbn. apply Z.eqb_neq in H3, H4. rewrite andb_true_r, andb_true_iff, !negb_true_iff, !Ascii.eqb_neq.
      split; intros ->; [by vm_compute in H4|by vm_compute in H3].
  - assert (escape_rune r = xml_rune r) as E.
    { destruct r as [z b]. cbn in Hz. unfold escape_rune, xml_rune. cbn [fst snd]. by repeat (case_match; [exfalso; lia|]). }
    rewrite E. apply read_plain, high_plain. unfold xml_rune. by case_match.
Qed.

Lemma read_escaped s rest fuel :
  (∀ fuel, read_text fuel rest = ("", rest)) → (String.length (escape_text s +:+ rest) ≤ fuel)%nat →
  read_text fuel (escape_text s +:+ rest) = (xml_clean s, rest).
Proof.
  intros Hrest. unfold escape_text, xml_clean. pose proof (runes_bytes _ s (Nat.le_refl _)) as H. revert fuel.
  induction H as [|r l Hr _ IH]; intros fuel Hf; [apply Hrest|]. cbn [foldr] in Hf |- *.
  rewrite <- app_assoc_str in Hf |- *. destruct (read_rune r Hr fuel _ Hf) as (fuel' & Hf' & ->). by rewrite IH.
Qed.

Lemma stops_at_tag s fuel : read_text fuel (String "<" s) = ("", String "<" s).
Proof. by destruct fuel. Qed.

Definition param_text (p : param) : string :=
  "<param><value>" +:+
  match p with
  | PString s => "<string>" +:+ escape_text s +:+ "</string>"
  | PBool true => "<boolean>1</boolean>" | PBool false => "<boolean>0</boolean>" | POther _ => ""
  end +:+ "</value></param>".
Definition supported (p : param) : bool := match p with POther _ => false | _ => true end.
Definition params_text (ps : list param) : string := foldr (λ p acc, param_text p +:+ acc) "" ps.

Lemma marshal_params_text ps buffer b :
  marshal_params buffer ps = Ok b ↔ forallb supported ps = true ∧ b = buffer +:+ params_text ps.
Proof.
  revert buffer. induction ps as [|p ps IH]; intros buffer.
  - cbn. rewrite app_nil_r_str. naive_solver.
  - unfold params_text. cbn [foldr forallb marshal_params]. fold (params_text ps). unfold marshal_param, param_text.
    destruct p as [s|v|t]; cbn [mbind result_bind supported andb].
    + rewrite IH, !app_assoc_str. done.
    + rewrite IH, !app_assoc_str. by destruct v.
    + split; [done|by intros [? _]].
Qed.

Lemma read_params_back ps fuel : forallb supported ps = true → length ps < fuel →
  read_params fuel (params_text ps +:+ "</params></methodCall>") = Some (read_back <$> ps).
Proof.
  revert fuel. induction ps as [|p ps IH]; intros [|fuel] Hs Hf; [lia|reflexivity|cbn in Hf; lia|].
  cbn [forallb] in Hs. apply andb_true_iff in Hs as [Hp Hs]. cbn [length] in Hf.
  specialize (IH fuel Hs ltac:(lia)). unfold params_text. cbn [foldr]. fold (params_text ps).
  revert IH. generalize (params_text ps) as text. intros text IH.
  destruct p as [s|[|]|t]; try done.
  - assert ((param_text (PString s) +:+ text) +:+ "</params></methodCall>" =
      "<param><value><string>" +:+ (escape_text s +:+ ("</string></value></param>" +:+ (text +:+ "</params></methodCall>")))) as ->.
    { unfold param_text. rewrite <- !app_assoc_str. reflexivity. }
    cbn [read_params]. rewrite bool_decide_eq_false_2 by done. rewrite strip_prefix_app.
    rewrite (read_escaped s ("</string></value></param>" +:+ _) _ (stops_at_tag _) (Nat.le_refl _)).
    rewrite strip_prefix_app. cbn [mbind option_bind]. by rewrite IH.
  - cbn [read_params]. rewrite bool_decide_eq_false_2 by done. cbn [param_text String.append]. cbn. by rewrite IH.
  - cbn [read_params]. rewrite bool_decide_eq_false_2 by done. cbn. by rewrite IH.
Qed.

Lemma params_length ps x : length ps < String.length (params_text ps +:+ String "<" x).
Proof.
  induction ps as [|p ps IH]; [cbn; lia|]. unfold params_text. cbn [foldr length]. fold (params_text ps).
  unfold param_text. rewrite !length_app_str in *. cbn [String.length] in *. lia.
Qed.

Lemma call_text method params : forallb supported params = true →
  ∃ text, marshalCall method params = Ok text ∧ read_call text = Some (xml_clean method, read_back <$> params).
Proof.
  intros Hs. unfold marshalCall. rewrite (proj2 (marshal_params_text _ _ _) (conj Hs eq_refl)). cbn [mbind result_bind].
  eexists. split; [reflexivity|].
  assert (∀ x, ((((("<?xml version=" +:+ dquote +:+ "1.0" +:+ dquote +:+ "?>") +:+ "<methodCall><methodName>") +:+
    escape_text method) +:+ "</methodName><params>") +:+ params_text params) +:+ x =
    call_header +:+ (escape_text method +:+ ("</methodName><params>" +:+ (params_text params +:+ x)))) as ->.
  { intros x. unfold call_header. rewrite <- !app_assoc_str. reflexivity. }
  unfold read_call. rewrite strip_prefix_app. cbn [mbind option_bind].
  rewrite (read_escaped method ("</methodName><params>" +:+ _) _ (stops_at_tag _) (Nat.le_refl _)).
  rewrite strip_prefix_app. cbn [mbind option_bind]. rewrite read_params_back; [done|done|apply params_length].
Qed.

(** C36: whatever the strings of a call are, a server reads from its text exactly the method and
    the parameters, where what XML cannot hold is U+FFFD; a call has no text only when a
    parameter is of a type that is not supported. *)
Theorem call_read_back method params :
  match marshalCall method params with
  | Ok text => read_call text = Some (xml_clean method, read_back <$> params)
  | Err _ => ∃ type, POther type ∈ params
  end.
Proof.
  destruct (forallb supported params) eqn:Hs.
  - destruct (call_text method params Hs) as (text & -> & Hr). exact Hr.
  - destruct (marshalCall method params) as [text|e] eqn:E.
    + exfalso. unfold marshalCall in E. destruct (marshal_params _ params) as [b|e] eqn:Ep; [|done].
      apply marshal_params_text in Ep as [Hs' _]. by rewrite Hs' in Hs.
    + apply not_true_iff_false in Hs. destruct (decide (Exists (λ p, supported p = false) params)) as [H|H].
      * apply Exists_exists in H as ([| |t] & Hin & Hp); [done|done|by exists t].
      * destruct Hs. apply forallb_elem_of. intros p Hp. apply not_false_iff_true. intros Hn. apply H, Exists_exists. eauto.
Qed.

(** ** Replies *)

(** The fuel is enough: with more fuel than tokens the result does not depend on it, and no
    element gives tokens back. *)
Definition shrinks {A} (m : decoder A) (ts : list token) : Prop := length (m ts).1 ≤ length ts.

Lemma skip_shrinks fin depth ts : length (skip_tokens fin depth ts).1 ≤ length ts.
Proof.
  revert depth. induction ts as [|[] ts IH]; intros depth; cbn; [lia|..]; try (etrans; [apply IH|lia]).
  destruct depth; [cbn; lia|etrans; [apply IH|lia]].
Qed.
Lemma text_shrinks fin depth data ts : length (text_tokens fin depth data ts).1 ≤ length ts.
Proof.
  revert depth data. induction ts as [|[] ts IH]; intros depth d; cbn; [lia|..]; try (etrans; [apply IH|lia]).
  destruct depth; [cbn; lia|etrans; [apply IH|lia]].
Qed.
Lemma int_shrinks fin ts : length (element_int fin ts).1 ≤ length ts.
Proof.
  unfold element_int, mbind, proc_bind. pose proof (text_shrinks fin 0 "" ts) as H. fold (element_string fin ts) in H.
  destruct (element_string fin ts) as [ts' [data|e]]; [|exact H]. cbn [fst] in H.
  destruct (bool_decide _); [exact H|]. by destruct (atoi _).
Qed.

(** Two decoders that agree on all shorter inputs agree after any step that shrinks. *)
Definition same_below {A} (n : nat) (m1 m2 : decoder A) : Prop :=
  ∀ ts, length ts ≤ n → m1 ts = m2 ts ∧ length (m1 ts).1 ≤ length ts.

Lemma same_bind {A B} n (m1 m2 : decoder A) (f1 f2 : A → decoder B) :
  same_below n m1 m2 → (∀ a, same_below n (f1 a) (f2 a)) → same_below n (m1 ≫= f1) (m2 ≫= f2).
Proof.
  intros Hm Hf ts Hn. destruct (Hm ts Hn) as [E L]. unfold mbind, proc_bind. rewrite <- E.
  destruct (m1 ts) as [ts' [a|e]]; [|done]. cbn in L. destruct (Hf a ts' ltac:(lia)) as [E' L']. split; [done|lia].
Qed.
Lemma same_self {A} n (m : decoder A) : (∀ ts, length (m ts).1 ≤ length ts) → same_below n m m.
Proof. intros H ts _. split; [done|apply H]. Qed.
Lemma same_ret {A} n (a : A) : same_below n (mret a : decoder A) (mret a).
Proof. by apply same_self. Qed.
Lemma same_next {A} fin n (f1 f2 : token → decoder A) :
  (∀ t, same_below n (f1 t) (f2 t)) → same_below (S n) (next fin ≫= f1) (next fin ≫= f2).
Proof.
  intros H [|t ts] Hn; [done|]. cbn [length] in Hn. destruct (H t ts ltac:(lia)) as [E L].
  unfold mbind, proc_bind. cbn [next]. split; [done|]. cbn [length]. lia.
Qed.
Lemma same_none {A} fin (f1 f2 : token → decoder A) : same_below 0 (next fin ≫= f1) (next fin ≫= f2).
Proof. intros [|t ts] Hn; [done|cbn in Hn; lia]. Qed.

#[local] Hint Resolve same_ret same_none : core.
Lemma same_skip fin n : same_below n (Skip fin) (Skip fin).
Proof. apply (same_self n (Skip fin)). intros ts. exact (skip_shrinks fin 0 ts). Qed.
Lemma same_string fin n : same_below n (element_string fin) (element_string fin).
Proof. apply (same_self n (element_string fin)). intros ts. exact (text_shrinks fin 0 "" ts). Qed.
Lemma same_int fin n : same_below n (element_int fin) (element_int fin).
Proof. apply (same_self n (element_int fin)). intros ts. exact (int_shrinks fin ts). Qed.
#[local] Hint Resolve same_skip same_string same_int : core.

Ltac same_step :=
  repeat first
    [ solve [auto]
    | apply same_bind; [solve [auto]|intros]
    | match goal with |- context [if ?b then _ else _] => destruct b end
    | match goal with |- context [match ?t with TStart _ => _ | TEnd _ => _ | TText _ => _ | TOther => _ end] => destruct t end ].

Lemma unmarshal_fuel fin n f1 f2 : n < f1 → n < f2 →
  (∀ start v text, same_below n (unmarshal_value fin f1 start v text) (unmarshal_value fin f2 start v text)) ∧
  (∀ start members, same_below n (decode_struct fin f1 start members) (decode_struct fin f2 start members)) ∧
  (∀ start name v, same_below n (decode_member fin f1 start name v) (decode_member fin f2 start name v)).
Proof.
  revert f1 f2. induction n as [|n IH]; intros [|f1] [|f2] H1 H2; try lia.
  - split_and!; intros; cbn [unmarshal_value decode_struct decode_member]; auto.
  - destruct (IH f1 f2 ltac:(lia) ltac:(lia)) as (IHv & IHs & IHm).
    split_and!; intros; cbn [unmarshal_value decode_struct decode_member]; apply same_next; intros t.
    + same_step.
    + same_step.
    + same_step.
Qed.

(** What an XML-RPC value is, and how it may be written: text may come in pieces, and blanks
    and comments may stand between elements. *)
Inductive value :=
| VString (s : string) | VPlain (s : string) | VInt (n : Z) | VBool (b : bool)
| VStruct (members : list (string * value)).

Definition blank (s : string) : bool := all_bytes (λ c, bool_decide (byte_of c ∈ [32; 9; 10; 13]%Z)) s.
Definition gap (ts : list token) : Prop :=
  Forall (λ t, match t with TText d => blank d = true | TOther => True | _ => False end) ts.
Inductive pieces : string → list token → Prop :=
| pieces_nil : pieces "" []
| pieces_text d s ts : pieces s ts → pieces (d +:+ s) (TText d :: ts)
| pieces_other s ts : pieces s ts → pieces s (TOther :: ts).

Inductive written : value → list token → Prop :=
| written_string s g1 ts g2 : gap g1 → pieces s ts → gap g2 →
    written (VString s) (g1 ++ TStart "string" :: ts ++ TEnd "string" :: g2)
| written_plain s ts : pieces s ts → written (VPlain s) ts
| written_int tag text n g1 ts g2 : tag ∈ ["int"; "i4"] → atoi (trim_space text) = Some n →
    gap g1 → pieces text ts → gap g2 → written (VInt n) (g1 ++ TStart tag :: ts ++ TEnd tag :: g2)
| written_bool (b : bool) g1 ts g2 : gap g1 → pieces (if b then "1" else "0") ts → gap g2 →
    written (VBool b) (g1 ++ TStart "boolean" :: ts ++ TEnd "boolean" :: g2)
| written_struct ms g1 ts g2 : gap g1 → members_written ms ts → gap g2 →
    written (VStruct ms) (g1 ++ TStart "struct" :: ts ++ TEnd "struct" :: g2)
with members_written : list (string * value) → list token → Prop :=
| members_nil g : gap g → members_written [] g
| members_cons name v ms g g1 ns g2 vs g3 ts :
    gap g → gap g1 → pieces name ns → gap g2 → written v vs → gap g3 → members_written ms ts →
    members_written ((name, v) :: ms)
      (g ++ TStart "member" :: g1 ++ TStart "name" :: ns ++ TEnd "name" :: g2 ++ TStart "value" :: vs ++
       TEnd "value" :: g3 ++ TEnd "member" :: ts).

Scheme written_mutual := Induction for written Sort Prop
with members_mutual := Induction for members_written Sort Prop.
Combined Scheme written_ind_mutual from written_mutual, members_mutual.

(** The value that the client works with; a member that comes twice keeps its last value. *)
Fixpoint meaning (v : value) : xmlRPCValue :=
  match v with
  | VString s => Value s 0 false None
  | VPlain s => Value (trim_space s) 0 false None
  | VInt n => Value "" n false None
  | VBool b => Value "" 0 b None
  | VStruct ms => Value "" 0 false (Some (foldl (λ m p, <[fst p := meaning (snd p)]> m) ∅ ms))
  end.

Lemma trim_blank s : blank s = true → trim_space s = "".
Proof.
  intros H. unfold trim_space. rewrite runes_ascii.
  - assert (∀ l : list ascii, Forall (λ c, is_space (byte_of c) = true) l →
      drop_while (λ r : rune, is_space r.1) ((λ c, (byte_of c, String c "")) <$> l) = []) as D.
    { induction 1 as [|c l Hc _ IH]; [done|]. cbn. by rewrite Hc. }
    rewrite D; [done|]. unfold blank in H. revert H. clear D. induction s as [|c s IH]; cbn; [constructor|].
    intros [Hc Hs]%andb_true_iff. constructor; [|by apply IH]. apply bool_decide_eq_true in Hc.
    rewrite !elem_of_cons, elem_of_nil in Hc. destruct_or! Hc; try done; by rewrite Hc.
  - unfold is_ascii. eapply all_bytes_impl; [|exact H]. intros c Hc%bool_decide_eq_true.
    rewrite !elem_of_cons, elem_of_nil in Hc. destruct_or! Hc; try done; by rewrite Hc.
Qed.

Section replies.
Context (fin : error).

Lemma pieces_read s ts : pieces s ts → ∀ data name rest,
  text_tokens fin 0 data (ts ++ TEnd name :: rest) = (rest, Ok (data +:+ s)).
Proof.
  induction 1 as [|d s ts _ IH|s ts _ IH]; intros data name rest; cbn [app text_tokens].
  - by rewrite app_nil_r_str.
  - by rewrite IH, app_assoc_str.
  - apply IH.
Qed.
Lemma string_read s ts name rest : pieces s ts → element_string fin (ts ++ TEnd name :: rest) = (rest, Ok s).
Proof. intros H. apply (pieces_read _ _ H ""). Qed.
Lemma int_read text n ts name rest : pieces text ts → atoi (trim_space text) = Some n →
  element_int fin (ts ++ TEnd name :: rest) = (rest, Ok n).
Proof.
  intros H Hn. unfold element_int, mbind, proc_bind. rewrite (string_read _ _ _ _ H).
  destruct (decide (text = "")) as [->|Ht]; [by vm_compute in Hn|].
  by rewrite bool_decide_eq_false_2, Hn.
Qed.

(** Gaps are passed over; what they leave of text is blank. *)
Lemma value_gap g : gap g → ∀ fuel start v text ts, length (g ++ ts) < fuel → blank text = true →
  ∃ fuel' text', length ts < fuel' ∧ blank text' = true ∧
    unmarshal_value fin fuel start v text (g ++ ts) = unmarshal_value fin fuel' start v text' ts.
Proof.
  induction 1 as [|t g Ht _ IH]; intros fuel start v text ts Hf Hb; [by exists fuel, text|].
  destruct fuel as [|fuel]; [cbn in Hf; lia|]. cbn [app length] in Hf.
  destruct t as [|?|d|]; try done.
  - destruct (IH fuel start v (text +:+ d) ts ltac:(lia)) as (f & x & Hs & Hx & E).
    { unfold blank in *. by rewrite all_bytes_app, Hb, Ht. }
    exists f, x. split; [done|]. split; [done|]. exact E.
  - destruct (IH fuel start v text ts ltac:(lia) Hb) as (f & x & Hs & Hx & E). by exists f, x.
Qed.
Lemma struct_gap g : gap g → ∀ fuel start m ts, length (g ++ ts) < fuel →
  ∃ fuel', length ts < fuel' ∧ decode_struct fin fuel start m (g ++ ts) = decode_struct fin fuel' start m ts.
Proof.
  induction 1 as [|t g Ht _ IH]; intros fuel start m ts Hf; [by exists fuel|].
  destruct fuel as [|fuel]; [cbn in Hf; lia|]. cbn [app length] in Hf.
  destruct (IH fuel start m ts ltac:(lia)) as (f & Hs & E). exists f. by destruct t.
Qed.
Lemma member_gap g : gap g → ∀ fuel start name v ts, length (g ++ ts) < fuel →
  ∃ fuel', length ts < fuel' ∧ decode_member fin fuel start name v (g ++ ts) = decode_member fin fuel' start name v ts.
Proof.
  induction 1 as [|t g Ht _ IH]; intros fuel start name v ts Hf; [by exists fuel|].
  destruct fuel as [|fuel]; [cbn in Hf; lia|]. cbn [app length] in Hf.
  destruct (IH fuel start name v ts ltac:(lia)) as (f & Hs & E). exists f. by destruct t.
Qed.

(** The end of a value, after a gap *)
Lemma value_end g : gap g → ∀ fuel start v text rest, length (g ++ TEnd start :: rest) < fuel → blank text = true →
  unmarshal_value fin fuel start v text (g ++ TEnd start :: rest) = (rest, Ok v).
Proof.
  intros Hg fuel start v text rest Hf Hb. destruct (value_gap g Hg fuel start v text _ Hf Hb) as ([|f] & x & Hs & Hx & ->); [lia|].
  cbn [unmarshal_value]. rewrite (proc_bind_run _ _ _ rest (Ok (TEnd start))) by done.
  rewrite bool_decide_eq_true_2 by done. rewrite (trim_blank x Hx). destruct v as [s n b m]. cbn [String_].
  destruct (decide (s = "")) as [->|Es]; [by case_match|]. by rewrite (bool_decide_eq_false_2 _ Es).
Qed.

Lemma next_run {A} t ts (f : token → decoder A) : (next fin ≫= f) (t :: ts) = f t ts.
Proof. done. Qed.

(** A value that is one element, whose content is read by [m] *)
Lemma element_value {A} (m : nat → decoder A) (store : A → xmlRPCValue) a tag g1 ts g2 fuel start rest :
  gap g1 → gap g2 → length (g1 ++ TStart tag :: ts ++ TEnd tag :: g2 ++ TEnd start :: rest) < fuel →
  (∀ fuel text ts, unmarshal_value fin (S fuel) start no_value text (TStart tag :: ts) =
    (x ← m fuel; unmarshal_value fin fuel start (store x) text) ts) →
  (∀ fuel, length (ts ++ TEnd tag :: g2 ++ TEnd start :: rest) < fuel →
    m fuel (ts ++ TEnd tag :: g2 ++ TEnd start :: rest) = (g2 ++ TEnd start :: rest, Ok a)) →
  unmarshal_value fin fuel start no_value "" (g1 ++ TStart tag :: ts ++ TEnd tag :: g2 ++ TEnd start :: rest) =
    (rest, Ok (store a)).
Proof.
  intros G1 G2 Hf Hstep Hm.
  destruct (value_gap g1 G1 fuel start no_value "" _ Hf eq_refl) as ([|f] & x & Hs & Hx & ->); [lia|].
  cbn [length] in Hs. rewrite Hstep, (proc_bind_run _ _ _ _ _ (Hm f ltac:(lia))). apply value_end; [done| |done].
  rewrite length_app in Hs. cbn [length] in Hs. lia.
Qed.

Lemma plain_value s ts : pieces s ts → ∀ fuel start text rest, length (ts ++ TEnd start :: rest) < fuel →
  unmarshal_value fin fuel start no_value text (ts ++ TEnd start :: rest) =
    (rest, Ok (Value (trim_space (text +:+ s)) 0 false None)).
Proof.
  induction 1 as [|d s ts _ IH|s ts _ IH]; intros [|fuel] start text rest Hf; cbn [app length] in *; try lia.
  - rewrite app_nil_r_str. cbn [unmarshal_value]. rewrite next_run. by rewrite bool_decide_eq_true_2.
  - cbn [unmarshal_value]. rewrite next_run, IH by lia. by rewrite app_assoc_str.
  - cbn [unmarshal_value]. rewrite next_run. apply IH. lia.
Qed.

Ltac lengths := repeat first [progress rewrite ?length_app in * | progress cbn [length] in *]; lia.

Lemma member_read name v g1 ns g2 vs g3 : gap g1 → pieces name ns → gap g2 → gap g3 →
  (∀ fuel rest, length (vs ++ TEnd "value" :: rest) < fuel →
    unmarshal_value fin fuel "value" no_value "" (vs ++ TEnd "value" :: rest) = (rest, Ok v)) →
  ∀ fuel ts, length (g1 ++ TStart "name" :: ns ++ TEnd "name" :: g2 ++ TStart "value" :: vs ++ TEnd "value" :: g3 ++ TEnd "member" :: ts) < fuel →
  decode_member fin fuel "member" "" no_value
    (g1 ++ TStart "name" :: ns ++ TEnd "name" :: g2 ++ TStart "value" :: vs ++ TEnd "value" :: g3 ++ TEnd "member" :: ts) =
    (ts, Ok (name, v)).
Proof.
  intros G1 Hn G2 G3 Hv fuel ts Hf. destruct (member_gap g1 G1 fuel "member" "" no_value _ Hf) as ([|f1] & L1 & ->); [lia|].
  cbn [length] in L1. cbn [decode_member]. rewrite next_run, bool_decide_eq_true_2 by done.
  rewrite (proc_bind_run _ _ _ _ _ (string_read _ _ _ _ Hn)).
  destruct (member_gap g2 G2 f1 "member" name no_value (TStart "value" :: vs ++ TEnd "value" :: g3 ++ TEnd "member" :: ts)) as ([|f2] & L2 & ->);
    [lengths|lia|].
  cbn [length] in L2. cbn [decode_member]. rewrite next_run, bool_decide_eq_false_2, bool_decide_eq_true_2 by done.
  rewrite (proc_bind_run _ _ _ _ _ (Hv f2 (g3 ++ TEnd "member" :: ts) ltac:(lengths))).
  destruct (member_gap g3 G3 f2 "member" name v (TEnd "member" :: ts)) as ([|f3] & L3 & ->);
    [lengths|lia|].
  cbn [decode_member]. by rewrite next_run, bool_decide_eq_true_2.
Qed.

(** However a value is written, it is decoded to its meaning. *)
Lemma decode_written :
  (∀ v ts, written v ts → ∀ fuel start rest, length (ts ++ TEnd start :: rest) < fuel →
    unmarshal_value fin fuel start no_value "" (ts ++ TEnd start :: rest) = (rest, Ok (meaning v))) ∧
  (∀ ms ts, members_written ms ts → ∀ fuel start members rest, length (ts ++ TEnd start :: rest) < fuel →
    decode_struct fin fuel start members (ts ++ TEnd start :: rest) =
      (rest, Ok (foldl (λ m p, <[fst p := meaning (snd p)]> m) members ms))).
Proof.
  apply written_ind_mutual.
  - intros s g1 ts g2 G1 P G2 fuel start rest Hf. rewrite <- app_assoc in *. cbn [app] in *. rewrite <- app_assoc in *.
    apply (element_value (λ _, element_string fin) (λ s, with_string s no_value)); try done. intros f _. by apply string_read.
  - intros s ts P fuel start rest Hf. by rewrite (plain_value s ts P).
  - intros tag text n g1 ts g2 Ht Hn G1 P G2 fuel start rest Hf. rewrite <- app_assoc in *. cbn [app] in *. rewrite <- app_assoc in *.
    apply (element_value (λ _, element_int fin) (λ n, with_int n no_value)); try done.
    + intros f x ts'. rewrite !elem_of_cons, elem_of_nil in Ht. by destruct_or! Ht; subst.
    + intros f _. by apply (int_read text).
  - intros b g1 ts g2 G1 P G2 fuel start rest Hf. rewrite <- app_assoc in *. cbn [app] in *. rewrite <- app_assoc in *.
    apply (element_value (λ _, raw ← element_string fin; mret (bool_decide (raw = "1") || equal_fold raw "true"))
      (λ b, with_bool b no_value)); try done.
    + intros f x ts'. change (unmarshal_value fin (S f) start no_value x (TStart "boolean" :: ts')) with
        ((raw ← element_string fin; unmarshal_value fin f start
           (with_bool (bool_decide (raw = "1") || equal_fold raw "true") no_value) x) ts').
      unfold mbind, proc_bind, mret, proc_ret. destruct (element_string fin ts') as [? [?|?]]; reflexivity.
    + intros f _. rewrite (proc_bind_run _ _ _ _ _ (string_read _ _ _ _ P)). by destruct b.
  - intros ms g1 ts g2 G1 _ IH G2 fuel start rest Hf. rewrite <- app_assoc in *. cbn [app] in *. rewrite <- app_assoc in *.
    apply (element_value (λ f, decode_struct fin f "struct" ∅) (λ ms, with_struct ms no_value)); try done.
    intros f Hf'. by apply IH.
  - intros g G fuel start members rest Hf. destruct (struct_gap g G fuel start members _ Hf) as ([|f] & Hs & ->); [lia|].
    cbn [decode_struct]. by rewrite next_run, bool_decide_eq_true_2.
  - intros name v ms g g1 ns g2 vs g3 ts G G1 Hn G2 _ IHv G3 _ IHm fuel start members rest Hf.
    repeat (rewrite <- !app_assoc in *; cbn [app] in * ).
    destruct (struct_gap g G fuel start members _ Hf) as ([|f] & Hs & ->); [lia|]. cbn [length] in Hs.
    cbn [decode_struct]. rewrite next_run, bool_decide_eq_true_2 by done. cbn [negb].
    rewrite (proc_bind_run _ _ _ _ _ (member_read name (meaning v) g1 ns g2 vs g3 G1 Hn G2 G3 (λ f rest, IHv f "value" rest) f (ts ++ TEnd start :: rest) ltac:(lengths))).
    rewrite IHm; [done|]. lengths.
Qed.

(** A reply with one value, in a document *)
Inductive reply (v : value) : list token → Prop :=
| reply_intro prolog name g1 g2 g3 vs g4 g5 g6 rest :
    Forall (λ t, ∀ e, t ≠ TStart e) prolog → gap g1 → gap g2 → gap g3 → written v vs → gap g4 → gap g5 → gap g6 →
    reply v (prolog ++ TStart name :: g1 ++ TStart "params" :: g2 ++ TStart "param" :: g3 ++ TStart "value" :: vs ++
      TEnd "value" :: g4 ++ TEnd "param" :: g5 ++ TEnd "params" :: g6 ++ TEnd name :: rest).

Lemma holder_gap g : gap g → ∀ fuel v ts, length (g ++ ts) < fuel →
  ∃ fuel', length ts < fuel' ∧ decode_holder fin fuel v (g ++ ts) = decode_holder fin fuel' v ts.
Proof.
  induction 1 as [|t g Ht _ IH]; intros fuel v ts Hf; [by exists fuel|].
  destruct fuel as [|fuel]; [cbn in Hf; lia|]. cbn [app length] in Hf.
  destruct (IH fuel v ts ltac:(lia)) as (f & Hs & E). exists f. by destruct t.
Qed.
Lemma params_gap g : gap g → ∀ fuel ps ts, length (g ++ ts) < fuel →
  ∃ fuel', length ts < fuel' ∧ decode_params fin fuel ps (g ++ ts) = decode_params fin fuel' ps ts.
Proof.
  induction 1 as [|t g Ht _ IH]; intros fuel v ts Hf; [by exists fuel|].
  destruct fuel as [|fuel]; [cbn in Hf; lia|]. cbn [app length] in Hf.
  destruct (IH fuel v ts ltac:(lia)) as (f & Hs & E). exists f. by destruct t.
Qed.
Lemma response_gap g : gap g → ∀ fuel r ts, length (g ++ ts) < fuel →
  ∃ fuel', length ts < fuel' ∧ decode_response fin fuel r (g ++ ts) = decode_response fin fuel' r ts.
Proof.
  induction 1 as [|t g Ht _ IH]; intros fuel v ts Hf; [by exists fuel|].
  destruct fuel as [|fuel]; [cbn in Hf; lia|]. cbn [app length] in Hf.
  destruct (IH fuel v ts ltac:(lia)) as (f & Hs & E). exists f. by destruct t.
Qed.

Lemma holder_read v g3 vs g4 : gap g3 → written v vs → gap g4 → ∀ fuel rest,
  length (g3 ++ TStart "value" :: vs ++ TEnd "value" :: g4 ++ TEnd "param" :: rest) < fuel →
  decode_holder fin fuel no_value (g3 ++ TStart "value" :: vs ++ TEnd "value" :: g4 ++ TEnd "param" :: rest) =
    (rest, Ok (meaning v)).
Proof.
  intros G3 Hv G4 fuel rest Hf. destruct (holder_gap g3 G3 fuel no_value _ Hf) as ([|f] & L & ->); [lia|].
  cbn [decode_holder]. rewrite next_run.
  rewrite (proc_bind_run _ _ _ _ _ (proj1 decode_written v vs Hv f "value" (g4 ++ TEnd "param" :: rest) ltac:(lengths))).
  by destruct (holder_gap g4 G4 f (meaning v) (TEnd "param" :: rest)) as ([|f'] & L' & ->); [lengths|lia|].
Qed.

Lemma reply_read v ts : reply v ts → unmarshal_response fin ts = Ok {| Params := [meaning v]; Fault := None |}.
Proof.
  intros [prolog name g1 g2 g3 vs g4 g5 g6 rest Hp G1 G2 G3 Hv G4 G5 G6]. unfold unmarshal_response.
  assert (∀ ts, root (prolog ++ TStart name :: ts) = Some ts) as ->.
  { intros ts'. induction Hp as [|t l Ht _ IH]; [done|]. destruct t as [e| | |]; [by destruct (Ht e)|exact IH..]. }
  match goal with |- snd (decode_response fin ?n ?r ?x) = _ =>
    destruct (response_gap g1 G1 n r _ (Nat.lt_succ_diag_r _)) as ([|f1] & L1 & ->); [lia|] end.
  cbn [decode_response Params]. rewrite next_run.
  destruct (params_gap g2 G2 f1 [] (TStart "param" :: g3 ++ TStart "value" :: vs ++ TEnd "value" :: g4 ++ TEnd "param" ::
    g5 ++ TEnd "params" :: g6 ++ TEnd name :: rest)) as ([|f2] & L2 & E2); [lengths|lia|].
  assert (decode_params fin f1 [] (g2 ++ TStart "param" :: g3 ++ TStart "value" :: vs ++ TEnd "value" :: g4 ++ TEnd "param" ::
    g5 ++ TEnd "params" :: g6 ++ TEnd name :: rest) = (g6 ++ TEnd name :: rest, Ok [meaning v])) as E.
  { rewrite E2. cbn [decode_params]. rewrite next_run.
    rewrite (proc_bind_run _ _ _ _ _ (holder_read v g3 vs g4 G3 Hv G4 f2 (g5 ++ TEnd "params" :: g6 ++ TEnd name :: rest) ltac:(lengths))).
    by destruct (params_gap g5 G5 f2 ([] ++ [meaning v]) (TEnd "params" :: g6 ++ TEnd name :: rest)) as ([|f3] & L3 & ->); [lengths|lia|]. }
  rewrite (proc_bind_run _ _ _ _ _ E). cbn [Fault].
  by destruct (response_gap g6 G6 f1 {| Params := [meaning v]; Fault := None |} (TEnd name :: rest)) as ([|f4] & L4 & ->); [lengths|lia|].
Qed.
End replies.

(** ** The process *)

Lemma member_meaning ms name v : NoDup ms.*1 → (name, v) ∈ ms → member (meaning (VStruct ms)) name = meaning v.
Proof.
  intros Hnd Hin. unfold member. cbn [meaning Struct_ mbind option_bind].
  assert (∀ acc, foldl (λ m p, <[fst p := meaning (snd p)]> m) acc ms !! name = Some (meaning v)) as ->; [|done].
  induction ms as [|[n x] ms IH]; [by apply elem_of_nil in Hin|]. intros acc. cbn [foldl fst snd].
  cbn in Hnd. apply NoDup_cons in Hnd as [Hn Hnd]. apply elem_of_cons in Hin as [[= <- <-]|Hin]; [|by apply IH].
  assert (∀ l acc, name ∉ l.*1 → foldl (λ (m : gmap string xmlRPCValue) p, <[fst p := meaning (snd p)]> m) acc l !! name = acc !! name) as ->.
  { clear. induction l as [|[k x] l IH]; intros acc Hl; [done|]. cbn in Hl. apply not_elem_of_cons in Hl as [H1 H2].
    cbn [foldl fst snd]. rewrite IH by done. by apply lookup_insert_ne. }
  - by rewrite lookup_insert_eq.
  - done.
Qed.

(** one request asks supervisord for the process, and whatever way its answer is written in
    XML-RPC, the client reports the name, the state and the description that it holds; the name
    of the state is made up from the state when the answer has none. *)
Theorem process_info_decoded `{RpcEnv} `{UnicodeCase} c name log :
  socketPath c ≠ "" → name ≠ "" → ∃ r, read_call (body r) = Some ("supervisor.getProcessInfo", [PString (xml_clean name)]) ∧
  ∀ code text ms process state stateName description,
    exchange (r :: log) = Ok (code, text) → (200 ≤ code < 300)%Z → reply (VStruct ms) (tokens text).1 →
    NoDup ms.*1 → ("name", VString process) ∈ ms → ("state", VInt state) ∈ ms →
    ("statename", VString stateName) ∈ ms → ("description", VString description) ∈ ms →
    GetProcessInfo c name log = (r :: log, Ok {|
      Name := if bool_decide (process = "") then name else process; State := state;
      StateName := if bool_decide (to_upper stateName = "") then mapStateName state else to_upper stateName;
      Raw := description |}).
Proof.
  intros Hs Hn. pose proof (call_text "supervisor.getProcessInfo" [PString name]) as (text & E & Hr); [done|].
  exists {| body := text; basicAuth := if negb (bool_decide (username c = "")) || negb (bool_decide (password c = ""))
    then Some (username c, password c) else None |}.
  split; [exact Hr|]. intros code reply_text ms process state stateName description Hx Hc Hp Hnd H1 H2 H3 H4.
  unfold GetProcessInfo. rewrite bool_decide_eq_false_2 by done.
  match type of Hx with exchange (?r :: _) = _ =>
    assert (call c "supervisor.getProcessInfo" [PString name] log = (r :: log, Ok (meaning (VStruct ms)))) as Ec end.
  { unfold call. rewrite bool_decide_eq_false_2 by done. rewrite E. unfold lift, send, mbind, proc_bind. rewrite Hx.
    cbv beta iota zeta. rewrite (proj2 (Z.ltb_ge _ _) (proj1 Hc)), (proj2 (Z.leb_gt _ _) (proj2 Hc)). cbn [orb].
    rewrite (reply_read _ _ _ Hp). reflexivity. }
  rewrite (proc_bind_run _ _ _ _ _ Ec). unfold process_info.
  by rewrite (member_meaning ms _ _ Hnd H1), (member_meaning ms _ _ Hnd H2), (member_meaning ms _ _ Hnd H3), (member_meaning ms _ _ Hnd H4).
Qed.

Module SupervisorDemo.
#[local] Instance case : UnicodeCase := {| lower_rune := λ r, r; upper_rune := λ r, r |}.

(** What supervisord writes, with a line break between members *)
Definition nl : token := TText (String (chr 10) "").
Definition text_member (name value : string) : list token :=
  [TStart "member"; nl; TStart "name"; TText name; TEnd "name"; nl; TStart "value"; TStart "string"; TText value;
   TEnd "string"; TEnd "value"; nl; TEnd "member"; nl].
Definition listed : list token :=
  text_member "name" "sing-box" ++ text_member "statename" "Running" ++ text_member "description" "pid 7" ++
  [TStart "member"; TStart "name"; TText "state"; TEnd "name"; TStart "value"; TStart "int"; TText "20"; TEnd "int";
   TEnd "value"; TEnd "member"; nl].
Definition answer : list token :=
  [TOther; nl; TStart "methodResponse"; nl; TStart "params"; nl; TStart "param"; nl; TStart "value"; TStart "struct"] ++
  listed ++ [TEnd "struct"; TEnd "value"; nl; TEnd "param"; nl; TEnd "params"; nl; TEnd "methodResponse"].
Definition content : list (string * value) :=
  [("name", VString "sing-box"); ("statename", VString "Running"); ("description", VString "pid 7"); ("state", VInt 20)].
#[local] Instance rpc : RpcEnv := {| exchange := λ _, Ok (200%Z, ""); tokens := λ _, (answer, ErrEOF) |}.
Definition client : Client := {| socketPath := "/run/supervisord.sock"; username := "node"; password := "" |}.

Lemma gap_nl : gap [nl].
Proof. by repeat constructor. Qed.
Lemma gap_nil : gap [].
Proof. constructor. Qed.
Lemma one_piece s : pieces s [TText s].
Proof. rewrite <- (app_nil_r_str s) at 1. repeat constructor. Qed.
Lemma text_member_written name s ms ts :
  members_written ms ts → members_written ((name, VString s) :: ms) ([] ++ text_member name s ++ ts).
Proof.
  intros H. apply (members_cons name (VString s) ms [] [nl] [TText name] [nl] [TStart "string"; TText s; TEnd "string"] [nl] (nl :: ts));
    [apply gap_nil|apply gap_nl|apply one_piece|apply gap_nl| |apply gap_nl|].
  - apply (written_string s [] [TText s] []); [apply gap_nil|apply one_piece|apply gap_nil].
  - destruct H as [g G|name' v ms g g1 ns g2 vs g3 ts G].
    + apply members_nil. by constructor.
    + apply (members_cons name' v ms (nl :: g)); try done. by constructor.
Qed.
Lemma content_written : members_written content listed.
Proof.
  do 3 apply text_member_written.
  apply (members_cons "state" (VInt 20) [] [] [] [TText "state"] [] [TStart "int"; TText "20"; TEnd "int"] [] [nl]);
    [apply gap_nil|apply gap_nil|apply one_piece|apply gap_nil| |apply gap_nil|apply members_nil, gap_nl].
  by apply (written_int "int" "20" 20 [] [TText "20"] []); [left|vm_compute|apply gap_nil|apply one_piece|apply gap_nil].
Qed.
Lemma answered : reply (VStruct content) answer.
Proof.
  apply (reply_intro (VStruct content) [TOther; nl] "methodResponse" [nl] [nl] [nl]
    ([] ++ TStart "struct" :: listed ++ TEnd "struct" :: []) [nl] [nl] [nl] []); try apply gap_nl.
  - repeat constructor; intros e; discriminate.
  - apply written_struct; [apply gap_nil| |apply gap_nil].
    exact content_written.
Qed.

(** The answer written above, with line breaks between its members, is read as its content. *)
Lemma process_info_decoded_witness :
  ∃ r, GetProcessInfo client "sing-box" [] =
    ([r], Ok {| Name := "sing-box"; State := 20; StateName := "RUNNING"; Raw := "pid 7" |}).
Proof.
  destruct (process_info_decoded client "sing-box" [] ltac:(done) ltac:(done)) as (r & _ & H). exists r.
  exact (H 200%Z "" content "sing-box" 20%Z "Running" "pid 7" eq_refl ltac:(lia) answered
    ltac:(apply (bool_decide_unpack _); vm_compute; exact I) ltac:(left) ltac:(right; right; right; left) ltac:(right; left) ltac:(right; right; left)).
Defined.
End SupervisorDemo.
