(* ===== verification/Bolt.v ===== *)
(** * The interface to bbolt and to encoding/json

    The stores keep their state in go.etcd.io/bbolt, which is not part of the
    repository: its operations are the classes [BucketOps] and [TxOps], the
    documented behaviour the stores rely on is [BucketLaws] and [TxLaws].
    [Codec] is the JSON encoding of one record type.  The module [Mem] is an
    implementation of the interface, with which the witnesses compute. *)
From S2P Require Import Prelude GoStr.

(** ** Buckets

    [b_items] lists what a cursor visits from [First] by [Next]: bbolt keeps
    keys in byte order.  [b_put] returns an error for an empty or oversized key
    or value. *)
Class BucketOps (B : Type) := {
  b_empty : B;
  b_get : string → B → option string;
  b_put : string → string → B → result B;
  b_delete : string → B → B;
  b_items : B → list (string * string)
}.

Definition key_lt (x y : string * string) : Prop := str_ltb x.1 y.1 = true.

(** [MaxKeySize] and [MaxValueSize] of bbolt *)
Definition storable (k v : string) : Prop :=
  (0 < slen k ≤ 32768)%Z ∧ (slen v ≤ 2147483646)%Z.

Class BucketLaws (B : Type) `{BucketOps B} : Prop := {
  law_get_empty k : b_get k b_empty = None;
  law_put_ok k v b : (∃ b', b_put k v b = Ok b') ↔ storable k v;
  law_get_put k v b b' k' :
    b_put k v b = Ok b' → b_get k' b' = if decide (k = k') then Some v else b_get k' b;
  law_get_delete k b k' :
    b_get k' (b_delete k b) = if decide (k = k') then None else b_get k' b;
  law_items k v b : (k, v) ∈ b_items b ↔ b_get k b = Some v;
  law_sorted b : StronglySorted key_lt (b_items b)
}.

(** ** Transactions: [db.Update]

    The body's error rolls everything back; a body without error is committed,
    unless writing the pages fails, and then nothing of it is kept. *)
Class TxOps (S : Type) := tx_update : (S → result S) → S → S * result unit.

Class TxLaws (S : Type) `{TxOps S} : Prop := {
  law_tx_err f s e : f s = Err e → tx_update f s = (s, Err e);
  law_tx_ok f s s' : f s = Ok s' →
    tx_update f s = (s', Ok tt) ∨ ∃ e, tx_update f s = (s, Err e)
}.

(** ** JSON of one record type

    [codec_ok] delimits the values that survive the encoding (text in ASCII,
    numbers and times in range). *)
Class Codec (T : Type) := {
  marshal : T → result string;
  unmarshal : string → result T;
  codec_ok : T → Prop
}.
Class CodecLaws (T : Type) `{Codec T} : Prop := {
  law_marshal x : codec_ok x → ∃ s, marshal x = Ok s;
  law_unmarshal x s : codec_ok x → marshal x = Ok s → unmarshal s = Ok x
}.

(** [string(bucket.Get(key))] *)
Definition get_str {B} `{BucketOps B} (k : string) (b : B) : string := default "" (b_get k b).

(** [cursor.Seek(k)] followed by [Next]s *)
Definition seek {B} `{BucketOps B} (k : string) (b : B) : list (string * string) :=
  drop_while (λ kv, str_ltb kv.1 k) (b_items b).

(** A loop over a cursor that deletes the entries it visits. *)
Definition delete_keys {B} `{BucketOps B} (ks : list string) (b : B) : B :=
  foldl (λ b k, b_delete k b) b ks.

(** ** Sorted lists of entries *)

Lemma key_lt_trans x y z : key_lt x y → key_lt y z → key_lt x z.
Proof. unfold key_lt. apply str_ltb_trans. Qed.
Lemma key_lt_irrefl x : ¬ key_lt x x.
Proof. unfold key_lt. by rewrite str_ltb_irrefl. Qed.

(** A strictly sorted list is determined by its elements. *)
Lemma sorted_unique l1 l2 :
  StronglySorted key_lt l1 → StronglySorted key_lt l2 →
  (∀ kv, kv ∈ l1 ↔ kv ∈ l2) → l1 = l2.
Proof.
  revert l2. induction l1 as [|x l1 IH]; intros [|y l2] H1 H2 Heq; [done|..].
  - exfalso. assert (y ∈ []) by (apply Heq; left). by apply not_elem_of_nil in H.
  - exfalso. assert (x ∈ []) by (apply Heq; left). by apply not_elem_of_nil in H.
  - apply StronglySorted_inv in H1 as [H1 F1], H2 as [H2 F2].
    rewrite Forall_forall in F1, F2.
    assert (x = y) as ->.
    { assert (x ∈ y :: l2) as Hx by (apply Heq; left).
      assert (y ∈ x :: l1) as Hy by (apply Heq; left).
      apply elem_of_cons in Hx as [->|Hx]; [done|].
      apply elem_of_cons in Hy as [->|Hy]; [done|].
      exfalso. eapply key_lt_irrefl, key_lt_trans; [apply F1, Hy|apply F2, Hx]. }
    f_equal. apply IH; [done..|]. intros kv. split; intros Hin.
    + assert (kv ∈ y :: l2) as Hc by (apply Heq; by right).
      apply elem_of_cons in Hc as [->|Hc]; [|done].
      exfalso. by eapply key_lt_irrefl, F1.
    + assert (kv ∈ y :: l1) as Hc by (apply Heq; by right).
      apply elem_of_cons in Hc as [->|Hc]; [|done].
      exfalso. by eapply key_lt_irrefl, F2.
Qed.

Lemma sorted_keys_nodup l : StronglySorted key_lt l → NoDup l.*1.
Proof.
  induction 1 as [|x l _ IH F]; cbn; constructor; [|done].
  intros ([k v] & Hk & Hin)%list_elem_of_fmap. rewrite Forall_forall in F.
  specialize (F _ Hin). unfold key_lt in F. cbn in Hk. rewrite Hk, str_ltb_irrefl in F. done.
Qed.

Lemma sorted_snoc l x :
  StronglySorted key_lt l → Forall (λ y, key_lt y x) l → StronglySorted key_lt (l ++ [x]).
Proof.
  induction 1 as [|y l Hl IH F]; cbn; intros Hx.
  - repeat constructor.
  - apply Forall_cons in Hx as [Hyx Hx]. constructor; [by apply IH|].
    apply Forall_app. auto.
Qed.

Lemma sorted_filter (P : string * string → Prop) `{∀ x, Decision (P x)} l :
  StronglySorted key_lt l → StronglySorted key_lt (filter P l).
Proof.
  induction 1 as [|y l Hl IH F]; [constructor|]. rewrite filter_cons. case_decide; [|done].
  constructor; [done|]. rewrite Forall_forall in F |- *.
  intros x [_ Hx]%list_elem_of_filter. auto.
Qed.

Lemma filter_prefix_keys (l1 l2 : list (string * string)) :
  NoDup (l1 ++ l2).*1 → filter (λ kv, kv.1 ∉ l1.*1) (l1 ++ l2) = l2.
Proof.
  rewrite fmap_app, NoDup_app, filter_app. intros (_ & Hdis & _).
  assert (filter (λ kv : string * string, kv.1 ∉ l1.*1) l1 = []) as ->.
  { destruct (filter _ l1) as [|kv l] eqn:E; [done|].
    assert (kv ∈ kv :: l) as Hin by left. rewrite <-E, list_elem_of_filter in Hin.
    destruct Hin as [Hn Hin]. destruct Hn. apply list_elem_of_fmap. eauto. }
  cbn. assert (∀ kv, kv ∈ l2 → kv.1 ∉ l1.*1) as Hall.
  { intros kv Hin H1. apply (Hdis kv.1 H1). apply list_elem_of_fmap. eauto. }
  clear Hdis. induction l2 as [|kv l2 IH]; [done|]. rewrite filter_cons, decide_True.
  - f_equal. apply IH. intros ??. apply Hall. by right.
  - apply Hall. left.
Qed.

(** ** Consequences of the laws *)
Section laws.
Context {B : Type} `{BucketLaws B}.
Implicit Types b : B.

Lemma get_put_eq k v b b' : b_put k v b = Ok b' → b_get k b' = Some v.
Proof. intros E. rewrite (law_get_put _ _ _ _ k E). by rewrite decide_True. Qed.
Lemma get_put_ne k v b b' k' : b_put k v b = Ok b' → k ≠ k' → b_get k' b' = b_get k' b.
Proof. intros E Hne. rewrite (law_get_put _ _ _ _ k' E). by rewrite decide_False. Qed.
Lemma get_str_put_eq k v b b' : b_put k v b = Ok b' → get_str k b' = v.
Proof. intros E. unfold get_str. by rewrite (get_put_eq _ _ _ _ E). Qed.
Lemma get_str_put_ne k v b b' k' :
  b_put k v b = Ok b' → k ≠ k' → get_str k' b' = get_str k' b.
Proof. intros E Hne. unfold get_str. by rewrite (get_put_ne _ _ _ _ _ E). Qed.

Lemma items_unique b l :
  StronglySorted key_lt l → (∀ k v, (k, v) ∈ l ↔ b_get k b = Some v) → b_items b = l.
Proof.
  intros Hl Heq. apply sorted_unique; [apply law_sorted|done|].
  intros [k v]. by rewrite law_items, Heq.
Qed.

Lemma items_empty : b_items (b_empty : B) = [].
Proof.
  apply items_unique; [constructor|]. intros k v.
  rewrite law_get_empty. split; [by intros ?%not_elem_of_nil|done].
Qed.

(** A key above all others is put at the end. *)
Lemma items_put_last k v b b' :
  b_put k v b = Ok b' → Forall (λ kv, str_ltb kv.1 k = true) (b_items b) →
  b_items b' = b_items b ++ [(k, v)].
Proof.
  intros E F. apply items_unique.
  - apply sorted_snoc; [apply law_sorted|exact F].
  - intros k' v'. rewrite elem_of_app, list_elem_of_singleton, law_items.
    rewrite (law_get_put _ _ _ _ k' E). case_decide as Hk; [subst k'|].
    + split; [|naive_solver]. intros [Hg|[= <-]]; [|done].
      apply law_items in Hg. rewrite Forall_forall in F. specialize (F _ Hg). cbn in F.
      by rewrite str_ltb_irrefl in F.
    + naive_solver.
Qed.

Lemma get_delete_keys ks b k :
  b_get k (delete_keys ks b) = if decide (k ∈ ks) then None else b_get k b.
Proof.
  unfold delete_keys. revert b. induction ks as [|k0 ks IH]; intros b; cbn.
  - by rewrite decide_False by apply not_elem_of_nil.
  - rewrite IH, law_get_delete. repeat case_decide; set_solver.
Qed.

Lemma items_delete_keys ks b :
  b_items (delete_keys ks b) = filter (λ kv, kv.1 ∉ ks) (b_items b).
Proof.
  apply items_unique; [apply sorted_filter, law_sorted|].
  intros k v. rewrite list_elem_of_filter, law_items, get_delete_keys.
  case_decide; naive_solver.
Qed.

(** A loop that deletes from [First] while a test holds leaves the rest. *)
Lemma items_delete_prefix p b :
  b_items (delete_keys (take_while p (b_items b)).*1 b) = drop_while p (b_items b).
Proof.
  rewrite items_delete_keys.
  pose proof (filter_prefix_keys (take_while p (b_items b)) (drop_while p (b_items b))) as Hf.
  rewrite take_drop_while in Hf. apply Hf, sorted_keys_nodup, law_sorted.
Qed.

(** Deleting everything a cursor visits empties the bucket. *)
Lemma items_clear b : b_items (delete_keys (b_items b).*1 b) = [].
Proof.
  rewrite items_delete_keys. destruct (filter _ _) as [|kv l] eqn:E; [done|].
  assert (kv ∈ kv :: l) as Hin by left. rewrite <-E, list_elem_of_filter in Hin.
  destruct Hin as [Hn Hin]. destruct Hn. apply list_elem_of_fmap. eauto.
Qed.

Lemma get_clear b k : b_get k (delete_keys (b_items b).*1 b) = None.
Proof.
  rewrite get_delete_keys. case_decide as Hk; [done|].
  destruct (b_get k b) as [v|] eqn:E; [|done]. exfalso. apply Hk.
  apply list_elem_of_fmap. exists (k, v). split; [done|]. by apply law_items.
Qed.

(** *** Contents as multisets *)
Lemma items_nodup b : NoDup (b_items b).
Proof. apply (NoDup_fmap_1 fst), sorted_keys_nodup, law_sorted. Qed.

Lemma items_put_perm k v b b' :
  b_put k v b = Ok b' → b_items b' ≡ₚ (k, v) :: filter (λ kv, kv.1 ≠ k) (b_items b).
Proof.
  intros E. apply NoDup_Permutation.
  - apply items_nodup.
  - constructor; [|apply NoDup_filter, items_nodup]. rewrite list_elem_of_filter. by intros [? _].
  - intros [k' v']. rewrite elem_of_cons, list_elem_of_filter, !law_items, (law_get_put _ _ _ _ k' E).
    case_decide; naive_solver.
Qed.

Lemma items_get_perm k v b :
  b_get k b = Some v → b_items b ≡ₚ (k, v) :: filter (λ kv, kv.1 ≠ k) (b_items b).
Proof.
  intros E. apply NoDup_Permutation.
  - apply items_nodup.
  - constructor; [|apply NoDup_filter, items_nodup]. rewrite list_elem_of_filter. by intros [? _].
  - intros [k' v']. rewrite elem_of_cons, list_elem_of_filter, !law_items.
    destruct (decide (k' = k)); naive_solver.
Qed.

Lemma items_get_none k b :
  b_get k b = None → filter (λ kv, kv.1 ≠ k) (b_items b) = b_items b.
Proof.
  intros E. assert (∀ kv, kv ∈ b_items b → kv.1 ≠ k) as Hall.
  { intros [k' v'] Hin%law_items Hk. cbn in Hk. congruence. }
  induction (b_items b) as [|kv l IH]; [done|].
  rewrite filter_cons, decide_True by (apply Hall; left). f_equal. apply IH.
  intros ??. apply Hall. by right.
Qed.

Lemma items_delete k b : b_items (b_delete k b) = filter (λ kv, kv.1 ≠ k) (b_items b).
Proof.
  apply items_unique; [apply sorted_filter, law_sorted|].
  intros k' v'. rewrite list_elem_of_filter, law_items, law_get_delete. case_decide; naive_solver.
Qed.

(** Number of entries, and bytes of the values. *)
Definition entries (b : B) : Z := Z.of_nat (length (b_items b)).
Definition value_bytes (b : B) : Z := sum_Z ((λ kv, slen kv.2) <$> b_items b).

Lemma entries_perm b l : b_items b ≡ₚ l → entries b = Z.of_nat (length l).
Proof. intros E. unfold entries. by rewrite E. Qed.
Lemma value_bytes_perm b l : b_items b ≡ₚ l → value_bytes b = sum_Z ((λ kv, slen kv.2) <$> l).
Proof. intros E. unfold value_bytes. by rewrite E. Qed.

Lemma totals_put k v b b' :
  b_put k v b = Ok b' →
  entries b' = (entries b + (if b_get k b is Some _ then 0 else 1))%Z ∧
  value_bytes b' = (value_bytes b + slen v - slen (default "" (b_get k b)))%Z.
Proof.
  intros E%items_put_perm. rewrite (entries_perm _ _ E), (value_bytes_perm _ _ E).
  destruct (b_get k b) as [old|] eqn:Ek.
  - apply items_get_perm in Ek. rewrite (entries_perm _ _ Ek), (value_bytes_perm _ _ Ek).
    cbn [length fmap list_fmap sum_Z snd default]. unfold default, id, slen. lia.
  - rewrite (items_get_none _ _ Ek). unfold entries, value_bytes.
    cbn [length fmap list_fmap sum_Z snd]. unfold default, slen. cbn [String.length]. lia.
Qed.

Lemma totals_delete k v b :
  b_get k b = Some v →
  entries (b_delete k b) = (entries b - 1)%Z ∧ value_bytes (b_delete k b) = (value_bytes b - slen v)%Z.
Proof.
  intros Ek%items_get_perm. rewrite (entries_perm _ _ Ek), (value_bytes_perm _ _ Ek).
  unfold entries, value_bytes. rewrite items_delete. cbn [length fmap list_fmap sum_Z snd]. lia.
Qed.

Lemma totals_empty : entries b_empty = 0%Z ∧ value_bytes b_empty = 0%Z.
Proof. unfold entries, value_bytes. by rewrite items_empty. Qed.

Lemma value_bytes_nonneg b : (0 ≤ value_bytes b)%Z.
Proof. apply sum_Z_nonneg. intros z (kv & -> & _)%list_elem_of_fmap. unfold slen. lia. Qed.
End laws.

(** ** An implementation of the interface *)
Module Mem.
Definition bucket : Type := gmap string string.

Definition key_le (x y : string * string) : Prop := str_ltb y.1 x.1 = false.
#[export] Instance key_le_dec : RelDecision key_le.
Proof. intros x y. unfold key_le. apply _. Defined.
#[export] Instance key_le_total : Total key_le.
Proof.
  intros x y. unfold key_le. destruct (str_ltb y.1 x.1) eqn:E; [|by left]. right.
  destruct (str_ltb x.1 y.1) eqn:E'; [|done].
  pose proof (str_ltb_trans _ _ _ E E') as Ht. by rewrite str_ltb_irrefl in Ht.
Qed.
#[export] Instance key_le_trans : Transitive key_le.
Proof.
  intros x y z. unfold key_le. intros H1 H2.
  destruct (str_ltb z.1 x.1) eqn:E; [|done].
  destruct (str_ltb x.1 y.1) eqn:E1.
  - by rewrite (str_ltb_trans _ _ _ E E1) in H2.
  - rewrite (str_ltb_total _ _ E1 H1) in E. congruence.
Qed.

Definition items (b : bucket) : list (string * string) := merge_sort key_le (map_to_list b).

#[export] Instance bucket_ops : BucketOps bucket := {|
  b_empty := ∅;
  b_get k b := b !! k;
  b_put k v b :=
    if ((0 <? slen k) && (slen k <=? 32768) && (slen v <=? 2147483646))%Z
    then Ok (<[k:=v]> b) else Err (ErrMsg "invalid key or value");
  b_delete k b := delete k b;
  b_items := items
|}.

Lemma le_sorted_strict l :
  StronglySorted key_le l → NoDup l.*1 → StronglySorted key_lt l.
Proof.
  induction 1 as [|x l Hl IH F]; cbn; intros Hnd; constructor.
  - apply IH. by apply NoDup_cons in Hnd as [_ ?].
  - apply NoDup_cons in Hnd as [Hx _]. rewrite Forall_forall in F |- *.
    intros y Hy. specialize (F y Hy). unfold key_le, key_lt in *.
    destruct (str_ltb x.1 y.1) eqn:E; [done|]. exfalso. apply Hx.
    rewrite (str_ltb_total _ _ E F). apply list_elem_of_fmap. eauto.
Qed.

#[export] Instance bucket_laws : BucketLaws bucket.
Proof.
  constructor; cbn.
  - intros k. apply lookup_empty.
  - intros k v b. unfold storable.
    destruct (Z.ltb_spec 0 (slen k)), (Z.leb_spec (slen k) 32768),
      (Z.leb_spec (slen v) 2147483646); cbn; split;
      solve [by intros [b' ?] | lia | eauto].
  - intros k v b b' k'. case_match; [|done]. intros [= <-]. apply lookup_insert.
  - intros k b k'. apply lookup_delete.
  - intros k v b. unfold items. rewrite merge_sort_Permutation. apply elem_of_map_to_list.
  - intros b. apply le_sorted_strict.
    + apply StronglySorted_merge_sort; apply _.
    + unfold items. rewrite merge_sort_Permutation. apply NoDup_fst_map_to_list.
Qed.

(** A disk that always commits. *)
Definition update {S} (f : S → result S) (s : S) : S * result unit :=
  match f s with Ok s' => (s', Ok tt) | Err e => (s, Err e) end.
Lemma update_laws S : @TxLaws S update.
Proof.
  constructor; unfold tx_update, update.
  - by intros f s e ->.
  - intros f s s' ->. by left.
Qed.

(** The codec of a countable type: the bits of its code. *)
Fixpoint bits (p : positive) : string :=
  match p with
  | xH => ""
  | xO p' => String "0" (bits p')
  | xI p' => String "1" (bits p')
  end.
Fixpoint of_bits (s : string) : positive :=
  match s with
  | EmptyString => xH
  | String c s' => if Ascii.eqb c "1" then xI (of_bits s') else xO (of_bits s')
  end.
Lemma of_bits_bits p : of_bits (bits p) = p.
Proof. induction p; cbn; congruence. Qed.

Definition codec T `{Countable T} : Codec T := {|
  marshal x := Ok (bits (encode x));
  unmarshal s := match decode (of_bits s) with Some x => Ok x | None => Err (ErrMsg "json") end;
  codec_ok x := True
|}.
Lemma codec_laws T `{Countable T} : @CodecLaws T (codec T).
Proof.
  constructor; cbn; [eauto|]. intros x s _ [= <-]. by rewrite of_bits_bits, decode_encode.
Qed.
End Mem.
