(* ===== verification/UsageStore.v ===== *)
(** * The durable usage queue: package [internal/usagesnapshot]

    [Store] holds three buckets: [meta], the [baseline] of cumulative counters
    and the queue of [snapshots].  The operations are [Open], [Activate],
    [Capture], [Pull], [Ack] and [Status] of store.go, each a transaction.
    The specification of the store (its invariant, the refinement and the
    billing theorems) is in UsageSpec.v. *)
From S2P Require Import Prelude GoStr GoTime Bolt.

Module UsageStore.

Definition activeKey : string := "active".
Definition generationKey : string := "generation".
Definition nextSequenceKey : string := "next_sequence".
Definition ackedKey : string := "acked_through".
Definition lastCapturedKey : string := "last_captured_at".

Record Counter := {
  Kind : string; Name : string; Inbound : string; Protocol : string;
  Scope : string; Direction : string; Value : Z }.

Record Snapshot := {
  Generation : string; Sequence : Z; CapturedAt : time; Core : string;
  Counters : list Counter }.

Record PullRequest := { AfterSequence : Z; Limit : Z; MaxBytes : Z }.
Record PullResponse := { resp_Generation : string; Snapshots : list Snapshot; HasMore : bool }.
Record AckRequest := { ack_Generation : string; ThroughSequence : Z }.

Record Status := {
  Active : bool; Capturing : bool; st_Generation : string; OldestSequence : Z;
  LatestSequence : Z; AckedThrough : Z; Pending : Z; Bytes : Z; LastCapturedAt : string }.

#[export] Instance Counter_eq_dec : EqDecision Counter.
Proof. solve_decision. Defined.
#[export] Instance Snapshot_eq_dec : EqDecision Snapshot.
Proof. solve_decision. Defined.
#[export] Instance Counter_countable : Countable Counter.
Proof.
  refine (inj_countable'
    (λ c, (Kind c, Name c, Inbound c, Protocol c, Scope c, Direction c, Value c))
    (λ '(k, n, i, p, s, d, v), Build_Counter k n i p s d v) _).
  abstract (by intros []).
Defined.
#[export] Instance Snapshot_countable : Countable Snapshot.
Proof.
  refine (inj_countable'
    (λ s, (Generation s, Sequence s, CapturedAt s, Core s, Counters s))
    (λ '(g, q, t, c, l), Build_Snapshot g q t c l) _).
  abstract (by intros []).
Defined.

Definition set_Value (c : Counter) (v : Z) : Counter :=
  {| Kind := Kind c; Name := Name c; Inbound := Inbound c; Protocol := Protocol c;
     Scope := Scope c; Direction := Direction c; Value := v |}.

Definition nul : string := String (chr 0) "".

Definition counterKey (c : Counter) : string :=
  if negb (bool_decide (Kind c = "forwarding")) then
    Kind c +:+ nul +:+ Name c +:+ nul +:+ Inbound c +:+ nul +:+ Direction c
  else
    Kind c +:+ nul +:+ Name c +:+ nul +:+ Protocol c +:+ nul +:+ Scope c +:+ nul +:+ Direction c.

Definition encodeInt64 (v : Z) : string := put_uint64 (Int.uwrap64 v).
Definition decodeInt64 (b : string) : Z :=
  if negb (bool_decide (slen b = 8%Z)) then 0%Z else Int.wrap64 (uint64_of b).
Definition sequenceKey (v : Z) : string := put_uint64 v.
Definition readUint64 (b : string) : Z :=
  if negb (bool_decide (slen b = 8%Z)) then 0%Z else uint64_of b.

Section store.
Context {B : Type} `{BucketOps B} `{Codec Snapshot}.

Record DB := { meta : B; baseline : B; snapshots : B }.
Context `{TxOps DB}.

(** [Store]: the database and the byte limit of the queue. *)
Record Store := { db : DB; maxBytes : Z }.

Definition putUint64 (k : string) (v : Z) (b : B) : result B := b_put k (sequenceKey v) b.

Definition snapshotBytes (b : B) : Z :=
  foldl (λ total kv, Int.wrap64 (total + slen kv.2)) 0%Z (b_items b).

Definition clearBucket (b : B) : B := delete_keys (b_items b).*1 b.

Definition storeBaseline (b : B) (counters : list Counter) : result B :=
  foldr_result (λ b c, b_put (counterKey c) (encodeInt64 (Value c)) b) b counters.

(** [randomID]: hexadecimal of the 16 bytes that [rand.Read] delivers. *)
Definition hex_digit (v : Z) : ascii := chr (if (v <? 10)%Z then 48 + v else 87 + v).
Fixpoint hex (s : string) : string :=
  match s with
  | EmptyString => ""
  | String c s' =>
      String (hex_digit (byte_of c / 16)) (String (hex_digit (byte_of c mod 16)) (hex s'))
  end.
Definition randomID (random : result string) : result string := b ← random; Ok (hex b).

(** [Open] on the content of the file ([None]: no file yet). *)
Definition Open (file : option DB) (max : Z) : Store :=
  {| db := default {| meta := b_empty; baseline := b_empty; snapshots := b_empty |} file;
     maxBytes := if (max <=? 0)%Z then 268435456%Z else max |}.

Definition is_active (d : DB) : bool := bool_decide (get_str activeKey (meta d) = "1").

Definition StatusOf (d : DB) : Status :=
  let latest := readUint64 (get_str nextSequenceKey (meta d)) in
  {| Active := is_active d;
     Capturing := false;
     st_Generation := get_str generationKey (meta d);
     OldestSequence := match b_items (snapshots d) with
                       | (k, _) :: _ => uint64_of k
                       | [] => 0%Z end;
     LatestSequence := if (0 <? latest)%Z then (latest - 1)%Z else latest;
     AckedThrough := readUint64 (get_str ackedKey (meta d));
     Pending := Z.of_nat (length (b_items (snapshots d)));
     Bytes := snapshotBytes (snapshots d);
     LastCapturedAt := get_str lastCapturedKey (meta d) |}.

Definition with_db (s : Store) (d : DB) : Store := {| db := d; maxBytes := maxBytes s |}.

(** Run a transaction body on the store, keep its verdict. *)
Definition update (s : Store) (body : DB → result DB) : Store * result unit :=
  let '(d, r) := tx_update body (db s) in (with_db s d, r).

Definition activate_tx (random : result string) (counters : list Counter) (d : DB) : result DB :=
  if is_active d then Ok d else
  generation ← randomID random;
  m ← b_put activeKey "1" (meta d);
  m ← b_put generationKey generation m;
  m ← putUint64 nextSequenceKey 1 m;
  m ← putUint64 ackedKey 0 m;
  let m := b_delete lastCapturedKey m in
  bl ← storeBaseline (clearBucket (baseline d)) counters;
  Ok {| meta := m; baseline := bl; snapshots := clearBucket (snapshots d) |}.

Definition Activate (random : result string) (counters : list Counter) (s : Store)
    : Store * result Status :=
  let '(s', r) := update s (activate_tx random counters) in
  (s', match r with Ok _ => Ok (StatusOf (db s')) | Err e => Err e end).

(** The delta of one counter against its previous value. *)
Definition counter_delta (reset : bool) (c : Counter) (previous : Z) : Z :=
  let delta := Int.wrap64 (Value c - previous) in
  if (reset && negb (bool_decide (Kind c = "forwarding"))) || (delta <? 0)%Z
  then Value c else delta.

(** One iteration of the loop of [Capture] over the sampled counters. *)
Definition capture_counter (reset : bool) (acc : B * list Counter) (c : Counter)
    : result (B * list Counter) :=
  let '(bl, deltas) := acc in
  let previous := decodeInt64 (get_str (counterKey c) bl) in
  let delta := counter_delta reset c previous in
  let deltas := if (0 <? delta)%Z then deltas ++ [set_Value c delta] else deltas in
  bl ← b_put (counterKey c) (encodeInt64 (Value c)) bl;
  Ok (bl, deltas).

Definition capture_tx (limit : Z) (core : string) (counters : list Counter)
    (capturedAt : time) (reset : bool) (d : DB) : result DB :=
  if negb (is_active d) then Err ErrNotActive else
  '(bl, deltas) ← foldr_result (capture_counter reset) (baseline d, []) counters;
  match deltas with
  | [] => Ok {| meta := meta d; baseline := bl; snapshots := snapshots d |}
  | _ =>
      let sequence := readUint64 (get_str nextSequenceKey (meta d)) in
      let snapshot := {| Generation := get_str generationKey (meta d); Sequence := sequence;
                         CapturedAt := capturedAt; Core := core; Counters := deltas |} in
      payload ← marshal snapshot;
      _ ← fail_if (limit <? Int.wrap64 (slen payload + snapshotBytes (snapshots d)))%Z
            (ErrMsg ("snapshot queue safety limit (" +:+ itoa limit +:+ " bytes) exceeded"));
      sn ← b_put (sequenceKey sequence) payload (snapshots d);
      m ← putUint64 nextSequenceKey (Int.uwrap64 (sequence + 1)) (meta d);
      m ← b_put lastCapturedKey (format_rfc3339nano capturedAt) m;
      Ok {| meta := m; baseline := bl; snapshots := sn |}
  end.

Definition Capture (core : string) (counters : list Counter) (capturedAt : time)
    (coreReset : bool) (s : Store) : Store * result unit :=
  update s (capture_tx (maxBytes s) core counters capturedAt coreReset).

(** The loop of [Pull] over the cursor. *)
Fixpoint pull_loop (limit max used : Z) (acc : list Snapshot) (items : list (string * string))
    : result (list Snapshot * bool) :=
  match items with
  | [] => Ok (acc, false)
  | (_, value) :: rest =>
      if (limit <=? Z.of_nat (length acc))%Z || (max <? used + slen value)%Z
      then Ok (acc, true)
      else
        snapshot ← unmarshal value;
        pull_loop limit max (used + slen value) (acc ++ [snapshot]) rest
  end.

Definition clamp_limit (limit : Z) : Z :=
  if (limit <=? 0)%Z || (500 <? limit)%Z then 500%Z else limit.
Definition clamp_bytes (max : Z) : Z :=
  if (max <=? 0)%Z || (4194304 <? max)%Z then 4194304%Z else max.

Definition Pull (request : PullRequest) (s : Store) : result PullResponse :=
  if negb (is_active (db s)) then Err ErrNotActive else
  '(l, more) ← pull_loop (clamp_limit (Limit request)) (clamp_bytes (MaxBytes request)) 0 []
      (seek (sequenceKey (Int.uwrap64 (AfterSequence request + 1))) (snapshots (db s)));
  Ok {| resp_Generation := get_str generationKey (meta (db s)); Snapshots := l; HasMore := more |}.

Definition ack_tx (request : AckRequest) (d : DB) : result DB :=
  _ ← fail_if (bool_decide (ack_Generation request = "") ||
               negb (bool_decide (ack_Generation request = get_str generationKey (meta d))))
        (ErrMsg "snapshot generation mismatch");
  let latest := readUint64 (get_str nextSequenceKey (meta d)) in
  let latest := if (0 <? latest)%Z then (latest - 1)%Z else latest in
  _ ← fail_if (latest <? ThroughSequence request)%Z
        (ErrMsg "ack is ahead of latest snapshot");
  let current := readUint64 (get_str ackedKey (meta d)) in
  if (ThroughSequence request <=? current)%Z then Ok d else
  let acked := take_while (λ kv, uint64_of kv.1 <=? ThroughSequence request)%Z
                 (b_items (snapshots d)) in
  m ← putUint64 ackedKey (ThroughSequence request) (meta d);
  Ok {| meta := m; baseline := baseline d; snapshots := delete_keys acked.*1 (snapshots d) |}.

Definition Ack (request : AckRequest) (s : Store) : Store * result Status :=
  let '(s', r) := update s (ack_tx request) in
  (s', match r with Ok _ => Ok (StatusOf (db s')) | Err e => Err e end).
End store.

Arguments DB : clear implicits.
Arguments Store : clear implicits.
End UsageStore.
