(* ===== verification/UsageSpec.v ===== *)
(** * The contract of the usage queue

    The abstract store is an append-only history of snapshots with an
    acknowledgement pointer and the last cumulative value of every counter.
    [rep] relates it to the three buckets of UsageStore.v; every operation of
    the concrete store refines its abstract counterpart ([exec_refines]). *)
From S2P Require Import Prelude GoStr GoTime Bolt UsageStore.
Import UsageStore.

Local Open Scope Z_scope.

(** ** The abstract store *)
Record AStore := {
  a_active : bool;
  a_gen : string;
  a_acked : Z;
  a_base : gmap string Z;
  a_history : list Snapshot
}.

Definition a_init : AStore :=
  {| a_active := false; a_gen := ""; a_acked := 0; a_base := ∅; a_history := [] |}.

Definition a_queue (a : AStore) : list Snapshot := drop (Z.to_nat (a_acked a)) (a_history a).
Definition a_latest (a : AStore) : Z := Z.of_nat (length (a_history a)).

(** The traffic a reading adds to the bill: all of it when the counter started
    anew, what it grew by otherwise. *)
Definition fresh_bytes (reset : bool) (c : Counter) (previous : Z) : Z :=
  if (reset && negb (bool_decide (Kind c = "forwarding"))) || (Value c <? previous)
  then Value c else Value c - previous.

Definition a_counter (reset : bool) (acc : gmap string Z * list Counter) (c : Counter)
    : gmap string Z * list Counter :=
  let fresh := fresh_bytes reset c (default 0 (acc.1 !! counterKey c)) in
  (<[counterKey c := Value c]> acc.1,
   if 0 <? fresh then acc.2 ++ [set_Value c fresh] else acc.2).

Definition a_sample (reset : bool) (base : gmap string Z) (counters : list Counter) :=
  foldl (a_counter reset) (base, []) counters.

Definition a_capture (core : string) (counters : list Counter) (t : time) (reset : bool)
    (a : AStore) : AStore :=
  let s := a_sample reset (a_base a) counters in
  {| a_active := a_active a; a_gen := a_gen a; a_acked := a_acked a; a_base := s.1;
     a_history := a_history a ++
       match s.2 with
       | [] => []
       | deltas => [{| Generation := a_gen a; Sequence := a_latest a + 1; CapturedAt := t;
                       Core := core; Counters := deltas |}]
       end |}.

Definition a_activate (gen : string) (counters : list Counter) (a : AStore) : AStore :=
  if a_active a then a else
  {| a_active := true; a_gen := gen; a_acked := 0;
     a_base := foldl (λ m c, <[counterKey c := Value c]> m) ∅ counters; a_history := [] |}.

Definition a_ack (through : Z) (a : AStore) : AStore :=
  {| a_active := a_active a; a_gen := a_gen a; a_acked := Z.max (a_acked a) through;
     a_base := a_base a; a_history := a_history a |}.

(** ** Operations and their side conditions *)
Inductive op :=
| OpActivate (random : result string) (counters : list Counter)
| OpCapture (core : string) (counters : list Counter) (t : time) (reset : bool)
| OpAck (request : AckRequest).

Definition a_exec (o : op) (a : AStore) : AStore :=
  match o with
  | OpActivate random counters =>
      a_activate (match randomID random with Ok g => g | Err _ => "" end) counters a
  | OpCapture core counters t reset => a_capture core counters t reset a
  | OpAck r => a_ack (ThroughSequence r) a
  end.

(** Cumulative counters are non-negative [int64]s. *)
Definition counters_ok (l : list Counter) : Prop :=
  ∀ c, c ∈ l → 0 ≤ Value c < 2 ^ 63.

(** ** Encodings *)
Lemma slen_put_uint64 v : slen (put_uint64 v) = 8.
Proof. unfold slen. by rewrite put_uint64_length. Qed.

Lemma readUint64_put v : Int.in_uint64 v → readUint64 (put_uint64 v) = v.
Proof.
  intros. unfold readUint64. rewrite slen_put_uint64, bool_decide_eq_true_2 by done.
  by apply uint64_of_put.
Qed.

Lemma decode_encode_int64 v : Int.in_int64 v → decodeInt64 (encodeInt64 v) = v.
Proof.
  intros. unfold decodeInt64, encodeInt64. rewrite slen_put_uint64, bool_decide_eq_true_2 by done.
  cbn [negb]. rewrite uint64_of_put by apply Int.uwrap64_range.
  by rewrite Int.wrap64_uwrap64, Int.wrap64_id.
Qed.

Lemma counterKey_set_Value c v : counterKey (set_Value c v) = counterKey c.
Proof. done. Qed.

(** The wrapping subtraction of the code is exact on cumulative counters. *)
Lemma counter_delta_fresh reset c previous :
  0 ≤ Value c < 2 ^ 63 → 0 ≤ previous < 2 ^ 63 →
  counter_delta reset c previous = fresh_bytes reset c previous.
Proof.
  intros Hc Hp. unfold counter_delta, fresh_bytes.
  rewrite Int.wrap64_id by (unfold Int.in_int64; lia).
  replace (Value c - previous <? 0) with (Value c <? previous); [done|].
  destruct (Z.ltb_spec (Value c) previous), (Z.ltb_spec (Value c - previous) 0); lia.
Qed.

Lemma fresh_bytes_nonneg reset c previous : 0 ≤ Value c → 0 ≤ fresh_bytes reset c previous.
Proof.
  intros. unfold fresh_bytes. destruct (reset && _); cbn; [done|].
  destruct (Z.ltb_spec (Value c) previous); lia.
Qed.

(** Consecutive sequence numbers: dropping by number is dropping by position. *)
Lemma drop_while_sequence (l : list Snapshot) m t :
  Sequence <$> l = seqZ (m + 1) (Z.of_nat (length l)) → m ≤ t →
  drop_while (λ s, Sequence s <=? t) l = drop (Z.to_nat (t - m)) l.
Proof.
  revert m. induction l as [|s l IH]; intros m Hseq Ht; [by rewrite drop_nil|].
  cbn in Hseq. rewrite seqZ_cons in Hseq by lia. injection Hseq as Hs Hl.
  cbn [drop_while]. rewrite Hs. destruct (Z.leb_spec (m + 1) t).
  - rewrite (IH (m + 1)); [|by rewrite Hl; f_equal; lia|lia].
    replace (Z.to_nat (t - m)) with (S (Z.to_nat (t - (m + 1)))) by lia. done.
  - by replace (Z.to_nat (t - m)) with 0%nat by lia.
Qed.

Lemma sequence_drop (l : list Snapshot) n :
  Sequence <$> l = seqZ 1 (Z.of_nat (length l)) → (n ≤ length l)%nat →
  Sequence <$> drop n l = seqZ (Z.of_nat n + 1) (Z.of_nat (length (drop n l))).
Proof.
  intros Hseq Hn. rewrite length_drop, fmap_drop, Hseq.
  replace (Z.of_nat (length l)) with (Z.of_nat n + Z.of_nat (length l - n)) by lia.
  rewrite seqZ_app by lia. rewrite drop_app_length'; [f_equal; lia|].
  rewrite length_seqZ. lia.
Qed.

(** ** The representation relation *)
Section refinement.
Context {B : Type} `{BucketOps B} `{!BucketLaws B}.
Context `{Codec Snapshot} `{!CodecLaws Snapshot}.
Context `{TxOps (DB B)} `{!TxLaws (DB B)}.
Implicit Types (d : DB B) (s : Store B) (a : AStore).

Definition stored (kv : string * string) (sn : Snapshot) : Prop :=
  kv.1 = put_uint64 (Sequence sn) ∧ marshal sn = Ok kv.2 ∧ unmarshal kv.2 = Ok sn.

Definition base_rep (bl : B) (base : gmap string Z) : Prop :=
  ∀ k, decodeInt64 (get_str k bl) = default 0 (base !! k) ∧ 0 ≤ default 0 (base !! k) < 2 ^ 63.

Record live d a : Prop := {
  live_gen : get_str generationKey (meta d) = a_gen a;
  live_next : get_str nextSequenceKey (meta d) = put_uint64 (a_latest a + 1);
  live_acked : get_str ackedKey (meta d) = put_uint64 (a_acked a);
  live_bounds : 0 ≤ a_acked a ≤ a_latest a ∧ a_latest a + 1 < 2 ^ 64;
  live_base : base_rep (baseline d) (a_base a);
  live_queue : Forall2 stored (b_items (snapshots d)) (a_queue a);
  live_seqs : Sequence <$> a_history a = seqZ 1 (a_latest a)
}.

Record rep d a : Prop := {
  rep_active : is_active d = a_active a;
  rep_idle : a_active a = false → get_str generationKey (meta d) = "";
  rep_live : a_active a = true → live d a
}.

(** What a sample may hold: cumulative values, text that JSON preserves. *)
Definition sample_ok (core : string) (counters : list Counter) (t : time) : Prop :=
  counters_ok counters ∧
  ∀ g q l, (∀ c, c ∈ l → ∃ c0 v, c0 ∈ counters ∧ c = set_Value c0 v) →
    codec_ok {| Generation := g; Sequence := q; CapturedAt := t; Core := core; Counters := l |}.

Definition op_ok (o : op) : Prop :=
  match o with
  | OpActivate _ counters => counters_ok counters
  | OpCapture core counters t _ => sample_ok core counters t
  | OpAck r => 0 ≤ ThroughSequence r
  end.

(** *** The loops of [Capture] and [Activate] *)
Lemma base_rep_put bl base k v bl' :
  base_rep bl base → 0 ≤ v < 2 ^ 63 → b_put k (encodeInt64 v) bl = Ok bl' →
  base_rep bl' (<[k := v]> base).
Proof.
  intros Hb Hv E k'. destruct (decide (k = k')) as [<-|Hne].
  - rewrite (get_str_put_eq _ _ _ _ E), lookup_insert_eq, decode_encode_int64; [done|].
    unfold Int.in_int64. lia.
  - rewrite (get_str_put_ne _ _ _ _ _ E Hne), lookup_insert_ne by done. apply Hb.
Qed.

Lemma capture_loop reset counters bl ds bl' ds' base :
  base_rep bl base → counters_ok counters →
  foldr_result (capture_counter reset) (bl, ds) counters = Ok (bl', ds') →
  base_rep bl' (foldl (a_counter reset) (base, ds) counters).1 ∧
  ds' = (foldl (a_counter reset) (base, ds) counters).2.
Proof.
  revert bl ds base. induction counters as [|c counters IH]; intros bl ds base Hb Hok E.
  { cbn in E. inv_res. done. }
  cbn [foldr_result] in E. inv_res. unfold capture_counter in H2. inv_res.
  assert (0 ≤ Value c < 2 ^ 63) as Hc by (apply Hok; left).
  cbn [foldl]. unfold a_counter at 2 4. cbn [fst snd].
  destruct (Hb (counterKey c)) as [Hd Hp]. rewrite Hd, counter_delta_fresh in E by done.
  eapply IH; [|by intros ??; apply Hok; right|exact E].
  by eapply base_rep_put.
Qed.

Lemma sample_deltas reset base counters c :
  c ∈ (a_sample reset base counters).2 → ∃ c0 v, c0 ∈ counters ∧ c = set_Value c0 v.
Proof.
  unfold a_sample. assert (∀ ds m, c ∈ (foldl (a_counter reset) (m, ds) counters).2 →
    c ∈ ds ∨ ∃ c0 v, c0 ∈ counters ∧ c = set_Value c0 v) as Hgen.
  { induction counters as [|c1 l IH]; intros ds m; cbn; [by left|].
    intros [Hin|(c0 & v & ? & ->)]%IH; [|right; exists c0, v; split; [by right|done]].
    case_match; [|by left]. apply elem_of_app in Hin as [Hin|Hin]; [by left|].
    apply list_elem_of_singleton in Hin as ->. right. do 2 eexists. split; [left|done]. }
  intros [Hin|Hex]%Hgen; [by apply not_elem_of_nil in Hin|done].
Qed.

Lemma activate_loop counters bl bl' base :
  base_rep bl base → counters_ok counters →
  storeBaseline bl counters = Ok bl' →
  base_rep bl' (foldl (λ m c, <[counterKey c := Value c]> m) base counters).
Proof.
  unfold storeBaseline. revert bl base.
  induction counters as [|c counters IH]; intros bl base Hb Hok E; cbn [foldr_result] in E; inv_res.
  { done. }
  cbn [foldl]. eapply IH; [|by intros ??; apply Hok; right|exact E].
  eapply base_rep_put; [done|apply Hok; left|done].
Qed.

(** *** Each transaction body refines its abstract operation *)
Ltac meta_gets :=
  repeat match goal with
  | E : b_put ?k ?v _ = Ok ?m |- context [get_str ?k ?m] => rewrite (get_str_put_eq _ _ _ _ E)
  | E : b_put ?k ?v _ = Ok ?m |- context [get_str ?k' ?m] =>
      rewrite (get_str_put_ne _ _ _ _ k' E) by done
  end.

Lemma activate_tx_refines random counters d d' a :
  rep d a → counters_ok counters → activate_tx random counters d = Ok d' →
  rep d' (a_exec (OpActivate random counters) a).
Proof.
  intros Hrep Hok E. unfold activate_tx in E. cbn [a_exec]. unfold a_activate.
  rewrite (rep_active _ _ Hrep) in E. destruct (a_active a); inv_res; [done|].
  unfold putUint64 in *. rewrite H2.
  split; cbn; [|done|intros _; split; cbn].
  - unfold is_active, get_str in *. cbn. rewrite law_get_delete, decide_False by done.
    fold (get_str activeKey a4). meta_gets. by rewrite bool_decide_eq_true_2.
  - unfold get_str. rewrite law_get_delete, decide_False by done.
    fold (get_str generationKey a4). by meta_gets.
  - unfold get_str. rewrite law_get_delete, decide_False by done.
    fold (get_str nextSequenceKey a4). by meta_gets.
  - unfold get_str. rewrite law_get_delete, decide_False by done.
    fold (get_str ackedKey a4). by meta_gets.
  - unfold a_latest. cbn. lia.
  - eapply activate_loop; [|done..]. intros k. unfold get_str, clearBucket.
    rewrite get_clear, lookup_empty. cbn. done.
  - unfold a_queue, clearBucket. cbn. rewrite items_clear. constructor.
  - done.
Qed.

(** The snapshot at a position of the history carries the next number. *)
Lemma history_sequence d a i sn :
  live d a → a_history a !! i = Some sn → Sequence sn = Z.of_nat i + 1.
Proof.
  intros Hl Hs. pose proof (f_equal (lookup i) (live_seqs _ _ Hl)) as Hz.
  rewrite list_lookup_fmap, Hs in Hz. cbn in Hz. symmetry in Hz.
  apply lookup_seqZ in Hz. lia.
Qed.

Lemma queue_in_range d a :
  live d a →
  Forall2 (λ kv sn, stored kv sn ∧ a_acked a < Sequence sn ≤ a_latest a)
    (b_items (snapshots d)) (a_queue a).
Proof.
  intros Hl. pose proof (live_queue _ _ Hl) as Hq. destruct (live_bounds _ _ Hl).
  rewrite Forall2_same_length_lookup in Hq |- *. destruct Hq as [Hlen Hq].
  split; [done|]. intros i kv sn Hi Hs. split; [by eapply Hq|].
  unfold a_queue in Hs. rewrite lookup_drop in Hs.
  pose proof (lookup_lt_Some _ _ _ Hs) as Hlt.
  rewrite (history_sequence _ _ _ _ Hl Hs). unfold a_latest in *. lia.
Qed.

Lemma queue_key_bound d a :
  live d a →
  Forall (λ kv, str_ltb kv.1 (put_uint64 (a_latest a + 1)) = true) (b_items (snapshots d)).
Proof.
  intros Hl. destruct (live_bounds _ _ Hl). apply Forall_forall. intros kv (i & Hi)%list_elem_of_lookup.
  destruct (Forall2_lookup_l _ _ _ _ _ (queue_in_range _ _ Hl) Hi) as (sn & _ & [-> _] & Hq).
  rewrite put_uint64_ltb by (split; lia). apply Z.ltb_lt. lia.
Qed.

Lemma capture_tx_refines limit core counters t reset d d' a :
  rep d a → sample_ok core counters t → a_latest a + 2 < 2 ^ 64 →
  capture_tx limit core counters t reset d = Ok d' →
  rep d' (a_capture core counters t reset a).
Proof.
  intros Hrep [Hok Hcodec] Hroom E. unfold capture_tx in E.
  rewrite (rep_active _ _ Hrep) in E. destruct (a_active a) eqn:Ha; [|done].
  cbn in E. pose proof (rep_live _ _ Hrep Ha) as Hl. destruct (live_bounds _ _ Hl).
  bind_as E [bl ds] Hloop.
  destruct (capture_loop _ _ _ _ _ _ _ (live_base _ _ Hl) Hok Hloop) as [Hbl Hds].
  fold (a_sample reset (a_base a) counters) in Hbl, Hds.
  pose proof (sample_deltas reset (a_base a) counters) as Hdeltas. rewrite <-Hds in Hdeltas.
  unfold a_capture. rewrite <-Hds. destruct ds as [|dl ds].
  - injection E as <-. split; cbn; [exact (rep_active _ _ Hrep)|by rewrite Ha|intros _].
    destruct Hl. split; cbn; rewrite ?app_nil_r; try done.
    all: unfold a_latest, a_queue in *; cbn; by rewrite app_nil_r.
  - rewrite (live_gen _ _ Hl), (live_next _ _ Hl), readUint64_put in E by (split; lia).
    bind_as E payload Hm. bind_as E [] Hlim. bind_as E sn Hsn.
    bind_as E m1 Hm1. bind_as E m2 Hm2. injection E as <-. unfold putUint64, sequenceKey in *.
    rewrite Int.uwrap64_id in Hm1 by (split; lia).
    pose proof (queue_key_bound _ _ Hl) as Hlast.
    pose proof (Hcodec (a_gen a) (a_latest a + 1) _ Hdeltas) as Hc.
    split; cbn; [|by rewrite Ha|intros _].
    { unfold is_active. cbn [meta]. meta_gets. exact (rep_active _ _ Hrep). }
    split; cbn; unfold a_latest, a_queue in *; cbn; rewrite ?length_app; cbn; meta_gets.
    + apply Hl.
    + f_equal. lia.
    + apply Hl.
    + lia.
    + done.
    + rewrite (items_put_last _ _ _ _ Hsn) by done. rewrite drop_app_le by lia.
      apply Forall2_app; [apply Hl|]. repeat constructor; cbn; [done|].
      by eapply law_unmarshal.
    + rewrite fmap_app, (live_seqs _ _ Hl). unfold a_latest.
      replace (Z.of_nat (length (a_history a) + 1)) with (Z.of_nat (length (a_history a)) + 1) by lia.
      rewrite seqZ_app by lia. f_equal. cbn [fmap list_fmap Sequence].
      rewrite seqZ_cons, seqZ_nil by lia. f_equal. lia.
Qed.

Lemma ack_tx_refines r d d' a :
  rep d a → 0 ≤ ThroughSequence r → ack_tx r d = Ok d' →
  rep d' (a_ack (ThroughSequence r) a) ∧
  a_active a = true ∧ ack_Generation r = a_gen a ∧ ThroughSequence r ≤ a_latest a.
Proof.
  intros Hrep Hpos E. unfold ack_tx in E.
  bind_as E [] Hgen. apply fail_if_ok in Hgen. bind_as E [] Hahead. apply fail_if_ok in Hahead.
  apply orb_false_iff in Hgen as [Hne Hgen].
  apply bool_decide_eq_false in Hne. apply negb_false_iff, bool_decide_eq_true in Hgen.
  destruct (a_active a) eqn:Ha; [|by rewrite (rep_idle _ _ Hrep Ha) in Hgen].
  pose proof (rep_live _ _ Hrep Ha) as Hl. destruct (live_bounds _ _ Hl).
  rewrite (live_next _ _ Hl), readUint64_put in Hahead by (split; lia).
  rewrite (live_acked _ _ Hl), readUint64_put in E by (split; lia).
  rewrite (proj2 (Z.ltb_lt 0 (a_latest a + 1))) in Hahead by lia.
  apply Z.ltb_ge in Hahead. rewrite Hgen, (live_gen _ _ Hl).
  split; [|split_and!; [done..|lia]].
  destruct (Z.leb_spec (ThroughSequence r) (a_acked a)).
  { injection E as <-. unfold a_ack. rewrite Z.max_l by lia. by destruct a. }
  bind_as E m Hm. injection E as <-. unfold putUint64, sequenceKey in *.
  split; cbn; [|by rewrite Ha|intros _].
  { unfold is_active. cbn [meta]. meta_gets. exact (rep_active _ _ Hrep). }
  split; cbn; unfold a_latest, a_queue in *; cbn; meta_gets.
  - apply Hl.
  - apply Hl.
  - f_equal. lia.
  - lia.
  - apply Hl.
  - rewrite items_delete_prefix, Z.max_r by lia.
    assert (Hq : drop (Z.to_nat (ThroughSequence r)) (a_history a) =
      drop_while (λ sn, Sequence sn <=? ThroughSequence r) (drop (Z.to_nat (a_acked a)) (a_history a))).
    { rewrite (drop_while_sequence _ (a_acked a)); [|by rewrite sequence_drop; [f_equal; lia|apply Hl|lia]|lia].
      rewrite drop_drop. f_equal. lia. }
    rewrite Hq.
    apply (Forall2_impl (λ kv sn, stored kv sn ∧ a_acked a < Sequence sn ≤ a_latest a));
      [|by intros kv sn [Hst _]].
    apply Forall2_drop_while with (2 := queue_in_range _ _ Hl).
    intros kv sn [[-> _] Hr]. 
    rewrite uint64_of_put; [done|]. unfold a_latest in *. split; lia.
  - apply Hl.
Qed.
(** *** The operations of the store *)
Definition exec (o : op) s : Store B * result unit :=
  match o with
  | OpActivate random counters =>
      let '(s', st) := Activate random counters s in (s', _ ← st; Ok tt)
  | OpCapture core counters t reset => Capture core counters t reset s
  | OpAck r => let '(s', st) := Ack r s in (s', _ ← st; Ok tt)
  end.

Fixpoint run (ops : list op) s : Store B :=
  match ops with [] => s | o :: rest => run rest (exec o s).1 end.

(** A transaction leaves the store as it was or commits what the body built. *)
Lemma update_cases body s :
  (∃ e, update s body = (s, Err e)) ∨
  (∃ d', body (db s) = Ok d' ∧ update s body = (with_db s d', Ok tt)).
Proof.
  unfold update, with_db. destruct (body (db s)) as [d'|e] eqn:E.
  - destruct (law_tx_ok _ _ _ E) as [->|[e ->]]; [right; eauto|left].
    exists e. by destruct s.
  - left. exists e. rewrite (law_tx_err _ _ _ E). by destruct s.
Qed.

Lemma a_exec_latest o a : a_latest (a_exec o a) ≤ a_latest a + 1.
Proof.
  destruct o; cbn; unfold a_activate, a_latest; [case_match; cbn; lia|..|cbn; lia].
  unfold a_capture. cbn. rewrite length_app. case_match; cbn; lia.
Qed.

Lemma exec_refines_aux o s a :
  rep (db s) a → op_ok o → a_latest a + 2 < 2 ^ 64 →
  (∃ e, exec o s = (s, Err e)) ∨
  (∃ d', exec o s = (with_db s d', Ok tt) ∧ rep d' (a_exec o a)).
Proof.
  intros Hrep Hok Hroom. destruct o as [random counters|core counters t reset|r]; cbn [exec].
  - unfold Activate. destruct (update_cases (activate_tx random counters) s)
      as [[e ->]|(d' & E & ->)]; [left; eauto|right].
    exists d'. split; [done|]. by eapply activate_tx_refines.
  - unfold Capture. destruct (update_cases (capture_tx (maxBytes s) core counters t reset) s)
      as [[e ->]|(d' & E & ->)]; [left; eauto|right].
    exists d'. split; [done|]. by eapply capture_tx_refines.
  - unfold Ack. destruct (update_cases (ack_tx r) s)
      as [[e ->]|(d' & E & ->)]; [left; eauto|right].
    exists d'. split; [done|]. by eapply ack_tx_refines.
Qed.

Lemma exec_ok_rep o s a :
  rep (db s) a → op_ok o → a_latest a + 2 < 2 ^ 64 → (exec o s).2 = Ok tt →
  rep (db (exec o s).1) (a_exec o a).
Proof.
  intros Hrep Hok Hroom. destruct (exec_refines_aux o s a Hrep Hok Hroom) as [[e ->]|(d' & -> & ?)]; done.
Qed.

(** A new file holds the initial abstract store. *)
Lemma rep_open max : rep (db (Open None max)) a_init.
Proof.
  split; cbn; [|intros _|done]; unfold is_active, get_str; cbn; by rewrite law_get_empty.
Qed.

Lemma run_rep ops max :
  Forall op_ok ops → Z.of_nat (length ops) + 2 < 2 ^ 64 →
  ∃ a, rep (db (run ops (Open None max))) a ∧ a_latest a ≤ Z.of_nat (length ops).
Proof.
  intros Hok Hlen.
  assert (∀ s a, rep (db s) a → a_latest a + Z.of_nat (length ops) + 2 < 2 ^ 64 →
    ∃ a', rep (db (run ops s)) a' ∧ a_latest a' ≤ a_latest a + Z.of_nat (length ops)) as Hgen.
  { clear Hlen. induction Hok as [|o ops Ho _ IH]; intros s a Hrep Hroom; cbn [run].
    { exists a. split; [done|cbn; lia]. }
    cbn [length] in Hroom |- *. destruct (exec_refines_aux o s a Hrep Ho ltac:(lia)) as [[e ->]|(d' & -> & Hrep')].
    - destruct (IH s a Hrep ltac:(lia)) as (a' & ? & ?). exists a'. split; [done|lia].
    - pose proof (a_exec_latest o a).
      destruct (IH (with_db s d') (a_exec o a) Hrep' ltac:(lia)) as (a' & ? & ?).
      exists a'. split; [done|lia]. }
  destruct (Hgen (Open None max) a_init (rep_open max)) as (a & ? & Ha);
    change (a_latest a_init) with 0 in *; [lia|].
  exists a. split; [done|]. lia.
Qed.

(** C7: every operation of the durable queue (activation, capture, acknowledgement)
    either fails and leaves the database exactly as it was, or succeeds and
    implements the abstract store: history extended, pointer advanced, baselines
    updated, nothing else. *)
Theorem exec_refines o s a s' r :
  rep (db s) a → op_ok o → a_latest a + 2 < 2 ^ 64 → exec o s = (s', r) →
  (∃ e, r = Err e ∧ s' = s) ∨
  (r = Ok tt ∧ rep (db s') (a_exec o a) ∧ maxBytes s' = maxBytes s).
Proof.
  intros Hrep Hok Hroom E.
  destruct (exec_refines_aux o s a Hrep Hok Hroom) as [[e E']|(d' & E' & Hrep')];
    rewrite E' in E; injection E as <- <-; [left; eauto|right; done].
Qed.

(** in every state the store can reach from a new file, the sequence numbers
    waiting in the queue are exactly those between the acknowledged and the latest
    one: nothing is skipped, lost or kept twice. *)
Theorem status_accounting ops max :
  Forall op_ok ops → Z.of_nat (length ops) + 2 < 2 ^ 64 →
  let st := StatusOf (db (run ops (Open None max))) in
  Active st = true →
  0 ≤ AckedThrough st ≤ LatestSequence st ∧
  Pending st = LatestSequence st - AckedThrough st ∧
  (0 < Pending st → OldestSequence st = AckedThrough st + 1).
Proof.
  intros Hok Hlen st Hact. destruct (run_rep ops max Hok Hlen) as (a & Hrep & Hlat).
  unfold st in *. clear st. revert Hact Hrep. generalize (db (run ops (Open None max))) as d.
  intros d Hact Hrep. cbn in Hact. rewrite (rep_active _ _ Hrep) in Hact.
  pose proof (rep_live _ _ Hrep Hact) as Hl. destruct (live_bounds _ _ Hl).
  cbn [StatusOf AckedThrough LatestSequence Pending OldestSequence].
  rewrite (live_acked _ _ Hl), (live_next _ _ Hl), !readUint64_put by (split; lia).
  rewrite (proj2 (Z.ltb_lt 0 (a_latest a + 1))) by lia.
  pose proof (Forall2_length _ _ _ (queue_in_range _ _ Hl)) as Hlenq.
  unfold a_queue in Hlenq. rewrite length_drop in Hlenq.
  split; [lia|]. split; [unfold a_latest in *; lia|]. intros Hpos.
  destruct (b_items (snapshots d)) as [|[k v] items] eqn:E; [cbn in Hpos; lia|].
  assert (b_items (snapshots d) !! 0%nat = Some (k, v)) as H0' by by rewrite E.
  destruct (Forall2_lookup_l _ _ _ _ _ (queue_in_range _ _ Hl) H0') as (sn & Hs & [Hk _] & Hr).
  unfold a_queue in Hs. rewrite lookup_drop in Hs.
  rewrite (history_sequence _ _ _ _ Hl Hs) in *. cbn in Hk. subst k.
  rewrite uint64_of_put by (split; lia). lia.
Qed.
End refinement.
