(* ===== verification/UsageBilling.v ===== *)
(** * What the usage queue guarantees to its readers

    Delivery: [Pull] hands out the unacknowledged history in order, as much as the
    limits allow ([pull_spec]), and always progresses unless one snapshot alone is
    over the byte limit ([pull_progress], [pull_oversized]).
    Billing: what any series of captures bills to a counter, as a function of its
    readings, of the restarts and of the marks of the captures; it is what the counter
    counted, except for the old baseline of a counter that a restart brought back
    unnoticed ([billing_conservation]).
    Capacity: a commit keeps the queue under its byte limit ([capture_capacity]). *)
From S2P Require Import Prelude GoStr GoTime Bolt UsageStore UsageSpec.
Import UsageStore.

Local Open Scope Z_scope.

(** ** Traffic of one counter *)

(** What a series of readings (restarted?, value) adds to the bill. *)
Fixpoint traffic (prev : Z) (readings : list (bool * Z)) : Z :=
  match readings with
  | [] => 0
  | (reset, v) :: rest => (if reset || (v <? prev) then v else v - prev) + traffic v rest
  end.

Fixpoint nondecreasing (prev : Z) (vs : list Z) : Prop :=
  match vs with [] => True | v :: vs' => prev ≤ v ∧ nondecreasing v vs' end.

Definition final (prev : Z) (vs : list Z) : Z := List.last vs prev.

Lemma final_cons prev v vs : final prev (v :: vs) = final v vs.
Proof.
  unfold final. cbn. destruct vs as [|w vs]; [done|].
  revert w. induction vs as [|x vs IH]; intros w; [done|]. cbn in *. apply IH.
Qed.

Lemma traffic_app prev l1 l2 :
  traffic prev (l1 ++ l2) = traffic prev l1 + traffic (final prev l1.*2) l2.
Proof.
  revert prev. induction l1 as [|[r v] l1 IH]; intros prev; cbn [traffic app fmap list_fmap snd]; [done|].
  rewrite IH, final_cons. lia.
Qed.

(** ** Observations

    What one capture sees of a counter: whether the counter started again from zero
    since the capture before, whether the capture is marked as the first one after a
    restart, and the value, if the sample has the counter at all. *)
Definition observation : Type := bool * bool * option Z.

(** The readings among the observations: samples without the counter add none. *)
Definition present (obs : list observation) : list (bool * Z) :=
  omap (λ o : observation, (λ v, (o.1.2, v)) <$> o.2) obs.

Lemma present_app l1 l2 : present (l1 ++ l2) = present l1 ++ present l2.
Proof. apply omap_app. Qed.
Lemma present_cons o l : present (o :: l) = present ([o] ++ l).
Proof. done. Qed.

(** The values seen before the first restart, and those of each lifetime after it. *)
Fixpoint lifetimes (obs : list observation) : list Z * list (list Z) :=
  match obs with
  | [] => ([], [])
  | (restarted, _, o) :: rest =>
      let '(vs, later) := lifetimes rest in
      let vs' := option_list o ++ vs in
      if restarted then ([], vs' :: later) else (vs', later)
  end.

(** Within a lifetime a counter never decreases; after a restart it starts from zero. *)
Definition in_order (base : Z) (l : list Z * list (list Z)) : Prop :=
  nondecreasing base l.1 ∧ ∀ vs, vs ∈ l.2 → nondecreasing 0 vs.

(** What the counter counted: its growth past the baseline in the first lifetime and
    everything in each later one. *)
Definition counted (base : Z) (l : list Z * list (list Z)) : Z :=
  (final base l.1 - base) + sum_Z (final 0 <$> l.2).

(** What the bill leaves out: when the first value seen after a restart is not in a
    marked capture and is not below the old baseline, only the growth past that baseline
    is billed.  [missed] is a restart since the last value. *)
Fixpoint lost (missed : bool) (base : Z) (obs : list observation) : Z :=
  match obs with
  | [] => 0
  | (restarted, _, None) :: rest => lost (missed || restarted) base rest
  | (restarted, marked, Some v) :: rest =>
      (if (missed || restarted) && negb marked && (base <=? v) then base else 0) + lost false v rest
  end.

(** A capture is marked only after a restart. *)
Definition mark_sound (o : observation) : Prop := o.1.2 = true → o.1.1 = true.
(** The restart is marked in a capture that has the counter. *)
Definition mark_complete (o : observation) : Prop := o.1.1 = true → o.1.2 = true ∧ is_Some o.2.

Lemma traffic_counted (missed : bool) base obs :
  Forall mark_sound obs → in_order (if missed then 0 else base) (lifetimes obs) →
  traffic base (present obs) + lost missed base obs = counted (if missed then 0 else base) (lifetimes obs).
Proof.
  intros Hs. revert missed base. induction Hs as [|[[restarted marked] o] obs Ho _ IH]; intros missed base.
  { intros _. unfold counted, final. cbn. lia. }
  unfold mark_sound in Ho. cbn [fst snd] in Ho.
  cbn [lifetimes]. destruct (lifetimes obs) as [vs later] eqn:El.
  destruct o as [v|]; cbn [option_list app].
  - change (present ((restarted, marked, Some v) :: obs)) with ((marked, v) :: present obs).
    change (option_list (Some v) ++ vs) with (v :: vs).
    cbn [traffic lost]. specialize (IH false v).
    destruct restarted; cbn [orb]; intros [H1 H2]; cbn [fst snd] in H1, H2.
    + assert (nondecreasing 0 (v :: vs)) as [_ Hv] by (apply H2; left).
      unfold counted, in_order in *. cbn [fst snd fmap list_fmap sum_Z] in *. rewrite final_cons.
      rewrite orb_true_r. cbn [andb]. unfold final at 1. cbn [List.last].
      assert (nondecreasing v vs ∧ ∀ x, x ∈ later → nondecreasing 0 x) as Hio by (split; [done|intros; apply H2; by right]).
      specialize (IH Hio). destruct marked; cbn [negb andb orb]; [lia|].
      destruct (Z.ltb_spec v base), (Z.leb_spec base v); lia.
    + destruct H1 as [Hle Hv]. destruct marked; [by specialize (Ho eq_refl)|].
      unfold counted, in_order in *. cbn [fst snd] in *. rewrite final_cons. specialize (IH (conj Hv H2)).
      cbn [orb]. rewrite orb_false_r. destruct missed; cbn [andb negb].
      * destruct (Z.ltb_spec v base), (Z.leb_spec base v); lia.
      * destruct (Z.ltb_spec v base); lia.
  - change (present ((restarted, marked, None) :: obs)) with (present obs). cbn [lost].
    destruct restarted; intros [H1 H2]; cbn [fst snd] in H1, H2.
    + rewrite orb_true_r, (IH true base).
      * unfold counted. change (option_list None ++ vs) with vs. cbn [fst snd fmap list_fmap sum_Z].
        assert (∀ b, final b [] = b) as Hnil by done. rewrite Hnil. lia.
      * split; [apply H2; left|]. intros ??. apply H2. by right.
    + rewrite orb_false_r. by apply IH.
Qed.

Lemma lost_none base obs : Forall mark_complete obs → lost false base obs = 0.
Proof.
  intros Hs. revert base. induction Hs as [|[[restarted marked] o] obs Ho _ IH]; intros base; [done|].
  unfold mark_complete in Ho. cbn [fst snd] in Ho. destruct o as [v|]; cbn [lost orb].
  - rewrite IH. destruct restarted; [|done]. by destruct (Ho eq_refl) as [-> _].
  - destruct restarted; [|apply IH]. by destruct (Ho eq_refl) as [_ [? ?]].
Qed.

(** [bill] accounts for the observations of a counter with baseline [base]: it is the
    traffic of the readings; that and what is lost make up what was counted; nothing is
    lost when the first capture after every restart is marked and has the counter. *)
Definition accounts (base : Z) (obs : list observation) (bill : Z) : Prop :=
  bill = traffic base (present obs) ∧
  (in_order base (lifetimes obs) →
   bill + lost false base obs = counted base (lifetimes obs) ∧
   (Forall mark_complete obs → bill = counted base (lifetimes obs))).

Lemma accounts_traffic base obs :
  Forall mark_sound obs → accounts base obs (traffic base (present obs)).
Proof.
  intros Hs. split; [done|]. intros Ho. pose proof (traffic_counted false base obs Hs Ho) as H.
  split; [exact H|]. intros Hm. rewrite (lost_none _ _ Hm) in H. lia.
Qed.

(** ** Billing *)

Definition key_bytes (k : string) (l : list Counter) : Z :=
  sum_Z (Value <$> filter (λ c, counterKey c = k) l).
(** Bytes that the snapshots bill to the counter with this key. *)
Definition billed (k : string) (l : list Snapshot) : Z :=
  sum_Z ((λ s, key_bytes k (Counters s)) <$> l).

Lemma key_bytes_app k l1 l2 : key_bytes k (l1 ++ l2) = key_bytes k l1 + key_bytes k l2.
Proof. unfold key_bytes. by rewrite filter_app, fmap_app, sum_Z_app. Qed.

Lemma billed_app k l1 l2 : billed k (l1 ++ l2) = billed k l1 + billed k l2.
Proof. unfold billed. by rewrite fmap_app, sum_Z_app. Qed.

Lemma sample_other reset k counters base ds :
  k ∉ counterKey <$> counters →
  let s := foldl (a_counter reset) (base, ds) counters in
  s.1 !! k = base !! k ∧ key_bytes k s.2 = key_bytes k ds.
Proof.
  revert base ds. induction counters as [|c l IH]; intros base ds Hk; cbn [foldl]; [done|].
  cbn in Hk. apply not_elem_of_cons in Hk as [Hne Hk].
  specialize (IH (<[counterKey c:=Value c]> base)
    (if 0 <? fresh_bytes reset c (default 0 (base !! counterKey c))
     then ds ++ [set_Value c (fresh_bytes reset c (default 0 (base !! counterKey c)))] else ds) Hk).
  unfold a_counter at 2 4. cbn [fst snd]. cbn zeta in IH. destruct IH as [-> ->].
  rewrite lookup_insert_ne by congruence. split; [done|].
  case_match; [|done]. rewrite key_bytes_app. unfold key_bytes at 2.
  rewrite filter_cons, decide_False by (rewrite counterKey_set_Value; congruence). cbn. lia.
Qed.

Lemma sample_key reset k c counters base :
  NoDup (counterKey <$> counters) → c ∈ counters → counterKey c = k → 0 ≤ Value c →
  (a_sample reset base counters).1 !! k = Some (Value c) ∧
  key_bytes k (a_sample reset base counters).2 =
    fresh_bytes reset c (default 0 (base !! k)).
Proof.
  intros Hnd Hin Hk Hv. unfold a_sample.
  assert (∀ ds, key_bytes k ds = 0 →
    let s := foldl (a_counter reset) (base, ds) counters in
    s.1 !! k = Some (Value c) ∧ key_bytes k s.2 = fresh_bytes reset c (default 0 (base !! k)))
    as Hgen; [|by apply Hgen].
  revert base. induction counters as [|c1 l IH]; intros base ds Hds; [by apply not_elem_of_nil in Hin|].
  cbn in Hnd. apply NoDup_cons in Hnd as [Hnin Hnd]. cbn [foldl]. unfold a_counter at 2 4. cbn [fst snd].
  apply elem_of_cons in Hin as [->|Hin].
  - pose proof (fresh_bytes_nonneg reset c1 (default 0 (base !! k)) Hv) as Hf. subst k.
    edestruct (sample_other reset (counterKey c1) l) as [-> ->]; [done|].
    rewrite lookup_insert_eq. split; [done|].
    destruct (Z.ltb_spec 0 (fresh_bytes reset c1 (default 0 (base !! counterKey c1)))); [|lia].
    rewrite key_bytes_app, Hds. unfold key_bytes.
    rewrite filter_cons, decide_True by (by rewrite counterKey_set_Value). cbn. lia.
  - assert (counterKey c1 ≠ k) as Hne.
    { intros Heq. apply Hnin. rewrite Heq, <-Hk. apply list_elem_of_fmap. eauto. }
    specialize (IH Hnd Hin (<[counterKey c1:=Value c1]> base)). rewrite lookup_insert_ne in IH by done.
    apply IH. case_match; [|done]. rewrite key_bytes_app, Hds. unfold key_bytes.
    rewrite filter_cons, decide_False by (by rewrite counterKey_set_Value). done.
Qed.

(** One periodic capture: core name, counters, time, "the core restarted". *)
Definition capture : Type := string * list Counter * time * bool.

(** What a capture sees of the counter with key [k]; the mark of a restart of the core
    concerns the counters of the core only. *)
Definition value_of (k : string) (counters : list Counter) : option Z :=
  Value <$> (head (filter (λ c, counterKey c = k) counters)).
Definition observe (k : string) (forwarding restarted : bool) (cap : capture) : observation :=
  let '(_, counters, _, reset) := cap in (restarted, reset && negb forwarding, value_of k counters).

(** The sample has at most one counter with key [k], of the kind the key is for. *)
Definition one_counter (k : string) (forwarding : bool) (counters : list Counter) : Prop :=
  NoDup (counterKey <$> counters) ∧
  ∀ c, c ∈ counters → counterKey c = k → bool_decide (Kind c = "forwarding") = forwarding.

Lemma value_of_cases k counters :
  (k ∉ (counterKey <$> counters)) ∧ value_of k counters = None ∨
  ∃ c, c ∈ counters ∧ counterKey c = k ∧ value_of k counters = Some (Value c).
Proof.
  unfold value_of. destruct (filter (λ c, counterKey c = k) counters) as [|c l] eqn:E; [left|right].
  - split; [|done]. intros (c & Hk & Hc)%list_elem_of_fmap.
    apply (not_elem_of_nil c). rewrite <-E. apply list_elem_of_filter. done.
  - exists c. assert (c ∈ filter (λ c, counterKey c = k) counters) as Hc by (rewrite E; left).
    apply list_elem_of_filter in Hc as [Hk Hc]. done.
Qed.

(** ** Keys *)

Definition no_nul (s : string) : Prop := all_bytes (λ c, negb (Ascii.eqb c (chr 0))) s = true.

Lemma nul_app_inj a b x y :
  no_nul a → no_nul b → a +:+ nul +:+ x = b +:+ nul +:+ y → a = b ∧ x = y.
Proof. apply sep_app_inj. Qed.

Definition key_plain (c : Counter) : Prop :=
  no_nul (Kind c) ∧ no_nul (Name c) ∧ no_nul (Inbound c) ∧ no_nul (Protocol c) ∧ no_nul (Scope c).

(** two counters share a baseline key exactly when they agree on kind, name and
    direction, and on the inbound (core counters) or the protocol and apply scope
    (forwarding counters); so no counter is billed against another's baseline. *)
Theorem counterKey_injective c1 c2 :
  key_plain c1 → key_plain c2 →
  counterKey c1 = counterKey c2 ↔
  Kind c1 = Kind c2 ∧ Name c1 = Name c2 ∧ Direction c1 = Direction c2 ∧
  if decide (Kind c1 = "forwarding") then Protocol c1 = Protocol c2 ∧ Scope c1 = Scope c2
  else Inbound c1 = Inbound c2.
Proof.
  intros (K1 & N1 & I1 & P1 & S1) (K2 & N2 & I2 & P2 & S2). split.
  - intros E. assert (Kind c1 = Kind c2) as HK.
    { unfold counterKey in E. destruct (negb _), (negb _);
        by apply nul_app_inj in E as [? _]. }
    unfold counterKey in E. rewrite <-HK in E.
    destruct (decide (Kind c1 = "forwarding")) as [Hf|Hf].
    + rewrite bool_decide_eq_true_2 in E by done. cbn [negb] in E.
      apply nul_app_inj in E as [_ E]; [|done..].
      apply nul_app_inj in E as [? E]; [|done..]. apply nul_app_inj in E as [? E]; [|done..].
      by apply nul_app_inj in E as [? ?].
    + rewrite bool_decide_eq_false_2 in E by done. cbn [negb] in E.
      apply nul_app_inj in E as [_ E]; [|done..].
      apply nul_app_inj in E as [? E]; [|done..]. by apply nul_app_inj in E as [? ?].
  - intros (HK & HN & HD & Hrest). unfold counterKey. rewrite <-HK, HN, HD.
    destruct (decide _) as [Hf|Hf].
    + rewrite bool_decide_eq_true_2 by done. cbn [negb]. by destruct Hrest as [-> ->].
    + rewrite bool_decide_eq_false_2 by done. cbn [negb]. by rewrite Hrest.
Qed.

Section guarantees.
Context {B : Type} `{BucketOps B} `{!BucketLaws B}.
Context `{Codec Snapshot} `{!CodecLaws Snapshot}.
Context `{TxOps (DB B)} `{!TxLaws (DB B)}.
Implicit Types (d : DB B) (s : Store B) (a : AStore).

Fixpoint capture_all (caps : list capture) s : Store B * result unit :=
  match caps with
  | [] => (s, Ok tt)
  | (core, counters, t, reset) :: rest =>
      match Capture core counters t reset s with
      | (s', Ok _) => capture_all rest s'
      | (s', Err e) => (s', Err e)
      end
  end.

(** One capture adds to the history what its observation is worth, and the value it
    saw becomes the baseline. *)
Lemma capture_observed k forwarding restarted core counters t reset a :
  counters_ok counters → one_counter k forwarding counters →
  let a' := a_capture core counters t reset a in
  let seen := present [observe k forwarding restarted (core, counters, t, reset)] in
  let base := default 0 (a_base a !! k) in
  (∃ new, a_history a' = a_history a ++ new ∧ billed k new = traffic base seen) ∧
  default 0 (a_base a' !! k) = final base seen.*2.
Proof.
  intros Hok [Hnd Hkind]. cbn zeta. unfold a_capture. cbn [a_history a_base].
  assert (∀ ds : list Counter, billed k
    match ds with [] => [] | d :: l => [{| Generation := a_gen a; Sequence := a_latest a + 1; CapturedAt := t;
      Core := core; Counters := d :: l |}] end = key_bytes k ds) as Hbill.
  { intros [|d ds]; [done|]. unfold billed. cbn [fmap list_fmap sum_Z UsageStore.Counters]. lia. }
  destruct (value_of_cases k counters) as [[Hk Hv]|(c & Hin & Hk & Hv)];
    unfold present, observe; cbn [omap list_omap]; rewrite Hv; cbn.
  - destruct (sample_other reset k counters (a_base a) [] Hk) as [Hb Hs].
    fold (a_sample reset (a_base a) counters) in Hb, Hs. rewrite Hb. split; [|done].
    eexists. split; [reflexivity|]. by rewrite Hbill, Hs.
  - destruct (sample_key reset k c counters (a_base a) Hnd Hin Hk) as [Hb Hd]; [by apply Hok|].
    rewrite Hb. split; [|done]. eexists. split; [reflexivity|]. rewrite Hbill, Hd.
    unfold fresh_bytes. rewrite (Hkind c Hin Hk). lia.
Qed.

(** C14: billing conservation.  Whatever a series of successful captures sees of a
    counter, present or absent, across restarts with or without a mark, the queue bills
    it the traffic of its readings: that is what it counted, the growth since the
    baseline and everything in each later lifetime, except that the old baseline is lost
    when the first value after a restart is in an unmarked capture (also because the
    marked one lacked the counter) and has reached it again; when the first capture after
    every restart is marked and has the counter nothing is lost.  Snapshots already in
    the history stay as they are. *)
Theorem billing_conservation k forwarding caps restarts s s' a :
  rep (db s) a → a_active a = true →
  a_latest a + Z.of_nat (length caps) + 2 < 2 ^ 64 →
  Forall (λ '(core, counters, t, _), sample_ok core counters t ∧ one_counter k forwarding counters) caps →
  length restarts = length caps →
  let obs := zip_with (observe k forwarding) restarts caps in
  Forall mark_sound obs →
  capture_all caps s = (s', Ok tt) →
  ∃ a' new, rep (db s') a' ∧ a_history a' = a_history a ++ new ∧
    accounts (default 0 (a_base a !! k)) obs (billed k new).
Proof.
  intros Hrep Hact Hroom Hok Hlen obs Hmark E.
  cut (∃ a' new, rep (db s') a' ∧ a_history a' = a_history a ++ new ∧
    billed k new = traffic (default 0 (a_base a !! k)) (present obs)).
  { intros (a' & new & Hrep' & Hh & Hb). exists a', new. rewrite Hb. split_and!; [done..|]. by apply accounts_traffic. }
  unfold obs. clear obs Hmark. revert restarts Hlen s a Hrep Hact Hroom E.
  induction Hok as [|[[[core counters] t] reset] caps [Hsample Hkeyed] _ IH];
    intros [|restarted restarts] Hlen s a Hrep Hact Hroom E; try discriminate Hlen.
  { injection E as <-. exists a, []. rewrite app_nil_r. done. }
  cbn [capture_all length] in E, Hroom, Hlen.
  destruct (exec_refines_aux (OpCapture core counters t reset) s a Hrep Hsample ltac:(lia))
    as [[e E1]|(d' & E1 & Hrep')]; cbn [exec] in E1; rewrite E1 in E; [done|].
  destruct (capture_observed k forwarding restarted core counters t reset a) as [(new1 & Hh1 & Hb1) Hbase];
    [apply Hsample|done|].
  pose proof (a_exec_latest (OpCapture core counters t reset) a).
  assert (a_latest (a_exec (OpCapture core counters t reset) a) + Z.of_nat (length caps) + 2 < 2 ^ 64)
    as Hroom' by lia.
  destruct (IH restarts ltac:(lia) (with_db s d') _ Hrep' Hact Hroom' E) as (a' & new & Hrep2 & Hh & Hb).
  cbn [a_exec] in *. rewrite Hh1, <-app_assoc in Hh. rewrite Hbase in Hb.
  exists a', (new1 ++ new). split; [done|]. split; [done|].
  cbn [zip_with]. rewrite present_cons.
  rewrite billed_app, Hb, Hb1, present_app. by rewrite traffic_app.
Qed.

(** ** Delivery *)

(** The bytes a snapshot takes in the queue: its JSON. *)
Definition payload_size (sn : Snapshot) : Z :=
  match marshal sn with Ok p => slen p | Err _ => 0 end.
Definition payload_sizes (l : list Snapshot) : Z := sum_Z (payload_size <$> l).

Lemma payload_size_nonneg sn : 0 ≤ payload_size sn.
Proof. unfold payload_size, slen. case_match; lia. Qed.

Lemma payload_sizes_nonneg l : 0 ≤ payload_sizes l.
Proof.
  apply sum_Z_nonneg. intros z (sn & -> & _)%list_elem_of_fmap. apply payload_size_nonneg.
Qed.

Lemma stored_size kv sn : stored kv sn → slen kv.2 = payload_size sn.
Proof. intros (_ & Hm & _). unfold payload_size. by rewrite Hm. Qed.

(** [n] is the longest prefix of [l] within both limits. *)
Definition fits (limit max : Z) (l : list Snapshot) (n : nat) : Prop :=
  (n ≤ length l)%nat ∧ Z.of_nat n ≤ limit ∧ payload_sizes (take n l) ≤ max ∧
  ∀ sn, l !! n = Some sn → Z.of_nat n = limit ∨ max < payload_sizes (take n l) + payload_size sn.

Lemma pull_loop_spec limit max items l used acc :
  Forall2 stored items l → Z.of_nat (length acc) ≤ limit → used ≤ max →
  ∃ n, fits (limit - Z.of_nat (length acc)) (max - used) l n ∧
    pull_loop limit max used acc items = Ok (acc ++ take n l, bool_decide (n < length l)%nat).
Proof.
  intros Hst. revert used acc. induction Hst as [|[k v] sn items l Hkv _ IH]; intros used acc Hl Hu.
  { exists 0%nat. cbn [pull_loop take length]. rewrite app_nil_r. split; [|done].
    unfold fits, payload_sizes. cbn. split_and!; [lia..|done]. }
  cbn [pull_loop]. pose proof (stored_size _ _ Hkv) as Hsize. cbn [snd] in Hsize. rewrite Hsize.
  destruct (Z.leb_spec limit (Z.of_nat (length acc))); cbn [orb];
    [|destruct (Z.ltb_spec max (used + payload_size sn))].
  1, 2: exists 0%nat; cbn [take length]; rewrite app_nil_r; split; [|done];
    unfold fits, payload_sizes; cbn; split_and!; [lia..|]; intros ? [= <-]; lia.
  destruct Hkv as (_ & _ & Hun). cbn [snd] in Hun. rewrite Hun. cbn [mbind result_bind].
  destruct (IH (used + payload_size sn) (acc ++ [sn])) as (n & (F1 & F2 & F3 & F4) & ->).
  { rewrite length_app. cbn. lia. }
  { lia. }
  rewrite length_app in F2, F4. cbn [length] in F2, F4. exists (S n). split.
  - unfold fits, payload_sizes in *. cbn [take length fmap list_fmap sum_Z].
    split_and!; [lia..|]. intros sn' Hn. destruct (F4 _ Hn); [left|right]; lia.
  - rewrite <-app_assoc. cbn [app take length]. repeat f_equal. apply bool_decide_ext. lia.
Qed.

Lemma seek_stored d a after :
  live d a → 0 ≤ after → after + 1 < 2 ^ 64 →
  Forall2 stored (seek (sequenceKey (Int.uwrap64 (after + 1))) (snapshots d))
    (drop (Z.to_nat (Z.max after (a_acked a))) (a_history a)).
Proof.
  intros Hl Ha Hw. destruct (live_bounds _ _ Hl). rewrite Int.uwrap64_id by (split; lia).
  assert (drop (Z.to_nat (Z.max after (a_acked a))) (a_history a) =
    drop_while (λ sn, Sequence sn <=? Z.max after (a_acked a)) (a_queue a)) as ->.
  { unfold a_queue. rewrite (drop_while_sequence _ (a_acked a)), drop_drop; [f_equal; lia| |lia].
    rewrite sequence_drop; [f_equal; lia|apply Hl|unfold a_latest in *; lia]. }
  apply (Forall2_impl (λ kv sn, stored kv sn ∧ a_acked a < Sequence sn ≤ a_latest a));
    [|by intros kv sn [Hst _]].
  unfold seek. apply Forall2_drop_while with (2 := queue_in_range _ _ Hl).
  intros kv sn [[-> _] Hr]. unfold sequenceKey. rewrite put_uint64_ltb by (split; lia).
  destruct (Z.ltb_spec (Sequence sn) (after + 1)),
    (Z.leb_spec (Sequence sn) (Z.max after (a_acked a))); lia.
Qed.

Lemma clamp_limit_range limit : 1 ≤ clamp_limit limit ≤ 500.
Proof. unfold clamp_limit. destruct (Z.leb_spec limit 0), (Z.ltb_spec 500 limit); cbn; lia. Qed.
Lemma clamp_bytes_range max : 1 ≤ clamp_bytes max ≤ 4194304.
Proof. unfold clamp_bytes. destruct (Z.leb_spec max 0), (Z.ltb_spec 4194304 max); cbn; lia. Qed.

(** What a pull after sequence number [after] has to deliver. *)
Definition undelivered (after : Z) a : list Snapshot :=
  drop (Z.to_nat (Z.max after (a_acked a))) (a_history a).

Lemma pull_delivers s a request :
  rep (db s) a → a_active a = true → 0 ≤ AfterSequence request → AfterSequence request + 1 < 2 ^ 64 →
  let todo := undelivered (AfterSequence request) a in
  ∃ n, fits (clamp_limit (Limit request)) (clamp_bytes (MaxBytes request)) todo n ∧
    Pull request s = Ok {| resp_Generation := a_gen a; Snapshots := take n todo;
                           HasMore := bool_decide (n < length todo)%nat |}.
Proof.
  intros Hrep Ha Hlo Hhi todo. pose proof (rep_live _ _ Hrep Ha) as Hl.
  pose proof (clamp_limit_range (Limit request)). pose proof (clamp_bytes_range (MaxBytes request)).
  destruct (pull_loop_spec (clamp_limit (Limit request)) (clamp_bytes (MaxBytes request))
    _ _ 0 [] (seek_stored _ _ _ Hl Hlo Hhi)) as (n & Hfits & E); [cbn; lia..|].
  exists n. rewrite !Z.sub_0_r in Hfits. split; [done|].
  unfold Pull. rewrite (rep_active _ _ Hrep), Ha. cbn [negb]. rewrite E, (live_gen _ _ Hl). done.
Qed.

(** C27: a pull delivers the undelivered history from the requested position on, in
    order and without gaps, the longest prefix within the clamped count and byte
    limits, and [HasMore] says exactly whether something is left. *)
Theorem pull_spec s a request :
  rep (db s) a → a_active a = true → 0 ≤ AfterSequence request → AfterSequence request + 1 < 2 ^ 64 →
  let todo := undelivered (AfterSequence request) a in
  ∃ n, fits (clamp_limit (Limit request)) (clamp_bytes (MaxBytes request)) todo n ∧
    Pull request s = Ok {| resp_Generation := a_gen a; Snapshots := take n todo;
                           HasMore := bool_decide (n < length todo)%nat |}.
Proof. apply pull_delivers. Qed.

(** C28: a pull always makes progress when something is undelivered, unless the
    next snapshot alone is over the byte limit; then it delivers nothing and
    reports more, whatever the request asks for. *)
Theorem pull_progress s a request sn :
  rep (db s) a → a_active a = true → 0 ≤ AfterSequence request → AfterSequence request + 1 < 2 ^ 64 →
  head (undelivered (AfterSequence request) a) = Some sn →
  match Pull request s with
  | Ok resp => HasMore resp = true ∨ Snapshots resp ≠ []
  | Err _ => False
  end ∧
  (∀ resp, Pull request s = Ok resp →
    Snapshots resp = [] ↔ clamp_bytes (MaxBytes request) < payload_size sn).
Proof.
  intros Hrep Ha Hlo Hhi Hh.
  destruct (pull_delivers s a request Hrep Ha Hlo Hhi) as (n & (Hn & Hnl & Hsz & Hmax) & ->).
  destruct (undelivered _ a) as [|sn' l] eqn:El; [done|]. injection Hh as ->.
  pose proof (clamp_limit_range (Limit request)). destruct n as [|n].
  - split; [left; by apply bool_decide_eq_true_2; cbn; lia|]. intros ? [= <-]. cbn.
    destruct (Hmax sn eq_refl) as [?|Hlt]; [lia|]. cbn in Hlt. split; [lia|done].
  - split; [by right|]. intros ? [= <-]. cbn [Snapshots take]. split; [done|].
    unfold payload_sizes in Hsz. cbn [take fmap list_fmap sum_Z] in Hsz.
    pose proof (payload_sizes_nonneg (take n l)). unfold payload_sizes in *. lia.
Qed.

(** ** Capacity *)

Definition queue_bytes d : Z := sum_Z ((λ kv, slen kv.2) <$> b_items (snapshots d)).

Lemma items_bytes_nonneg (l : list (string * string)) : 0 ≤ sum_Z ((λ kv, slen kv.2) <$> l).
Proof. apply sum_Z_nonneg. intros z (kv & -> & _)%list_elem_of_fmap. apply slen_nonneg. Qed.

Lemma items_bytes_filter (P : string * string → Prop) `{∀ x, Decision (P x)} l :
  sum_Z ((λ kv, slen kv.2) <$> filter P l) ≤ sum_Z ((λ kv, slen kv.2) <$> l).
Proof.
  induction l as [|kv l IH]; [done|]. rewrite filter_cons. pose proof (slen_nonneg kv.2).
  case_decide; cbn [fmap list_fmap sum_Z]; lia.
Qed.

(** The accumulation of [snapshotBytes] does not overflow on a queue that fits. *)
Lemma snapshotBytes_exact d : queue_bytes d < 2 ^ 63 → snapshotBytes (snapshots d) = queue_bytes d.
Proof.
  unfold queue_bytes, snapshotBytes.
  assert (∀ t, 0 ≤ t → t + sum_Z ((λ kv, slen kv.2) <$> b_items (snapshots d)) < 2 ^ 63 →
    foldl (λ total kv, Int.wrap64 (total + slen kv.2)) t (b_items (snapshots d)) =
    t + sum_Z ((λ kv, slen kv.2) <$> b_items (snapshots d))) as Hgen; [|intros; by apply Hgen].
  induction (b_items (snapshots d)) as [|kv l IH]; intros t Ht Hlt; cbn [foldl fmap list_fmap sum_Z] in *; [lia|].
  pose proof (items_bytes_nonneg l). pose proof (slen_nonneg kv.2).
  rewrite Int.wrap64_id by (split; lia). rewrite IH; lia.
Qed.

Lemma capture_tx_items limit core counters t reset d d' a :
  live d a → capture_tx limit core counters t reset d = Ok d' →
  b_items (snapshots d') = b_items (snapshots d) ∨
  ∃ kv, b_items (snapshots d') = b_items (snapshots d) ++ [kv] ∧ slen kv.2 ≤ 2147483646 ∧
    Int.wrap64 (slen kv.2 + snapshotBytes (snapshots d)) ≤ limit.
Proof.
  intros Hl E. unfold capture_tx in E. destruct (negb _); [done|].
  bind_as E [bl ds] Hloop. destruct ds as [|c ds]; [left; by injection E as <-|right].
  bind_as E payload Hm. bind_as E [] Hlim. bind_as E sn Hsn. bind_as E m1 Hm1. bind_as E m2 Hm2.
  injection E as <-. apply fail_if_ok, Z.ltb_ge in Hlim.
  exists (sequenceKey (readUint64 (get_str nextSequenceKey (meta d))), payload). cbn [snapshots snd].
  split; [|split; [|done]].
  - apply items_put_last; [done|]. unfold sequenceKey. rewrite (live_next _ _ Hl).
    destruct (live_bounds _ _ Hl). rewrite readUint64_put by (split; lia). by apply queue_key_bound.
  - by edestruct (proj1 (law_put_ok _ payload (snapshots d)) (ex_intro _ _ Hsn)).
Qed.

Lemma exec_capacity o s a :
  rep (db s) a → a_active a = true ∨ (∃ r l, o = OpActivate r l) →
  maxBytes s ≤ 2 ^ 62 → queue_bytes (db s) ≤ maxBytes s →
  queue_bytes (db (exec o s).1) ≤ maxBytes s.
Proof.
  intros Hrep Hact Hmax Hq. pose proof (items_bytes_nonneg (b_items (snapshots (db s)))) as Hnn.
  change (0 ≤ queue_bytes (db s)) in Hnn.
  destruct o as [random counters|core counters t reset|r]; cbn [exec].
  - unfold Activate. destruct (update_cases (activate_tx random counters) s)
      as [[e ->]|(d' & E & ->)]; cbn [fst db with_db]; [done|].
    unfold activate_tx in E. destruct (is_active _); inv_res; [done|].
    unfold queue_bytes. cbn [snapshots]. unfold clearBucket. rewrite items_clear. cbn. lia.
  - destruct Hact as [Hact|(? & ? & ?)]; [|done].
    unfold Capture. destruct (update_cases (capture_tx (maxBytes s) core counters t reset) s)
      as [[e ->]|(d' & E & ->)]; cbn [fst db with_db]; [done|].
    unfold queue_bytes.
    destruct (capture_tx_items _ _ _ _ _ _ _ _ (rep_live _ _ Hrep Hact) E) as [->|(kv & -> & Hsz & Hlim)];
      [done|].
    rewrite fmap_app, sum_Z_app. cbn [fmap list_fmap sum_Z].
    pose proof (slen_nonneg kv.2). rewrite snapshotBytes_exact in Hlim by lia.
    rewrite Int.wrap64_id in Hlim by (split; lia). unfold queue_bytes in Hlim. lia.
  - unfold Ack. destruct (update_cases (ack_tx r) s)
      as [[e ->]|(d' & E & ->)]; cbn [fst db with_db]; [done|].
    unfold ack_tx in E. bind_as E [] Hgen. bind_as E [] Hahead. destruct (_ <=? _); inv_res; [done|].
    unfold queue_bytes in *. cbn [snapshots]. rewrite items_delete_keys.
    etrans; [apply items_bytes_filter|done].
Qed.

Lemma capture_inactive core counters t reset s a :
  rep (db s) a → a_active a = false → (Capture core counters t reset s).1 = s.
Proof.
  intros Hrep Ha. unfold Capture.
  destruct (update_cases (capture_tx (maxBytes s) core counters t reset) s) as [[e ->]|(d' & E & _)]; [done|].
  unfold capture_tx in E. rewrite (rep_active _ _ Hrep), Ha in E. done.
Qed.

Lemma ack_inactive r s a :
  rep (db s) a → a_active a = false → (Ack r s).1 = s.
Proof.
  intros Hrep Ha. unfold Ack.
  destruct (update_cases (ack_tx r) s) as [[e ->]|(d' & E & _)]; [done|].
  unfold ack_tx in E. bind_as E [] Hgen. apply fail_if_ok, orb_false_iff in Hgen as [Hne Hgen].
  apply bool_decide_eq_false in Hne. apply negb_false_iff, bool_decide_eq_true in Hgen.
  by rewrite (rep_idle _ _ Hrep Ha) in Hgen.
Qed.

(** the byte limit of the queue holds in every reachable state: whatever is
    activated, captured or acknowledged, the payloads in the queue together stay
    within the limit the store was opened with, and the status reports their exact
    total. *)
Theorem queue_capacity ops max :
  Forall op_ok ops → Z.of_nat (length ops) + 2 < 2 ^ 64 → max ≤ 2 ^ 62 →
  let s := run ops (Open None max) in
  Bytes (StatusOf (db s)) = queue_bytes (db s) ∧
  queue_bytes (db s) ≤ maxBytes (Open (B := B) None max).
Proof.
  intros Hok Hlen Hmax. cbv zeta.
  assert (maxBytes (Open (B := B) None max) ≤ 2 ^ 62) as Hlim
    by (cbn; destruct (max <=? 0); lia).
  assert (∀ s a, rep (db s) a → a_latest a + Z.of_nat (length ops) + 2 < 2 ^ 64 →
    maxBytes s ≤ 2 ^ 62 → queue_bytes (db s) ≤ maxBytes s →
    queue_bytes (db (run ops s)) ≤ maxBytes s) as Hgen.
  { clear Hlen Hlim. induction Hok as [|o ops Ho _ IH]; intros s a Hrep Hroom Hm Hq; cbn [run]; [done|].
    cbn [length] in Hroom.
    assert (queue_bytes (db (exec o s).1) ≤ maxBytes s) as Hq'.
    { destruct (a_active a) eqn:Ha; [eapply exec_capacity; eauto|].
      destruct o as [r l|core l t reset|r]; [eapply exec_capacity; eauto| |]; cbn [exec].
      - by rewrite (capture_inactive _ _ _ _ _ _ Hrep Ha).
      - pose proof (ack_inactive r s a Hrep Ha) as E. destruct (Ack r s). cbn in *. by rewrite E. }
    destruct (exec_refines_aux o s a Hrep Ho ltac:(lia)) as [[e E]|(d' & E & Hrep')];
      rewrite E in *; cbn [fst] in *.
    - eapply IH; [done|lia|done..].
    - pose proof (a_exec_latest o a). apply (IH (with_db s d') (a_exec o a)); [done|lia|done..]. }
  specialize (Hgen _ _ (rep_open max)). change (a_latest a_init) with 0 in Hgen.
  assert (queue_bytes (db (run ops (Open None max))) ≤ maxBytes (Open (B := B) None max)) as Hq.
  { apply Hgen; [lia|done|]. unfold queue_bytes. cbn [Open db default snapshots].
    change (snapshots _) with (b_empty : B). rewrite items_empty. cbn.
    destruct (Z.leb_spec max 0); lia. }
  cbn [Bytes StatusOf]. rewrite snapshotBytes_exact; [done|lia].
Qed.
End guarantees.

(** ** The theorems at work *)
Import Mem.
Module UsageDemo.
#[export] Instance demo_tx : TxOps (DB Mem.bucket) := Mem.update.
#[export] Instance demo_tx_laws : TxLaws (DB Mem.bucket) := Mem.update_laws _.
#[export] Instance demo_codec : Codec Snapshot := Mem.codec Snapshot.
#[export] Instance demo_codec_laws : CodecLaws Snapshot := Mem.codec_laws Snapshot.

Definition counter (v : Z) : Counter :=
  {| Kind := "user"; Name := "7"; Inbound := "in"; Protocol := ""; Scope := "";
     Direction := "up"; Value := v |}.
Definition caps : list capture :=
  [("sing-box", [counter 10], 0, false); ("sing-box", [counter 25], 1, false);
   ("sing-box", [counter 4], 2, true); ("sing-box", [counter 9], 3, false)].
Definition activate : op := OpActivate (Ok "seed") [counter 3].
Definition s1 : Store Mem.bucket := (exec activate (Open None 0)).1.
Definition a1 : AStore := a_exec activate a_init.
Definition s2 : Store Mem.bucket := (capture_all caps s1).1.

Lemma counter_ok v : 0 ≤ v < 2 ^ 63 → counters_ok [counter v].
Proof. intros Hv c ->%list_elem_of_singleton. done. Qed.

Lemma sample_demo v t : 0 ≤ v < 2 ^ 63 → sample_ok "sing-box" [counter v] t.
Proof. intros Hv. split; [by apply counter_ok|done]. Qed.

Definition demo_key : string := counterKey (counter 0).

Lemma keyed_counter v : one_counter demo_key false [counter v].
Proof. split; [apply NoDup_singleton|]. intros c ->%list_elem_of_singleton. done. Qed.

Lemma keyed_empty : one_counter demo_key false [].
Proof. split; [apply NoDup_nil_2|]. intros c Hc. by apply not_elem_of_nil in Hc. Qed.

Lemma caps_ok :
  Forall (λ '(core, counters, t, _), sample_ok core counters t ∧ one_counter demo_key false counters) caps.
Proof.
  unfold caps. repeat (apply Forall_cons; split; [split; [by apply sample_demo|apply keyed_counter]|]).
  apply Forall_nil. done.
Qed.

Lemma rep1 : rep (db s1) a1.
Proof.
  apply (exec_ok_rep activate (Open None 0) a_init);
    [apply rep_open|by apply counter_ok|done|vm_compute; reflexivity].
Qed.

Definition capture1 : op := OpCapture "sing-box" [counter 10] 5 false.
Definition s3 : Store Mem.bucket := (exec capture1 s1).1.
Definition a3 : AStore := a_exec capture1 a1.
Lemma rep3 : rep (db s3) a3.
Proof.
  apply (exec_ok_rep capture1 s1 a1);
    [apply rep1|by apply sample_demo|done|vm_compute; reflexivity].
Qed.

Lemma captured : capture_all caps s1 = (s2, Ok tt).
Proof.
  rewrite (surjective_pairing (capture_all caps s1)). fold s2. apply (f_equal (pair s2)). vm_compute. reflexivity.
Qed.

(** The marked sample after the restart lacks the counter, the next one has it above its
    old baseline 100: of the 150 bytes since the restart 50 are billed. *)
Definition gap_caps : list capture :=
  [("sing-box", [counter 100], 0, false); ("sing-box", [], 1, true); ("sing-box", [counter 150], 2, false)].
Definition gap_obs : list observation := zip_with (observe demo_key false) [false; true; false] gap_caps.

Lemma gap_ok :
  Forall (λ '(core, counters, t, _), sample_ok core counters t ∧ one_counter demo_key false counters) gap_caps.
Proof.
  unfold gap_caps. apply Forall_cons; split; [split; [by apply sample_demo|apply keyed_counter]|].
  apply Forall_cons; split; [split; [|apply keyed_empty]|].
  { split; [intros c Hc; by apply not_elem_of_nil in Hc|done]. }
  apply Forall_cons; split; [split; [by apply sample_demo|apply keyed_counter]|]. by apply Forall_nil.
Qed.

Example gap_shortfall :
  lifetimes gap_obs = ([100], [[150]]) ∧ counted 3 (lifetimes gap_obs) = 97 + 150 ∧
  traffic 3 (present gap_obs) = 97 + 50 ∧ lost false 3 gap_obs = 100.
Proof. vm_compute. done. Qed.
End UsageDemo.
Import UsageDemo.

Lemma exec_refines_witness : ∃ a, rep (db (exec (OpCapture "sing-box" [counter 10] 5 false) s1).1) a.
Proof.
  destruct (exec_refines (OpCapture "sing-box" [counter 10] 5 false) s1 a1
    (exec (OpCapture "sing-box" [counter 10] 5 false) s1).1
    (exec (OpCapture "sing-box" [counter 10] 5 false) s1).2) as [(e & E & _)|(_ & Hrep & _)].
  - apply rep1.
  - apply sample_demo. lia.
  - vm_compute. reflexivity.
  - by destruct (exec _ s1).
  - vm_compute in E. discriminate.
  - eexists. exact Hrep.
Defined.

Lemma status_accounting_witness :
  let st := StatusOf (db (run [activate; OpCapture "sing-box" [counter 10] 5 false] (Open (B := Mem.bucket) None 0))) in
  Active st = true ∧ Pending st = 1 ∧ Pending st = LatestSequence st - AckedThrough st.
Proof.
  split; [vm_compute; reflexivity|]. split; [vm_compute; reflexivity|].
  apply (status_accounting [activate; OpCapture "sing-box" [counter 10] 5 false] 0).
  - apply Forall_cons; split; [by apply counter_ok|]. apply Forall_cons; split; [by apply sample_demo|].
    by apply Forall_nil.
  - vm_compute. reflexivity.
  - vm_compute. reflexivity.
Defined.

Lemma billing_conservation_witness :
  (∃ a' new, rep (db s2) a' ∧ a_history a' = a_history a1 ++ new ∧ billed demo_key new = (25 - 3) + 9) ∧
  ∃ s' a' new, capture_all gap_caps s1 = (s', Ok tt) ∧ rep (db s') a' ∧
    a_history a' = a_history a1 ++ new ∧ billed demo_key new = 97 + 50.
Proof.
  split.
  - destruct (billing_conservation demo_key false caps [false; false; true; false] s1 s2 a1)
      as (a' & new & Hrep & Hh & _ & Hexact).
    + apply rep1.
    + reflexivity.
    + vm_compute. reflexivity.
    + apply caps_ok.
    + reflexivity.
    + repeat (apply Forall_cons; split; [vm_compute; tauto|]). by apply Forall_nil.
    + apply captured.
    + exists a', new. split; [exact Hrep|]. split; [exact Hh|]. apply Hexact.
      * split; [vm_compute; repeat split; discriminate|].
        intros vs Hvs. apply list_elem_of_singleton in Hvs. subst vs. vm_compute. repeat split; discriminate.
      * repeat (apply Forall_cons; split; [by vm_compute; eauto|]). by apply Forall_nil.
  - destruct (billing_conservation demo_key false gap_caps [false; true; false] s1
      (capture_all gap_caps s1).1 a1) as (a' & new & Hrep & Hh & Hbill & _).
    + apply rep1.
    + reflexivity.
    + vm_compute. reflexivity.
    + apply gap_ok.
    + reflexivity.
    + repeat (apply Forall_cons; split; [vm_compute; tauto|]). by apply Forall_nil.
    + vm_compute. reflexivity.
    + exists (capture_all gap_caps s1).1, a', new. split; [vm_compute; reflexivity|].
      split; [exact Hrep|]. split; [exact Hh|exact Hbill].
Defined.

Lemma pull_spec_witness :
  ∃ n, fits 500 4194304 (undelivered 0 a1) n ∧
    Pull {| AfterSequence := 0; Limit := 0; MaxBytes := 0 |} s1 =
      Ok {| resp_Generation := "73656564"; Snapshots := take n (undelivered 0 a1);
            HasMore := bool_decide (n < length (undelivered 0 a1))%nat |}.
Proof.
  apply (pull_spec s1 a1 {| AfterSequence := 0; Limit := 0; MaxBytes := 0 |});
    [apply rep1|reflexivity|vm_compute; done..].
Defined.

Lemma pull_progress_witness :
  match Pull {| AfterSequence := 0; Limit := 0; MaxBytes := 0 |} s3 with
  | Ok resp => HasMore resp = true ∨ Snapshots resp ≠ []
  | Err _ => False
  end.
Proof.
  apply (pull_progress s3 a3 {| AfterSequence := 0; Limit := 0; MaxBytes := 0 |}
    {| Generation := "73656564"; Sequence := 1; CapturedAt := 5; Core := "sing-box";
       Counters := [counter 7] |}); [apply rep3|vm_compute; done..].
Defined.

Lemma counterKey_injective_witness :
  counterKey (counter 1) = counterKey (counter 2).
Proof.
  apply (counterKey_injective (counter 1) (counter 2)); repeat split; reflexivity.
Defined.

Lemma queue_capacity_witness :
  queue_bytes (db (run [activate; OpCapture "sing-box" [counter 10] 5 false]
    (Open (B := Mem.bucket) None 0))) ≤ 268435456.
Proof.
  apply (queue_capacity [activate; OpCapture "sing-box" [counter 10] 5 false] 0).
  - apply Forall_cons; split; [by apply counter_ok|]. apply Forall_cons; split; [by apply sample_demo|].
    by apply Forall_nil.
  - vm_compute. reflexivity.
  - lia.
Defined.
