(* ===== verification/AccessAudit.v ===== *)
(** * The access audit: package [internal/accessaudit]

    [Store] keeps the audited connections of the users that the panel selected,
    in four buckets: [meta], [records] by window and connection, [pending] by
    sequence number, and [index] from connection to record.  The operations are
    those of store.go.  The invariant and its consequences are in AuditSpec.v. *)
From S2P Require Import Prelude GoStr GoTime GoNet Bolt StatName.

Local Open Scope Z_scope.

Module AccessAudit.

Record Target := {
  t_UserID : string; t_WindowID : string; EnabledAt : time; t_RetentionDays : Z }.

Record Config := { Revision : Z; ExpiresAt : time; Targets : list Target }.

Record AuditRecord := {
  ConnectionID : string; UserID : string; WindowID : string; Domain : string;
  DestinationIP : string; DestinationPort : Z; Inbound : string; Network : string;
  Protocol : string; StartedAt : time; ObservedAt : time; ClosedAt : option time;
  Upload : string; Download : string; Partial : bool; Sequence : Z }.

Record diskRecord := {
  rec : AuditRecord; LastUpload : Z; LastDownload : Z;
  BaselineUpload : Z; BaselineDownload : Z; RetentionDays : Z }.

Record Status := {
  st_Generation : string; st_Revision : Z; EnabledUsers : Z; Capturing : bool;
  Pending : Z; Dropped : Z; LastError : string; st_ExpiresAt : time }.

Record Batch := { Generation : string; Records : list AuditRecord; HasMore : bool }.

Record Connection := {
  c_ID : string; User : string; c_Domain : string; Destination : string; c_Inbound : string;
  c_Network : string; c_Protocol : string; OutboundType : string;
  CreatedAt : Z; c_ClosedAt : Z; c_Upload : Z; c_Download : Z }.

Record Event := {
  Type_ : Z; e_ID : string; e_Connection : option Connection;
  UploadDelta : Z; DownloadDelta : Z; e_ClosedAt : Z }.

Definition zero_target : Target :=
  {| t_UserID := ""; t_WindowID := ""; EnabledAt := zero_time; t_RetentionDays := 0 |}.
Definition zero_config : Config := {| Revision := 0; ExpiresAt := zero_time; Targets := [] |}.

(** ** Policies *)

(** [^[1-9][0-9]{0,18}$] *)
Definition userIDPattern (s : string) : bool :=
  match s with
  | EmptyString => false
  | String c rest => in_range 49 57 (byte_of c) && all_bytes is_digit rest && (slen rest <=? 18)%Z
  end.

Definition is_hex_lower (c : ascii) : bool := is_digit c || in_range 97 102 (byte_of c).

(** Groups of 8, 4, 4, 4 and 12 lower-case hexadecimal digits. *)
Definition uuidPattern (s : string) : bool :=
  bool_decide (String.length <$> split_byte "-" s = [8; 4; 4; 4; 12]%nat) &&
  forallb (all_bytes is_hex_lower) (split_byte "-" s).

Definition check_target (now : time) (seen : gset string) (t : Target) : result (gset string) :=
  if negb (userIDPattern (t_UserID t)) || negb (uuidPattern (t_WindowID t)) ||
     (EnabledAt t =? zero_time)%Z || after (EnabledAt t) (now + minute) ||
     (t_RetentionDays t <? 1)%Z || (30 <? t_RetentionDays t)%Z || bool_decide (t_UserID t ∈ seen)
  then Err (ErrMsg "invalid audit user policy")
  else Ok (seen ∪ {[t_UserID t]}).

Definition Validate (c : Config) (now : time) : result unit :=
  _ ← fail_if ((Revision c <? 0)%Z || (9007199254740991 <? Revision c)%Z ||
       (10000 <? Z.of_nat (length (Targets c)))%Z || negb (after (ExpiresAt c) now) ||
       after (ExpiresAt c) (now + 5 * minute))
      (ErrMsg "invalid audit policy lease");
  _ ← foldr_result (check_target now) ∅ (Targets c);
  Ok tt.

Definition number (b : string) : Z :=
  if negb (bool_decide (slen b = 8%Z)) then 0%Z else uint64_of b.
Definition key (n : Z) : string := put_uint64 n.

(** Control characters are dropped, what is left is cut to [n] bytes. *)
Definition clipped (v : string) (n : nat) : string :=
  String.substring 0 n
    (foldr (λ r acc, if is_control (fst r) then acc else encode_rune (fst r) +:+ acc) "" (runes v)).

Section store.
Context `{UnicodeCase}.

Definition destination (c : Connection) : string * string * Z :=
  let '(host, port) := match split_host_port (Destination c) with
                       | Some hp => hp
                       | None => (Destination c, "")
                       end in
  let n := atoi_value port in
  let domain := to_lower (trim_suffix (trim_space (c_Domain c)) ".") in
  let '(domain, ip) := match parse_ip host with
                       | Some _ => (domain, host)
                       | None => (if bool_decide (domain = "") then host else domain, "")
                       end in
  let domain :=
    if contains_any domain "/:@?#" ||
       existsb (λ r, is_control (fst r) || is_space (fst r)) (runes domain) || (253 <? slen domain)%Z
    then "" else domain in
  (domain, ip, n).

Context {B : Type} `{BucketOps B} `{Codec Config} `{Codec (list Target)} `{Codec diskRecord}.

Record DB := { meta : B; records : B; pending : B; index : B }.
Context `{TxOps DB}.

Record Store := {
  db : DB; maxBytes : Z; config : Config; lastError : string; capturing : bool }.

Definition with_db (s : Store) (d : DB) : Store :=
  {| db := d; maxBytes := maxBytes s; config := config s;
     lastError := lastError s; capturing := capturing s |}.
Definition with_config (s : Store) (c : Config) : Store :=
  {| db := db s; maxBytes := maxBytes s; config := c;
     lastError := lastError s; capturing := capturing s |}.

Definition update (s : Store) (body : DB → result DB) : Store * result unit :=
  let '(d, r) := tx_update body (db s) in (with_db s d, r).

Definition empty_db : DB :=
  {| meta := b_empty; records := b_empty; pending := b_empty; index := b_empty |}.

Fixpoint hex (s : string) : string :=
  match s with
  | EmptyString => ""
  | String c s' => String (hex_char (byte_of c / 16)) (String (hex_char (byte_of c mod 16)) (hex s'))
  end.

(** The transaction of [Open]: a generation for a new file. *)
Definition open_tx (random : result string) (d : DB) : result DB :=
  if bool_decide (get_str "generation" (meta d) = "") then
    id ← random;
    m ← b_put "generation" (hex id) (meta d);
    Ok {| meta := m; records := records d; pending := pending d; index := index d |}
  else Ok d.

(** [Open] on the content of the file; the policy on disk comes back without its lease. *)
Definition Open (random : result string) (file : option DB) (max : Z) : result Store :=
  let d := default empty_db file in
  let '(d, r) := tx_update (open_tx random) d in
  _ ← r;
  c ← match b_get "config" (meta d) with
      | Some data =>
          c ← unmarshal data;
          Ok {| Revision := Revision c; ExpiresAt := zero_time; Targets := Targets c |}
      | None => Ok zero_config
      end;
  Ok {| db := d; maxBytes := if (max <=? 0)%Z then 33554432%Z else max;
        config := c; lastError := ""; capturing := false |}.

Definition Configure (c : Config) (now : time) (s : Store) : Store * result unit :=
  match Validate c now with
  | Err e => (s, Err e)
  | Ok _ =>
      if (Revision c <? Revision (config s))%Z then (s, Err (ErrMsg "stale audit policy revision"))
      else if (Revision c =? Revision (config s))%Z && negb (ExpiresAt (config s) =? zero_time)%Z &&
              negb (bool_decide
                (match marshal (Targets (config s)) with Ok a => a | Err _ => "" end =
                 match marshal (Targets c) with Ok b => b | Err _ => "" end))
      then (s, Err (ErrMsg "audit policy revision conflict"))
      else
        let payload := match marshal c with Ok p => p | Err _ => "" end in
        match update s (λ d, m ← b_put "config" payload (meta d);
                Ok {| meta := m; records := records d; pending := pending d; index := index d |}) with
        | (s', Ok _) => (with_config s' c, Ok tt)
        | (s', Err e) => (s', Err e)
        end
  end.

Definition Enabled (now : time) (s : Store) : bool :=
  (0 <? Z.of_nat (length (Targets (config s))))%Z && after (ExpiresAt (config s)) now.

Definition Runtime (capturing : bool) (err : option error) (s : Store) : Store :=
  {| db := db s; maxBytes := maxBytes s; config := config s;
     lastError := match err with
                  | Some _ => "Audit stream interrupted; records may be incomplete"
                  | None => "" end;
     capturing := capturing |}.

Definition StatusOf (now : time) (s : Store) : Status :=
  {| st_Generation := get_str "generation" (meta (db s));
     st_Revision := Revision (config s);
     EnabledUsers := Z.of_nat (length (Targets (config s)));
     Capturing := capturing s && after (ExpiresAt (config s)) now;
     Pending := Z.of_nat (length (b_items (pending (db s))));
     Dropped := number (get_str "dropped" (meta (db s)));
     LastError := lastError s;
     st_ExpiresAt := ExpiresAt (config s) |}.

(** ** [Apply] *)

Definition selected_users (targets : list Target) : gmap string Target :=
  foldl (λ m t, <[t_UserID t := t]> m) ∅ targets.

(** The target, key and (for an update) record of an event; [None] is [continue]. *)
Definition locate (selected : gmap string Target) (now : time) (d : DB) (e : Event)
    : result (option (Target * string)) :=
  match e_Connection e with
  | Some c =>
      let t := default zero_target (selected !! StatName.UserID (User c)) in
      if bool_decide (t_UserID t = "") || bool_decide (OutboundType c = "dns") ||
         negb (uuidPattern (e_ID e)) || (CreatedAt c <=? 0)%Z ||
         (to_unix_milli (now + minute) <? CreatedAt c)%Z
      then Ok None
      else if (0 <? c_ClosedAt c)%Z && (c_ClosedAt c <? to_unix_milli (EnabledAt t))%Z then Ok None
      else Ok (Some (t, t_WindowID t +:+ ":" +:+ e_ID e))
  | None =>
      match b_get (e_ID e) (index d) with
      | None => Ok None
      | Some k =>
          dr ← unmarshal (get_str k (records d));
          let t := default zero_target (selected !! UserID (rec dr)) in
          Ok (if negb (bool_decide (t_WindowID t = WindowID (rec dr))) then None else Some (t, k))
      end
  end.

(** The record of a connection seen for the first time. *)
Definition new_record (t : Target) (e : Event) (c : Connection) : diskRecord :=
  let '(domain, ip, port) := destination c in
  let started := unix_milli (CreatedAt c) in
  let partial := before started (EnabledAt t) in
  {| rec := {| ConnectionID := e_ID e; UserID := t_UserID t; WindowID := t_WindowID t;
               Domain := domain; DestinationIP := ip; DestinationPort := port;
               Inbound := clipped (c_Inbound c) 128; Network := clipped (c_Network c) 16;
               Protocol := clipped (c_Protocol c) 32;
               StartedAt := if partial then EnabledAt t else started;
               ObservedAt := zero_time; ClosedAt := None; Upload := ""; Download := "";
               Partial := partial; Sequence := 0 |};
     LastUpload := 0; LastDownload := 0;
     BaselineUpload := if partial then Z.max 0 (c_Upload c) else 0;
     BaselineDownload := if partial then Z.max 0 (c_Download c) else 0;
     RetentionDays := 0 |}.

(** The cumulative counters after an event; [None] is [continue]. *)
Definition advance (e : Event) (d : diskRecord) : option (Z * Z) :=
  match e_Connection e with
  | Some c => Some (Z.max (LastUpload d) (c_Upload c), Z.max (LastDownload d) (c_Download c))
  | None =>
      if (Type_ e =? 1)%Z then
        if (UploadDelta e <? 0)%Z || (DownloadDelta e <? 0)%Z ||
           (Int.max_int64 - LastUpload d <? UploadDelta e)%Z ||
           (Int.max_int64 - LastDownload d <? DownloadDelta e)%Z
        then None
        else Some (LastUpload d + UploadDelta e, LastDownload d + DownloadDelta e)%Z
      else Some (LastUpload d, LastDownload d)
  end.

(** The record as it is written for an event. *)
Definition revise (e : Event) (now : time) (sequence : Z) (d : diskRecord) (totals : Z * Z) : diskRecord :=
  let r := rec d in
  let closed := match e_Connection e with
                | Some c => if (e_ClosedAt e <? c_ClosedAt c)%Z then c_ClosedAt c else e_ClosedAt e
                | None => e_ClosedAt e
                end in
  let partial := if (0 <? closed)%Z then match e_Connection e with None => true | Some _ => Partial r end
                 else Partial r in
  let closed_at := if (0 <? closed)%Z then Some (unix_milli closed) else ClosedAt r in
  let observed := match closed_at with
                  | Some at_ => if before at_ now then at_ else now
                  | None => now
                  end in
  {| rec := {| ConnectionID := ConnectionID r; UserID := UserID r; WindowID := WindowID r;
               Domain := Domain r; DestinationIP := DestinationIP r;
               DestinationPort := DestinationPort r; Inbound := Inbound r; Network := Network r;
               Protocol := Protocol r; StartedAt := StartedAt r; ObservedAt := observed;
               ClosedAt := closed_at;
               Upload := itoa (Z.max 0 (Int.wrap64 (totals.1 - BaselineUpload d)));
               Download := itoa (Z.max 0 (Int.wrap64 (totals.2 - BaselineDownload d)));
               Partial := partial; Sequence := sequence |};
     LastUpload := totals.1; LastDownload := totals.2;
     BaselineUpload := BaselineUpload d; BaselineDownload := BaselineDownload d;
     RetentionDays := 1 |}.

Definition meta_number (k : string) (d : DB) : Z := number (get_str k (meta d)).

(** Write a record over its previous version, or count it as dropped. *)
Definition store_record (max : Z) (id k : string) (previous : option string) (oldSequence : Z)
    (r : diskRecord) (d : DB) : result DB :=
  data ← marshal r;
  let size := Int.wrap64 (Int.wrap64 (meta_number "bytes" d) + (slen data - slen (default "" previous))) in
  if (max <? size)%Z ||
     (bool_decide (previous = None) && (50000 <=? meta_number "recordCount" d)%Z)
  then
    m ← b_put "dropped" (key (Int.uwrap64 (meta_number "dropped" d + 1))) (meta d);
    Ok {| meta := m; records := records d; pending := pending d; index := index d |}
  else
    let pb := b_delete (key oldSequence) (pending d) in
    rb ← b_put k data (records d);
    m ← match previous with
        | None => b_put "recordCount" (key (Int.uwrap64 (meta_number "recordCount" d + 1))) (meta d)
        | Some _ => Ok (meta d)
        end;
    ib ← b_put id k (index d);
    pb ← b_put (key (Sequence (rec r))) k pb;
    m ← b_put "sequence" (key (Sequence (rec r))) m;
    m ← b_put "bytes" (key (Int.uwrap64 size)) m;
    Ok {| meta := m; records := rb; pending := pb; index := ib |}.

(** One iteration of the loop of [Apply]. *)
Definition apply_event (selected : gmap string Target) (max : Z) (now : time) (d : DB) (e : Event)
    : result DB :=
  located ← locate selected now d e;
  match located with
  | None => Ok d
  | Some (t, k) =>
      let previous := b_get k (records d) in
      current ← match previous, e_Connection e with
                | Some data, _ => dr ← unmarshal data; Ok (Some dr)
                | None, Some c => Ok (Some (new_record t e c))
                | None, None => Ok None
                end;
      match current with
      | None => Ok d
      | Some dr =>
          match advance e dr with
          | None => Ok d
          | Some totals =>
              store_record max (e_ID e) k previous (Sequence (rec dr))
                (revise e now (Int.uwrap64 (meta_number "sequence" d + 1)) dr totals) d
          end
      end
  end.

Definition Apply (events : list Event) (now : time) (s : Store) : Store * result unit :=
  if negb (after (ExpiresAt (config s)) now) then (s, Ok tt)
  else update s (λ d,
    foldr_result (apply_event (selected_users (Targets (config s))) (maxBytes s) now) d events).

(** ** Delivery and retention *)

Fixpoint pull_loop (limit size : Z) (acc : list AuditRecord) (d : DB) (items : list (string * string))
    : result (list AuditRecord * bool) :=
  match items with
  | [] => Ok (acc, false)
  | (_, v) :: rest =>
      let data := get_str v (records d) in
      dr ← unmarshal data;
      let size := (size + slen data)%Z in
      if (limit <=? Z.of_nat (length acc))%Z || (1048576 <? size)%Z then Ok (acc, true)
      else pull_loop limit size (acc ++ [rec dr]) d rest
  end.

Definition clamp_pull (limit : Z) : Z :=
  if (limit <? 1)%Z || (500 <? limit)%Z then 200%Z else limit.

Definition Pull (limit : Z) (s : Store) : result Batch :=
  '(l, more) ← pull_loop (clamp_pull limit) 0 [] (db s) (b_items (pending (db s)));
  Ok {| Generation := get_str "generation" (meta (db s)); Records := l; HasMore := more |}.

Definition ack_tx (generation : string) (through : Z) (d : DB) : result DB :=
  _ ← fail_if (negb (bool_decide (generation = get_str "generation" (meta d))))
        (ErrMsg "audit generation mismatch");
  _ ← fail_if (meta_number "sequence" d <? through)%Z
        (ErrMsg "audit acknowledgement beyond latest sequence");
  let acked := take_while (λ kv, number kv.1 <=? through)%Z (b_items (pending d)) in
  Ok {| meta := meta d; records := records d; pending := delete_keys acked.*1 (pending d);
        index := index d |}.

Definition Ack (generation : string) (through : Z) (s : Store) : Store * result unit :=
  update s (ack_tx generation through).

(** The record is past its retention. *)
Definition expired (now : time) (dr : diskRecord) : bool :=
  before (ObservedAt (rec dr)) (now + Int.wrap64 (- RetentionDays dr * 24 * hour)).

Definition prune_record (now : time) (acc : DB * Z) (kv : string * string) : result (DB * Z) :=
  let '(d, size) := acc in
  dr ← unmarshal kv.2;
  if negb (expired now dr) then Ok (d, size) else
  let size := Int.uwrap64 (size - slen kv.2) in
  let pb := b_delete (key (Sequence (rec dr))) (pending d) in
  let ib := if bool_decide (get_str (ConnectionID (rec dr)) (index d) = kv.1)
            then b_delete (ConnectionID (rec dr)) (index d) else index d in
  let rb := b_delete kv.1 (records d) in
  m ← b_put "recordCount" (key (Int.uwrap64 (meta_number "recordCount" d - 1))) (meta d);
  Ok ({| meta := m; records := rb; pending := pb; index := ib |}, size).

Definition prune_tx (now : time) (d : DB) : result DB :=
  '(d', size) ← foldr_result (prune_record now) (d, meta_number "bytes" d) (b_items (records d));
  m ← b_put "bytes" (key size) (meta d');
  Ok {| meta := m; records := records d'; pending := pending d'; index := index d' |}.

Definition Prune (now : time) (s : Store) : Store * result unit := update s (prune_tx now).

End store.

Arguments DB : clear implicits.
Arguments Store : clear implicits.
End AccessAudit.
