(* ===== verification/AuditSpec.v ===== *)
(** * What the access audit guarantees

    [wf] is the invariant of the four buckets: every record is keyed by its
    window and connection, every unacknowledged record is pending under its own
    sequence number and nothing else is, the index points to records, and the
    two counters are exact.  Every operation preserves it ([apply_wf], [ack_wf],
    [prune_wf]); delivery, capacity and the limits of what is audited follow. *)
From S2P Require Import Prelude GoStr GoTime GoNet Bolt StatName AccessAudit.
Import AccessAudit.

Local Open Scope Z_scope.

(** ** Identifiers *)

Lemma uuid_bytes s :
  uuidPattern s = true → all_bytes (λ c, is_hex_lower c || Ascii.eqb c "-") s = true.
Proof. unfold uuidPattern. intros [_ H]%andb_true_iff. by apply all_bytes_split. Qed.

Lemma uuid_no_colon s : uuidPattern s = true → all_bytes (λ c, negb (Ascii.eqb c ":")) s = true.
Proof.
  intros H%uuid_bytes. revert H. apply all_bytes_impl. intros c.
  destruct (Ascii.eqb_spec c ":") as [->|]; done.
Qed.

Lemma uuid_ascii s : uuidPattern s = true → is_ascii s = true.
Proof.
  intros H%uuid_bytes. revert H. apply all_bytes_impl. intros c.
  unfold is_hex_lower, is_digit, in_range. intros [H| ->%Ascii.eqb_eq]%orb_true_iff; [|done]. lia.
Qed.

Lemma uuid_nonempty s : uuidPattern s = true → s ≠ "".
Proof. by intros H ->. Qed.

Lemma user_ascii s : userIDPattern s = true → is_ascii s = true.
Proof.
  destruct s as [|c s]; [done|]. unfold userIDPattern, is_ascii, in_range. cbn [all_bytes].
  intros [[Hc Hs]%andb_true_iff _]%andb_true_iff. apply andb_true_iff. split; [lia|].
  revert Hs. apply all_bytes_impl. unfold is_digit, in_range. intros. lia.
Qed.

(** Window and connection are determined by the key of a record. *)
Lemma record_key_inj w1 c1 w2 c2 :
  uuidPattern w1 = true → uuidPattern w2 = true →
  w1 +:+ ":" +:+ c1 = w2 +:+ ":" +:+ c2 → w1 = w2 ∧ c1 = c2.
Proof. intros H1 H2. apply sep_app_inj; by apply uuid_no_colon. Qed.

Lemma number_key n : Int.in_uint64 n → number (key n) = n.
Proof.
  intros. unfold number, key, slen. rewrite put_uint64_length, bool_decide_eq_true_2 by done.
  by apply uint64_of_put.
Qed.

Lemma be_value_nonneg acc b : 0 ≤ acc → 0 ≤ be_value acc b.
Proof.
  revert acc. induction b as [|c b IH]; intros acc Hacc; cbn [be_value]; [done|].
  apply IH. pose proof (byte_of_range c). lia.
Qed.

Lemma number_bound b : 0 ≤ number b.
Proof. unfold number. case_match; [done|]. by apply be_value_nonneg. Qed.

(** ** The encoding of records

    JSON keeps numbers, booleans and times, and replaces the invalid bytes of
    every string by U+FFFD. *)
Definition clean_record (r : AuditRecord) : AuditRecord :=
  {| ConnectionID := utf8_clean (ConnectionID r); UserID := utf8_clean (UserID r);
     WindowID := utf8_clean (WindowID r); Domain := utf8_clean (Domain r);
     DestinationIP := utf8_clean (DestinationIP r); DestinationPort := DestinationPort r;
     Inbound := utf8_clean (Inbound r); Network := utf8_clean (Network r);
     Protocol := utf8_clean (Protocol r); StartedAt := StartedAt r; ObservedAt := ObservedAt r;
     ClosedAt := ClosedAt r; Upload := utf8_clean (Upload r); Download := utf8_clean (Download r);
     Partial := Partial r; Sequence := Sequence r |}.
Definition clean_disk (d : diskRecord) : diskRecord :=
  {| rec := clean_record (rec d); LastUpload := LastUpload d; LastDownload := LastDownload d;
     BaselineUpload := BaselineUpload d; BaselineDownload := BaselineDownload d;
     RetentionDays := RetentionDays d |}.

Class RecordCodec `{Codec diskRecord} : Prop :=
  law_record dr s : marshal dr = Ok s → unmarshal s = Ok (clean_disk dr).

(** ** Records and events *)

(** The identity of a record... *)
Record ident (k : string) (dr : diskRecord) : Prop := {
  id_key : k = WindowID (rec dr) +:+ ":" +:+ ConnectionID (rec dr);
  id_window : uuidPattern (WindowID (rec dr)) = true;
  id_connection : uuidPattern (ConnectionID (rec dr)) = true;
  id_user : userIDPattern (UserID (rec dr)) = true
}.

(** ... its counters, [int64]s that start from a baseline... *)
Definition counted (dr : diskRecord) : Prop :=
  0 ≤ BaselineUpload dr ≤ LastUpload dr ∧ LastUpload dr < 2 ^ 63 ∧
  0 ≤ BaselineDownload dr ≤ LastDownload dr ∧ LastDownload dr < 2 ^ 63.

(** ... what it reports, the traffic since the baseline... *)
Definition reported (dr : diskRecord) : Prop :=
  Upload (rec dr) = itoa (LastUpload dr - BaselineUpload dr) ∧
  Download (rec dr) = itoa (LastDownload dr - BaselineDownload dr).

(** ... and what else holds of every record in the store. *)
Record shape (last : Z) (k : string) (dr : diskRecord) : Prop := {
  sh_ident : ident k dr;
  sh_counted : counted dr;
  sh_reported : reported dr;
  sh_sequence : 1 ≤ Sequence (rec dr) ≤ last;
  sh_retention : RetentionDays dr = 1
}.

(** Counters of an event are [int64]s. *)
Definition event_ok (e : Event) : Prop :=
  match e_Connection e with
  | Some c => c_Upload c < 2 ^ 63 ∧ c_Download c < 2 ^ 63
  | None => True
  end.

Definition targets_ok (targets : list Target) : Prop :=
  ∀ t, t ∈ targets → userIDPattern (t_UserID t) = true ∧ uuidPattern (t_WindowID t) = true.

Lemma shape_mono last last' k dr : shape last k dr → last ≤ last' → shape last' k dr.
Proof. intros [] ?. constructor; try done. lia. Qed.

Lemma shape_clean last k dr : shape last k dr → shape last k (clean_disk dr).
Proof.
  intros [[Hk Hw Hc Hu] Hn [Hup Hdn] Hs Hr].
  assert (∀ z, utf8_clean (itoa z) = itoa z) as Hz by (intros; apply utf8_clean_ascii, itoa_ascii).
  constructor; [|done| |done..].
  - constructor; cbn; rewrite ?utf8_clean_ascii by (first [by apply uuid_ascii|by apply user_ascii]); done.
  - split; cbn; [rewrite Hup|rewrite Hdn]; apply Hz.
Qed.

(** A found target is one of the configured ones. *)
Lemma selected_in targets u t :
  selected_users targets !! u = Some t → t ∈ targets ∧ t_UserID t = u.
Proof.
  unfold selected_users.
  assert (∀ m : gmap string Target, foldl (λ m t, <[t_UserID t := t]> m) m targets !! u = Some t →
    m !! u = Some t ∨ t ∈ targets ∧ t_UserID t = u) as Hgen.
  { induction targets as [|t0 l IH]; intros m; cbn; [by left|].
    intros [Hm|[Hin Hu]]%IH; [|right; split; [by right|done]].
    destruct (decide (t_UserID t0 = u)) as [<-|Hne].
    - rewrite lookup_insert_eq in Hm. injection Hm as <-. right. split; [left|done].
    - rewrite lookup_insert_ne in Hm by done. by left. }
  intros [Hm|?]%Hgen; [by rewrite lookup_empty in Hm|done].
Qed.

(** The totals after an event are [int64]s, count up, and cover the baseline. *)
Definition covers (dr : diskRecord) (totals : Z * Z) : Prop :=
  LastUpload dr ≤ totals.1 < 2 ^ 63 ∧ BaselineUpload dr ≤ totals.1 ∧
  LastDownload dr ≤ totals.2 < 2 ^ 63 ∧ BaselineDownload dr ≤ totals.2.

Lemma advance_known e dr totals :
  event_ok e → counted dr → advance e dr = Some totals → covers dr totals.
Proof.
  unfold event_ok, advance, counted, covers, Int.max_int64. destruct (e_Connection e) as [c|].
  - intros [? ?] ? [= <-]. cbn. lia.
  - intros _ ?. destruct (Type_ e =? 1); [|intros [= <-]; cbn; lia].
    destruct (_ || _ || _ || _) eqn:E; [done|]. intros [= <-]. cbn. lia.
Qed.

Lemma revise_shape e now n k dr totals :
  ident k dr → covers dr totals → 0 ≤ LastUpload dr → 0 ≤ LastDownload dr →
  0 ≤ BaselineUpload dr → 0 ≤ BaselineDownload dr → 1 ≤ n →
  shape n k (revise e now n dr totals).
Proof.
  intros [] (? & ? & ? & ?) ? ? ? ? Hn. constructor; [by constructor| | |cbn; lia|done].
  - unfold counted. cbn. lia.
  - split; cbn; rewrite Int.wrap64_id by (split; lia); f_equal; lia.
Qed.

Section new.
Context `{UnicodeCase}.

Lemma new_record_facts t e c :
  ident (t_WindowID t +:+ ":" +:+ e_ID e) (new_record t e c) ↔
    uuidPattern (t_WindowID t) = true ∧ uuidPattern (e_ID e) = true ∧ userIDPattern (t_UserID t) = true.
Proof.
  unfold new_record. destruct (destination c) as [[domain ip] port].
  split; [by intros []|by intros (? & ? & ?)].
Qed.

Lemma advance_new t e c totals :
  event_ok e → e_Connection e = Some c → advance e (new_record t e c) = Some totals →
  covers (new_record t e c) totals ∧
  0 ≤ BaselineUpload (new_record t e c) ∧ 0 ≤ BaselineDownload (new_record t e c) ∧
  LastUpload (new_record t e c) = 0 ∧ LastDownload (new_record t e c) = 0.
Proof.
  unfold event_ok, advance, covers, new_record. intros Hok E. rewrite E in *.
  destruct (destination c) as [[domain ip] port]. cbn. intros [= <-]. cbn.
  destruct (before _ _); lia.
Qed.
End new.

(** ** The invariant *)
Section audit.
Context `{UnicodeCase} {B : Type} `{BucketOps B} `{!BucketLaws B}.
Context `{Codec Config} `{Codec (list Target)} `{Codec diskRecord} `{!RecordCodec}.
Context `{TxOps (DB B)} `{!TxLaws (DB B)}.
Implicit Types (d : DB B) (s : Store B).

Definition entry d (k : string) (dr : diskRecord) : Prop :=
  ∃ v, b_get k (records d) = Some v ∧ unmarshal v = Ok dr.

(** [a]: everything up to this sequence number is acknowledged; [bytes]: the size
    counter; [cap]: the byte limit. *)
Record wf (cap a : Z) d (bytes : Z) : Prop := {
  wf_record k v : b_get k (records d) = Some v →
    ∃ dr, unmarshal v = Ok dr ∧ shape (meta_number "sequence" d) k dr;
  wf_inj k1 k2 dr1 dr2 : entry d k1 dr1 → entry d k2 dr2 →
    Sequence (rec dr1) = Sequence (rec dr2) → k1 = k2;
  wf_pending n k : b_get n (pending d) = Some k →
    ∃ dr, entry d k dr ∧ n = key (Sequence (rec dr)) ∧ a < Sequence (rec dr);
  wf_unacked k dr : entry d k dr → a < Sequence (rec dr) →
    b_get (key (Sequence (rec dr))) (pending d) = Some k;
  wf_index id k : b_get id (index d) = Some k →
    ∃ dr, entry d k dr ∧ ConnectionID (rec dr) = id;
  wf_count : meta_number "recordCount" d = entries (records d) ∧ entries (records d) ≤ 50000;
  wf_bytes : bytes = value_bytes (records d) ∧ bytes ≤ cap;
  wf_acked : 0 ≤ a ≤ meta_number "sequence" d
}.

Lemma entry_fun d k dr1 dr2 : entry d k dr1 → entry d k dr2 → dr1 = dr2.
Proof. intros (v1 & H1' & E1) (v2 & H2' & E2). congruence. Qed.

Lemma wf_entry cap a d bytes k dr :
  wf cap a d bytes → entry d k dr → shape (meta_number "sequence" d) k dr.
Proof. intros Hwf (v & Hv & E). destruct (wf_record _ _ _ _ Hwf _ _ Hv) as (dr' & E' & Hs). congruence. Qed.

Lemma sequence_bound d : 0 ≤ meta_number "sequence" d.
Proof. apply number_bound. Qed.

Lemma wf_empty cap : 0 ≤ cap → wf cap 0 empty_db 0.
Proof.
  intros. constructor; cbn.
  - intros k v E. by rewrite law_get_empty in E.
  - intros k1 k2 dr1 dr2 (v & E & _). cbn in E. by rewrite law_get_empty in E.
  - intros n k E. by rewrite law_get_empty in E.
  - intros k dr (v & E & _). cbn in E. by rewrite law_get_empty in E.
  - intros n k E. by rewrite law_get_empty in E.
  - unfold meta_number, get_str. cbn [meta empty_db records]. rewrite law_get_empty. destruct (totals_empty (B := B)) as [-> _].
    done.
  - destruct (totals_empty (B := B)) as [_ ->]. lia.
  - split; [done|]. apply sequence_bound.
Qed.

(** Changes of [meta] that the invariant does not see. *)
Lemma wf_meta cap a d bytes m :
  wf cap a d bytes →
  number (get_str "sequence" m) = meta_number "sequence" d →
  number (get_str "recordCount" m) = meta_number "recordCount" d →
  wf cap a {| meta := m; records := records d; pending := pending d; index := index d |} bytes.
Proof.
  intros Hwf Hs Hc. destruct Hwf. constructor; cbn; try done;
    unfold meta_number in *; cbn; rewrite ?Hs, ?Hc; done.
Qed.

Ltac meta_gets :=
  unfold meta_number; cbn [meta];
  repeat match goal with
  | E : b_put ?k ?v _ = Ok ?m |- context [get_str ?k ?m] => rewrite (get_str_put_eq _ _ _ _ E)
  | E : b_put ?k ?v _ = Ok ?m |- context [get_str ?k' ?m] =>
      rewrite (get_str_put_ne _ _ _ _ k' E) by done
  end.

Lemma key_inj a b : Int.in_uint64 a → Int.in_uint64 b → key a = key b → a = b.
Proof. apply put_uint64_inj. Qed.

(** Storing a record under its key with the next sequence number. *)
Lemma store_wf cap a d rb pb ib m k id old r data :
  wf cap a d (meta_number "bytes" d) →
  (∀ dr, entry d k dr → Sequence (rec dr) = old) → 0 ≤ old ≤ meta_number "sequence" d →
  (b_get k (records d) = None → old = 0) →
  meta_number "sequence" d + 1 < 2 ^ 64 →
  Sequence (rec r) = meta_number "sequence" d + 1 → shape (Sequence (rec r)) k r →
  ConnectionID (rec r) = id → marshal r = Ok data →
  b_put k data (records d) = Ok rb → b_put id k (index d) = Ok ib →
  b_put (key (Sequence (rec r))) k (b_delete (key old) (pending d)) = Ok pb →
  number (get_str "sequence" m) = meta_number "sequence" d + 1 →
  number (get_str "recordCount" m) = entries rb → entries rb ≤ 50000 → value_bytes rb ≤ cap →
  wf cap a {| meta := m; records := rb; pending := pb; index := ib |} (value_bytes rb).
Proof.
  intros Hwf Hold Hrange Hnone Hroom Hseq Hshape Hid Hdata Erb Eib Epb Hm Hc Hcap Hbytes.
  pose proof (sequence_bound d) as Hs0. pose proof (wf_acked _ _ _ _ Hwf) as Ha.
  pose proof (law_record _ _ Hdata) as Hdec. pose proof (shape_clean _ _ _ Hshape) as Hclean.
  set (d' := {| meta := m; records := rb; pending := pb; index := ib |}).
  assert (∀ k' dr, entry d' k' dr ↔ (k' = k ∧ dr = clean_disk r) ∨ (k' ≠ k ∧ entry d k' dr)) as Hent.
  { intros k' dr. split.
    - intros (v & Ev & Eu). change (records d') with rb in Ev. rewrite (law_get_put _ _ _ _ k' Erb) in Ev.
      case_decide as Hk; [left|right; split; [done|by exists v]].
      injection Ev as <-. rewrite Hdec in Eu. injection Eu as <-. done.
    - intros [[-> ->]|[Hk (v & Ev & Eu)]].
      + exists data. split; [by apply (get_put_eq _ _ _ _ Erb)|done].
      + exists v. split; [|done]. change (records d') with rb. by rewrite (get_put_ne _ _ _ _ _ Erb). }
  assert (meta_number "sequence" d' = meta_number "sequence" d + 1) as Hseq' by done.
  constructor.
  - intros k' v E. rewrite Hseq'. change (records d') with rb in E. rewrite (law_get_put _ _ _ _ k' Erb) in E. case_decide as Hk.
    + injection E as <-. subst k'. exists (clean_disk r). split; [done|]. by rewrite <-Hseq.
    + destruct (wf_record _ _ _ _ Hwf _ _ E) as (dr & ? & Hsh). exists dr. split; [done|].
      eapply shape_mono; [done|lia].
  - intros k1 k2 dr1 dr2 [[-> ->]|[Hk1 H1']]%Hent [[-> ->]|[Hk2 H2']]%Hent Heq; try done.
    + pose proof (sh_sequence _ _ _ (wf_entry _ _ _ _ _ _ Hwf H2')). cbn in Heq. lia.
    + pose proof (sh_sequence _ _ _ (wf_entry _ _ _ _ _ _ Hwf H1')). cbn in Heq. lia.
    + by eapply (wf_inj _ _ _ _ Hwf).
  - intros n k' E. change (pending d') with pb in E. rewrite (law_get_put _ _ _ _ n Epb) in E. case_decide as Hn.
    + injection E as <-. subst n. exists (clean_disk r). rewrite Hent. cbn. split; [by left|]. split; [done|lia].
    + rewrite law_get_delete in E. case_decide as Hn'; [done|].
      destruct (wf_pending _ _ _ _ Hwf _ _ E) as (dr & He & -> & ?). exists dr. rewrite Hent.
      split; [|done]. right. split; [|done]. intros ->. apply Hn'. by rewrite (Hold _ He).
  - intros k' dr [[-> ->]|[Hk He]]%Hent Hlt; cbn [pending d'].
    + cbn. by rewrite (get_put_eq _ _ _ _ Epb).
    + pose proof (sh_sequence _ _ _ (wf_entry _ _ _ _ _ _ Hwf He)).
      rewrite (get_put_ne _ _ _ _ _ Epb); [|intros E%key_inj; [lia|split; lia..]].
      rewrite law_get_delete, decide_False; [by apply (wf_unacked _ _ _ _ Hwf)|].
      intros E%key_inj; [|split; lia..]. destruct (b_get k (records d)) as [v|] eqn:Ek; [|specialize (Hnone eq_refl); lia].
      destruct (wf_record _ _ _ _ Hwf _ _ Ek) as (dr0 & Hv & _).
      apply Hk. eapply (wf_inj _ _ _ _ Hwf); [done|by exists v|].
      rewrite (Hold dr0) by (by exists v). done.
  - intros id' k' E. change (index d') with ib in E. rewrite (law_get_put _ _ _ _ id' Eib) in E. case_decide as Hi.
    + injection E as <-. subst id'. exists (clean_disk r). rewrite Hent. split; [by left|].
      cbn. rewrite utf8_clean_ascii; [done|]. apply uuid_ascii, Hshape.
    + destruct (wf_index _ _ _ _ Hwf _ _ E) as (dr & He & <-). exists dr. rewrite Hent. split; [|done].
      right. split; [|done]. intros ->.
      pose proof (sh_ident _ _ _ (wf_entry _ _ _ _ _ _ Hwf He)) as [Hk1 Hw1 _ _].
      destruct (sh_ident _ _ _ Hshape) as [Hk2 Hw2 _ _]. rewrite Hk1 in Hk2.
      apply record_key_inj in Hk2 as [_ Hc2]; congruence.
  - done.
  - done.
  - rewrite Hseq'. lia.
Qed.

(** ** [Apply] *)

(** A record is written in full, or counted as dropped. *)
Lemma store_record_inv max id k previous old r d d' :
  store_record max id k previous old r d = Ok d' →
  (∃ m, b_put "dropped" (key (Int.uwrap64 (meta_number "dropped" d + 1))) (meta d) = Ok m ∧
    d' = {| meta := m; records := records d; pending := pending d; index := index d |}) ∨
  (∃ data rb ib pb m1 m2 m3 size,
    marshal r = Ok data ∧ b_put k data (records d) = Ok rb ∧ b_put id k (index d) = Ok ib ∧
    b_put (key (Sequence (rec r))) k (b_delete (key old) (pending d)) = Ok pb ∧
    match previous with
    | None => b_put "recordCount" (key (Int.uwrap64 (meta_number "recordCount" d + 1))) (meta d) = Ok m1
    | Some _ => m1 = meta d
    end ∧
    b_put "sequence" (key (Sequence (rec r))) m1 = Ok m2 ∧
    b_put "bytes" (key (Int.uwrap64 size)) m2 = Ok m3 ∧
    size = Int.wrap64 (Int.wrap64 (meta_number "bytes" d) + (slen data - slen (default "" previous))) ∧
    size ≤ max ∧ (previous = None → meta_number "recordCount" d < 50000) ∧
    d' = {| meta := m3; records := rb; pending := pb; index := ib |}).
Proof.
  unfold store_record. intros E. bind_as E data Hdata.
  destruct (_ || _) eqn:Hfull.
  - bind_as E m Hm. injection E as <-. left. eauto.
  - apply orb_false_iff in Hfull as [Hsize Hcount]. apply Z.ltb_ge in Hsize.
    bind_as E rb Hrb. bind_as E m1 Hm1. bind_as E ib Hib. bind_as E pb Hpb.
    bind_as E m2 Hm2. bind_as E m3 Hm3. injection E as <-. right.
    exists data, rb, ib, pb, m1, m2, m3. eexists. split_and!; try done.
    + destruct previous; [by injection Hm1|done].
    + intros ->. rewrite bool_decide_eq_true_2 in Hcount by done. cbn in Hcount. lia.
Qed.

Lemma storable_put k v b b' : b_put k v b = Ok b' → slen v ≤ 2147483646.
Proof. intros E. by edestruct (proj1 (law_put_ok k v b) (ex_intro _ _ E)). Qed.

Lemma store_record_wf cap a max id k old r d d' :
  wf cap a d (meta_number "bytes" d) → max ≤ cap ≤ 2 ^ 62 →
  (∀ dr, entry d k dr → Sequence (rec dr) = old) → 0 ≤ old ≤ meta_number "sequence" d →
  (b_get k (records d) = None → old = 0) → meta_number "sequence" d + 1 < 2 ^ 64 →
  Sequence (rec r) = meta_number "sequence" d + 1 → shape (Sequence (rec r)) k r →
  ConnectionID (rec r) = id →
  store_record max id k (b_get k (records d)) old r d = Ok d' →
  wf cap a d' (meta_number "bytes" d') ∧
  meta_number "sequence" d ≤ meta_number "sequence" d' ≤ meta_number "sequence" d + 1.
Proof.
  intros Hwf Hcap Hold Hrange Hnone Hroom Hseq Hshape Hid E.
  pose proof (sequence_bound d) as Hs0.
  destruct (wf_bytes _ _ _ _ Hwf) as [Hb Hbc]. destruct (wf_count _ _ _ _ Hwf) as [Hc Hcc].
  pose proof (value_bytes_nonneg (records d)) as Hb0.
  destruct (store_record_inv _ _ _ _ _ _ _ _ E) as [(m & Hm & ->)|
    (data & rb & ib & pb & m1 & m2 & m3 & size & Hdata & Hrb & Hib & Hpb & Hm1 & Hm2 & Hm3 & Hsize & Hmax & Hcnt & ->)].
  { split.
    - meta_gets. apply wf_meta; [done|by meta_gets..].
    - meta_gets. lia. }
  destruct (totals_put _ _ _ _ Hrb) as [Hen Hvb].
  pose proof (storable_put _ _ _ _ Hrb) as Hsd. pose proof (value_bytes_nonneg rb) as Hb0'.
  assert (slen (default "" (b_get k (records d))) ≤ value_bytes (records d)) as Hprev.
  { destruct (b_get k (records d)) as [v|] eqn:Ek; [|cbn; unfold slen; cbn; lia].
    destruct (totals_delete _ _ _ Ek) as [_ Hd].
    pose proof (value_bytes_nonneg (b_delete k (records d))). change (default "" (Some v)) with v. lia. }
  pose proof (slen_nonneg data). pose proof (slen_nonneg (default "" (b_get k (records d)))).
  assert (size = value_bytes rb) as Hsz.
  { rewrite Hsize, Hb, (Int.wrap64_id (value_bytes _)) by (split; lia).
    rewrite Int.wrap64_id by (split; lia). lia. }
  assert (entries rb ≤ 50000) as Hen50.
  { destruct (b_get k (records d)) eqn:Ek; [lia|]. specialize (Hcnt eq_refl). lia. }
  assert (number (get_str "bytes" m3) = value_bytes rb) as Hbytes.
  { meta_gets. rewrite Hsz, number_key by apply Int.uwrap64_range.
    apply Int.uwrap64_id. split; lia. }
  assert (number (get_str "sequence" m3) = meta_number "sequence" d + 1) as Hsequence.
  { meta_gets. rewrite Hseq, number_key by (split; lia). done. }
  set (d' := {| meta := m3; records := rb; pending := pb; index := ib |}).
  change (meta_number "bytes" d') with (number (get_str "bytes" m3)).
  change (meta_number "sequence" d') with (number (get_str "sequence" m3)).
  rewrite Hbytes, Hsequence. split; [|lia].
  eapply store_wf; try done; [|lia].
  meta_gets. destruct (b_get k (records d)) eqn:Ek.
  - subst m1. change (number _) with (meta_number "recordCount" d). lia.
  - meta_gets. rewrite number_key by apply Int.uwrap64_range. unfold entries in *.
    rewrite Int.uwrap64_id by (split; lia). lia.
Qed.

(** What [locate] found. *)
Lemma locate_inv selected now d e t k :
  locate selected now d e = Ok (Some (t, k)) →
  (∃ c, e_Connection e = Some c ∧ selected !! StatName.UserID (User c) = Some t ∧
    uuidPattern (e_ID e) = true ∧ k = t_WindowID t +:+ ":" +:+ e_ID e) ∨
  (e_Connection e = None ∧ b_get (e_ID e) (index d) = Some k ∧
    ∃ dr, unmarshal (get_str k (records d)) = Ok dr ∧ WindowID (rec dr) = t_WindowID t ∧
      t = default zero_target (selected !! UserID (rec dr))).
Proof.
  unfold locate. destruct (e_Connection e) as [c|].
  - intros E. left. exists c. split; [done|].
    destruct (selected !! StatName.UserID (User c)) as [t'|]; [|done].
    change (default zero_target (Some t')) with t' in E.
    destruct (_ || _ || _ || _ || _) eqn:E1; [done|]. destruct (_ && _); [done|].
    injection E as -> <-. apply orb_false_iff in E1 as [E1 _]. apply orb_false_iff in E1 as [E1 _].
    apply orb_false_iff in E1 as [_ E1]. by apply negb_false_iff in E1.
  - destruct (b_get (e_ID e) (index d)) as [k'|]; [|done]. intros E. right. bind_as E dr Hdr.
    injection E as E. destruct (negb _) eqn:Ew; [done|]. injection E as <- <-.
    apply negb_false_iff, bool_decide_eq_true in Ew. split; [done|]. split; [done|]. exists dr. done.
Qed.

(** Within the invariant, a located event is about one record, named by its id. *)
Lemma located cap a d targets now e t k :
  wf cap a d (meta_number "bytes" d) → targets_ok targets →
  locate (selected_users targets) now d e = Ok (Some (t, k)) →
  (∀ dr, entry d k dr → ConnectionID (rec dr) = e_ID e ∧ WindowID (rec dr) = t_WindowID t) ∧
  t ∈ targets ∧
  (b_get k (records d) = None → ∃ c, e_Connection e = Some c ∧
    uuidPattern (t_WindowID t) = true ∧ uuidPattern (e_ID e) = true ∧ userIDPattern (t_UserID t) = true ∧
    k = t_WindowID t +:+ ":" +:+ e_ID e).
Proof.
  intros Hwf Ht [(c & Hc & Hsel & Hid & ->)|(Hc & Hi & dr & Hdr & Hw & ->)]%locate_inv.
  - apply selected_in in Hsel as [Hin _]. destruct (Ht _ Hin) as [Hu Hwin]. split; [|split; [done|eauto 10]].
    intros dr He. destruct (sh_ident _ _ _ (wf_entry _ _ _ _ _ _ Hwf He)) as [Hk Hw _ _].
    apply record_key_inj in Hk as [-> ->]; done.
  - destruct (wf_index _ _ _ _ Hwf _ _ Hi) as (dr' & He & Hid).
    assert (dr' = dr) as ->.
    { destruct He as (v & Hv & E). unfold get_str in Hdr. rewrite Hv in Hdr. cbn in Hdr. congruence. }
    split; [intros dr2 He2; by rewrite <-(entry_fun _ _ _ _ He He2)|].
    split.
    + pose proof (id_window _ _ (sh_ident _ _ _ (wf_entry _ _ _ _ _ _ Hwf He))) as Hwin.
      rewrite Hw in Hwin. destruct (_ !! _) as [t|] eqn:Hsel; [|done].
      by apply selected_in in Hsel as [? _].
    + destruct He as (v & Hv & _). congruence.
Qed.

Lemma apply_event_wf cap a targets max now d e d' :
  wf cap a d (meta_number "bytes" d) → max ≤ cap ≤ 2 ^ 62 → targets_ok targets → event_ok e →
  meta_number "sequence" d + 1 < 2 ^ 64 →
  apply_event (selected_users targets) max now d e = Ok d' →
  wf cap a d' (meta_number "bytes" d') ∧
  meta_number "sequence" d ≤ meta_number "sequence" d' ≤ meta_number "sequence" d + 1.
Proof.
  intros Hwf Hcap Ht He Hroom E. pose proof (sequence_bound d) as Hs0. unfold apply_event in E.
  bind_as E [[t k]|] Hloc; [|injection E as <-; split; [done|lia]].
  destruct (located _ _ _ _ _ _ _ _ Hwf Ht Hloc) as (Hid & Hin & Hnew).
  bind_as E current Hcur. destruct current as [dr|]; [|injection E as <-; split; [done|lia]].
  destruct (advance e dr) as [totals|] eqn:Hadv; [|injection E as <-; split; [done|lia]].
  rewrite Int.uwrap64_id in E by (split; lia).
  destruct (b_get k (records d)) as [data|] eqn:Ek.
  - bind_as Hcur dr' Hdr. injection Hcur as ->. assert (entry d k dr) as Hent by (by exists data).
    pose proof (wf_entry _ _ _ _ _ _ Hwf Hent) as [Hident Hcounted _ Hseq Hret].
    destruct (Hid _ Hent) as [Hconn _]. rewrite <-Ek in E.
    eapply store_record_wf in E; try done.
    + intros dr2 H2'. by rewrite (entry_fun _ _ _ _ H2' Hent).
    + lia.
    + congruence.
    + destruct Hcounted as (? & ? & ? & ?).
      apply revise_shape; try done; [by eapply advance_known|lia..].
  - destruct (Hnew eq_refl) as (c & Hc & Hwin & Hcid & Huid & ->). rewrite Hc in Hcur. injection Hcur as <-.
    destruct (advance_new _ _ _ _ He Hc Hadv) as (Hcov & Hbu & Hbd & Hlu & Hld).
    rewrite <-Ek in E.
    assert (Sequence (rec (new_record t e c)) = 0 ∧ ConnectionID (rec (new_record t e c)) = e_ID e) as [Hs Hci].
    { unfold new_record. by destruct (destination c) as [[??]?]. }
    rewrite Hs in E. eapply store_record_wf in E; try done.
    + intros dr2 (v & Hv & _). congruence.
    + apply revise_shape; try lia; [by apply new_record_facts|done].
Qed.

Lemma apply_wf cap a targets max now events d d' :
  wf cap a d (meta_number "bytes" d) → max ≤ cap ≤ 2 ^ 62 → targets_ok targets →
  Forall event_ok events → meta_number "sequence" d + Z.of_nat (length events) < 2 ^ 64 →
  foldr_result (apply_event (selected_users targets) max now) d events = Ok d' →
  wf cap a d' (meta_number "bytes" d') ∧
  meta_number "sequence" d ≤ meta_number "sequence" d' ≤
    meta_number "sequence" d + Z.of_nat (length events).
Proof.
  intros Hwf Hcap Ht Hev. revert d Hwf. induction Hev as [|e events He _ IH]; intros d Hwf Hroom E.
  - injection E as <-. split; [done|cbn; lia].
  - cbn [foldr_result] in E. bind_as E d1 H1'. cbn [length] in *.
    destruct (apply_event_wf _ _ _ _ _ _ _ _ Hwf Hcap Ht He ltac:(lia) H1') as [Hwf1 Hs1].
    destruct (IH d1 Hwf1 ltac:(lia) E) as [Hwf2 Hs2]. split; [done|lia].
Qed.

(** ** [Ack] *)

Lemma pending_keys cap a d bytes kv :
  wf cap a d bytes → kv ∈ b_items (pending d) →
  ∃ dr, entry d kv.2 dr ∧ kv.1 = key (Sequence (rec dr)) ∧ a < Sequence (rec dr) ∧
    1 ≤ Sequence (rec dr) ≤ meta_number "sequence" d.
Proof.
  intros Hwf Hin. destruct kv as [n k]. apply law_items in Hin.
  destruct (wf_pending _ _ _ _ Hwf _ _ Hin) as (dr & He & Hn & Ha). exists dr. cbn.
  split_and!; try done; by apply (sh_sequence _ _ _ (wf_entry _ _ _ _ _ _ Hwf He)).
Qed.

(** The pending records in the order of the cursor. *)
Lemma pending_sorted cap a d bytes x y m n :
  wf cap a d bytes → meta_number "sequence" d < 2 ^ 64 →
  x ∈ b_items (pending d) → y ∈ b_items (pending d) → key_lt x y →
  x.1 = key m → y.1 = key n → Int.in_uint64 m → Int.in_uint64 n → m < n.
Proof.
  intros Hwf Hroom Hx Hy Hlt Em En Hm Hn. unfold key_lt in Hlt. rewrite Em, En in Hlt.
  unfold key in Hlt. rewrite put_uint64_ltb in Hlt by done. by apply Z.ltb_lt.
Qed.

Lemma acked_keys cap a d bytes through n k :
  wf cap a d bytes → meta_number "sequence" d < 2 ^ 64 →
  (n, k) ∈ take_while (λ kv, number kv.1 <=? through) (b_items (pending d)) ↔
  (n, k) ∈ b_items (pending d) ∧ number n ≤ through.
Proof.
  intros Hwf Hroom. rewrite (take_while_sorted key_lt); [by rewrite Z.leb_le|apply law_sorted|].
  intros x y Hx Hy Hlt Hle.
  destruct (pending_keys _ _ _ _ _ Hwf Hx) as (dx & _ & Ex & _ & Hbx).
  destruct (pending_keys _ _ _ _ _ Hwf Hy) as (dy & _ & Ey & _ & Hby).
  assert (Int.in_uint64 (Sequence (rec dx)) ∧ Int.in_uint64 (Sequence (rec dy))) as [Hux Huy]
    by (split; split; lia).
  pose proof (pending_sorted _ _ _ _ _ _ _ _ Hwf Hroom Hx Hy Hlt Ex Ey Hux Huy).
  rewrite Ex, number_key by done. rewrite Ey, number_key in Hle by done. lia.
Qed.

Lemma ack_wf cap a generation through d d' :
  wf cap a d (meta_number "bytes" d) → meta_number "sequence" d < 2 ^ 64 → 0 ≤ through →
  ack_tx generation through d = Ok d' →
  wf cap (Z.max a through) d' (meta_number "bytes" d') ∧
  meta d' = meta d ∧ records d' = records d ∧ index d' = index d ∧
  generation = get_str "generation" (meta d) ∧ through ≤ meta_number "sequence" d.
Proof.
  intros Hwf Hroom Hpos E. unfold ack_tx in E. bind_as E [] Hgen. bind_as E [] Hahead.
  apply fail_if_ok in Hgen, Hahead. apply negb_false_iff, bool_decide_eq_true in Hgen.
  apply Z.ltb_ge in Hahead. injection E as <-. split; [|done].
  pose proof Hwf as [Hr Hi Hp Hu Hx Hc Hb Ha].
  assert (∀ n k, b_get n (delete_keys (take_while (λ kv, number kv.1 <=? through)
      (b_items (pending d))).*1 (pending d)) = Some k ↔
    b_get n (pending d) = Some k ∧ through < number n) as Hget.
  { intros n k. rewrite get_delete_keys. case_decide as Hin.
    - apply list_elem_of_fmap in Hin as ([n' k'] & Hn & Hin%(acked_keys _ _ _ _ _ _ _ Hwf Hroom)).
      cbn in Hn. subst n'. destruct Hin as [_ Hle]. split; [done|]. intros [_ Hlt]. lia.
    - split; [|by intros [? _]]. intros Hget. split; [done|].
      destruct (Z.le_gt_cases (number n) through) as [Hle|]; [exfalso|done]. apply Hin.
      apply list_elem_of_fmap. exists (n, k). split; [done|].
      apply (acked_keys _ _ _ _ _ _ _ Hwf Hroom). split; [by apply law_items|done]. }
  constructor; cbn; try done.
  - intros n k [Hn Hlt]%Hget. destruct (Hp _ _ Hn) as (dr & He & -> & Hdr).
    exists dr. split; [done|]. split; [done|].
    pose proof (sh_sequence _ _ _ (wf_entry _ _ _ _ _ _ Hwf He)).
    rewrite number_key in Hlt by (split; lia). lia.
  - intros k dr He Hlt. change (entry d k dr) in He. apply Hget.
    pose proof (sh_sequence _ _ _ (wf_entry _ _ _ _ _ _ Hwf He)).
    split; [apply Hu; [done|lia]|]. rewrite number_key by (split; lia). lia.
  - change (0 ≤ Z.max a through ≤ meta_number "sequence" d). lia.
Qed.

(** ** [Prune] *)

Lemma prune_record_wf cap a now d size k v d' size' :
  wf cap a d size → b_get k (records d) = Some v → size < 2 ^ 64 → meta_number "sequence" d < 2 ^ 64 →
  prune_record now (d, size) (k, v) = Ok (d', size') →
  ∃ dr, unmarshal v = Ok dr ∧
  wf cap a d' size' ∧ size' ≤ size ∧ meta_number "sequence" d' = meta_number "sequence" d ∧
  (∀ k', b_get k' (records d') =
    if decide (k = k') then (if expired now dr then None else Some v) else b_get k' (records d)).
Proof.
  intros Hwf Hv Hroom Hroom2 E. cbn [prune_record snd fst] in E. unfold prune_record in E. cbn in E.
  bind_as E dr Hdr. exists dr. split; [done|].
  destruct (expired now dr) eqn:Hexp; cbn [negb] in E.
  2:{ injection E as <- <-. split_and!; [done|lia|done|]. intros k'. case_decide; [by subst|done]. }
  bind_as E m Hm. injection E as <- <-.
  assert (entry d k dr) as Hent by (by exists v).
  pose proof Hwf as [Hr Hi Hp Hu Hx [Hc Hcc] [Hb Hbc] Ha].
  destruct (totals_delete _ _ _ Hv) as [Hen Hvb].
  pose proof (value_bytes_nonneg (b_delete k (records d))). pose proof (slen_nonneg v).
  pose proof (sh_sequence _ _ _ (wf_entry _ _ _ _ _ _ Hwf Hent)) as Hsq.
  set (ib := if bool_decide (get_str (ConnectionID (rec dr)) (index d) = k)
             then b_delete (ConnectionID (rec dr)) (index d) else index d).
  set (d' := {| meta := m; records := b_delete k (records d);
                pending := b_delete (key (Sequence (rec dr))) (pending d); index := ib |}).
  assert (∀ k' dr', entry d' k' dr' ↔ k' ≠ k ∧ entry d k' dr') as Hent'.
  { intros k' dr'. split.
    - intros (v' & Hv' & Hu'). change (records d') with (b_delete k (records d)) in Hv'.
      rewrite law_get_delete in Hv'. case_decide; [done|]. split; [done|by exists v'].
    - intros [Hne (v' & Hv' & Hu')]. exists v'. split; [|done].
      change (records d') with (b_delete k (records d)). rewrite law_get_delete. by rewrite decide_False. }
  assert (meta_number "sequence" d' = meta_number "sequence" d) as Hs by (unfold d'; by meta_gets).
  rewrite Int.uwrap64_id by (split; lia).
  split_and!; [|lia|done|].
  2:{ intros k'. change (records d') with (b_delete k (records d)). apply law_get_delete. }
  constructor.
  - rewrite Hs. intros k' v' E. change (records d') with (b_delete k (records d)) in E.
    rewrite law_get_delete in E. case_decide; [done|]. by apply Hr.
  - intros k1 k2 dr1 dr2 [_ ?]%Hent' [_ ?]%Hent'. by apply Hi.
  - intros n k' E. change (pending d') with (b_delete (key (Sequence (rec dr))) (pending d)) in E.
    rewrite law_get_delete in E. case_decide as Hn; [done|].
    destruct (Hp _ _ E) as (dr' & He & -> & ?). exists dr'. rewrite Hent'. split; [|done].
    split; [|done]. intros ->. apply Hn. by rewrite (entry_fun _ _ _ _ Hent He).
  - intros k' dr' [Hne He]%Hent' Hlt. change (pending d') with (b_delete (key (Sequence (rec dr))) (pending d)).
    rewrite law_get_delete, decide_False; [by apply Hu|]. intros Hk%key_inj.
    + apply Hne. symmetry. by eapply Hi.
    + split; lia.
    + pose proof (sh_sequence _ _ _ (wf_entry _ _ _ _ _ _ Hwf He)). split; lia.
  - intros id k' E. change (index d') with ib in E. unfold ib in E.
    assert (b_get id (index d) = Some k' ∧ (k' = k → ConnectionID (rec dr) ≠ id)) as [E' Hne].
    { case_bool_decide as Hdel.
      - rewrite law_get_delete in E. by case_decide.
      - split; [done|]. intros -> <-. apply Hdel. unfold get_str. by rewrite E. }
    destruct (Hx _ _ E') as (dr' & He & Hid). exists dr'. rewrite Hent'. split; [|done].
    split; [|done]. intros ->. apply (Hne eq_refl). by rewrite (entry_fun _ _ _ _ Hent He).
  - change (records d') with (b_delete k (records d)). unfold d'. meta_gets.
    rewrite number_key by apply Int.uwrap64_range. unfold entries in *. rewrite Int.uwrap64_id by (split; lia). lia.
  - change (records d') with (b_delete k (records d)). lia.
  - by rewrite Hs.
Qed.

(** The loop of [Prune] over the entries it started from. *)
Lemma prune_loop_wf cap a now items d size d' size' :
  wf cap a d size → NoDup items.*1 → (∀ kv, kv ∈ items → b_get kv.1 (records d) = Some kv.2) →
  size < 2 ^ 64 → meta_number "sequence" d < 2 ^ 64 →
  foldr_result (prune_record now) (d, size) items = Ok (d', size') →
  wf cap a d' size' ∧ size' ≤ size ∧ meta_number "sequence" d' = meta_number "sequence" d ∧
  (∀ k v, b_get k (records d') = Some v ↔ b_get k (records d) = Some v ∧
    (k ∈ items.*1 → ∃ dr, unmarshal v = Ok dr ∧ expired now dr = false)).
Proof.
  revert d size. induction items as [|[k v] items IH]; intros d size Hwf Hnd Hin Hroom Hroom2 E.
  { injection E as <- <-. split_and!; [done|lia|done|]. intros k v. split; [|by intros [? _]].
    intros ?. split; [done|]. by intros ?%not_elem_of_nil. }
  cbn [foldr_result] in E. bind_as E [d1 size1] H1'.
  cbn [fmap list_fmap fst] in Hnd. apply NoDup_cons in Hnd as [Hnin Hnd].
  pose proof (Hin (k, v) ltac:(left)) as Hkv. cbn in Hkv.
  destruct (prune_record_wf _ _ _ _ _ _ _ _ _ Hwf Hkv Hroom Hroom2 H1') as (dr & Hdr & Hwf1 & Hsz & Hsq & Hget).
  destruct (IH d1 size1 Hwf1 Hnd) as (Hwf2 & Hsz2 & Hsq2 & Hget2); [|lia|lia|done|].
  { intros [k' v'] Hkv'. cbn. rewrite Hget, decide_False; [by apply (Hin (k', v')); right|].
    intros ->. apply Hnin. apply list_elem_of_fmap. by exists (k', v'). }
  split_and!; [done|lia|congruence|]. intros k' v'. rewrite Hget2, Hget. clear Hget Hget2.
  cbn [fmap list_fmap fst]. rewrite elem_of_cons. destruct (decide (k = k')) as [<-|Hne].
  - destruct (expired now dr) eqn:Hexp.
    + split; [by intros [? _]|]. intros [Hv' Hx]. rewrite Hkv in Hv'. injection Hv' as <-.
      destruct (Hx ltac:(by left)) as (dr' & Hdr' & ?). congruence.
    + rewrite Hkv. split.
      * intros [[= <-] Hx]. split; [done|]. intros _. eauto.
      * intros [[= <-] Hx]. split; [done|]. done.
  - split.
    + intros [Hv' Hx]. split; [done|]. intros [->|?]; [done|auto].
    + intros [Hv' Hx]. split; [done|]. auto.
Qed.

Lemma prune_wf cap a now d d' :
  wf cap a d (meta_number "bytes" d) → meta_number "sequence" d < 2 ^ 64 → cap < 2 ^ 64 →
  prune_tx now d = Ok d' →
  wf cap a d' (meta_number "bytes" d') ∧ meta_number "sequence" d' = meta_number "sequence" d ∧
  (∀ k v, b_get k (records d') = Some v ↔ b_get k (records d) = Some v ∧
    ∃ dr, unmarshal v = Ok dr ∧ expired now dr = false).
Proof.
  intros Hwf Hroom Hcap E. destruct (wf_bytes _ _ _ _ Hwf) as [Hb Hbc]. unfold prune_tx in E.
  bind_as E [d1 size] Hloop. bind_as E m Hm. injection E as <-.
  destruct (prune_loop_wf cap a now (b_items (records d)) d _ d1 size Hwf)
    as (Hwf1 & Hsz & Hsq & Hget); [| | | |exact Hloop|].
  - apply sorted_keys_nodup, law_sorted.
  - intros [k v]. apply law_items.
  - lia.
  - done.
  - destruct (wf_bytes _ _ _ _ Hwf1) as [Hb1 _]. pose proof (value_bytes_nonneg (records d1)).
    assert (number (get_str "bytes" m) = size) as Hm'.
    { meta_gets. apply number_key. split; lia. }
    split_and!.
    + change (meta_number "bytes" _) with (number (get_str "bytes" m)). rewrite Hm'.
      apply wf_meta; [done|by meta_gets..].
    + rewrite <-Hsq. by meta_gets.
    + intros k v. cbn [records]. rewrite Hget. split; intros [Hv Hx]; (split; [done|]); [|by intros _].
      apply Hx. apply list_elem_of_fmap. exists (k, v). split; [done|]. by apply law_items.
Qed.

(** ** Who is audited *)

(** The record under [k] belongs to the window of a configured target, and to its
    user, unless it was there before and then still belongs to the same user. *)
Definition audited (targets : list Target) d d' (k : string) : Prop :=
  ∃ t dr, t ∈ targets ∧ entry d' k dr ∧ WindowID (rec dr) = t_WindowID t ∧
    (UserID (rec dr) = t_UserID t ∨ ∃ dr0, entry d k dr0 ∧ UserID (rec dr) = UserID (rec dr0)).

Lemma apply_event_audited cap a targets max now d e d' k :
  wf cap a d (meta_number "bytes" d) → targets_ok targets →
  apply_event (selected_users targets) max now d e = Ok d' →
  b_get k (records d') = b_get k (records d) ∨ audited targets d d' k.
Proof.
  intros Hwf Ht E. unfold apply_event in E.
  bind_as E [[t k0]|] Hloc; [|injection E as <-; by left].
  destruct (located _ _ _ _ _ _ _ _ Hwf Ht Hloc) as (Hid & Hin & Hnew).
  bind_as E current Hcur. destruct current as [dr|]; [|injection E as <-; by left].
  destruct (advance e dr) as [totals|]; [|injection E as <-; by left].
  apply store_record_inv in E as [(m & _ & ->)|
    (data & rb & ib & pb & m1 & m2 & m3 & size & Hdata & Hrb & _ & _ & _ & _ & _ & _ & _ & _ & ->)]; [by left|].
  cbn [records]. destruct (decide (k0 = k)) as [->|Hne]; [right|left; by apply (get_put_ne _ _ _ _ _ Hrb)].
  apply law_record in Hdata. exists t. eexists. split; [done|].
  split; [exists data; split; [apply (get_put_eq _ _ _ _ Hrb)|exact Hdata]|]. cbn.
  destruct (b_get k (records d)) as [old|] eqn:Ek.
  - bind_as Hcur dr' Hdr. injection Hcur as ->. assert (entry d k dr) as Hent by (by exists old).
    destruct (sh_ident _ _ _ (wf_entry _ _ _ _ _ _ Hwf Hent)) as [_ Hw _ Hu].
    destruct (Hid _ Hent) as [_ Hwin].
    rewrite !utf8_clean_ascii by (first [by apply uuid_ascii|by apply user_ascii]).
    split; [done|right]. by exists dr.
  - destruct (Hnew eq_refl) as (c & Hc & Hwin & _ & Hu & _). rewrite Hc in Hcur. injection Hcur as <-.
    unfold new_record. destruct (destination c) as [[??]?]. cbn.
    rewrite !utf8_clean_ascii by (first [by apply uuid_ascii|by apply user_ascii]). split; [done|by left].
Qed.

Lemma apply_audited cap a targets max now events d d' k :
  wf cap a d (meta_number "bytes" d) → max ≤ cap ≤ 2 ^ 62 → targets_ok targets →
  Forall event_ok events → meta_number "sequence" d + Z.of_nat (length events) < 2 ^ 64 →
  foldr_result (apply_event (selected_users targets) max now) d events = Ok d' →
  b_get k (records d') = b_get k (records d) ∨ audited targets d d' k.
Proof.
  intros Hwf Hcap Ht Hev. revert d Hwf. induction Hev as [|e events He Hev IH]; intros d Hwf Hroom E.
  { injection E as <-. by left. }
  cbn [foldr_result] in E. bind_as E d1 H1'. cbn [length] in Hroom.
  destruct (apply_event_wf _ _ _ _ _ _ _ _ Hwf Hcap Ht He ltac:(lia) H1') as [Hwf1 Hs1].
  pose proof (apply_event_audited _ _ _ _ _ _ _ _ k Hwf Ht H1') as Hstep.
  destruct (IH d1 Hwf1 ltac:(lia) E) as [Heq|(t & dr & Ht2 & He2 & Hw2 & Hu2)].
  - destruct Hstep as [Hstep|(t & dr & Ht1 & (v & Hv & Hu) & Hrest)]; [left; congruence|right].
    exists t, dr. split; [done|]. split; [|done]. exists v. by rewrite Heq.
  - right. destruct Hu2 as [Hu2|(dr1 & He1 & Hu2)]; [exists t, dr; auto|].
    destruct Hstep as [Hstep|(t1 & dr1' & Ht1 & He1' & Hw1 & Hu1)].
    + exists t, dr. split_and!; [done..|]. right. exists dr1. split; [|done].
      destruct He1 as (v & Hv & Hun). exists v. by rewrite <-Hstep.
    + pose proof (entry_fun _ _ _ _ He1 He1') as <-.
      assert (wf cap a d' (meta_number "bytes" d')) as Hwf2.
      { eapply (apply_wf cap a targets max now events); [exact Hwf1|done..| |exact E]. lia. }
      destruct (sh_ident _ _ _ (wf_entry _ _ _ _ _ _ Hwf2 He2)) as [Hk Hwk _ _].
      destruct (sh_ident _ _ _ (wf_entry _ _ _ _ _ _ Hwf1 He1)) as [Hk1 Hwk1 _ _].
      rewrite Hk in Hk1. apply record_key_inj in Hk1 as [Hww _]; [|done..].
      exists t1, dr. split_and!; [done|done|congruence|].
      destruct Hu1 as [Hu1|(dr0 & He0 & Hu0)]; [left; congruence|right]. exists dr0. split; [done|congruence].
Qed.
End audit.
