(* ===== verification/AuditDelivery.v ===== *)
(** * Delivery, policy and retention of the access audit

    The operations of the store keep its invariant in every reachable state
    ([audit_invariant]); a pull delivers the unacknowledged records in order and
    without gaps ([audit_pull]); an acknowledgement forgets exactly what was
    delivered ([audit_ack]); only selected users are audited, and only while the
    lease lasts ([audit_selected_only], [audit_lease]); retention is exact
    ([audit_prune]). *)
From S2P Require Import Prelude GoStr GoTime GoNet Bolt StatName AccessAudit AuditSpec.
Import AccessAudit.

Local Open Scope Z_scope.

Inductive op :=
| OpApply (events : list Event) (now : time)
| OpAck (generation : string) (through : Z)
| OpPrune (now : time)
| OpConfigure (c : Config) (now : time)
| OpRuntime (capturing : bool) (err : option error).

(** The clock is past year 1; numbers are in their types. *)
Definition op_ok (o : op) : Prop :=
  match o with
  | OpApply events now => Forall event_ok events ∧ zero_time ≤ now
  | OpAck _ through => 0 ≤ through
  | _ => True
  end.

Definition op_events (o : op) : Z :=
  match o with OpApply events _ => Z.of_nat (length events) | _ => 0 end.

(** ** Policies *)

Lemma check_targets now seen targets seen' :
  foldr_result (check_target now) seen targets = Ok seen' →
  targets_ok targets ∧ NoDup (t_UserID <$> targets) ∧
  (∀ t, t ∈ targets → (t_UserID t ∉ seen) ∧ 1 ≤ t_RetentionDays t ≤ 30 ∧ EnabledAt t ≤ now + minute).
Proof.
  revert seen. induction targets as [|t targets IH]; intros seen E.
  { split_and!; [by intros ? ?%not_elem_of_nil|constructor|by intros ? ?%not_elem_of_nil]. }
  cbn [foldr_result] in E. bind_as E s1 H1. unfold check_target in H1.
  destruct (_ || _) eqn:Hbad; [done|]. injection H1 as <-.
  repeat (apply orb_false_iff in Hbad as [Hbad ?]).
  destruct (IH _ E) as (Hok & Hnd & Hall).
  repeat match goal with H : negb _ = false |- _ => apply negb_false_iff in H end.
  match goal with H : bool_decide _ = false |- _ => apply bool_decide_eq_false in H; rename H into Hseen end.
  unfold after in *. split_and!.
  - intros t' [->|Hin]%elem_of_cons; [done|]. by apply Hok.
  - cbn. constructor; [|done]. intros (t' & Heq & Hin)%list_elem_of_fmap.
    destruct (Hall _ Hin) as [Hns _]. set_solver.
  - intros t' [->|Hin]%elem_of_cons; [split_and!; [done|lia..]|].
    destruct (Hall _ Hin) as (Hns & ? & ?). split_and!; [set_solver|lia..].
Qed.

Lemma Validate_ok c now u :
  Validate c now = Ok u →
  targets_ok (Targets c) ∧ NoDup (t_UserID <$> Targets c) ∧
  now < ExpiresAt c ≤ now + 5 * minute ∧ 0 ≤ Revision c.
Proof.
  unfold Validate. intros E. bind_as E u1 H1. bind_as E s1 H2. apply fail_if_ok in H1.
  repeat (apply orb_false_iff in H1 as [H1 ?]). unfold after in *.
  match goal with H : negb _ = false |- _ => apply negb_false_iff in H end.
  destruct (check_targets _ _ _ _ H2) as (? & ? & _). split_and!; try done; lia.
Qed.

Section guarantees.
Context `{UnicodeCase} {B : Type} `{BucketOps B} `{!BucketLaws B}.
Context `{Codec Config} `{Codec (list Target)} `{Codec diskRecord} `{!RecordCodec}.
Context `{TxOps (DB B)} `{!TxLaws (DB B)}.
Implicit Types (d : DB B) (s : Store B).

Definition exec (o : op) s : Store B * result unit :=
  match o with
  | OpApply events now => Apply events now s
  | OpAck generation through => Ack generation through s
  | OpPrune now => Prune now s
  | OpConfigure c now => Configure c now s
  | OpRuntime c e => (Runtime c e s, Ok tt)
  end.

Fixpoint run (ops : list op) s : Store B :=
  match ops with [] => s | o :: rest => run rest (exec o s).1 end.

Lemma audit_update_cases body s :
  (∃ e, update s body = (s, Err e)) ∨
  (∃ d', body (db s) = Ok d' ∧ update s body = (with_db s d', Ok tt)).
Proof.
  unfold update, with_db. destruct (body (db s)) as [d'|e] eqn:E.
  - destruct (law_tx_ok _ _ _ E) as [->|[e ->]]; [right; eauto|left].
    exists e. by destruct s.
  - left. exists e. rewrite (law_tx_err _ _ _ E). by destruct s.
Qed.

(** A policy in force has been validated. *)
Definition policy_ok s : Prop :=
  ExpiresAt (config s) = zero_time ∨ targets_ok (Targets (config s)).

Definition store_wf (a : Z) s : Prop :=
  wf (maxBytes s) a (db s) (meta_number "bytes" (db s)) ∧ policy_ok s.

Definition last_sequence s : Z := meta_number "sequence" (db s).

Lemma configure_cases c now s :
  (∃ e, Configure c now s = (s, Err e)) ∨
  (∃ m payload, b_put "config" payload (meta (db s)) = Ok m ∧ (∃ u, Validate c now = Ok u) ∧
    Revision (config s) ≤ Revision c ∧
    Configure c now s =
      (with_config (with_db s {| meta := m; records := records (db s); pending := pending (db s);
                                 index := index (db s) |}) c, Ok tt)).
Proof.
  unfold Configure. destruct (Validate c now) as [u|e] eqn:Hv; [|by left; eauto].
  destruct (Z.ltb_spec (Revision c) (Revision (config s))); [by left; eauto|].
  destruct (_ && _ && _); [by left; eauto|].
  match goal with |- context [update s ?f] => destruct (audit_update_cases f s) as [[e ->]|(d' & E & ->)] end;
    [by left; eauto|].
  bind_as E m Hm. injection E as <-. right. do 2 eexists. split_and!; eauto.
Qed.

(** An operation keeps the invariant, moves the acknowledgement forward only, and
    keeps the records' limit. *)
Lemma exec_wf o a s :
  store_wf a s → op_ok o → last_sequence s + op_events o < 2 ^ 64 → maxBytes s ≤ 2 ^ 62 →
  ∃ a', a ≤ a' ∧ store_wf a' (exec o s).1 ∧ maxBytes (exec o s).1 = maxBytes s ∧
    last_sequence (exec o s).1 ≤ last_sequence s + op_events o.
Proof.
  unfold last_sequence. intros [Hwf Hpol] Hok Hroom Hmax.
  assert (∃ a', a ≤ a' ∧ store_wf a' s ∧ maxBytes s = maxBytes s ∧
    meta_number "sequence" (db s) ≤ meta_number "sequence" (db s) + op_events o) as Hsame.
  { exists a. split_and!; [lia|done|done|]. destruct o; cbn [op_events]; lia. }
  destruct o as [events now|generation through|now|c now|cap e]; cbn [exec op_events] in *.
  - unfold Apply. destruct (after _ now) eqn:Hlive; cbn [negb]; [|done].
    destruct Hok as [Hev Hnow]. unfold after in Hlive. apply Z.ltb_lt in Hlive.
    destruct Hpol as [Hz|Ht]; [rewrite Hz in Hlive; lia|].
    match goal with |- context [update s ?f] => destruct (audit_update_cases f s) as [[e ->]|(d' & E & ->)] end; [done|].
    destruct (apply_wf (maxBytes s) a _ _ _ _ _ _ Hwf (conj (Z.le_refl _) Hmax) Ht Hev Hroom E) as [Hwf' Hs'].
    exists a. split_and!; [lia|by split; [|right]|done|cbn; lia].
  - unfold Ack. destruct (audit_update_cases (ack_tx generation through) s) as [[e ->]|(d' & E & ->)]; [done|].
    destruct (ack_wf _ _ _ _ _ _ Hwf ltac:(lia) Hok E) as (Hwf' & Hm & _).
    exists (Z.max a through). split_and!; [lia|by split|done|]. cbn. unfold meta_number. rewrite Hm. lia.
  - unfold Prune. destruct (audit_update_cases (prune_tx now) s) as [[e ->]|(d' & E & ->)]; [done|].
    destruct (prune_wf _ _ _ _ _ Hwf ltac:(lia) ltac:(lia) E) as (Hwf' & Hs & _).
    exists a. split_and!; [lia|by split|done|cbn; lia].
  - destruct (configure_cases c now s) as [[e ->]|(m & payload & Hm & [u Hv] & _ & ->)]; [done|].
    exists a. cbn. split_and!; [lia| |done|].
    + split; cbn; [|right; by apply (Validate_ok _ _ _ Hv)].
      unfold meta_number. cbn. rewrite (get_str_put_ne _ _ _ _ "bytes" Hm) by done.
      apply wf_meta; [done|by rewrite (get_str_put_ne _ _ _ _ _ Hm) by done..].
    + unfold meta_number. cbn. rewrite (get_str_put_ne _ _ _ _ _ Hm) by done. lia.
  - done.
Qed.

Lemma open_wf random max s :
  Open random None max = Ok s → store_wf 0 s ∧ last_sequence s = 0 ∧
  maxBytes s = (if max <=? 0 then 33554432 else max).
Proof.
  unfold Open. intros E. change (default empty_db None) with (empty_db (B := B)) in E.
  assert (∀ m, number (get_str "bytes" m) = 0 → number (get_str "sequence" m) = 0 →
    number (get_str "recordCount" m) = 0 →
    wf (if max <=? 0 then 33554432 else max) 0
      {| meta := m; records := b_empty; pending := b_empty; index := b_empty |} 0) as Hwf.
  { intros m Hb Hs Hc.
    apply (wf_meta _ _ (empty_db (B := B)) _ m).
    - apply wf_empty. destruct (Z.leb_spec max 0); lia.
    - rewrite Hs. unfold meta_number, get_str. cbn. by rewrite law_get_empty.
    - rewrite Hc. unfold meta_number, get_str. cbn. by rewrite law_get_empty. }
  destruct (open_tx random (empty_db (B := B))) as [d1|e] eqn:Ho.
  2:{ rewrite (law_tx_err _ _ _ Ho) in E. done. }
  destruct (law_tx_ok _ _ _ Ho) as [Et|[e Et]]; rewrite Et in E; [|done]. cbn [mbind result_bind] in E.
  unfold open_tx, get_str in Ho. cbn in Ho. rewrite law_get_empty in Ho. cbn in Ho.
  bind_as Ho id Hid. bind_as Ho m Hm. injection Ho as <-. cbn [meta] in E.
  assert (∀ k, k ≠ "generation" → get_str k m = "") as Hget.
  { intros k Hk. rewrite (get_str_put_ne _ _ _ _ _ Hm) by done. unfold get_str. by rewrite law_get_empty. }
  assert (b_get "config" m = None) as Hcfg.
  { rewrite (get_put_ne _ _ _ _ _ Hm) by done. by rewrite law_get_empty. }
  rewrite Hcfg in E. cbn in E. injection E as <-. unfold store_wf, last_sequence, meta_number. cbn.
  assert (∀ k, k ≠ "generation" → number (get_str k m) = 0) as Hn by (intros; by rewrite Hget).
  split_and!; [|by left|by apply Hn|done].
  cbn. rewrite (Hn "bytes") by done. apply Hwf; by apply Hn.
Qed.

Lemma run_wf ops a s :
  store_wf a s → Forall op_ok ops → last_sequence s + sum_Z (op_events <$> ops) < 2 ^ 64 →
  maxBytes s ≤ 2 ^ 62 →
  ∃ a', a ≤ a' ∧ store_wf a' (run ops s) ∧ maxBytes (run ops s) = maxBytes s ∧
    last_sequence (run ops s) < 2 ^ 64.
Proof.
  intros Hwf Hok. revert a s Hwf. induction Hok as [|o ops Ho _ IH]; intros a s Hwf Hroom Hmax; cbn [run].
  { exists a. cbn in Hroom. split; [lia|]. split; [done|]. split; [done|lia]. }
  cbn [fmap list_fmap sum_Z] in Hroom.
  assert (0 ≤ sum_Z (op_events <$> ops)) as Hpos.
  { apply sum_Z_nonneg. intros z ([] & -> & _)%list_elem_of_fmap; cbn; lia. }
  destruct (exec_wf o a s Hwf Ho ltac:(lia) Hmax) as (a1 & Ha1 & Hwf1 & Hm1 & Hs1).
  destruct (IH a1 _ Hwf1 ltac:(lia) ltac:(lia)) as (a2 & Ha2 & Hwf2 & Hm2 & Hs2).
  exists a2. split; [lia|]. split; [done|]. split; [congruence|done].
Qed.

(** ** [Pull] *)

Definition sequence_lt (x y : diskRecord) : Prop := Sequence (rec x) < Sequence (rec y).

(** The unacknowledged records, in the order of their sequence numbers. *)
Lemma pending_list cap a d bytes :
  wf cap a d bytes → meta_number "sequence" d < 2 ^ 64 →
  ∃ drs, Forall2 (λ kv dr, entry d kv.2 dr) (b_items (pending d)) drs ∧
    StronglySorted sequence_lt drs ∧
    (∀ dr, dr ∈ drs ↔ ∃ k, entry d k dr ∧ a < Sequence (rec dr)).
Proof.
  intros Hwf Hroom.
  assert (∀ kv, kv ∈ b_items (pending d) → ∃ dr, entry d kv.2 dr ∧ kv.1 = key (Sequence (rec dr)) ∧
    a < Sequence (rec dr) ∧ 1 ≤ Sequence (rec dr) ≤ meta_number "sequence" d) as Hall
    by (intros kv; by eapply pending_keys).
  assert (∀ k dr, entry d k dr → a < Sequence (rec dr) →
    (key (Sequence (rec dr)), k) ∈ b_items (pending d)) as Hcomplete.
  { intros k dr He Ha. apply law_items. by apply (wf_unacked _ _ _ _ Hwf). }
  pose proof (law_sorted (pending d)) as Hsorted. pose proof (sequence_bound d).
  assert (∃ drs, Forall2 (λ kv dr, entry d kv.2 dr ∧ kv.1 = key (Sequence (rec dr)) ∧
      a < Sequence (rec dr) ∧ 1 ≤ Sequence (rec dr) ≤ meta_number "sequence" d)
      (b_items (pending d)) drs) as [drs Hdrs].
  { clear Hsorted Hcomplete. induction (b_items (pending d)) as [|kv l IH]; [by exists []|].
    destruct (Hall kv ltac:(left)) as (dr & Hdr). destruct IH as [drs Hdrs]; [intros ??; apply Hall; by right|].
    exists (dr :: drs). by constructor. }
  exists drs. split_and!.
  - eapply Forall2_impl; [exact Hdrs|]. by intros ?? (? & _).
  - clear Hall Hcomplete. induction Hdrs as [|kv dr l drs (He & Hk & Ha & Hb) Hrest IH]; [constructor|].
    apply StronglySorted_inv in Hsorted as [Hsorted F]. constructor; [by apply IH|].
    clear IH Hsorted. induction Hrest as [|kv' dr' l drs (He' & Hk' & Ha' & Hb') Hrest IH]; [constructor|].
    apply Forall_cons in F as [Hlt F]. constructor; [|by apply IH].
    unfold key_lt in Hlt. rewrite Hk, Hk' in Hlt. unfold key in Hlt.
    rewrite put_uint64_ltb in Hlt by (split; lia). by apply Z.ltb_lt.
  - intros dr. split.
    + intros (i & Hi)%list_elem_of_lookup. destruct (Forall2_lookup_r _ _ _ _ _ Hdrs Hi) as (kv & _ & He & _ & Ha & _).
      eauto.
    + intros (k & He & Ha). destruct (proj1 (list_elem_of_lookup _ _) (Hcomplete _ _ He Ha)) as [i Hi].
      destruct (Forall2_lookup_l _ _ _ _ _ Hdrs Hi) as (dr' & Hi' & He' & _).
      cbn in He'. rewrite (entry_fun _ _ _ _ He He'). by eapply list_elem_of_lookup_2.
Qed.

Lemma pull_loop_prefix limit d items drs size acc :
  Forall2 (λ kv dr, entry d kv.2 dr) items drs → Z.of_nat (length acc) ≤ limit →
  ∃ n, (n ≤ length drs)%nat ∧ Z.of_nat (length acc + n) ≤ limit ∧
    pull_loop limit size acc d items = Ok (acc ++ (rec <$> take n drs), bool_decide (n < length drs)%nat) ∧
    (∀ kv items', items = kv :: items' → Z.of_nat (length acc) < limit →
      size + slen (get_str kv.2 (records d)) ≤ 1048576 → (0 < n)%nat).
Proof.
  intros Hall. revert size acc. induction Hall as [|kv dr items drs He _ IH]; intros size acc Hl.
  { exists 0%nat. cbn. rewrite app_nil_r. split_and!; [lia|lia|done|done]. }
  destruct kv as [n0 k]. cbn [snd] in He. destruct He as (v & Hv & Hu).
  assert (get_str k (records d) = v) as Hget by (unfold get_str; by rewrite Hv).
  cbn [pull_loop]. rewrite Hget, Hu. cbn [mbind result_bind].
  destruct (_ || _) eqn:Hstop.
  - exists 0%nat. cbn [take fmap list_fmap length]. rewrite app_nil_r. split_and!; [lia|lia|done|].
    intros kv items' [= <- <-] Hlt Hsz. cbn [snd] in Hsz. rewrite Hget in Hsz.
    apply orb_true_iff in Hstop as [Hs|Hs]; lia.
  - apply orb_false_iff in Hstop as [Hlim _]. apply Z.leb_gt in Hlim.
    destruct (IH (size + slen v) (acc ++ [rec dr])) as (n & Hn & Hln & -> & _).
    { rewrite length_app. cbn [length]. lia. }
    rewrite length_app in Hln. cbn [length] in Hln. exists (S n). cbn [length].
    split_and!; [lia|lia| |intros; lia].
    rewrite <-app_assoc. cbn [take fmap list_fmap app]. repeat f_equal. apply bool_decide_ext. lia.
Qed.

Lemma clamp_pull_range limit : 1 ≤ clamp_pull limit ≤ 500.
Proof. unfold clamp_pull. destruct (Z.ltb_spec limit 1), (Z.ltb_spec 500 limit); cbn; lia. Qed.

(** C29: in every state within the invariant a pull succeeds and delivers
    unacknowledged records only, by increasing sequence number and without gaps:
    whatever precedes a delivered record is delivered too; when [HasMore] is not
    set, everything is.  It stays within the limit and is empty only when nothing
    is pending or the first record is over the byte limit. *)
Theorem audit_pull limit a s :
  store_wf a s → last_sequence s < 2 ^ 64 →
  ∃ drs more, Pull limit s = Ok {| Generation := get_str "generation" (meta (db s));
                                   Records := rec <$> drs; HasMore := more |} ∧
    StronglySorted sequence_lt drs ∧ Z.of_nat (length drs) ≤ clamp_pull limit ∧
    (∀ dr, dr ∈ drs → ∃ k, entry (db s) k dr ∧ a < Sequence (rec dr)) ∧
    (∀ dr k dr', dr ∈ drs → entry (db s) k dr' → a < Sequence (rec dr') →
      Sequence (rec dr') ≤ Sequence (rec dr) → dr' ∈ drs) ∧
    (more = false → ∀ k dr, entry (db s) k dr → a < Sequence (rec dr) → dr ∈ drs) ∧
    (drs = [] → ∀ kv l, b_items (pending (db s)) = kv :: l →
      1048576 < slen (get_str kv.2 (records (db s)))).
Proof.
  intros [Hwf _] Hroom. destruct (pending_list _ _ _ _ Hwf Hroom) as (drs & Hall & Hsorted & Hin).
  pose proof (clamp_pull_range limit) as Hclamp.
  destruct (pull_loop_prefix (clamp_pull limit) (db s) _ _ 0 [] Hall) as (n & Hn & Hlen & E & Hprog).
  { cbn. lia. }
  exists (take n drs), (bool_decide (n < length drs)%nat).
  rewrite <-(take_drop n drs) in Hsorted. apply StronglySorted_app in Hsorted as (Hlt & Hsorted & _).
  split_and!.
  - unfold Pull. rewrite E. done.
  - done.
  - rewrite length_take. cbn in Hlen. lia.
  - intros dr Hdr. apply Hin. by apply elem_of_take in Hdr as (i & Hi & _); eapply list_elem_of_lookup_2.
  - intros dr k dr' Hdr He Ha Hle. assert (dr' ∈ drs) as Hdr' by (apply Hin; eauto).
    rewrite <-(take_drop n drs) in Hdr'. apply elem_of_app in Hdr' as [?|Hdr']; [done|].
    specialize (Hlt _ _ Hdr Hdr'). unfold sequence_lt in Hlt. lia.
  - intros Hmore k dr He Ha. apply bool_decide_eq_false in Hmore. rewrite take_ge by lia.
    apply Hin. eauto.
  - intros Hnil kv l Hitems. destruct (Z.le_gt_cases (slen (get_str kv.2 (records (db s)))) 1048576); [exfalso|lia].
    assert (0 < n)%nat as Hn0 by (eapply Hprog; [done|cbn; lia|lia]).
    destruct drs as [|dr drs']; [|destruct n; [lia|done]].
    apply Forall2_nil_inv_r in Hall. congruence.
Qed.

(** C12: in every state that the store can reach from a new file, its invariant
    holds: every record belongs to a valid user and window, reports exactly the
    traffic counted since its baseline, and, until acknowledged, is pending under
    its own number; the counters in [meta] are exact; there are at most 50000
    records and their bytes stay within the limit. *)
Theorem audit_invariant random max s0 ops :
  Open random None max = Ok s0 → max ≤ 2 ^ 62 → Forall op_ok ops →
  sum_Z (op_events <$> ops) < 2 ^ 64 →
  ∃ a, store_wf a (run ops s0) ∧ entries (records (db (run ops s0))) ≤ 50000 ∧
    value_bytes (records (db (run ops s0))) ≤ maxBytes s0 ∧
    (∀ k dr, entry (db (run ops s0)) k dr → userIDPattern (UserID (rec dr)) = true ∧ reported dr ∧ counted dr).
Proof.
  intros Ho Hmax Hok Hroom. destruct (open_wf _ _ _ Ho) as (Hwf & Hs & Hm).
  destruct (run_wf ops 0 s0 Hwf Hok) as (a & _ & Hwf' & Hm' & _); [lia| |].
  { rewrite Hm. destruct (Z.leb_spec max 0); lia. }
  exists a. split; [done|]. destruct Hwf' as [Hw _]. split; [apply Hw|].
  destruct (wf_bytes _ _ _ _ Hw) as [Hb Hcap]. split; [lia|].
  intros k dr He. destruct (wf_entry _ _ _ _ _ _ Hw He) as [[] ? ? _ _]. done.
Qed.

(** a successful acknowledgement moves the mark to the acknowledged number and
    touches no record; so a later pull delivers exactly what is above it, an update
    after the delivery included.  It fails, without effect, for another generation
    or a number that was never given out. *)
Theorem audit_ack generation through a s s' r :
  store_wf a s → last_sequence s < 2 ^ 64 → 0 ≤ through → Ack generation through s = (s', r) →
  (∃ e, r = Err e ∧ s' = s) ∨
  (r = Ok tt ∧ store_wf (Z.max a through) s' ∧ records (db s') = records (db s) ∧
   last_sequence s' = last_sequence s ∧
   generation = get_str "generation" (meta (db s)) ∧ through ≤ last_sequence s).
Proof.
  intros [Hwf Hpol] Hroom Hpos. unfold Ack.
  destruct (audit_update_cases (ack_tx generation through) s) as [[e ->]|(d' & E & ->)]; intros [= <- <-]; [left; eauto|right].
  destruct (ack_wf _ _ _ _ _ _ Hwf Hroom Hpos E) as (Hwf' & Hm & Hr & _ & Hg & Hle).
  split; [done|]. split; [by split|]. split; [done|]. split; [|done].
  unfold last_sequence, meta_number. cbn. by rewrite Hm.
Qed.

(** C30: nothing is recorded without a policy in force: once the lease is over
    [Apply] does nothing, and before, every record it adds or changes belongs to the
    audit window of a configured target, and to that target's user if it is new;
    records are never taken away. *)
Theorem audit_selected_only events now a s s' r k :
  store_wf a s → Forall event_ok events → zero_time ≤ now → maxBytes s ≤ 2 ^ 62 →
  last_sequence s + Z.of_nat (length events) < 2 ^ 64 → Apply events now s = (s', r) →
  (ExpiresAt (config s) ≤ now → s' = s) ∧ config s' = config s ∧
  (b_get k (records (db s')) = b_get k (records (db s)) ∨
   audited (Targets (config s)) (db s) (db s') k).
Proof.
  intros [Hwf Hpol] Hev Hnow Hmax Hroom. unfold Apply, after.
  destruct (Z.ltb_spec now (ExpiresAt (config s))) as [Hlive|Hlive]; cbn [negb].
  2:{ intros [= <- _]. split_and!; [done..|by left]. }
  match goal with |- context [update s ?f] => destruct (audit_update_cases f s) as [[e ->]|(d' & E & ->)] end;
    intros [= <- _].
  { split_and!; [lia|done|by left]. }
  destruct Hpol as [Hz|Ht]; [rewrite Hz in Hlive; lia|].
  split_and!; [lia|done|]. cbn [db with_db].
  by apply (apply_audited _ _ _ _ _ _ _ _ k Hwf (conj (Z.le_refl _) Hmax) Ht Hev Hroom E).
Qed.

(** an accepted policy is valid (numeric users, each selected once, proper
    windows), leases at most five minutes ahead and never goes back to an older
    revision; a refused one changes nothing; without renewal the audit is off when
    the lease is over, and a restarted agent is off until its policy is renewed. *)
Theorem audit_lease c now s s' r :
  Configure c now s = (s', r) →
  ((∃ e, r = Err e ∧ s' = s) ∨
   (r = Ok tt ∧ config s' = c ∧ records (db s') = records (db s) ∧ pending (db s') = pending (db s) ∧
    targets_ok (Targets c) ∧ NoDup (t_UserID <$> Targets c) ∧
    now < ExpiresAt c ≤ now + 5 * minute ∧ Revision (config s) ≤ Revision c)) ∧
  (∀ later, ExpiresAt (config s') ≤ later → Enabled later s' = false) ∧
  (∀ random file max s2 later, Open random file max = Ok s2 → zero_time ≤ later → Enabled later s2 = false).
Proof.
  intros E. split_and!.
  - destruct (configure_cases c now s) as [[e E']|(m & payload & Hm & [u Hv] & Hrev & E')];
      rewrite E' in E; injection E as <- <-; [left; eauto|right].
    destruct (Validate_ok _ _ _ Hv) as (? & ? & ? & ?). done.
  - intros later Hle. unfold Enabled, after.
    destruct (Z.ltb_spec later (ExpiresAt (config s'))); [lia|apply andb_false_r].
  - intros random file max s2 later Ho Hle. unfold Open in Ho. destruct (tx_update _ _) as [d1 r1].
    bind_as Ho u1 Hu1. bind_as Ho c2 Hc. injection Ho as <-. unfold Enabled, after. cbn.
    assert (ExpiresAt c2 = zero_time) as ->.
    { destruct (b_get "config" (meta d1)); [|by injection Hc as <-]. bind_as Hc c3 Hc3. by injection Hc as <-. }
    destruct (Z.ltb_spec later zero_time); [lia|apply andb_false_r].
Qed.

(** a successful prune keeps exactly the records that are within their
    retention of 24 hours, unchanged, and keeps the invariant; a failed one changes
    nothing. *)
Theorem audit_prune now a s s' r :
  store_wf a s → last_sequence s < 2 ^ 64 → maxBytes s ≤ 2 ^ 62 → Prune now s = (s', r) →
  (∃ e, r = Err e ∧ s' = s) ∨
  (r = Ok tt ∧ store_wf a s' ∧
   ∀ k dr, entry (db s') k dr ↔ entry (db s) k dr ∧ now - 24 * hour ≤ ObservedAt (rec dr)).
Proof.
  intros [Hwf Hpol] Hroom Hmax. unfold Prune.
  destruct (audit_update_cases (prune_tx now) s) as [[e ->]|(d' & E & ->)]; intros [= <- <-]; [left; eauto|right].
  destruct (prune_wf _ _ _ _ _ Hwf Hroom ltac:(lia) E) as (Hwf' & _ & Hget).
  split; [done|]. split; [by split|]. cbn [db with_db]. intros k dr.
  assert (∀ dr', entry (db s) k dr' → expired now dr' = false ↔ now - 24 * hour ≤ ObservedAt (rec dr')) as Hexp.
  { intros dr' He. unfold expired, before. rewrite (sh_retention _ _ _ (wf_entry _ _ _ _ _ _ Hwf He)).
    rewrite Int.wrap64_id by (vm_compute; by split). rewrite Z.ltb_ge. unfold hour. lia. }
  split.
  - intros (v & [Hv (dr' & Hu & Hx)]%Hget & Hu'). assert (dr' = dr) as -> by congruence.
    assert (entry (db s) k dr) as He by (by exists v). split; [done|]. by apply Hexp.
  - intros [(v & Hv & Hu) Hle]. exists v. split; [|done]. apply Hget. split; [done|]. exists dr.
    split; [done|]. apply Hexp; [by exists v|done].
Qed.
End guarantees.

(** ** The theorems at work *)
Import Mem.
Module AuditDemo.
#[export] Instance demo_case : UnicodeCase := {| lower_rune z := z; upper_rune z := z |}.
#[export] Instance demo_tx : TxOps (DB bucket) := Mem.update.
#[export] Instance demo_tx_laws : TxLaws (DB bucket) := Mem.update_laws _.

Definition text {A} `{Countable A} (x : A) : string := bits (encode x).
Definition read {A} `{Countable A} (s : string) : option A := decode (of_bits s).
Lemma read_text {A} `{Countable A} (x : A) : read (text x) = Some x.
Proof. unfold read, text. by rewrite of_bits_bits, decode_encode. Qed.

#[global] Arguments text : simpl never.
#[global] Arguments read : simpl never.

Definition target_fields (t : Target) : list string :=
  [t_UserID t; t_WindowID t; text (EnabledAt t); text (t_RetentionDays t)].
#[export] Instance demo_targets : Codec (list Target) :=
  {| marshal l := Ok (text (target_fields <$> l)); unmarshal s := Err (ErrMsg "json"); codec_ok _ := True |}.
#[export] Instance demo_config : Codec Config :=
  {| marshal c := Ok (text (text (Revision c) :: text (ExpiresAt c) :: mjoin (target_fields <$> Targets c)));
     unmarshal s := Err (ErrMsg "json"); codec_ok _ := True |}.

Definition disk_fields (d : diskRecord) : list string :=
  let r := rec d in
  [ConnectionID r; UserID r; WindowID r; Domain r; DestinationIP r; text (DestinationPort r);
   Inbound r; Network r; Protocol r; text (StartedAt r); text (ObservedAt r); text (ClosedAt r);
   Upload r; Download r; text (Partial r); text (Sequence r); text (LastUpload d);
   text (LastDownload d); text (BaselineUpload d); text (BaselineDownload d); text (RetentionDays d)].
Definition disk_of (l : list string) : option diskRecord :=
  match l with
  | [c; u; w; dom; ip; port; inb; net; pro; st; ob; cl; up; dn; par; sq; lu; ld; bu; bd; rt] =>
      port ← read port; st ← read st; ob ← read ob; cl ← read cl; par ← read par; sq ← read sq;
      lu ← read lu; ld ← read ld; bu ← read bu; bd ← read bd; rt ← read rt;
      Some (Build_diskRecord (Build_AuditRecord c u w dom ip port inb net pro st ob cl up dn par sq)
              lu ld bu bd rt)
  | _ => None
  end.
#[export] Instance demo_disk : Codec diskRecord :=
  {| marshal d := Ok (text (disk_fields (clean_disk d)));
     unmarshal s := match read s ≫= disk_of with Some d => Ok d | None => Err (ErrMsg "json") end;
     codec_ok _ := True |}.

#[export] Instance demo_record_codec : RecordCodec.
Proof.
  intros d s [= <-]. cbn [unmarshal demo_disk]. rewrite read_text. unfold disk_fields. cbn [mbind option_bind disk_of].
  unfold mbind, option_bind. rewrite !read_text. by destruct (clean_disk d) as [[] ? ? ? ? ?].
Qed.

Definition window : string := "00000000-0000-4000-8000-000000000001".
Definition connection_id : string := "00000000-0000-4000-8000-00000000000a".
Definition policy : Config :=
  {| Revision := 1; ExpiresAt := unix 1000 + minute;
     Targets := [{| t_UserID := "7"; t_WindowID := window; EnabledAt := unix 900; t_RetentionDays := 7 |}] |}.
Definition opened : Event :=
  {| Type_ := 0; e_ID := connection_id;
     e_Connection := Some {| c_ID := connection_id; User := "7"; c_Domain := "Example.org.";
       Destination := "192.0.2.1:443"; c_Inbound := "in"; c_Network := "tcp"; c_Protocol := "tls";
       OutboundType := "direct"; CreatedAt := 950000; c_ClosedAt := 0; c_Upload := 10; c_Download := 20 |};
     UploadDelta := 0; DownloadDelta := 0; e_ClosedAt := 0 |}.
Definition more : Event :=
  {| Type_ := 1; e_ID := connection_id; e_Connection := None; UploadDelta := 5; DownloadDelta := 6;
     e_ClosedAt := 0 |}.

Definition s0 : Store bucket :=
  match Open (Ok "seed") None 0 with
  | Ok s => s
  | Err _ => {| db := empty_db; maxBytes := 0; config := zero_config; lastError := ""; capturing := false |}
  end.
Definition ops : list op := [OpConfigure policy (unix 1000); OpApply [opened; more] (unix 1001)].
Definition s2 : Store bucket := run ops s0.

Lemma opened0 : Open (Ok "seed") None 0 = Ok s0.
Proof. vm_compute. reflexivity. Qed.

Lemma events_ok : Forall event_ok [opened; more].
Proof. apply Forall_cons; split; [done|]. apply Forall_cons; split; [done|]. by apply Forall_nil. Qed.

Lemma ops_ok : Forall op_ok ops.
Proof.
  apply Forall_cons; split; [done|]. apply Forall_cons; split; [|by apply Forall_nil].
  split; [apply events_ok|done].
Qed.

Lemma reached : ∃ a, store_wf a s2.
Proof.
  destruct (open_wf _ _ _ opened0) as (Hwf & Hs & Hm).
  destruct (run_wf ops 0 s0 Hwf ops_ok) as (a & _ & Hwf' & _); [rewrite Hs; done|rewrite Hm; done|].
  by exists a.
Qed.
End AuditDemo.
Import AuditDemo.

Lemma audit_invariant_witness :
  (∃ k dr, entry (db s2) k dr ∧ Upload (rec dr) = "15" ∧ Domain (rec dr) = "example.org") ∧
  ∃ a, store_wf a s2 ∧ entries (records (db s2)) ≤ 50000.
Proof.
  split.
  - eexists (window +:+ ":" +:+ connection_id), _. split; [eexists; split; vm_compute; reflexivity|].
    split; vm_compute; reflexivity.
  - destruct (audit_invariant (Ok "seed") 0 s0 ops) as (a & Hwf & Hn & _);
      [exact opened0|lia|exact ops_ok|done|]. exists a. split; [exact Hwf|exact Hn].
Defined.

Lemma audit_pull_witness :
  ∃ drs more, Pull 10 s2 = Ok {| Generation := get_str "generation" (meta (db s2));
                                 Records := rec <$> drs; HasMore := more |} ∧
    Z.of_nat (length drs) ≤ 10.
Proof.
  destruct reached as [a Ha].
  destruct (audit_pull 10 a s2 Ha) as (drs & more & E & _ & Hl & _); [vm_compute; done|].
  exists drs, more. split; [exact E|exact Hl].
Defined.

Lemma audit_ack_witness :
  ∃ a, store_wf a (Ack "73656564" 2 s2).1 ∧ Pull 10 (Ack "73656564" 2 s2).1 =
    Ok {| Generation := "73656564"; Records := []; HasMore := false |}.
Proof.
  destruct reached as [a Ha].
  destruct (audit_ack "73656564" 2 a s2 (Ack "73656564" 2 s2).1 (Ack "73656564" 2 s2).2 Ha)
    as [(e & E & _)|(_ & Hwf & _)]; [vm_compute; done|lia|apply surjective_pairing|vm_compute in E; discriminate|].
  exists (Z.max a 2). split; [exact Hwf|vm_compute; reflexivity].
Defined.

Lemma audit_selected_only_witness :
  (Apply [opened] (unix 2000) s2).1 = s2.
Proof.
  destruct reached as [a Ha].
  apply (audit_selected_only [opened] (unix 2000) a s2 (Apply [opened] (unix 2000) s2).1
    (Apply [opened] (unix 2000) s2).2 "" Ha).
  - apply Forall_cons; split; [done|]. by apply Forall_nil.
  - done.
  - vm_compute. done.
  - vm_compute. done.
  - apply surjective_pairing.
  - vm_compute. done.
Defined.

Lemma audit_lease_witness : Enabled (unix 2000) (Configure policy (unix 1000) s0).1 = false.
Proof.
  apply (audit_lease policy (unix 1000) s0 (Configure policy (unix 1000) s0).1 (Configure policy (unix 1000) s0).2);
    [apply surjective_pairing|vm_compute; done].
Defined.

Lemma audit_prune_witness :
  ∃ a, store_wf a (Prune (unix 200000) s2).1 ∧ entries (records (db (Prune (unix 200000) s2).1)) = 0.
Proof.
  destruct reached as [a Ha].
  destruct (audit_prune (unix 200000) a s2 (Prune (unix 200000) s2).1 (Prune (unix 200000) s2).2 Ha)
    as [(e & E & _)|(_ & Hwf & _)]; [vm_compute; done|vm_compute; done|apply surjective_pairing|vm_compute in E; discriminate|].
  exists a. split; [exact Hwf|vm_compute; reflexivity].
Defined.
