(* ===== verification/Collector.v ===== *)
(** * The collector of the access audit ([internal/accessaudit/native.go], [collector.go])

    [readEvents] reads the messages of the core's stream by the numbers of their fields; the
    collector prunes the store and feeds it from the stream, in goroutines that interleave
    with each other and with the requests of the panel.  Every call of the store is one step,
    labelled with its operation.  The theorems are in CollectorSpec.v. *)
From S2P Require Import Prelude GoStr GoTime GoNet Bolt StatName AccessAudit AuditSpec AuditDelivery.
Import AccessAudit.

Module Collector.

(** ** Messages *)

Inductive kind := KStr | KInt | KBool | KMsg (target : string) | KList (target : string).

(** A field of a message: its number, its name, its type *)
Record field := { f_number : Z; f_name : string; f_kind : kind }.
Definition fields (k : kind) (l : list (Z * string)) : list field :=
  (λ p, {| f_number := fst p; f_name := snd p; f_kind := k |}) <$> l.

Definition Connection_fields : list field :=
  fields KStr [(1, "id"); (2, "inbound"); (5, "network"); (7, "destination"); (8, "domain"); (9, "protocol");
               (10, "user"); (20, "outboundType")]%Z ++
  fields KInt [(12, "createdAt"); (13, "closedAt"); (16, "uplinkTotal"); (17, "downlinkTotal")]%Z.
Definition ConnectionEvent_fields : list field :=
  fields KInt [(1, "type")]%Z ++ fields KStr [(2, "id")]%Z ++ fields (KMsg "Connection") [(3, "connection")]%Z ++
  fields KInt [(4, "uplinkDelta"); (5, "downlinkDelta"); (6, "closedAt")]%Z.
Definition ConnectionEvents_fields : list field :=
  fields (KList "ConnectionEvent") [(1, "events")]%Z ++ fields KBool [(2, "reset")]%Z.
Definition SubscribeConnectionsRequest_fields : list field := fields KInt [(1, "interval")]%Z.

(** The descriptor of a message, by its name *)
Definition wire (name : string) : list field :=
  if bool_decide (name = "Connection") then Connection_fields
  else if bool_decide (name = "ConnectionEvent") then ConnectionEvent_fields
  else if bool_decide (name = "ConnectionEvents") then ConnectionEvents_fields
  else if bool_decide (name = "SubscribeConnectionsRequest") then SubscribeConnectionsRequest_fields
  else [].

(** A value of [protoreflect], and a message: its name and the fields that are set *)
Inductive value :=
| VInt (n : Z) | VStr (s : string) | VBool (b : bool) | VMsg (m : message) | VList (l : list message)
with message := Message (name : string) (set : list (Z * value)).

Definition name_of (m : message) : string := match m with Message n _ => n end.
Definition set_of (m : message) : list (Z * value) := match m with Message _ l => l end.
Definition is_set (n : Z) (m : message) : bool := existsb (λ p, fst p =? n)%Z (set_of m).

Definition default_value (k : kind) : value :=
  match k with
  | KStr => VStr "" | KInt => VInt 0 | KBool => VBool false | KMsg t => VMsg (Message t []) | KList _ => VList []
  end.

(** [m.Get(m.Descriptor().Fields().ByNumber(n))]; [None] is a panic: a number that is not
    declared *)
Definition get (m : message) (n : Z) : option value :=
  f ← list_find (λ f, f_number f = n) (wire (name_of m));
  Some (match list_find (λ p, fst p = n) (set_of m) with
        | Some (_, (_, v)) => v
        | None => default_value (f_kind (snd f))
        end).
Definition get_int (m : message) (n : Z) : option Z :=
  v ← get m n; match v with VInt z => Some z | _ => None end.
Definition get_string (m : message) (n : Z) : option string :=
  v ← get m n; match v with VStr s => Some s | _ => None end.
Definition get_message (m : message) (n : Z) : option message :=
  v ← get m n; match v with VMsg x => Some x | _ => None end.
Definition get_list (m : message) (n : Z) : option (list message) :=
  v ← get m n; match v with VList l => Some l | _ => None end.

Definition read_connection (c : message) : option Connection :=
  id ← get_string c 1; inbound ← get_string c 2; network ← get_string c 5; destination ← get_string c 7;
  domain ← get_string c 8; protocol ← get_string c 9; user ← get_string c 10; created ← get_int c 12;
  closed ← get_int c 13; upload ← get_int c 16; download ← get_int c 17; outbound ← get_string c 20;
  Some {| c_ID := id; User := user; c_Domain := domain; Destination := destination; c_Inbound := inbound;
          c_Network := network; c_Protocol := protocol; OutboundType := outbound; CreatedAt := created;
          c_ClosedAt := closed; c_Upload := upload; c_Download := download |}.

Definition read_event (m : message) : option Event :=
  type ← get_int m 1; id ← get_string m 2; up ← get_int m 4; down ← get_int m 5; closed ← get_int m 6;
  connection ← (if is_set 3 m then c ← get_message m 3; c ← read_connection c; Some (Some c) else Some None);
  Some {| Type_ := type; e_ID := id; e_Connection := connection; UploadDelta := up; DownloadDelta := down;
          e_ClosedAt := closed |}.

Fixpoint read_list (items : list message) : option (list Event) :=
  match items with [] => Some [] | m :: rest => e ← read_event m; l ← read_list rest; Some (e :: l) end.
Definition readEvents (m : message) : option (list Event) := items ← get_list m 1; read_list items.

(** The numbers of a message are 64-bit. *)
Fixpoint fits_value (v : value) : bool :=
  match v with
  | VInt n => (- 2 ^ 63 <=? n)%Z && (n <? 2 ^ 63)%Z
  | VMsg m => fits m
  | VList l => forallb fits l
  | _ => true
  end
with fits (m : message) : bool := match m with Message _ l => forallb (λ p, fits_value (snd p)) l end.

(** ** The goroutines *)

Inductive pruner :=
| PruneNext                                    (* about to prune *)
| PruneFailed (e : error)                      (* about to report a failure *)
| PruneWaiting                                 (* in the select *)
| PruneDone.

(** Whether the goroutine that watches the lease runs, and whether the context of the stream
    was cancelled *)
Record watch := { watching : bool; stopped : bool }.

Inductive streamer :=
| Ticking                                      (* in the select of the ticker *)
| Checking                                     (* about to look at the lease *)
| Disabled                                     (* about to report that nothing is captured *)
| Streaming (w : watch)                        (* in [RecvMsg] *)
| Got (events : list Event) (w : watch)        (* about to report that the stream captures *)
| Applying (events : list Event) (w : watch)   (* about to apply the events *)
| Ended (e : error) (w : watch)                (* [Subscribe] returned; waiting for the watcher *)
| Reporting (e : error)                        (* about to report the end *)
| Resting                                      (* in the select of three seconds *)
| StreamDone.

Section collector.
Context `{UnicodeCase} {B : Type} `{BucketOps B}.
Context `{Codec Config} `{Codec (list Target)} `{Codec diskRecord}.
Context `{TxOps (DB B)}.

Record Collector := { store : Store B; cancelled : bool; prune : pruner; stream : streamer; closed : bool }.

Definition set_store (s : Store B) (c : Collector) : Collector :=
  {| store := s; cancelled := cancelled c; prune := prune c; stream := stream c; closed := closed c |}.
Definition set_prune (p : pruner) (c : Collector) : Collector :=
  {| store := store c; cancelled := cancelled c; prune := p; stream := stream c; closed := closed c |}.
Definition set_stream (p : streamer) (c : Collector) : Collector :=
  {| store := store c; cancelled := cancelled c; prune := prune c; stream := p; closed := closed c |}.
Definition cancel (c : Collector) : Collector :=
  {| store := store c; cancelled := true; prune := prune c; stream := stream c; closed := closed c |}.
Definition shut (c : Collector) : Collector :=
  {| store := store c; cancelled := cancelled c; prune := prune c; stream := stream c; closed := true |}.

Definition Start (s : Store B) : Collector :=
  {| store := s; cancelled := false; prune := PruneNext; stream := Ticking; closed := false |}.

(** An operation of the store *)
Definition exec_on (o : op) (c : Collector) : Collector := set_store (exec o (store c)).1 c.

(** After [Prune] *)
Definition pruned (r : result unit) : pruner := match r with Ok _ => PruneWaiting | Err e => PruneFailed e end.
(** After [Apply] in [receive]: an error ends the stream. *)
Definition applied (w : watch) (r : result unit) : streamer :=
  match r with Ok _ => Streaming w | Err e => Ended e w end.

Definition watch_of (p : streamer) : option watch :=
  match p with Streaming w | Got _ w | Applying _ w | Ended _ w => Some w | _ => None end.
Definition with_watch (w : watch) (p : streamer) : streamer :=
  match p with
  | Streaming _ => Streaming w | Got l _ => Got l w | Applying l _ => Applying l w | Ended e _ => Ended e w
  | _ => p
  end.

(** One step; its label lists the operations of the store it executes. *)
Inductive step (c : Collector) : list op → Collector → Prop :=
(* the goroutine that prunes *)
| step_prune now : prune c = PruneNext →
    step c [OpPrune now] (set_prune (pruned (Prune now (store c)).2) (exec_on (OpPrune now) c))
| step_prune_failed e : prune c = PruneFailed e →
    step c [OpRuntime false (Some e)] (set_prune PruneWaiting (exec_on (OpRuntime false (Some e)) c))
| step_prune_hour : prune c = PruneWaiting → step c [] (set_prune PruneNext c)
| step_prune_done : prune c = PruneWaiting → cancelled c = true → step c [] (set_prune PruneDone c)
(* the goroutine of the stream *)
| step_tick : stream c = Ticking → step c [] (set_stream Checking c)
| step_tick_done : stream c = Ticking → cancelled c = true → step c [] (set_stream StreamDone c)
| step_disabled now : stream c = Checking → Enabled now (store c) = false → step c [] (set_stream Disabled c)
| step_report_disabled : stream c = Disabled →
    step c [OpRuntime false None] (set_stream Ticking (exec_on (OpRuntime false None) c))
| step_subscribe now : stream c = Checking → Enabled now (store c) = true →
    step c [] (set_stream (Streaming {| watching := true; stopped := false |}) c)
| step_message m events w : stream c = Streaming w → fits m = true → readEvents m = Some events →
    step c [] (set_stream (Got events w) c)
| step_capturing events w : stream c = Got events w →
    step c [OpRuntime true None] (set_stream (Applying events w) (exec_on (OpRuntime true None) c))
| step_apply events w now : stream c = Applying events w → (zero_time ≤ now)%Z →
    step c [OpApply events now]
      (set_stream (applied w (Apply events now (store c)).2) (exec_on (OpApply events now) c))
| step_stream_error e w : stream c = Streaming w → step c [] (set_stream (Ended e w) c)
| step_stop e w : stream c = Ended e w → watching w = false → step c [] (set_stream (Reporting e) c)
| step_report_end e : stream c = Reporting e →
    step c [OpRuntime false (Some e)] (set_stream Resting (exec_on (OpRuntime false (Some e)) c))
| step_rested : stream c = Resting → step c [] (set_stream Ticking c)
| step_rest_done : stream c = Resting → cancelled c = true → step c [] (set_stream StreamDone c)
(* the goroutine that watches the lease of an open stream *)
| step_lease_over now w : watch_of (stream c) = Some w → watching w = true → Enabled now (store c) = false →
    step c [] (set_stream (with_watch {| watching := false; stopped := true |} (stream c)) c)
| step_watcher_done w : watch_of (stream c) = Some w → watching w = true →
    (stopped w = true ∨ cancelled c = true ∨ ∃ e, stream c = Ended e w) →
    step c [] (set_stream (with_watch {| watching := false; stopped := stopped w |} (stream c)) c)
(* the panel, and the end *)
| step_request o : closed c = false → op_ok o → match o with OpAck _ _ | OpConfigure _ _ => True | _ => False end →
    step c [o] (exec_on o c)
| step_cancel : step c [] (cancel c)
| step_close : cancelled c = true → prune c = PruneDone → stream c = StreamDone → step c [] (shut c).

Inductive steps : Collector → list op → Collector → Prop :=
| steps_nil c : steps c [] c
| steps_snoc c ops c1 o c2 : steps c ops c1 → step c1 o c2 → steps c (ops ++ o) c2.

(** The stream is open, or its end is not reported yet. *)
Definition open (p : streamer) : bool :=
  match p with Streaming _ | Got _ _ | Applying _ _ | Ended _ _ | Reporting _ => true | _ => false end.
End collector.
Arguments Collector : clear implicits.
End Collector.
