(* ===== verification/CollectorSpec.v ===== *)
(** * What the collector of the access audit guarantees

    [read_events_back]: a message of the core is read as the events that it was made of.
    [collector_sound]: whatever the goroutines and the panel do, in whatever order, the store
    keeps its invariant, and it claims to capture only while a stream is open. *)
From S2P Require Import Prelude GoStr GoTime GoNet Bolt StatName AccessAudit AuditSpec AuditDelivery Collector.
Import AccessAudit Collector.

(** ** Messages *)

(** The message that the core sends: a field with its default value is not set. *)
Definition put_int (n z : Z) : list (Z * value) := if (z =? 0)%Z then [] else [(n, VInt z)].
Definition put_string (n : Z) (s : string) : list (Z * value) := if bool_decide (s = "") then [] else [(n, VStr s)].

Definition connection_message (c : Connection) : message :=
  Message "Connection" (put_string 1 (c_ID c) ++ put_string 2 (c_Inbound c) ++ put_string 5 (c_Network c) ++
    put_string 7 (Destination c) ++ put_string 8 (c_Domain c) ++ put_string 9 (c_Protocol c) ++ put_string 10 (User c) ++
    put_int 12 (CreatedAt c) ++ put_int 13 (c_ClosedAt c) ++ put_int 16 (c_Upload c) ++ put_int 17 (c_Download c) ++
    put_string 20 (OutboundType c)).
Definition event_message (e : Event) : message :=
  Message "ConnectionEvent" (put_int 1 (Type_ e) ++ put_string 2 (e_ID e) ++
    match e_Connection e with Some c => [(3, VMsg (connection_message c))]%Z | None => [] end ++
    put_int 4 (UploadDelta e) ++ put_int 5 (DownloadDelta e) ++ put_int 6 (e_ClosedAt e)).
Definition events_message (l : list Event) : message :=
  Message "ConnectionEvents" (match l with [] => [] | _ => [(1, VList (event_message <$> l))]%Z end).

(** Looking a field up among others *)
Definition find_field (n : Z) (l : list (Z * value)) : option value :=
  match list_find (λ p, fst p = n) l with Some (_, (_, v)) => Some v | None => None end.

Lemma find_app n l1 l2 :
  find_field n (l1 ++ l2) = match find_field n l1 with Some v => Some v | None => find_field n l2 end.
Proof.
  unfold find_field. destruct (list_find (λ p, fst p = n) l1) as [[i [k v]]|] eqn:E1.
  - by rewrite (list_find_app_l _ _ _ _ _ E1).
  - rewrite (list_find_app_r _ _ _ E1). by destruct (list_find _ l2) as [[i [k v]]|].
Qed.
Lemma find_string_other n k s : n ≠ k → find_field n (put_string k s) = None.
Proof. intros H. unfold put_string, find_field. case_bool_decide; [done|]. cbn. by rewrite decide_False. Qed.
Lemma find_int_other n k z : n ≠ k → find_field n (put_int k z) = None.
Proof. intros H. unfold put_int, find_field. destruct (z =? 0)%Z; [done|]. cbn. by rewrite decide_False. Qed.
Lemma find_message_other n k m : n ≠ k → find_field n [(k, VMsg m)] = None.
Proof. intros H. unfold find_field. cbn. by rewrite decide_False. Qed.

Lemma get_found name l n i f : list_find (λ f, f_number f = n) (wire name) = Some (i, f) →
  get (Message name l) n = Some (default (default_value (f_kind f)) (find_field n l)).
Proof.
  intros E. unfold get, find_field. cbn [name_of set_of]. rewrite E. cbn [mbind option_bind snd].
  by destruct (list_find _ l) as [[j [k v]]|].
Qed.
Lemma string_found name l n i f s : list_find (λ f, f_number f = n) (wire name) = Some (i, f) → f_kind f = KStr →
  find_field n l = find_field n (put_string n s) → get_string (Message name l) n = Some s.
Proof.
  intros E K F. unfold get_string. rewrite (get_found _ _ _ _ _ E), F, K. unfold put_string, find_field.
  case_bool_decide; [by subst|]. cbn. by rewrite decide_True.
Qed.
Lemma int_found name l n i f z : list_find (λ f, f_number f = n) (wire name) = Some (i, f) → f_kind f = KInt →
  find_field n l = find_field n (put_int n z) → get_int (Message name l) n = Some z.
Proof.
  intros E K F. unfold get_int. rewrite (get_found _ _ _ _ _ E), F, K. unfold put_int, find_field.
  destruct (Z.eqb_spec z 0); [by subst|]. cbn. by rewrite decide_True.
Qed.

Lemma message_found name l n i f x : list_find (λ f, f_number f = n) (wire name) = Some (i, f) →
  find_field n l = find_field n [(n, VMsg x)] → get_message (Message name l) n = Some x.
Proof.
  intros E F. unfold get_message. rewrite (get_found _ _ _ _ _ E), F. unfold find_field. cbn. by rewrite decide_True.
Qed.

Lemma option_same {A} (o : option A) : match o with Some v => Some v | None => None end = o.
Proof. by destruct o. Qed.

(** The fields before and after the one that is read are passed over. *)
Ltac pass_over :=
  rewrite ?find_app; repeat match goal with
  | |- context [find_field ?n (put_string ?k ?s)] => rewrite (find_string_other n k s) by done
  | |- context [find_field ?n (put_int ?k ?z)] => rewrite (find_int_other n k z) by done
  | |- context [find_field ?n [(?k, VMsg ?m)]] => rewrite (find_message_other n k m) by done
  end.
Ltac passed := pass_over; cbv beta iota; first [reflexivity | apply option_same].
Ltac found := first
  [ erewrite string_found; [|vm_compute; reflexivity|reflexivity|passed]
  | erewrite int_found; [|vm_compute; reflexivity|reflexivity|passed] ]; cbn [mbind option_bind].

Lemma read_connection_back c : read_connection (connection_message c) = Some c.
Proof. unfold read_connection, connection_message. do 12 found. by destruct c. Qed.

Lemma is_set_found name l n : is_set n (Message name l) = match find_field n l with Some _ => true | None => false end.
Proof.
  unfold is_set, find_field. cbn [set_of]. induction l as [|[k v] l IH]; [done|]. cbn [existsb fst list_find].
  destruct (Z.eqb_spec k n) as [->|H]; [by rewrite decide_True|]. rewrite decide_False by done. cbn [orb]. rewrite IH.
  by destruct (list_find _ l) as [[i [k' v']]|].
Qed.

Lemma read_event_back e : read_event (event_message e) = Some e.
Proof.
  unfold read_event, event_message. destruct e as [type id connection up down closed];
    cbn [Type_ e_ID e_Connection UploadDelta DownloadDelta e_ClosedAt].
  destruct connection as [c|]; do 5 found; rewrite is_set_found; pass_over; [|done].
  erewrite message_found; [|vm_compute; reflexivity|passed]. cbn [mbind option_bind]. by rewrite read_connection_back.
Qed.

(** C38: a message of the stream is read as exactly the events that it was made of, in order, with
    every field under the number that the core gives it, whether or not it is set. *)
Theorem read_events_back events : readEvents (events_message events) = Some events.
Proof.
  assert (read_list (event_message <$> events) = Some events) as E.
  { induction events as [|e l IH]; [done|]. cbn [fmap list_fmap read_list]. rewrite read_event_back. cbn [mbind option_bind].
    by rewrite IH. }
  unfold readEvents, events_message. destruct events as [|e l]; [done|].
  unfold get_list. erewrite get_found; [|vm_compute; reflexivity]. exact E.
Qed.

(** What is read of a message fits when the message does. *)
Lemma fits_got m n v : fits m = true → get m n = Some v → fits_value v = true.
Proof.
  destruct m as [name l]. cbn [fits]. intros Hf E. unfold get in E. cbn [name_of set_of] in E.
  destruct (list_find _ (wire name)) as [[i f]|]; [|done]. cbn [mbind option_bind snd] in E.
  destruct (list_find _ l) as [[j [k x]]|] eqn:El; injection E as <-; [|by destruct (f_kind f)].
  apply list_find_Some in El as (El & _). apply list_elem_of_lookup_2 in El.
  rewrite forallb_elem_of in Hf. exact (Hf _ El).
Qed.
Lemma some_bind {A B} (o : option A) (f : A → option B) b : o ≫= f = Some b → ∃ a, o = Some a ∧ f a = Some b.
Proof. destruct o; [by eauto|done]. Qed.
Lemma fits_int m n z : fits m = true → get_int m n = Some z → (z < 2 ^ 63)%Z.
Proof.
  intros Hf ([] & Hv & E)%some_bind; try done. apply (fits_got _ _ _ Hf) in Hv. injection E as <-. cbn in Hv. lia.
Qed.

Ltac read_step E := let H := fresh "Hr" in apply some_bind in E as (? & H & E).

Lemma fits_event m e : fits m = true → read_event m = Some e → event_ok e.
Proof.
  unfold read_event. intros Hf E. do 6 read_step E. injection E as <-. unfold event_ok. cbn.
  destruct (is_set 3 m); [|by injection Hr4 as <-]. read_step Hr4. read_step Hr4. injection Hr4 as <-.
  apply some_bind in Hr5 as ([] & Hv & Hr5); try done. injection Hr5 as ->. apply (fits_got _ _ _ Hf) in Hv. cbn in Hv.
  unfold read_connection in Hr6. do 12 read_step Hr6. injection Hr6 as <-. cbn. eauto using fits_int.
Qed.

Lemma fits_events m events : fits m = true → readEvents m = Some events → Forall event_ok events.
Proof.
  unfold readEvents, get_list. intros Hf E. apply some_bind in E as (l & Hl & E).
  apply some_bind in Hl as ([] & Hv & Hl); try done. injection Hl as ->. apply (fits_got _ _ _ Hf) in Hv. cbn in Hv. revert events E. induction l as [|m' l IH]; intros events E.
  - injection E as <-. constructor.
  - cbn in Hv. apply andb_true_iff in Hv as [Hm Hl]. cbn [read_list] in E. read_step E. read_step E. injection E as <-.
    constructor; [by eapply fits_event|by apply IH].
Qed.

(** ** The goroutines *)
Section sound.
Context `{UnicodeCase} {B : Type} `{BucketOps B} `{!BucketLaws B}.
Context `{Codec Config} `{Codec (list Target)} `{Codec diskRecord} `{!RecordCodec}.
Context `{TxOps (DB B)} `{!TxLaws (DB B)}.
Implicit Types (c : Collector B) (s : Store B).

(** Events that wait to be applied are proper, and the store captures only while the stream is
    open; at the end both goroutines are gone. *)
Definition waiting (p : streamer) : list Event := match p with Got l _ | Applying l _ => l | _ => [] end.
Definition coherent c : Prop :=
  Forall event_ok (waiting (stream c)) ∧ (capturing (store c) = true → open (stream c) = true) ∧
  (closed c = true → prune c = PruneDone ∧ stream c = StreamDone).

Lemma run_snoc ops o s : run (ops ++ o) s = run o (run ops s).
Proof. revert s. induction ops as [|o' ops IH]; intros s; [done|apply IH]. Qed.

(** The operations that keep what the store says of the stream *)
Lemma exec_capturing o s : match o with OpRuntime _ _ => False | _ => True end →
  capturing (exec o s).1 = capturing s.
Proof.
  destruct o; intros Ho; cbn [exec]; try done.
  - unfold Apply. destruct (negb _); [done|]. unfold update. by destruct (tx_update _ _).
  - unfold Ack, update. by destruct (tx_update _ _).
  - unfold Prune, update. by destruct (tx_update _ _).
  - destruct (configure_cases c now s) as [[e ->]|(m & payload & _ & _ & _ & ->)]; done.
Qed.

Lemma step_coherent c o c' : coherent c → step c o c' →
  coherent c' ∧ store c' = run o (store c) ∧ Forall op_ok o.
Proof.
  intros (Hw & Hc & Hd) S.
  assert (∀ o, match o with OpRuntime _ _ => False | _ => True end → capturing (exec o (store c)).1 = true →
    open (stream c) = true) as Hkeep by (intros o' Ho; rewrite exec_capturing by done; exact Hc).
  destruct S.
  all: try match goal with E : watch_of (stream ?x) = Some _ |- _ => destruct (stream x) eqn:?; try discriminate E end.
  all: repeat match goal with E : prune _ = _ |- _ => rewrite E in Hd; revert E | E : stream _ = _ |- _ => rewrite E in Hw, Hc, Hkeep, Hd; revert E end; intros.
  all: split; [unfold coherent; split_and!|split; [reflexivity|]].
  all: cbn [set_prune set_stream set_store exec_on cancel shut store cancelled prune stream closed waiting open with_watch].
  all: try solve [repeat constructor; done|done|by apply Hkeep|intros Hcl; by destruct (Hd Hcl)].
  all: try (destruct (Apply _ _ _).2; cbn [applied waiting open]; constructor || done).
  - by apply (fits_events m).
  - intros Hcap. apply (Hkeep o); [by destruct o|done].
  - match goal with E : stream c = _ |- _ => by rewrite E end.
  - match goal with E : stream c = _ |- _ => by rewrite E end.
Qed.

(** C37: in every interleaving of the goroutines of the collector with each other and with the
    requests of the panel, from a new file, the store went through a sequence of its operations,
    so it keeps the invariant and the limits of the audit; it claims to capture only while a
    stream is open; and once it is closed, nothing changes it. *)
Theorem collector_sound random max s0 ops c :
  Open random None max = Ok s0 → (max ≤ 2 ^ 62)%Z → steps (Start s0) ops c →
  (sum_Z (op_events <$> ops) < 2 ^ 64)%Z →
  store c = run ops s0 ∧ (∃ a, store_wf a (store c)) ∧
  (capturing (store c) = true → open (stream c) = true) ∧
  (closed c = true → ∀ o c', step c o c' → store c' = store c ∧ closed c' = true).
Proof.
  intros Ho Hmax S Hsum. destruct (open_wf _ _ _ Ho) as (Hwf & Hs & Hm).
  assert (coherent c ∧ store c = run ops s0 ∧ Forall op_ok ops) as (Hc & E & Hok).
  { remember (Start s0) as start eqn:Est. clear Hsum. induction S as [c|c ops c1 o c2 _ IH S]; subst.
    - split; [|by split]. split_and!; [constructor| |done]. cbn.
      unfold Open in Ho. destruct (tx_update _ _) as [d r]. bind_as Ho u Hu. bind_as Ho cfg Hcfg. by injection Ho as <-.
    - destruct (IH eq_refl) as (Hc & E & Hok). destruct (step_coherent _ _ _ Hc S) as (Hc' & E' & Hok').
      split; [done|]. split; [by rewrite E', run_snoc, E|by apply Forall_app]. }
  split; [exact E|]. split; [|split].
  - destruct (run_wf ops 0 s0 Hwf Hok) as (a & _ & Hwf' & _); [lia| |exists a; by rewrite E].
    rewrite Hm. destruct (Z.leb_spec max 0); lia.
  - apply Hc.
  - intros Hcl o c' St. destruct Hc as (_ & _ & Hd). destruct (Hd Hcl) as [Hp Hst].
    destruct St; try congruence; try done; cbn; rewrite ?Hst in *; try done; by split.
Qed.
End sound.

(** ** The theorem at work *)
Module CollectorDemo.
Import Mem AuditDemo.

Definition w0 : watch := {| watching := true; stopped := false |}.
Definition started : Collector bucket := Start s0.
Definition leased : Collector bucket := exec_on (OpConfigure policy (unix 1000)) started.
Definition subscribed : Collector bucket := set_stream (Streaming w0) (set_stream Checking leased).
Definition told : Collector bucket :=
  set_stream (Applying [opened; more] w0) (exec_on (OpRuntime true None) (set_stream (Got [opened; more] w0) subscribed)).
Definition fed : Collector bucket :=
  set_stream (applied w0 (Apply [opened; more] (unix 1001) (store told)).2) (exec_on (OpApply [opened; more] (unix 1001)) told).

(** The collector of an enabled policy receives a message with two events and applies it. *)
Lemma fed_steps :
  steps started [OpConfigure policy (unix 1000); OpRuntime true None; OpApply [opened; more] (unix 1001)] fed.
Proof.
  apply (steps_snoc started [OpConfigure policy (unix 1000); OpRuntime true None] told [_]).
  2:{ by apply step_apply. }
  apply (steps_snoc started [OpConfigure policy (unix 1000)] (set_stream (Got [opened; more] w0) subscribed) [_]).
  2:{ by apply (step_capturing _ [opened; more] w0). }
  apply (steps_snoc started [OpConfigure policy (unix 1000)] subscribed []).
  2:{ apply (step_message _ (events_message [opened; more])); [reflexivity|vm_compute; reflexivity|vm_compute; reflexivity]. }
  apply (steps_snoc started [OpConfigure policy (unix 1000)] (set_stream Checking leased) []).
  2:{ apply (step_subscribe _ (unix 1000)); [reflexivity|vm_compute; reflexivity]. }
  apply (steps_snoc started [OpConfigure policy (unix 1000)] leased []); [|by apply step_tick].
  apply (steps_snoc started [] started [_]); [apply steps_nil|by apply step_request].
Qed.

Lemma collector_sound_witness :
  capturing (store fed) = true ∧ (∃ a, store_wf a (store fed)) ∧ open (stream fed) = true.
Proof.
  destruct (collector_sound (Ok "seed") 0 s0 _ fed opened0 ltac:(done) fed_steps ltac:(done)) as (_ & Hwf & Hc & _).
  assert (capturing (store fed) = true) as E by (vm_compute; reflexivity).
  split; [exact E|]. split; [exact Hwf|exact (Hc E)].
Defined.
End CollectorDemo.
