(* ===== verification/RuntimeState.v ===== *)
(** * The runtime state: package [internal/state]

    [Runtime] is the shared state of the agent: the sing-box configuration, the
    running core, the hashes of the last start, the index of inbound users, seen
    and blocked IPs and the plugin state.  Every method locks the whole state, so
    each is one definition on the record. *)
From S2P Require Import Prelude GoStr GoTime GoAny GoSort StatName.

Module RuntimeState.

Definition CoreTypeSingBox : string := "SING_BOX".

Record InboundHash := { Tag : string; Hash : string; UsersCount : Z }.
Record StartHashes := { EmptyConfig : string; Inbounds : list InboundHash }.
Record InboundUser := { UserID : string; Protocol : string; iu_Tag : string }.
Record SeenIP := { IP : string; LastSeen : time }.
Record PluginMeta := { UUID : string; Name : string }.

Record DomainResolution := {
  Domain : string; Addresses : list string; dr_LastAttemptAt : option time;
  LastSuccessAt : option time; FailureCount : Z; dr_LastError : string; Stale : bool }.

Record PluginState := {
  ConfigHash_ : string; ActivePlugin : option PluginMeta; AppliedAt : option time;
  LastAttemptAt : option time; LastError : string;
  DomainResolutions : gmap string DomainResolution; IngressBlocked : list string;
  EgressBlockedBaseIPs : list string; EgressBlockedIPs : list string;
  EgressBlockedDomains : list string; EgressBlockedPorts : list Z }.

Record Runtime := {
  singBoxConfig : object; running : string; nodeVer : string; singBoxVersion : option string;
  singBoxOnline : bool; lastHashes : StartHashes; hashesDirty : bool;
  inboundUsers : gmap string (list InboundUser); inboundKinds : gmap string string;
  userIPs : gmap string (list SeenIP); blockedIPs : gmap string time; plugin : PluginState }.

#[export] Instance DomainResolution_eq_dec : EqDecision DomainResolution.
Proof. solve_decision. Defined.
#[export] Instance PluginMeta_eq_dec : EqDecision PluginMeta.
Proof. solve_decision. Defined.
#[export] Instance PluginState_eq_dec : EqDecision PluginState.
Proof. solve_decision. Defined.

Definition emptyPlugin : PluginState :=
  {| ConfigHash_ := ""; ActivePlugin := None; AppliedAt := None; LastAttemptAt := None;
     LastError := ""; DomainResolutions := ∅; IngressBlocked := []; EgressBlockedBaseIPs := [];
     EgressBlockedIPs := []; EgressBlockedDomains := []; EgressBlockedPorts := [] |}.

Definition New (nodeVersion : string) : Runtime :=
  {| singBoxConfig := ∅; running := ""; nodeVer := nodeVersion; singBoxVersion := None;
     singBoxOnline := false; lastHashes := {| EmptyConfig := ""; Inbounds := [] |};
     hashesDirty := false; inboundUsers := ∅; inboundKinds := ∅; userIPs := ∅; blockedIPs := ∅;
     plugin := emptyPlugin |}.

Definition asString (v : any) : string := stringValue v.
Definition asObjectSlice (v : any) : list object := asMapSlice v.

Definition normalizeSingBoxType (value : string) : string :=
  if equal_fold value "hysteria2" || equal_fold value "hy2" then "hysteria2" else value.

(** ** The index of inbound users *)

Definition index : Type := gmap string (list InboundUser) * gmap string string.

Definition user_entry (tag protocol : string) (user : object) : option InboundUser :=
  let userID := firstNonEmpty [asString (field user "name"); asString (field user "email")] in
  if bool_decide (userID = "") then None
  else Some {| UserID := StatName.UserID userID; Protocol := protocol; iu_Tag := tag |}.

Definition index_user (tag protocol : string) (target : gmap string (list InboundUser)) (user : object)
    : gmap string (list InboundUser) :=
  match user_entry tag protocol user with
  | None => target
  | Some u => <[tag := default [] (target !! tag) ++ [u]]> target
  end.

Definition index_inbound (acc : index) (inbound : object) : index :=
  let tag := asString (field inbound "tag") in
  let protocol := normalizeSingBoxType (asString (field inbound "type")) in
  if bool_decide (tag = "") || bool_decide (protocol = "") then acc
  else (foldl (index_user tag protocol) acc.1 (asObjectSlice (field inbound "users")),
        <[tag := protocol]> acc.2).

Definition extractSingBoxInbounds (config : object) (acc : index) : index :=
  foldl index_inbound acc (asObjectSlice (field config "inbounds")).

Definition set_index (r : Runtime) (i : index) : Runtime :=
  {| singBoxConfig := singBoxConfig r; running := running r; nodeVer := nodeVer r;
     singBoxVersion := singBoxVersion r; singBoxOnline := singBoxOnline r;
     lastHashes := lastHashes r; hashesDirty := hashesDirty r; inboundUsers := i.1;
     inboundKinds := i.2; userIPs := userIPs r; blockedIPs := blockedIPs r; plugin := plugin r |}.

Definition reindexLocked (config : object) (r : Runtime) : Runtime :=
  set_index r (extractSingBoxInbounds config (∅, ∅)).

(** ** Configuration and core *)

Definition SingBoxConfig (r : Runtime) : object := cloneMap (singBoxConfig r).
Definition CurrentConfig (r : Runtime) : object := cloneMap (singBoxConfig r).

Definition set_config (c : object) (r : Runtime) : Runtime :=
  {| singBoxConfig := c; running := running r; nodeVer := nodeVer r;
     singBoxVersion := singBoxVersion r; singBoxOnline := singBoxOnline r;
     lastHashes := lastHashes r; hashesDirty := hashesDirty r; inboundUsers := inboundUsers r;
     inboundKinds := inboundKinds r; userIPs := userIPs r; blockedIPs := blockedIPs r;
     plugin := plugin r |}.

Definition SetSingBoxConfig (config : object) (r : Runtime) : Runtime :=
  let r := set_config (cloneMap config) r in
  if bool_decide (running r = CoreTypeSingBox) then reindexLocked (singBoxConfig r) r else r.

Definition set_running (core : string) (r : Runtime) : Runtime :=
  {| singBoxConfig := singBoxConfig r; running := core; nodeVer := nodeVer r;
     singBoxVersion := singBoxVersion r; singBoxOnline := singBoxOnline r;
     lastHashes := lastHashes r; hashesDirty := hashesDirty r; inboundUsers := inboundUsers r;
     inboundKinds := inboundKinds r; userIPs := userIPs r; blockedIPs := blockedIPs r;
     plugin := plugin r |}.

Definition SetRunningCore (core : string) (r : Runtime) : Runtime :=
  let r := set_running core r in
  if bool_decide (core = CoreTypeSingBox) then reindexLocked (singBoxConfig r) r
  else set_index r (∅, ∅).

Definition RunningCore (r : Runtime) : string := running r.
Definition RunningCoreType (r : Runtime) : string := running r.
Definition NodeVersion (r : Runtime) : string := nodeVer r.

Definition SetCoreVersion (v : option string) (r : Runtime) : Runtime :=
  {| singBoxConfig := singBoxConfig r; running := running r; nodeVer := nodeVer r;
     singBoxVersion := v; singBoxOnline := singBoxOnline r;
     lastHashes := lastHashes r; hashesDirty := hashesDirty r; inboundUsers := inboundUsers r;
     inboundKinds := inboundKinds r; userIPs := userIPs r; blockedIPs := blockedIPs r;
     plugin := plugin r |}.
Definition CoreVersion (r : Runtime) : option string := singBoxVersion r.

Definition SetOnlineStatus (online : bool) (r : Runtime) : Runtime :=
  {| singBoxConfig := singBoxConfig r; running := running r; nodeVer := nodeVer r;
     singBoxVersion := singBoxVersion r; singBoxOnline := online;
     lastHashes := lastHashes r; hashesDirty := hashesDirty r; inboundUsers := inboundUsers r;
     inboundKinds := inboundKinds r; userIPs := userIPs r; blockedIPs := blockedIPs r;
     plugin := plugin r |}.
Definition OnlineStatus (r : Runtime) : bool := singBoxOnline r.

(** ** Hashes of the last start *)

Definition set_hashes (h : StartHashes) (dirty : bool) (r : Runtime) : Runtime :=
  {| singBoxConfig := singBoxConfig r; running := running r; nodeVer := nodeVer r;
     singBoxVersion := singBoxVersion r; singBoxOnline := singBoxOnline r;
     lastHashes := h; hashesDirty := dirty; inboundUsers := inboundUsers r;
     inboundKinds := inboundKinds r; userIPs := userIPs r; blockedIPs := blockedIPs r;
     plugin := plugin r |}.

Definition SetLastHashes (h : StartHashes) (r : Runtime) : Runtime := set_hashes h false r.
Definition LastHashes (r : Runtime) : StartHashes := lastHashes r.
Definition MarkHashesDirty (r : Runtime) : Runtime := set_hashes (lastHashes r) true r.

Definition hash_index (l : list InboundHash) : gmap string InboundHash :=
  foldl (λ m item, <[Tag item := item]> m) ∅ l.

Definition same_hash (current : gmap string InboundHash) (item : InboundHash) : bool :=
  match current !! Tag item with
  | Some existing => bool_decide (Hash existing = Hash item) && (UsersCount existing =? UsersCount item)%Z
  | None => false
  end.

Definition ShouldRestart (incoming : StartHashes) (r : Runtime) : bool :=
  if hashesDirty r then true
  else if bool_decide (EmptyConfig (lastHashes r) = "") then true
  else if negb (bool_decide (EmptyConfig (lastHashes r) = EmptyConfig incoming)) then true
  else if negb (Nat.eqb (length (Inbounds (lastHashes r))) (length (Inbounds incoming))) then true
  else negb (forallb (same_hash (hash_index (Inbounds (lastHashes r)))) (Inbounds incoming)).

(** ** Users and addresses *)

Definition InboundUsers (tag : string) (r : Runtime) : list InboundUser :=
  default [] (inboundUsers r !! tag).
Definition InboundUsersMap (r : Runtime) : gmap string (list InboundUser) := inboundUsers r.
Definition InboundProtocol (tag : string) (r : Runtime) : string := default "" (inboundKinds r !! tag).

Definition set_ips (u : gmap string (list SeenIP)) (b : gmap string time) (r : Runtime) : Runtime :=
  {| singBoxConfig := singBoxConfig r; running := running r; nodeVer := nodeVer r;
     singBoxVersion := singBoxVersion r; singBoxOnline := singBoxOnline r;
     lastHashes := lastHashes r; hashesDirty := hashesDirty r; inboundUsers := inboundUsers r;
     inboundKinds := inboundKinds r; userIPs := u; blockedIPs := b; plugin := plugin r |}.

Definition RecordUserIP `{SortSlice} (userID ip : string) (seenAt : time) (r : Runtime) : Runtime :=
  let filtered := filter (λ item, IP item ≠ ip) (default [] (userIPs r !! userID)) in
  let filtered := filtered ++ [{| IP := ip; LastSeen := seenAt |}] in
  let filtered := sort_slice (λ x y, after (LastSeen x) (LastSeen y)) filtered in
  set_ips (<[userID := filtered]> (userIPs r)) (blockedIPs r) r.

Definition UserIPs (userID : string) (r : Runtime) : list SeenIP := default [] (userIPs r !! userID).
Definition AllUserIPs (r : Runtime) : gmap string (list SeenIP) := userIPs r.

Definition SetBlockedIP (ip : string) (until : time) (r : Runtime) : Runtime :=
  set_ips (userIPs r) (<[ip := until]> (blockedIPs r)) r.
Definition DeleteBlockedIP (ip : string) (r : Runtime) : Runtime :=
  set_ips (userIPs r) (delete ip (blockedIPs r)) r.
Definition BlockedIPs (r : Runtime) : gmap string time := blockedIPs r.

(** ** Plugin state: copied in and out *)

Definition PluginState_ (r : Runtime) : PluginState := plugin r.
Definition SetPluginState (p : PluginState) (r : Runtime) : Runtime :=
  {| singBoxConfig := singBoxConfig r; running := running r; nodeVer := nodeVer r;
     singBoxVersion := singBoxVersion r; singBoxOnline := singBoxOnline r;
     lastHashes := lastHashes r; hashesDirty := hashesDirty r; inboundUsers := inboundUsers r;
     inboundKinds := inboundKinds r; userIPs := userIPs r; blockedIPs := blockedIPs r; plugin := p |}.

Definition Reset (r : Runtime) : Runtime :=
  {| singBoxConfig := singBoxConfig r; running := ""; nodeVer := nodeVer r;
     singBoxVersion := singBoxVersion r; singBoxOnline := false;
     lastHashes := lastHashes r; hashesDirty := hashesDirty r; inboundUsers := ∅;
     inboundKinds := ∅; userIPs := ∅; blockedIPs := blockedIPs r; plugin := plugin r |}.

End RuntimeState.
