(* ===== verification/RuntimeSpec.v ===== *)
(** * What the runtime state guarantees

    A start request is skipped only when nothing changed ([should_restart_exact]),
    the user index always describes the current configuration of the running core
    ([index_current]), and the addresses of a user are unique and most recent first
    ([record_user_ip_sorted]). *)
From S2P Require Import Prelude GoStr GoTime GoAny GoSort StatName RuntimeState.
Import RuntimeState.

(** ** Hashes *)

Lemma hash_index_lookup l tag item :
  NoDup (Tag <$> l) → hash_index l !! tag = Some item ↔ item ∈ l ∧ Tag item = tag.
Proof.
  unfold hash_index. intros Hnd.
  assert (∀ m : gmap string InboundHash, foldl (λ m item, <[Tag item := item]> m) m l !! tag = Some item ↔
    (item ∈ l ∧ Tag item = tag) ∨ (¬ tag ∈ (Tag <$> l) ∧ m !! tag = Some item)) as Hgen.
  { induction l as [|i l IH]; intros m; cbn [foldl].
    - cbn. set_solver.
    - cbn in Hnd |- *. apply NoDup_cons in Hnd as [Hnin Hnd]. rewrite IH by done.
      rewrite lookup_insert, elem_of_cons, not_elem_of_cons. case_decide as Ht; [subst tag|].
      + split.
        * intros [[Hin Ht]|[Hn [= ->]]]; [left; auto|by left; auto].
        * intros [[[->|Hin] Ht]|[[? _] _]]; [by right|by left|done].
      + split.
        * intros [[Hin Ht']|[Hn Hm]]; [by left; auto|right; auto].
        * intros [[[->|Hin] Ht']|[[_ Hn] Hm]]; [done|by left|by right]. }
  rewrite Hgen, lookup_empty. naive_solver.
Qed.

Lemma same_hash_in l item :
  NoDup (Tag <$> l) → same_hash (hash_index l) item = true ↔ item ∈ l.
Proof.
  intros Hnd. unfold same_hash. split.
  - destruct (hash_index l !! Tag item) as [e|] eqn:E; [|done].
    apply hash_index_lookup in E as [Hin Ht]; [|done].
    intros [Hh%bool_decide_eq_true Hu%Z.eqb_eq]%andb_true_iff.
    assert (e = item) as <-; [|done]. destruct e, item; cbn in *; congruence.
  - intros Hin. assert (hash_index l !! Tag item = Some item) as -> by by apply hash_index_lookup.
    by rewrite bool_decide_eq_true_2, Z.eqb_refl.
Qed.

(** What a start request and the last start have in common when nothing changed. *)
Definition same_start (last incoming : StartHashes) : Prop :=
  EmptyConfig last ≠ "" ∧ EmptyConfig last = EmptyConfig incoming ∧ Inbounds last ≡ₚ Inbounds incoming.

(** C23: with distinct inbound tags on both sides, the agent keeps the running core
    exactly when the hashes are not marked dirty, the base configuration has the
    same non-empty hash, and the two sides list the same inbounds with the same
    hashes and user counts, in any order. *)
Theorem should_restart_exact incoming r :
  NoDup (Tag <$> Inbounds (lastHashes r)) → NoDup (Tag <$> Inbounds incoming) →
  ShouldRestart incoming r = false ↔
  hashesDirty r = false ∧ same_start (lastHashes r) incoming.
Proof.
  intros H1 H2. unfold same_start, ShouldRestart. destruct (hashesDirty r); [naive_solver|].
  case_bool_decide as He; [naive_solver|]. case_bool_decide as Heq; cbn [negb]; [|naive_solver].
  destruct (Nat.eqb_spec (length (Inbounds (lastHashes r))) (length (Inbounds incoming))) as [Hl|Hl]; cbn [negb].
  2:{ split; [done|]. intros (_ & _ & _ & Hp). by rewrite Hp in Hl. }
  rewrite negb_false_iff, forallb_elem_of. setoid_rewrite same_hash_in; [|done].
  assert (∀ l, NoDup (Tag <$> l) → NoDup l) as Hnd by (intros l; apply NoDup_fmap_1).
  split.
  - intros Hin. split_and!; try done. symmetry. apply Permutation_sym.
    symmetry. apply submseteq_length_Permutation; [|lia].
    apply NoDup_submseteq; [by apply Hnd|done].
  - intros (_ & _ & _ & Hp) x Hx. by rewrite Hp.
Qed.

(** ** The index *)

(** The users of an inbound tag in a configuration, in order. *)
Definition inbound_protocol (inbound : object) : string :=
  normalizeSingBoxType (asString (field inbound "type")).
Definition users_of (tag : string) (inbounds : list object) : list InboundUser :=
  mjoin ((λ inbound,
    if bool_decide (asString (field inbound "tag") = tag) && negb (bool_decide (inbound_protocol inbound = ""))
    then omap (user_entry tag (inbound_protocol inbound)) (asObjectSlice (field inbound "users"))
    else []) <$> inbounds).

Lemma index_users_of tag protocol users target tag' :
  default [] (foldl (index_user tag protocol) target users !! tag') =
  default [] (target !! tag') ++ if decide (tag = tag') then omap (user_entry tag protocol) users else [].
Proof.
  revert target. induction users as [|u users IH]; intros target; cbn [foldl].
  { cbn. case_decide; by rewrite app_nil_r. }
  rewrite IH. unfold index_user. cbn. destruct (user_entry tag protocol u) as [e|]; [|done].
  rewrite lookup_insert. case_decide as Ht; [subst tag'|done]. cbn. by rewrite <-app_assoc.
Qed.

Lemma extract_users inbounds acc tag :
  tag ≠ "" →
  default [] ((foldl index_inbound acc inbounds).1 !! tag) =
  default [] (acc.1 !! tag) ++ users_of tag inbounds.
Proof.
  intros Htag. revert acc. induction inbounds as [|i inbounds IH]; intros acc; cbn [foldl].
  { unfold users_of. cbn. by rewrite app_nil_r. }
  rewrite IH. unfold users_of. cbn [fmap list_fmap mjoin list_join].
  fold (users_of tag inbounds). rewrite app_assoc. f_equal. unfold index_inbound.
  fold (inbound_protocol i). set (t := asString (field i "tag")).
  repeat case_bool_decide; cbn [orb negb andb]; subst; try done;
    rewrite ?app_nil_r; try done; cbn [fst]; rewrite index_users_of.
  - by rewrite decide_True.
  - by rewrite decide_False, app_nil_r.
Qed.

(** The index agrees with the configuration of the running core. *)
Definition indexed (r : Runtime) : Prop :=
  (inboundUsers r, inboundKinds r) =
  if decide (running r = CoreTypeSingBox) then extractSingBoxInbounds (singBoxConfig r) (∅, ∅) else (∅, ∅).

Inductive op :=
| OpSetSingBoxConfig (config : object)
| OpSetRunningCore (core : string)
| OpSetCoreVersion (v : option string)
| OpSetOnlineStatus (online : bool)
| OpSetLastHashes (h : StartHashes)
| OpMarkHashesDirty
| OpRecordUserIP (userID ip : string) (seenAt : time)
| OpSetBlockedIP (ip : string) (until : time)
| OpDeleteBlockedIP (ip : string)
| OpSetPluginState (p : PluginState)
| OpReset.

Section ops.
Context `{SortSlice}.

Definition exec (o : op) (r : Runtime) : Runtime :=
  match o with
  | OpSetSingBoxConfig c => SetSingBoxConfig c r
  | OpSetRunningCore c => SetRunningCore c r
  | OpSetCoreVersion v => SetCoreVersion v r
  | OpSetOnlineStatus b => SetOnlineStatus b r
  | OpSetLastHashes h => SetLastHashes h r
  | OpMarkHashesDirty => MarkHashesDirty r
  | OpRecordUserIP u ip t => RecordUserIP u ip t r
  | OpSetBlockedIP ip t => SetBlockedIP ip t r
  | OpDeleteBlockedIP ip => DeleteBlockedIP ip r
  | OpSetPluginState p => SetPluginState p r
  | OpReset => Reset r
  end.

Lemma exec_indexed o r : indexed r → indexed (exec o r).
Proof.
  unfold indexed. intros Hi. destruct o; cbn; try exact Hi.
  - unfold SetSingBoxConfig. cbn. case_bool_decide as Hr; cbn.
    + rewrite decide_True by done. by rewrite <-surjective_pairing.
    + by rewrite decide_False in Hi |- * by done.
  - unfold SetRunningCore. case_bool_decide as Hr; cbn.
    + rewrite decide_True by done. by rewrite <-surjective_pairing.
    + by rewrite decide_False.
  - done.
Qed.

(** What every reachable state satisfies: the index is current and the stored
    configuration is a JSON document. *)
Definition sound (r : Runtime) : Prop := indexed r ∧ clean_object (singBoxConfig r).

Lemma exec_sound o r : sound r → sound (exec o r).
Proof.
  intros [Hi Hc]. split; [by apply exec_indexed|].
  destruct o as [c|c|v|b|h| |u ip t|ip t|ip|p|]; cbn [exec]; try exact Hc.
  - unfold SetSingBoxConfig. case_bool_decide; apply cloneMap_clean.
  - unfold SetRunningCore. case_bool_decide; exact Hc.
Qed.

Lemma New_sound version : sound (New version).
Proof. split; [done|]. intros k x Hx. cbn in Hx. by rewrite lookup_empty in Hx. Qed.

Lemma run_sound ops version : sound (foldl (λ r o, exec o r) (New version) ops).
Proof.
  assert (∀ r, sound r → sound (foldl (λ r o, exec o r) r ops)) as Hgen; [|apply Hgen, New_sound].
  induction ops as [|o ops IH]; intros r Hr; [done|]. apply IH. by apply exec_sound.
Qed.

Lemma indexed_users r tag :
  indexed r → tag ≠ "" →
  InboundUsers tag r =
    if decide (RunningCore r = CoreTypeSingBox)
    then users_of tag (asObjectSlice (field (singBoxConfig r) "inbounds")) else [].
Proof.
  unfold indexed, InboundUsers, RunningCore. intros Hi Htag. destruct (decide _) as [Hr|Hr].
  - rewrite (surjective_pairing (extractSingBoxInbounds _ _)) in Hi. injection Hi as -> _.
    unfold extractSingBoxInbounds. rewrite extract_users by done. cbn. by rewrite lookup_empty.
  - injection Hi as -> _. by rewrite lookup_empty.
Qed.

(** whatever the sequence of updates, while sing-box runs the users the agent
    reports for an inbound tag are exactly those of the current configuration, in
    order, under their panel user ids; without a running core there are none. *)
Theorem index_current ops version tag :
  tag ≠ "" →
  let r := foldl (λ r o, exec o r) (New version) ops in
  InboundUsers tag r =
    if decide (RunningCore r = CoreTypeSingBox)
    then users_of tag (asObjectSlice (field (singBoxConfig r) "inbounds")) else [].
Proof. intros Htag r. apply indexed_users; [apply run_sound|done]. Qed.

Context `{!SortSliceLaws}.

Lemma after_transitive : Transitive (not_less (λ x y : SeenIP, after (LastSeen x) (LastSeen y))).
Proof. intros x y z. unfold not_less, after. rewrite !Z.ltb_ge. lia. Qed.
Lemma after_total : Total (not_less (λ x y : SeenIP, after (LastSeen x) (LastSeen y))).
Proof. intros x y. unfold not_less, after. rewrite !Z.ltb_ge. lia. Qed.

Definition ips_ok (r : Runtime) : Prop :=
  ∀ userID, NoDup (IP <$> UserIPs userID r) ∧
    StronglySorted (λ x y, (LastSeen y ≤ LastSeen x)%Z) (UserIPs userID r).

Lemma record_ips userID ip seenAt r :
  UserIPs userID (RecordUserIP userID ip seenAt r) ≡ₚ
  {| IP := ip; LastSeen := seenAt |} :: filter (λ item, IP item ≠ ip) (UserIPs userID r).
Proof.
  unfold RecordUserIP, UserIPs. cbn. rewrite lookup_insert_eq. cbn. rewrite law_sort_perm.
  by rewrite Permutation_app_comm.
Qed.

Lemma record_ips_ok userID ip seenAt r : ips_ok r → ips_ok (RecordUserIP userID ip seenAt r).
Proof.
  intros Hok u. destruct (decide (u = userID)) as [->|Hne].
  - split.
    + rewrite (fmap_Permutation IP _ _ (record_ips _ _ _ _)). cbn. constructor.
      * intros (x & Hx & Hin)%list_elem_of_fmap. apply list_elem_of_filter in Hin as [Hn _]. by destruct Hn.
      * apply NoDup_fmap_filter, Hok.
    + unfold RecordUserIP, UserIPs. cbn. rewrite lookup_insert_eq. cbn.
      eapply StronglySorted_impl; [|apply law_sort_sorted; [apply after_transitive|apply after_total]].
      intros x y. unfold not_less, after. by rewrite Z.ltb_ge.
  - unfold UserIPs, RecordUserIP. cbn. rewrite lookup_insert_ne by done. apply Hok.
Qed.

Lemma exec_ips_ok o r : ips_ok r → ips_ok (exec o r).
Proof.
  intros Hok. destruct o as [c|c|v|b|h| |u ip t|ip t|ip|p|]; cbn [exec]; try exact Hok.
  - intros u. unfold SetSingBoxConfig. case_bool_decide; apply Hok.
  - intros u. unfold SetRunningCore. case_bool_decide; apply Hok.
  - by apply record_ips_ok.
  - intros u. split; constructor.
Qed.

(** whatever the sequence of updates, a user's addresses are listed once each,
    most recently seen first; recording an address puts exactly that one in, with
    its new time, and keeps all others. *)
Theorem record_user_ip_sorted ops version userID ip seenAt :
  let r := foldl (λ r o, exec o r) (New version) ops in
  let r' := RecordUserIP userID ip seenAt r in
  ips_ok r' ∧
  (∀ x, x ∈ UserIPs userID r' ↔
    x = {| IP := ip; LastSeen := seenAt |} ∨ x ∈ UserIPs userID r ∧ IP x ≠ ip) ∧
  (∀ other, other ≠ userID → UserIPs other r' = UserIPs other r).
Proof.
  intros r r'. split_and!.
  - apply record_ips_ok. unfold r. assert (∀ r0, ips_ok r0 → ips_ok (foldl (λ r o, exec o r) r0 ops)) as Hgen.
    { induction ops as [|o ops IH]; intros r0 Hr; [done|]. apply IH. by apply exec_ips_ok. }
    apply Hgen. intros u. split; constructor.
  - intros x. unfold r'. rewrite record_ips, elem_of_cons, list_elem_of_filter. naive_solver.
  - intros other Hne. unfold r', UserIPs, RecordUserIP. cbn. by rewrite lookup_insert_ne.
Qed.
End ops.

(** ** The theorems at work *)

Definition hashes (l : list InboundHash) : StartHashes := {| EmptyConfig := "e"; Inbounds := l |}.
Definition ih (t h : string) : InboundHash := {| Tag := t; Hash := h; UsersCount := 1 |}.

Lemma should_restart_exact_witness :
  ShouldRestart (hashes [ih "a" "1"; ih "b" "2"])
    (SetLastHashes (hashes [ih "b" "2"; ih "a" "1"]) (New "1.0")) = false.
Proof.
  apply should_restart_exact.
  - vm_compute. repeat constructor; set_solver.
  - vm_compute. repeat constructor; set_solver.
  - split; [done|]. split_and!; try done. apply perm_swap.
Defined.

Lemma index_current_witness :
  let user : object := {["name" := AStr "7.rwib.aW4"]} in
  let inbound : object :=
    <["tag" := AStr "in"]> (<["type" := AStr "hy2"]> {["users" := AArr [AObj user]]}) in
  let config : object := {["inbounds" := AArr [AObj inbound]]} in
  let r := foldl (λ r o, exec (H := Merge.sort) o r) (New "1.0")
    [OpSetSingBoxConfig config; OpSetRunningCore "SING_BOX"] in
  InboundUsers "in" r = [{| UserID := "7"; Protocol := "hysteria2"; iu_Tag := "in" |}].
Proof.
  intros user inbound config r. etransitivity.
  - apply (index_current (H := Merge.sort)
      [OpSetSingBoxConfig config; OpSetRunningCore "SING_BOX"] "1.0" "in"). done.
  - vm_compute. reflexivity.
Defined.

Lemma record_user_ip_sorted_witness :
  UserIPs "7" (foldl (λ r o, exec (H := Merge.sort) o r) (New "1.0")
    [OpRecordUserIP "7" "192.0.2.1" 5%Z; OpRecordUserIP "7" "192.0.2.2" 9%Z; OpRecordUserIP "7" "192.0.2.1" 7%Z]) =
  [{| IP := "192.0.2.2"; LastSeen := 9%Z |}; {| IP := "192.0.2.1"; LastSeen := 7%Z |}] ∧
  ips_ok (RecordUserIP (H := Merge.sort) "7" "192.0.2.1" 7%Z (New "1.0")).
Proof.
  split; [vm_compute; reflexivity|].
  exact (proj1 (record_user_ip_sorted (H := Merge.sort) (H0 := Merge.sort_laws) [] "1.0" "7" "192.0.2.1" 7%Z)).
Defined.
