(* ===== verification/NodeConfig.v ===== *)
(** * The configuration of the agent: package [internal/config]

    [Load] reads the environment, [getenv], into a [Config].  The decoding of the
    secret's payload (base64, JSON, PEM and X.509) is the class [SecretCodec]. *)
From S2P Require Import Prelude GoStr.

Module NodeConfig.

Definition defaultVersion : string := "3.16.2".

Record NodePayload := {
  CACertPEM : string; JWTPublicKey : string; NodeCertPEM : string; NodeKeyPEM : string }.

Record Config := {
  NodePort : Z; SecretKey : string; DisableHashCheck : bool; SingBoxAPIPort : Z;
  SingBoxV2RayAPIPort : Z; SingBoxAuditAPIPort : Z; AccessAuditDBPath : string;
  InternalRESTToken : string; InternalSocketPath : string; SupervisordSocket : string;
  SupervisordPIDPath : string; SupervisordUser : string; SupervisordPass : string;
  SingBoxConfigPath : string; SingBoxBinaryPath : string; SingBoxLastGoodPath : string;
  Payload : NodePayload; NodeVersion : string; UsageSnapshotDBPath : string;
  UsageSnapshotInterval : Z; UsageSnapshotMaxBytes : Z; ForwardingStatePath : string;
  NodeAPISNIEnabled : bool }.

(** [base64.StdEncoding], [json.Unmarshal] into the payload, [pem.Decode] and
    [AppendCertsFromPEM]. *)
Class SecretCodec := {
  std_b64_decode : string → result string;
  decode_payload : string → result NodePayload;
  pem_valid : string → bool;
  ca_pool_valid : string → bool
}.

Definition normalizePEM (value : string) : string :=
  let value := replace_all value "\n" (String (chr 10) "") in
  let value := replace_all value (String (chr 13) (String (chr 10) "")) (String (chr 10) "") in
  trim_space value.

Definition quote_char : string := String (chr 34) "".
Definition normalizeSecret (value : string) : string := trim_set (trim_space value) quote_char.

Section load.
Context `{SecretCodec} (getenv : string → string).

Definition ParseNodePayload (encoded : string) : result NodePayload :=
  raw ← std_b64_decode encoded;
  payload ← decode_payload raw;
  let payload := {| CACertPEM := normalizePEM (CACertPEM payload);
                    JWTPublicKey := normalizePEM (JWTPublicKey payload);
                    NodeCertPEM := normalizePEM (NodeCertPEM payload);
                    NodeKeyPEM := normalizePEM (NodeKeyPEM payload) |} in
  let fields := [CACertPEM payload; JWTPublicKey payload; NodeCertPEM payload; NodeKeyPEM payload] in
  _ ← fail_if (existsb (λ v, bool_decide (v = "")) fields)
        (ErrMsg "SECRET_KEY payload is missing required PEM fields");
  _ ← fail_if (negb (forallb pem_valid fields)) (ErrMsg "is not valid PEM");
  _ ← fail_if (negb (ca_pool_valid (CACertPEM payload)))
        (ErrMsg "caCertPem is not a valid certificate pool");
  Ok payload.

Definition envString (k fallback : string) : string :=
  if bool_decide (getenv k = "") then fallback else getenv k.
Definition envInt (k : string) (fallback : Z) : Z :=
  if bool_decide (getenv k = "") then fallback else default fallback (atoi (getenv k)).
Definition envBool (k : string) (fallback : bool) : bool :=
  if bool_decide (getenv k = "") then fallback
  else bool_decide (getenv k = "true") || bool_decide (getenv k = "1").

(** [build] is the version set at link time, [module] that of the build info. *)
Definition detectVersion (build : string) (module : option string) : string :=
  if negb (bool_decide (trim_space (getenv "REMNAWAVE_NODE_VERSION") = ""))
  then trim_space (getenv "REMNAWAVE_NODE_VERSION")
  else if negb (bool_decide (trim_space build = "")) then trim_space build
  else match module with
       | Some v => if bool_decide (v = "") || bool_decide (v = "(devel)") then defaultVersion else v
       | None => defaultVersion
       end.

Definition Load (build : string) (module : option string) : result Config :=
  let secret := normalizeSecret (getenv "SECRET_KEY") in
  _ ← fail_if (bool_decide (secret = "")) (ErrMsg "SECRET_KEY is required");
  payload ← ParseNodePayload secret;
  Ok {| NodePort := envInt "NODE_PORT" 2222;
        SecretKey := secret;
        DisableHashCheck := envBool "DISABLE_HASHED_SET_CHECK" false;
        SingBoxAPIPort := envInt "SING_BOX_API_PORT" 61001;
        SingBoxV2RayAPIPort := envInt "SING_BOX_V2RAY_API_PORT" 61002;
        SingBoxAuditAPIPort := envInt "SING_BOX_AUDIT_API_PORT" 61003;
        AccessAuditDBPath := envString "ACCESS_AUDIT_DB_PATH" "/var/lib/remnanode/access-audit.db";
        InternalRESTToken := getenv "INTERNAL_REST_TOKEN";
        InternalSocketPath := envString "INTERNAL_SOCKET_PATH" "/run/remnawave/internal.sock";
        SupervisordSocket := getenv "SUPERVISORD_SOCKET_PATH";
        SupervisordPIDPath := getenv "SUPERVISORD_PID_PATH";
        SupervisordUser := getenv "SUPERVISORD_USER";
        SupervisordPass := getenv "SUPERVISORD_PASSWORD";
        SingBoxConfigPath := envString "SING_BOX_CONFIG_PATH" "/run/remnawave/sing-box.json";
        SingBoxBinaryPath := envString "SING_BOX_BINARY_PATH" "/usr/local/bin/sing-box";
        SingBoxLastGoodPath := envString "SING_BOX_LAST_GOOD_CONFIG_PATH"
                                 "/var/lib/remnanode/sing-box.last-good.json";
        Payload := payload;
        NodeVersion := detectVersion build module;
        UsageSnapshotDBPath := envString "USAGE_SNAPSHOT_DB_PATH" "/var/lib/remnanode/stats.db";
        UsageSnapshotInterval := envInt "USAGE_SNAPSHOT_INTERVAL_SECONDS" 10;
        UsageSnapshotMaxBytes := Int.wrap64 (envInt "USAGE_SNAPSHOT_MAX_MIB" 256 * 2 ^ 20);
        ForwardingStatePath := envString "FORWARDING_STATE_PATH" "/var/lib/remnanode/forwarding.json";
        NodeAPISNIEnabled := envBool "NODE_API_SNI_ENABLED" false |}.
End load.
End NodeConfig.
