(* ===== verification/SingBoxConfig.v ===== *)
(** * The sing-box configuration: [internal/node/manager.go]

    What the agent does to a configuration document: canonical keys
    ([normalizeSingBoxKeys]), its own API sections and user names
    ([applySingBoxAPIConfig]), and the users of an inbound ([addSingBoxUser],
    [removeSingBoxUser]).  Go changes the decoded maps in place; nothing else
    refers to them, so here each function returns the new document. *)
From S2P Require Import Prelude GoStr GoAny GoSort StatName NodeConfig.
Import NodeConfig.

Module SingBoxConfig.

(** SHA-256, in hexadecimal: package [crypto/sha256]. *)
Class Digest := sha256_hex : string → string.

Definition singBoxKeyAliases (k : string) : string :=
  if bool_decide (k = "multiUserPsk") then "multi_user_psk"
  else if bool_decide (k = "obfsMode") then "obfs_mode"
  else if bool_decide (k = "certificatePath") then "certificate_path"
  else if bool_decide (k = "domainSuffix") then "domain_suffix"
  else if bool_decide (k = "ipIsPrivate") then "ip_is_private"
  else if bool_decide (k = "keyPath") then "key_path"
  else if bool_decide (k = "listenPort") then "listen_port"
  else "".

Definition mapped_key (k : string) : string :=
  let mapped := singBoxKeyAliases k in if bool_decide (mapped = "") then k else mapped.

Section normalize.
Context `{MapRange}.

Fixpoint normalizeSingBoxValue (v : any) : any :=
  match v with
  | AArr l => AArr (normalizeSingBoxValue <$> l)
  | AObj m => AObj (rekey mapped_key (range_map (normalizeSingBoxValue <$> m)))
  | _ => v
  end.

Definition normalizeSingBoxKeys (value : any) : object :=
  match normalizeSingBoxValue value with AObj m => m | _ => ∅ end.
End normalize.

Definition normalizeSingBoxType (value : string) : string :=
  if equal_fold value "hy2" || equal_fold value "hysteria2" then "hysteria2" else value.

(** ** User names and API sections *)

Definition raw_name (user : object) : string :=
  firstNonEmpty [stringValue (field user "name"); stringValue (field user "email")].

Definition encode_user (tag : string) (user : object) : object :=
  let userID := StatName.UserID (raw_name user) in
  if bool_decide (userID = "") then user
  else <["name" := AStr (StatName.UserInbound userID tag)]> user.

Definition encode_inbound (inbound : object) : object :=
  let tag := stringValue (field inbound "tag") in
  if bool_decide (tag = "") then inbound
  else <["users" := AArr (toAnySlice (encode_user tag <$> asMapSlice (field inbound "users")))]> inbound.

(** A loop that changes the objects under a key in place; a key that is not there
    is not added. *)
Definition update_field (k : string) (f : object → object) (config : object) : object :=
  match config !! k with
  | Some v => <[k := update_objects f v]> config
  | None => config
  end.

Definition encodeSingBoxConfigUsers (config : object) : object :=
  update_field "inbounds" encode_inbound config.

Definition singBoxV2RayAPIPort (cfg : Config) : Z :=
  if (0 <? SingBoxV2RayAPIPort cfg)%Z then SingBoxV2RayAPIPort cfg
  else Int.wrap64 (SingBoxAPIPort cfg + 1).

Definition auditAPISecret `{Digest} (cfg : Config) : string :=
  if negb (bool_decide (InternalRESTToken cfg = "")) then InternalRESTToken cfg
  else sha256_hex ("remnawave-access-audit:" +:+ SecretKey cfg).

Definition tags_of (l : list object) : list string :=
  filter (λ t, t ≠ "") ((λ m, stringValue (field m "tag")) <$> l).

Definition names_of (inbounds : list object) : list string :=
  filter (λ n, n ≠ "") (mjoin ((λ i, raw_name <$> asMapSlice (field i "users")) <$> inbounds)).

Definition local_address (port : Z) : string := "127.0.0.1:" +:+ itoa port.

Definition v2ray_api (cfg : Config) (config : object) : object :=
  let stats : object :=
    <["enabled" := ABool true]>
    (<["inbounds" := AArr (toAnyStringSlice (tags_of (asMapSlice (field config "inbounds"))))]>
    (<["outbounds" := AArr (toAnyStringSlice (tags_of (asMapSlice (field config "outbounds"))))]>
    (<["users" := AArr (toAnyStringSlice (names_of (asMapSlice (field config "inbounds"))))]> ∅))) in
  <["listen" := AStr (local_address (singBoxV2RayAPIPort cfg))]> (<["stats" := AObj stats]> ∅).

Definition clash_api (cfg : Config) (experimental : object) : object :=
  let clashAPI := <["external_controller" := AStr (local_address (SingBoxAPIPort cfg))]>
                    (ensureMap experimental "clash_api") in
  if negb (bool_decide (InternalRESTToken cfg = ""))
  then <["secret" := AStr (InternalRESTToken cfg)]> clashAPI
  else delete "secret" clashAPI.

Definition auditTag : string := "remnawave-access-audit".

Definition audit_service `{Digest} (cfg : Config) : object :=
  <["type" := AStr "api"]> (<["tag" := AStr auditTag]> (<["listen" := AStr "127.0.0.1"]>
  (<["listen_port" := AInt (SingBoxAuditAPIPort cfg)]> (<["secret" := AStr (auditAPISecret cfg)]>
  (<["access_control_allow_origin" := AArr [AStr "http://127.0.0.1"]]> ∅))))).

Definition with_audit_service `{Digest} (cfg : Config) (config : object) : object :=
  if (0 <? SingBoxAuditAPIPort cfg)%Z then
    let filtered := filter (λ s, stringValue (field s "tag") ≠ auditTag)
                      (asMapSlice (field config "services")) in
    <["services" := AArr (toAnySlice (filtered ++ [audit_service cfg]))]> config
  else config.

Definition applySingBoxAPIConfig `{Digest} (cfg : Config) (config : object) : object :=
  if bool_decide (config = ∅) || (SingBoxAPIPort cfg <=? 0)%Z then config else
  let config := encodeSingBoxConfigUsers config in
  let experimental := <["v2ray_api" := AObj (v2ray_api cfg config)]> (ensureMap config "experimental") in
  let experimental := <["clash_api" := AObj (clash_api cfg experimental)]> experimental in
  with_audit_service cfg (<["experimental" := AObj experimental]> config).

(** ** Users of an inbound *)

Record AddUserItem := {
  Type_ : string; Tag : string; Username : string; Password : string; UUID : string;
  Flow : string; CipherType : Z; IVCheck : bool }.

(** The user object for an inbound's protocol: the [switch] of [addSingBoxUser]. *)
Definition new_user (inbound : object) (item : AddUserItem) : result object :=
  let protocol := normalizeSingBoxType (stringValue (field inbound "type")) in
  let user : object := {["name" := AStr (StatName.UserInbound (Username item) (Tag item))]} in
  if bool_decide (protocol = "snell") then
    if negb (bool_decide (field inbound "multi_user_psk" = ABool true)) ||
       (slen (Password item) <? 16)%Z || (255 <? slen (Password item))%Z
    then Err (ErrMsg "snell requires multi_user_psk and a 16-255 byte user PSK")
    else Ok (<["psk" := AStr (Password item)]> user)
  else if bool_decide (protocol ∈ ["anytls"; "hysteria2"]) then
    Ok (<["password" := AStr (Password item)]> user)
  else if bool_decide (protocol = "tuic") then
    Ok (<["password" := AStr (Password item)]> (<["uuid" := AStr (UUID item)]> user))
  else if bool_decide (protocol ∈ ["trojan"; "shadowtls"; "shadowsocks"]) then
    Ok (<["password" := AStr (Password item)]> user)
  else if bool_decide (protocol ∈ ["vless"; "vmess"]) then
    Ok (<["uuid" := AStr (UUID item)]> user)
  else Err (ErrMsg ("sing-box protocol " +:+ protocol +:+ " is not supported")).

Definition add_to_inbound (inbound : object) (item : AddUserItem) : result object :=
  user ← new_user inbound item;
  Ok (<["users" := AArr (toAnySlice (ensureSliceMap inbound "users" ++ [user]))]> inbound).

(** The first inbound with the tag gets the user. *)
Fixpoint add_to_inbounds (item : AddUserItem) (l : list any) : result (list any) :=
  match l with
  | [] => Err (ErrMsg ("inbound " +:+ Tag item +:+ " not found"))
  | AObj inbound :: rest =>
      if bool_decide (stringValue (field inbound "tag") = Tag item) then
        inbound ← add_to_inbound inbound item; Ok (AObj inbound :: rest)
      else rest ← add_to_inbounds item rest; Ok (AObj inbound :: rest)
  | v :: rest => rest ← add_to_inbounds item rest; Ok (v :: rest)
  end.

Definition addSingBoxUser (config : object) (item : AddUserItem) : result object :=
  l ← add_to_inbounds item (asAnySlice (field config "inbounds"));
  Ok (<["inbounds" := AArr l]> config).

Definition remove_from_inbound (username : string) (inbound : object) : object :=
  <["users" := AArr (toAnySlice
     (filter (λ user, StatName.UserID (raw_name user) ≠ username) (asMapSlice (field inbound "users"))))]>
  inbound.

Definition removeSingBoxUser (username : string) (config : object) : object :=
  update_field "inbounds" (remove_from_inbound username) config.

End SingBoxConfig.
