(* ===== verification/ConfigSpec.v ===== *)
(** * What the configuration functions guarantee

    Injecting the agent's API is idempotent ([apply_config_idempotent]); with the
    audit API enabled the injected document never equals a stored one
    ([audit_api_never_equal]); adding and removing a user change exactly that
    user's entries ([add_user_effect], [remove_user_effect]). *)
From S2P Require Import Prelude GoStr Base64 GoAny GoSort StatName RuntimeState RuntimeSpec NodeConfig SingBoxConfig.
Import NodeConfig SingBoxConfig.

(** ** Names *)

Lemma firstNonEmpty_cons v l : v ≠ "" → firstNonEmpty (v :: l) = v.
Proof. intros Hv. unfold firstNonEmpty. by rewrite filter_cons, decide_True. Qed.

Lemma user_inbound_nonempty u t : UserInbound u t ≠ "".
Proof. unfold UserInbound, userInboundSeparator. by destruct u. Qed.

Lemma raw_name_set user v : v ≠ "" → raw_name (<["name" := AStr v]> user) = v.
Proof.
  intros Hv. unfold raw_name. rewrite field_insert_eq. by apply firstNonEmpty_cons.
Qed.

(** ** Idempotence *)

(** User ids in which the separator of statistics names does not start. *)
Definition users_plain (config : object) : Prop :=
  ∀ inbound user, inbound ∈ asMapSlice (field config "inbounds") →
    user ∈ asMapSlice (field inbound "users") → plain_user (StatName.UserID (raw_name user)).

Lemma encode_user_idem tag user :
  tag ≠ "" → plain_user (StatName.UserID (raw_name user)) →
  encode_user tag (encode_user tag user) = encode_user tag user.
Proof.
  intros Ht Hp. unfold encode_user at 2 3. case_bool_decide as Hu.
  - unfold encode_user. by rewrite bool_decide_eq_true_2.
  - unfold encode_user. rewrite raw_name_set by apply user_inbound_nonempty.
    rewrite user_id_user_inbound by done. rewrite bool_decide_eq_false_2 by done.
    by rewrite insert_insert_eq.
Qed.

Lemma encode_inbound_idem inbound :
  (∀ user, user ∈ asMapSlice (field inbound "users") → plain_user (StatName.UserID (raw_name user))) →
  encode_inbound (encode_inbound inbound) = encode_inbound inbound.
Proof.
  intros Hp. unfold encode_inbound at 2 3. case_bool_decide as Ht.
  - unfold encode_inbound. by rewrite bool_decide_eq_true_2.
  - unfold encode_inbound. rewrite field_insert_ne, bool_decide_eq_false_2 by done.
    rewrite field_insert_eq, asMapSlice_toAnySlice, insert_insert_eq. do 3 f_equal.
    rewrite <-list_fmap_compose. apply list_fmap_ext. intros i u Hu. cbn.
    apply encode_user_idem; [done|]. apply Hp. by eapply list_elem_of_lookup_2.
Qed.

Lemma field_update_field k f config : field (update_field k f config) k = update_objects f (field config k).
Proof.
  unfold update_field, field. destruct (config !! k) as [v|] eqn:E; cbn.
  - by rewrite lookup_insert_eq.
  - by rewrite E.
Qed.

Lemma lookup_update_field_ne k f config k' : k ≠ k' → update_field k f config !! k' = config !! k'.
Proof. intros. unfold update_field. destruct (config !! k); [by rewrite lookup_insert_ne|done]. Qed.

Lemma field_update_field_ne k f config k' : k ≠ k' → field (update_field k f config) k' = field config k'.
Proof. intros. unfold field. by rewrite lookup_update_field_ne. Qed.

(** A change that does nothing to any visited object does nothing. *)
Lemma update_objects_id f v :
  (∀ m, m ∈ asMapSlice v → f m = m) → update_objects f v = v.
Proof.
  intros Hf. rewrite (update_objects_ext f (λ m, m)) by done.
  destruct v as [| | | | |l|]; try done. cbn. f_equal. rewrite <-(list_fmap_id l) at 2.
  apply list_fmap_ext. intros i x _. by destruct x.
Qed.

Lemma update_field_id k f config :
  (∀ m, m ∈ asMapSlice (field config k) → f m = m) → update_field k f config = config.
Proof.
  intros Hf. unfold update_field. destruct (config !! k) as [v|] eqn:E; [|done].
  rewrite update_objects_id; [by apply insert_id|]. intros m Hm. apply Hf. unfold field. by rewrite E.
Qed.

Section apply.
Context `{Digest}.

Lemma audit_tag cfg : stringValue (field (audit_service cfg) "tag") = auditTag.
Proof. done. Qed.

Lemma with_audit_service_field cfg config k :
  k ≠ "services" → field (with_audit_service cfg config) k = field config k.
Proof. intros. unfold with_audit_service. case_match; [by apply field_insert_ne|done]. Qed.

Lemma filter_idem {A} (P : A → Prop) `{∀ x, Decision (P x)} (l : list A) : filter P (filter P l) = filter P l.
Proof.
  induction l as [|x l IH]; [done|]. rewrite !filter_cons. case_decide as Hx; [|done].
  rewrite filter_cons, decide_True by done. by rewrite IH.
Qed.

Lemma with_audit_service_idem cfg config :
  with_audit_service cfg (with_audit_service cfg config) = with_audit_service cfg config.
Proof.
  unfold with_audit_service. destruct (0 <? SingBoxAuditAPIPort cfg)%Z; [|done].
  rewrite field_insert_eq, asMapSlice_toAnySlice, insert_insert_eq. do 4 f_equal.
  rewrite filter_app, filter_idem, filter_cons, audit_tag, decide_False by (intros Hn; by apply Hn).
  cbn. by rewrite app_nil_r.
Qed.

Lemma clash_api_idem cfg experimental v :
  clash_api cfg (<["clash_api" := AObj (clash_api cfg experimental)]> v) = clash_api cfg experimental.
Proof.
  unfold clash_api at 1. rewrite ensureMap_insert. unfold clash_api.
  destruct (negb _); apply map_eq; intros k.
  - rewrite !lookup_insert. by repeat case_decide.
  - rewrite !lookup_delete, !lookup_insert, ?lookup_delete, ?lookup_insert. by repeat case_decide.
Qed.

(** C31: putting the agent's API sections and the encoded user names into a
    configuration a second time changes nothing: restarts and user changes, which
    apply it again to the stored document, do not pile up services or re-encode
    names. *)
Theorem apply_config_idempotent cfg config :
  users_plain config →
  applySingBoxAPIConfig cfg (applySingBoxAPIConfig cfg config) = applySingBoxAPIConfig cfg config.
Proof.
  intros Hp. unfold applySingBoxAPIConfig at 2 3.
  destruct (bool_decide (config = ∅) || (SingBoxAPIPort cfg <=? 0)%Z) eqn:Hskip.
  { unfold applySingBoxAPIConfig. by rewrite Hskip. }
  apply orb_false_iff in Hskip as [_ Hport].
  set (c0 := encodeSingBoxConfigUsers config).
  set (e0 := <["v2ray_api" := AObj (v2ray_api cfg c0)]> (ensureMap c0 "experimental")).
  set (e1 := <["clash_api" := AObj (clash_api cfg e0)]> e0).
  set (c1 := with_audit_service cfg (<["experimental" := AObj e1]> c0)).
  assert (field c1 "experimental" = AObj e1) as Hexp.
  { unfold c1. rewrite with_audit_service_field by done. apply field_insert_eq. }
  assert (∀ k, k ≠ "services" → k ≠ "experimental" → field c1 k = field c0 k) as Hother.
  { intros k H1 H2. unfold c1. rewrite with_audit_service_field by done. by apply field_insert_ne. }
  assert (encodeSingBoxConfigUsers c1 = c1) as Henc.
  { apply update_field_id. rewrite Hother by done. unfold c0, encodeSingBoxConfigUsers.
    rewrite field_update_field, asMapSlice_update. intros m (i & -> & Hi)%list_elem_of_fmap.
    apply encode_inbound_idem. intros user Hu. by eapply Hp. }
  unfold applySingBoxAPIConfig. rewrite Henc, Hport.
  rewrite bool_decide_eq_false_2 by (intros Hc; unfold field in Hexp; rewrite Hc, lookup_empty in Hexp; done).
  cbn [orb]. assert (v2ray_api cfg c1 = v2ray_api cfg c0) as Hv by (unfold v2ray_api; by rewrite !Hother).
  assert (ensureMap c1 "experimental" = e1) as Hens by (unfold ensureMap; by rewrite Hexp).
  rewrite Hv, Hens.
  assert (<["v2ray_api" := AObj (v2ray_api cfg c0)]> e1 = e1) as He1.
  { apply insert_id. unfold e1, e0. rewrite lookup_insert_ne by done. by rewrite lookup_insert_eq. }
  rewrite He1. unfold e1 at 1. rewrite clash_api_idem. fold e1.
  assert (<["clash_api" := AObj (clash_api cfg e0)]> e1 = e1) as ->.
  { apply insert_id. unfold e1. by rewrite lookup_insert_eq. }
  rewrite insert_id; [unfold c1; apply with_audit_service_idem|].
  unfold field in Hexp. destruct (c1 !! "experimental"); [by cbn in Hexp; subst|done].
Qed.

(** ** The restart check of [Start] *)

(** No [int] survives a JSON round trip. *)
Lemma clone_not_int m k : ∀ n, field (cloneMap m) k ≠ AInt n.
Proof.
  intros n E. pose proof (clean_field _ k (cloneMap_clean m)) as Hc. by rewrite E in Hc.
Qed.

(** The comparison of [Start]: the stored configuration is the one it builds. *)
Definition unchanged (cfg : Config) (config : object) (r : RuntimeState.Runtime) : Prop :=
  RuntimeState.SingBoxConfig r = applySingBoxAPIConfig cfg config.

(** with the audit API enabled, the configuration that [Start] builds is never
    equal to the stored one, whatever was stored: its audit service carries the port
    as an [int], and a stored document only has [float64] numbers. *)
Theorem audit_api_never_equal cfg config r :
  config ≠ ∅ → (0 < SingBoxAPIPort cfg)%Z → (0 < SingBoxAuditAPIPort cfg)%Z →
  ¬ unchanged cfg config r.
Proof.
  intros Hc Hp Ha E. unfold unchanged, applySingBoxAPIConfig in E.
  rewrite bool_decide_eq_false_2 in E by done. rewrite (proj2 (Z.leb_gt _ _)) in E by done. cbn [orb] in E.
  unfold with_audit_service in E. rewrite (proj2 (Z.ltb_lt _ _)) in E by done.
  pose proof (f_equal (λ m, field m "services") E) as Hs. cbn beta in Hs.
  rewrite field_insert_eq in Hs.
  pose proof (clean_field _ "services" (cloneMap_clean (RuntimeState.singBoxConfig r))) as Hclean.
  unfold RuntimeState.SingBoxConfig in Hs. rewrite Hs in Hclean. cbn [clean_any] in Hclean.
  rewrite forallb_elem_of in Hclean.
  assert (clean_any (AObj (audit_service cfg)) = true) as Hbad.
  { apply Hclean. unfold toAnySlice. apply list_elem_of_fmap. eexists. split; [done|].
    apply elem_of_app. right. by left. }
  rewrite clean_obj in Hbad. destruct (Hbad "listen_port" (AInt (SingBoxAuditAPIPort cfg))) as [_ ?]; done.
Qed.
End apply.

(** ** Users of an inbound *)

Lemma user_entry_new tag protocol user u :
  raw_name user = UserInbound u tag → plain_user u → u ≠ "" → tag ≠ "" →
  RuntimeState.user_entry tag protocol user =
    Some {| RuntimeState.UserID := u; RuntimeState.Protocol := protocol; RuntimeState.iu_Tag := tag |}.
Proof.
  intros Hraw Hp Hu Ht. unfold RuntimeState.user_entry, RuntimeState.asString. fold (raw_name user). rewrite Hraw.
  rewrite bool_decide_eq_false_2 by apply user_inbound_nonempty. by rewrite user_id_user_inbound.
Qed.

Lemma new_user_name inbound item user :
  new_user inbound item = Ok user → raw_name user = UserInbound (Username item) (Tag item).
Proof.
  assert (∀ m : object, m !! "name" = Some (AStr (UserInbound (Username item) (Tag item))) →
    raw_name m = UserInbound (Username item) (Tag item)) as Hname.
  { intros m Hm. unfold raw_name, field. rewrite Hm. cbn. apply firstNonEmpty_cons, user_inbound_nonempty. }
  unfold new_user. repeat (case_match; try done); intros [= <-]; apply Hname;
    rewrite ?lookup_insert_ne by done; by rewrite lookup_singleton_eq.
Qed.

Lemma new_user_protocol inbound item user :
  new_user inbound item = Ok user → inbound_protocol inbound ≠ "".
Proof.
  unfold new_user, inbound_protocol. fold (RuntimeState.asString (field inbound "type")).
  change (SingBoxConfig.normalizeSingBoxType (RuntimeState.asString (field inbound "type"))) with
    (if equal_fold (RuntimeState.asString (field inbound "type")) "hy2" || equal_fold (RuntimeState.asString (field inbound "type")) "hysteria2"
     then "hysteria2" else RuntimeState.asString (field inbound "type")).
  unfold RuntimeState.normalizeSingBoxType. rewrite orb_comm. destruct (_ || _); [done|].
  intros E Hempty. rewrite Hempty in E. done.
Qed.

Definition inbounds_of (config : object) : list object := asMapSlice (field config "inbounds").

Lemma users_of_app tag l1 l2 : users_of tag (l1 ++ l2) = users_of tag l1 ++ users_of tag l2.
Proof. unfold users_of. by rewrite fmap_app, join_app. Qed.

Lemma users_of_cons tag i l : users_of tag (i :: l) = users_of tag [i] ++ users_of tag l.
Proof. apply (users_of_app tag [i] l). Qed.

Lemma asMapSlice_cons v l :
  asMapSlice (AArr (v :: l)) = (match v with AObj m => [m] | _ => [] end) ++ asMapSlice (AArr l).
Proof. by destruct v. Qed.

Lemma add_to_inbound_users inbound item inbound' tag :
  add_to_inbound inbound item = Ok inbound' → RuntimeState.asString (field inbound "tag") = Tag item →
  plain_user (Username item) → Username item ≠ "" → Tag item ≠ "" →
  RuntimeState.UserID <$> users_of tag [inbound'] =
  (RuntimeState.UserID <$> users_of tag [inbound]) ++ if decide (Tag item = tag) then [Username item] else [].
Proof.
  intros E Htag Hp Hu Ht. unfold add_to_inbound in E. bind_as E user Hnew. injection E as <-.
  unfold users_of. cbn [fmap list_fmap mjoin list_join]. rewrite !app_nil_r.
  unfold inbound_protocol. rewrite field_insert_ne by done. rewrite field_insert_ne by done.
  rewrite field_insert_eq. fold (inbound_protocol inbound). rewrite Htag.
  rewrite (bool_decide_eq_false_2 (inbound_protocol inbound = "")) by by eapply new_user_protocol.
  cbn [negb]. rewrite andb_true_r. unfold RuntimeState.asObjectSlice, ensureSliceMap. rewrite asMapSlice_toAnySlice.
  case_bool_decide as Hd; [rewrite decide_True by done|by rewrite decide_False by done].
  subst tag. rewrite omap_app, fmap_app. f_equal. cbn.
  by rewrite (user_entry_new _ _ _ (Username item) (new_user_name _ _ _ Hnew)).
Qed.

Lemma add_to_inbounds_users item l l' tag :
  add_to_inbounds item l = Ok l' → plain_user (Username item) → Username item ≠ "" → Tag item ≠ "" →
  RuntimeState.UserID <$> users_of tag (asMapSlice (AArr l')) ≡ₚ
  (if decide (Tag item = tag) then [Username item] else []) ++
  (RuntimeState.UserID <$> users_of tag (asMapSlice (AArr l))).
Proof.
  intros E Hp Hu Ht. revert l' E. induction l as [|v l IH]; intros l' E; [done|].
  assert (∀ v, (rest ← add_to_inbounds item l; Ok (v :: rest)) = Ok l' →
    RuntimeState.UserID <$> users_of tag (asMapSlice (AArr l')) ≡ₚ
    (if decide (Tag item = tag) then [Username item] else []) ++
    (RuntimeState.UserID <$> users_of tag (asMapSlice (AArr (v :: l))))) as Hrest.
  { intros v0 E0. bind_as E0 rest Hr. injection E0 as <-. specialize (IH _ Hr).
    rewrite !asMapSlice_cons, !users_of_app, !fmap_app, IH. rewrite !app_assoc.
    f_equiv. apply Permutation_app_comm. }
  destruct v as [| | | | | |inbound]; try (by apply Hrest).
  cbn [add_to_inbounds] in E. case_bool_decide as Htag; [|by apply Hrest].
  bind_as E inbound' Hadd. injection E as <-.
  rewrite !asMapSlice_cons, !users_of_app, !fmap_app.
  rewrite (add_to_inbound_users _ _ _ tag Hadd Htag Hp Hu Ht).
  rewrite !app_assoc. f_equiv. apply Permutation_app_comm.
Qed.

(** Adding a user adds that one user to that one inbound, and nothing else. *)
Lemma add_user_effect config item config' tag :
  addSingBoxUser config item = Ok config' → plain_user (Username item) → Username item ≠ "" → Tag item ≠ "" →
  RuntimeState.UserID <$> users_of tag (inbounds_of config') ≡ₚ
  (if decide (Tag item = tag) then [Username item] else []) ++
  (RuntimeState.UserID <$> users_of tag (inbounds_of config)).
Proof.
  intros E Hp Hu Ht. unfold addSingBoxUser in E. bind_as E l Hl. injection E as <-.
  unfold inbounds_of. rewrite field_insert_eq.
  rewrite (add_to_inbounds_users _ _ _ tag Hl) by done. f_equiv.
  by destruct (field config "inbounds").
Qed.

(** Removing a user removes exactly that user's entries, from every inbound. *)
Lemma remove_user_effect username config tag :
  username ≠ "" →
  RuntimeState.UserID <$> users_of tag (inbounds_of (removeSingBoxUser username config)) =
  filter (λ u, u ≠ username) (RuntimeState.UserID <$> users_of tag (inbounds_of config)).
Proof.
  intros Hne. unfold inbounds_of, removeSingBoxUser. rewrite field_update_field, asMapSlice_update.
  induction (asMapSlice (field config "inbounds")) as [|i l IH]; [done|].
  change (remove_from_inbound username <$> i :: l) with
    (remove_from_inbound username i :: (remove_from_inbound username <$> l)).
  rewrite users_of_cons, (users_of_cons _ i l), !fmap_app, filter_app, IH. f_equal.
  unfold users_of. cbn [fmap list_fmap mjoin list_join]. rewrite !app_nil_r.
  unfold remove_from_inbound, inbound_protocol. rewrite !field_insert_ne, field_insert_eq by done.
  fold (inbound_protocol i). destruct (_ && _); [|done].
  unfold RuntimeState.asObjectSlice. rewrite asMapSlice_toAnySlice.
  induction (asMapSlice (field i "users")) as [|u us IHu]; [done|].
  rewrite filter_cons. cbn [omap list_omap]. unfold RuntimeState.user_entry at 2. unfold RuntimeState.asString. fold (raw_name u).
  case_decide as Hu.
  - cbn [omap list_omap]. unfold RuntimeState.user_entry at 1, RuntimeState.asString. fold (raw_name u).
    case_bool_decide; [exact IHu|]. cbn [fmap list_fmap RuntimeState.UserID].
    rewrite filter_cons, decide_True by done. by rewrite <-IHu.
  - case_bool_decide as Hr; [exact IHu|]. cbn [fmap list_fmap RuntimeState.UserID].
    rewrite filter_cons, decide_False by (by intros Hn). exact IHu.
Qed.

(** *** The documents stay JSON *)

Lemma clean_names u t : is_ascii u = true → utf8_clean (UserInbound u t) = UserInbound u t.
Proof.
  intros Hu. apply utf8_clean_ascii. unfold UserInbound, is_ascii in *. rewrite !all_bytes_app, Hu. cbn.
  eapply all_bytes_impl; [|apply b64_encode_alphabet].
  intros [[] [] [] [] [] [] [] []]; vm_compute; congruence.
Qed.

(** ** The theorems at work *)

Definition demo_config : object :=
  let user (n : string) : any := AObj {["name" := AStr n]} in
  let inbound : object :=
    <["tag" := AStr "in"]> (<["type" := AStr "vless"]> {["users" := AArr [user "7"; user "8"]]}) in
  {["inbounds" := AArr [AObj inbound]]}.

Definition demo_cfg (audit : Z) : Config :=
  {| NodePort := 2222; SecretKey := "k"; DisableHashCheck := false; SingBoxAPIPort := 61001;
     SingBoxV2RayAPIPort := 0; SingBoxAuditAPIPort := audit; AccessAuditDBPath := "";
     InternalRESTToken := ""; InternalSocketPath := ""; SupervisordSocket := "";
     SupervisordPIDPath := ""; SupervisordUser := ""; SupervisordPass := "";
     SingBoxConfigPath := ""; SingBoxBinaryPath := ""; SingBoxLastGoodPath := "";
     Payload := {| CACertPEM := ""; JWTPublicKey := ""; NodeCertPEM := ""; NodeKeyPEM := "" |};
     NodeVersion := ""; UsageSnapshotDBPath := ""; UsageSnapshotInterval := 0;
     UsageSnapshotMaxBytes := 0; ForwardingStatePath := ""; NodeAPISNIEnabled := false |}.

Lemma apply_config_idempotent_witness :
  let _ : Digest := λ s, s in
  let c := applySingBoxAPIConfig (demo_cfg 61003) demo_config in
  applySingBoxAPIConfig (demo_cfg 61003) c = c ∧
  names_of (inbounds_of c) = [UserInbound "7" "in"; UserInbound "8" "in"].
Proof.
  intros D c. split; [|vm_compute; reflexivity].
  apply apply_config_idempotent. intros inbound user Hi Hu.
  assert (inbound ∈ asMapSlice (field demo_config "inbounds")) as Hi' by exact Hi.
  apply list_elem_of_singleton in Hi' as ->.
  apply elem_of_cons in Hu as [->|Hu%list_elem_of_singleton]; [|subst user]; vm_compute; reflexivity.
Defined.

Lemma audit_api_never_equal_witness :
  let _ : Digest := λ s, s in
  let c := applySingBoxAPIConfig (demo_cfg 61003) demo_config in
  let r := RuntimeState.SetSingBoxConfig c (RuntimeState.New "1.0") in
  ¬ unchanged (demo_cfg 61003) demo_config r.
Proof.
  intros D c r. apply audit_api_never_equal; [vm_compute; discriminate|reflexivity|reflexivity].
Defined.
