(* ===== verification/Users.v ===== *)
(** * Users: the user requests of [internal/node/manager.go], and [validation.go]

    A user request changes the stored configuration user by user
    ([addUserToTag], [removeUserEverywhere]); the handlers, which then restart the
    core, are in [Lifecycle]. *)
From S2P Require Import Prelude GoStr GoAny GoNet GoSort StatName RuntimeState NodeConfig SingBoxConfig.
Import SingBoxConfig.

Module Users.

(** ** Requests *)

Record AddUserHashData := { VLESSUUID : string; PrevVLESSUUID : string }.
Record AddUserRequest := { Data : list AddUserItem; HashData : AddUserHashData }.
Record RemoveUserRequest := { rm_Username : string; rm_VLESSUUID : string }.

Record BulkInboundData := { in_Type : string; in_Tag : string; in_Flow : string }.
Record BulkUserData := {
  ud_UserID : string; HashUUID : string; ud_VLESSUUID : string; TrojanPassword : string;
  SSPassword : string; AnyTLSPassword : string; SnellPSK : string }.
Record BulkAddUser := { InboundData : list BulkInboundData; UserData : BulkUserData }.
Record AddUsersRequest := { AffectedInboundTags : list string; add_Users : list BulkAddUser }.

Record RemovedUser := { ru_UserID : string; ru_HashUUID : string }.
Record RemoveUsersRequest := { remove_Users : list RemovedUser }.

(** ** Validation *)

Definition validUserTypes : list string := ["trojan"; "vless"; "shadowsocks"; "shadowsocks22"; "hysteria"].

Definition is_empty (s : string) : bool := bool_decide (s = "").

Definition validate_start (coreType : string) (singBoxConfig : object) : result unit :=
  _ ← fail_if (negb (equal_fold coreType "SING_BOX")) (ErrMsg "coreType must be SING_BOX");
  fail_if (bool_decide (singBoxConfig = ∅)) (ErrMsg "singBoxConfig is required for SING_BOX core").

Definition validate_item (u : AddUserItem) : result unit :=
  _ ← fail_if (negb (bool_decide (Type_ u ∈ validUserTypes))) (ErrMsg ("unsupported user type " +:+ Type_ u));
  _ ← fail_if (is_empty (Tag u) || is_empty (Username u)) (ErrMsg "user tag and username are required");
  fail_if (bool_decide (Type_ u = "vless") &&
           (is_empty (UUID u) || (negb (is_empty (Flow u)) && negb (bool_decide (Flow u = "xtls-rprx-vision")))))
    (ErrMsg "invalid VLESS user").

(** [for ... { if err := check(x); err != nil { return err } }] *)
Definition validate_all {A} (check : A → result unit) (l : list A) : result unit :=
  foldr_result (λ _, check) tt l.

Definition validate_add_user (r : AddUserRequest) : result unit := validate_all validate_item (Data r).

Definition validate_remove_user (r : RemoveUserRequest) : result unit :=
  fail_if (is_empty (rm_Username r)) (ErrMsg "username is required").

Definition validate_bulk (user : BulkAddUser) : result unit :=
  _ ← fail_if (is_empty (ud_UserID (UserData user))) (ErrMsg "userId is required");
  validate_all (λ i, fail_if (negb (bool_decide (in_Type i ∈ validUserTypes)) || is_empty (in_Tag i))
                       (ErrMsg "invalid inbound user data")) (InboundData user).

Definition validate_add_users (r : AddUsersRequest) : result unit := validate_all validate_bulk (add_Users r).

Definition validate_remove_users (r : RemoveUsersRequest) : result unit :=
  validate_all (λ u, fail_if (is_empty (ru_UserID u)) (ErrMsg "userId is required")) (remove_Users r).

Definition validate_drop_users (ids : list string) : result unit :=
  validate_all (λ id, fail_if (is_empty id) (ErrMsg "userIds must not contain empty values")) ids.

Definition validateIPs (values : list string) : result unit :=
  validate_all (λ v, fail_if (bool_decide (parse_ip v = None)) (ErrMsg ("invalid IP address " +:+ v))) values.

Record BlockIP := { bi_IP : string; bi_Timeout : Z }.
Definition validate_block_ips (ips : list BlockIP) : result unit :=
  validate_all (λ item, _ ← validateIPs [bi_IP item];
                        fail_if (bi_Timeout item <? 0)%Z (ErrMsg "timeout must not be negative")) ips.

(** ** Changing the stored configuration *)

Abbreviation Runtime := RuntimeState.Runtime.

Definition addUserToTag (item : AddUserItem) : proc Runtime unit :=
  core ← gets RuntimeState.RunningCoreType;
  if bool_decide (core = RuntimeState.CoreTypeSingBox) then
    config ← gets RuntimeState.SingBoxConfig;
    config ← lift (addSingBoxUser config item);
    modify (RuntimeState.SetSingBoxConfig config)
  else if bool_decide (core = "") then throw (ErrMsg "sing-box core is not running")
  else mret tt.

Definition removeUserEverywhere (username : string) : proc Runtime unit :=
  core ← gets RuntimeState.RunningCoreType;
  if bool_decide (core = RuntimeState.CoreTypeSingBox) then
    config ← gets RuntimeState.SingBoxConfig;
    modify (RuntimeState.SetSingBoxConfig (removeSingBoxUser username config))
  else if bool_decide (core = "") then throw (ErrMsg "sing-box core is not running")
  else mret tt.

Definition add_item (seen : list string) (item : AddUserItem) : proc Runtime (list string) :=
  seen ← (if bool_decide (Username item ∈ seen) then mret seen
          else _ ← removeUserEverywhere (Username item); mret (Username item :: seen));
  _ ← addUserToTag item;
  mret seen.

Definition applyAddUserRequest (request : AddUserRequest) : proc Runtime unit :=
  _ ← proc_fold add_item [] (Data request); mret tt.

(** The credential of an inbound's type: the later [if] wins. *)
Definition bulk_item (u : BulkUserData) (inbound : BulkInboundData) : AddUserItem :=
  let t := in_Type inbound in
  let password :=
    if bool_decide (t = "hysteria2") then ud_VLESSUUID u
    else if bool_decide (t = "anytls") then AnyTLSPassword u
    else if bool_decide (t = "snell") then SnellPSK u
    else if bool_decide (t = "hysteria") then ud_VLESSUUID u
    else if bool_decide (t ∈ ["shadowsocks"; "shadowsocks22"]) then SSPassword u
    else TrojanPassword u in
  {| Type_ := t; Tag := in_Tag inbound; Username := ud_UserID u; Password := password;
     UUID := ud_VLESSUUID u; Flow := in_Flow inbound; CipherType := 0; IVCheck := false |}.

Definition add_bulk (user : BulkAddUser) : proc Runtime unit :=
  _ ← removeUserEverywhere (ud_UserID (UserData user));
  proc_iter (λ inbound, addUserToTag (bulk_item (UserData user) inbound)) (InboundData user).

Definition applyAddUsersRequest (request : AddUsersRequest) : proc Runtime unit :=
  proc_iter add_bulk (add_Users request).

Definition remove_users (request : RemoveUsersRequest) : proc Runtime unit :=
  proc_iter (λ user, removeUserEverywhere (ru_UserID user)) (remove_Users request).

(** ** Queries *)

(** The names under which the statistics of a user are kept: one per inbound, in the
    order in which Go visits the index. *)
Definition statUsernamesForUser `{MapRange} (username : string) (r : Runtime) : list string :=
  foldl (λ values '(tag, users),
      foldl (λ values (user : RuntimeState.InboundUser),
        if bool_decide (RuntimeState.UserID user = username) then
          let name := StatName.UserInbound username tag in
          if bool_decide (name ∈ values) then values else values ++ [name]
        else values) values users)
    [username] (range_map (RuntimeState.InboundUsersMap r)).

Definition GetInboundUsers (tag : string) (r : Runtime) : list (string * string) :=
  (λ user, (RuntimeState.UserID user, RuntimeState.UserID user)) <$> RuntimeState.InboundUsers tag r.

Definition GetInboundUsersCount (tag : string) (r : Runtime) : nat :=
  length (RuntimeState.InboundUsers tag r).

End Users.
