(* ===== verification/UsersSpec.v ===== *)
(** * What user requests guarantee

    After a request that succeeds, the users of every inbound are exactly those the
    request asks for ([add_user_request], [add_users_request], [remove_users_request]). *)
From S2P Require Import Prelude GoStr GoAny GoSort StatName RuntimeState RuntimeSpec NodeConfig SingBoxConfig ConfigSpec Users.
Import SingBoxConfig Users.

(** ** The documents stay JSON *)

Lemma clean_str s : utf8_clean s = s → clean_any (AStr s) = true.
Proof. intros E. cbn. by rewrite bool_decide_eq_true_2. Qed.

(** Requests come from JSON, so their strings are UTF-8; panel user ids are ASCII and
    do not contain the separator of statistics names. *)
Definition id_ok (u : string) : Prop := u ≠ "" ∧ plain_user u ∧ is_ascii u = true.
Definition item_ok (item : AddUserItem) : Prop :=
  id_ok (Username item) ∧ Tag item ≠ "" ∧ utf8_clean (Password item) = Password item ∧
  utf8_clean (UUID item) = UUID item.

Lemma new_user_clean inbound item user :
  item_ok item → new_user inbound item = Ok user → clean_object user.
Proof.
  intros ((_ & _ & Hu) & _ & Hp & Hd) E.
  assert (clean_object {["name" := AStr (UserInbound (Username item) (Tag item))]}) as Hc.
  { intros k x [<- <-]%lookup_singleton_Some. split; [done|]. by apply clean_str, clean_names. }
  assert (∀ m k s, clean_object m → utf8_clean k = k → utf8_clean s = s → clean_object (<[k := AStr s]> m)) as Hi.
  { intros m k s Hm Hk Hs. apply clean_insert; [done..|]. by apply clean_str. }
  unfold new_user in E. repeat (case_match; try done); injection E as <-; repeat (apply Hi; try done).
Qed.

Lemma add_to_inbound_clean inbound item inbound' :
  item_ok item → clean_object inbound → add_to_inbound inbound item = Ok inbound' → clean_object inbound'.
Proof.
  intros Hi Hc E. unfold add_to_inbound in E. bind_as E user Hnew. injection E as <-.
  apply clean_insert; [done..|]. apply clean_toAnySlice. intros m [Hm|Hm%list_elem_of_singleton]%elem_of_app.
  - unfold ensureSliceMap in Hm. eapply clean_asMapSlice; [|exact Hm]. by apply clean_field.
  - subst m. by eapply new_user_clean.
Qed.

Lemma add_to_inbounds_clean item l l' :
  item_ok item → clean_any (AArr l) = true → add_to_inbounds item l = Ok l' → clean_any (AArr l') = true.
Proof.
  intros Hi. revert l'. induction l as [|v l IH]; intros l' Hc E; [done|].
  cbn [clean_any forallb] in Hc. apply andb_true_iff in Hc as [Hv Hl].
  assert (∀ rest, add_to_inbounds item l = Ok rest → clean_any (AArr (v :: rest)) = true) as Hrest.
  { intros rest Er. cbn [clean_any forallb]. apply andb_true_iff. split; [done|]. by apply IH. }
  destruct v as [| | | | | |inbound]; cbn [add_to_inbounds] in E;
    try (bind_as E rest Hr; injection E as <-; by apply Hrest).
  case_bool_decide; [|bind_as E rest Hr; injection E as <-; by apply Hrest].
  bind_as E inbound' Ha. injection E as <-. cbn [clean_any forallb]. apply andb_true_iff. split; [|done].
  apply clean_obj. eapply add_to_inbound_clean; [done| |exact Ha]. by apply clean_obj.
Qed.

Lemma addSingBoxUser_clean config item config' :
  item_ok item → clean_object config → addSingBoxUser config item = Ok config' → clean_object config'.
Proof.
  intros Hi Hc E. unfold addSingBoxUser in E. bind_as E l Hl. injection E as <-.
  apply clean_insert; [done..|]. eapply add_to_inbounds_clean; [done| |exact Hl].
  pose proof (clean_field _ "inbounds" Hc) as Hf. by destruct (field config "inbounds").
Qed.

Lemma update_field_clean k f config :
  clean_object config → (∀ m, clean_object m → clean_object (f m)) → clean_object (update_field k f config).
Proof.
  intros Hc Hf. unfold update_field. destruct (config !! k) as [v|] eqn:E; [|done].
  destruct (Hc _ _ E). apply clean_insert; [done..|]. by apply clean_update_objects.
Qed.

Lemma removeSingBoxUser_clean username config :
  clean_object config → clean_object (removeSingBoxUser username config).
Proof.
  intros Hc. apply update_field_clean; [done|]. intros m Hm. apply clean_insert; [done..|].
  apply clean_toAnySlice. intros u [_ Hu]%list_elem_of_filter.
  eapply clean_asMapSlice; [|exact Hu]. by apply clean_field.
Qed.

(** ** One change *)

(** The panel user ids of an inbound tag, in the stored configuration. *)
Definition ids (tag : string) (r : Runtime) : list string :=
  RuntimeState.UserID <$> users_of tag (inbounds_of (RuntimeState.singBoxConfig r)).

(** sing-box runs, and the state is sound. *)
Definition ready (r : Runtime) : Prop :=
  RuntimeState.running r = RuntimeState.CoreTypeSingBox ∧ sound r.

Lemma ready_users r tag : ready r → tag ≠ "" → RuntimeState.UserID <$> RuntimeState.InboundUsers tag r = ids tag r.
Proof. intros [Hr [Hi _]] Ht. rewrite indexed_users by done. by rewrite decide_True. Qed.

Lemma set_config_ready config r :
  ready r → clean_object config →
  ready (RuntimeState.SetSingBoxConfig config r) ∧
  RuntimeState.singBoxConfig (RuntimeState.SetSingBoxConfig config r) = config.
Proof.
  intros [Hr Hs] Hc. split; [split|].
  - unfold RuntimeState.SetSingBoxConfig. by case_bool_decide.
  - apply (exec_sound (H := λ A _ l, l) (OpSetSingBoxConfig config) r Hs).
  - unfold RuntimeState.SetSingBoxConfig. case_bool_decide; cbn; by apply cloneMap_id.
Qed.

Lemma remove_run username r :
  ready r → username ≠ "" → ∃ r', removeUserEverywhere username r = (r', Ok tt) ∧ ready r' ∧
    ∀ tag, ids tag r' = filter (λ u, u ≠ username) (ids tag r).
Proof.
  intros Hr Hne. pose proof Hr as [Hrun [_ Hc]].
  assert (RuntimeState.SingBoxConfig r = RuntimeState.singBoxConfig r) as Hcl by by apply cloneMap_id.
  destruct (set_config_ready (removeSingBoxUser username (RuntimeState.singBoxConfig r)) r Hr) as [Hr' Hcfg].
  { by apply removeSingBoxUser_clean. }
  eexists. split; [|split; [exact Hr'|]].
  - unfold removeUserEverywhere, gets, modify, mbind, proc_bind. unfold RuntimeState.RunningCoreType.
    rewrite Hrun, bool_decide_eq_true_2, Hcl by done. done.
  - intros tag. unfold ids. rewrite Hcfg. by apply remove_user_effect.
Qed.

Lemma add_run item r r' :
  ready r → item_ok item → addUserToTag item r = (r', Ok tt) → ready r' ∧
    ∀ tag, ids tag r' ≡ₚ (if decide (Tag item = tag) then [Username item] else []) ++ ids tag r.
Proof.
  intros Hr Hi E. pose proof Hr as [Hrun [_ Hc]].
  assert (RuntimeState.SingBoxConfig r = RuntimeState.singBoxConfig r) as Hcl by by apply cloneMap_id.
  unfold addUserToTag, gets, lift, modify, mbind, proc_bind, RuntimeState.RunningCoreType in E.
  rewrite Hrun, bool_decide_eq_true_2, Hcl in E by done.
  destruct (addSingBoxUser _ item) as [config|] eqn:Ha; [|done]. injection E as <-.
  destruct (set_config_ready config r Hr) as [Hr' Hcfg]; [by eapply addSingBoxUser_clean|].
  split; [done|]. intros tag. unfold ids. rewrite Hcfg. destruct Hi as ((? & ? & _) & ? & _).
  by apply add_user_effect.
Qed.

(** ** Whole requests *)

(** The users that a list of items puts under a tag. *)
Definition named (tag : string) (items : list AddUserItem) : list string :=
  Username <$> filter (λ i, Tag i = tag) items.

Lemma named_cons tag i items :
  named tag (i :: items) = (if decide (Tag i = tag) then [Username i] else []) ++ named tag items.
Proof. unfold named. rewrite filter_cons. by case_decide. Qed.

Lemma add_items_effect items seen seen' r r' :
  ready r → Forall item_ok items → proc_fold add_item seen items r = (r', Ok seen') → ready r' ∧
  ∀ tag, ids tag r' ≡ₚ
    filter (λ u, u ∉ Username <$> items ∨ u ∈ seen) (ids tag r) ++ named tag items.
Proof.
  revert seen r. induction items as [|i items IH]; intros seen r Hr Hi E.
  { injection E as <- <-. split; [done|]. intros tag. cbn. rewrite app_nil_r.
    symmetry. rewrite filter_true; [done|]. intros u _. left. apply not_elem_of_nil. }
  apply Forall_cons in Hi as [Hi His]. cbn [proc_fold] in E. proc_as E r2 seen1 Hadd.
  unfold add_item in Hadd. proc_as Hadd r1 seen2 Hrem. proc_as Hadd r2' [] Htag.
  injection Hadd as -> ->.
  case_bool_decide as Hseen.
  - injection Hrem as -> ->. destruct (add_run _ _ _ Hr Hi Htag) as [Hr2 Hids].
    destruct (IH _ _ Hr2 His E) as [Hr' Hids']. split; [done|]. intros tag.
    rewrite (Hids' tag), (Hids tag), named_cons, filter_app, app_assoc. f_equiv.
    rewrite Permutation_app_comm. apply Permutation_app.
    + erewrite list_filter_iff; [reflexivity|]. intros u. rewrite fmap_cons, not_elem_of_cons.
      destruct (decide (u = Username i)) as [->|]; naive_solver.
    + case_decide; [|done]. rewrite filter_cons, decide_True by auto. done.
  - proc_as Hrem r0 [] Hrm. injection Hrem as <- <-.
    destruct (remove_run (Username i) r Hr) as (r0' & Hrm' & Hr1 & Hids0); [apply Hi|].
    rewrite Hrm in Hrm'. injection Hrm' as <-.
    destruct (add_run _ _ _ Hr1 Hi Htag) as [Hr2 Hids].
    destruct (IH _ _ Hr2 His E) as [Hr' Hids']. split; [done|]. intros tag.
    rewrite (Hids' tag), (Hids tag), named_cons, (Hids0 tag), filter_app, app_assoc. f_equiv.
    rewrite Permutation_app_comm. apply Permutation_app.
    + rewrite list_filter_filter. erewrite list_filter_iff; [reflexivity|].
      intros u. rewrite fmap_cons, not_elem_of_cons, elem_of_cons.
      destruct (decide (u = Username i)) as [->|]; naive_solver.
    + case_decide; [|done]. rewrite filter_cons, decide_True; [done|]. right. left.
Qed.

Section requests.
Context `{SortSlice}.

(** A state the agent can be in. *)
Definition reached (ops : list op) (version : string) : Runtime :=
  foldl (λ r o, exec o r) (RuntimeState.New version) ops.

Lemma reached_ready ops version :
  RuntimeState.RunningCore (reached ops version) = RuntimeState.CoreTypeSingBox →
  ready (reached ops version).
Proof. intros Hr. split; [exact Hr|apply run_sound]. Qed.

(** an add-user request that succeeds replaces the named users: under every
    inbound tag stand the users that were there and are not named, and the named
    users once per item of the request for that tag. *)
Theorem add_user_request ops version request r' tag :
  let r := reached ops version in
  RuntimeState.RunningCore r = RuntimeState.CoreTypeSingBox → Forall item_ok (Data request) → tag ≠ "" →
  applyAddUserRequest request r = (r', Ok tt) →
  RuntimeState.UserID <$> RuntimeState.InboundUsers tag r' ≡ₚ
  filter (λ u, u ∉ Username <$> Data request) (RuntimeState.UserID <$> RuntimeState.InboundUsers tag r) ++
  named tag (Data request).
Proof.
  intros r Hrun Hi Ht E. pose proof (reached_ready _ _ Hrun) as Hr. fold r in Hr.
  unfold applyAddUserRequest in E. proc_as E r1 seen Hf. injection E as <-.
  destruct (add_items_effect _ _ _ _ _ Hr Hi Hf) as [Hr' Hids].
  rewrite !ready_users by done. rewrite (Hids tag). f_equiv.
  erewrite list_filter_iff; [reflexivity|]. intros u. cbn. rewrite elem_of_nil. naive_solver.
Qed.

Definition bulk_items (users : list BulkAddUser) : list AddUserItem :=
  mjoin ((λ u, bulk_item (UserData u) <$> InboundData u) <$> users).

Lemma add_tags_effect items r r' :
  ready r → Forall item_ok items → proc_iter addUserToTag items r = (r', Ok tt) → ready r' ∧
  ∀ tag, ids tag r' ≡ₚ ids tag r ++ named tag items.
Proof.
  unfold proc_iter. revert r. induction items as [|i items IH]; intros r Hr Hi E.
  { injection E as <-. split; [done|]. intros. by rewrite app_nil_r. }
  apply Forall_cons in Hi as [Hi His]. cbn [proc_fold] in E. proc_as E r1 [] Ha.
  destruct (add_run _ _ _ Hr Hi Ha) as [Hr1 Hids]. destruct (IH _ Hr1 His E) as [Hr' Hids'].
  split; [done|]. intros tag. rewrite (Hids' tag), (Hids tag), named_cons, !app_assoc. f_equiv.
  apply Permutation_app_comm.
Qed.

Lemma named_own tag u inbounds x :
  x ∈ named tag (bulk_item u <$> inbounds) → x = ud_UserID u.
Proof.
  unfold named. intros (i & -> & [_ Hi]%list_elem_of_filter)%list_elem_of_fmap.
  by apply list_elem_of_fmap in Hi as (b & -> & _).
Qed.

Lemma named_app tag l1 l2 : named tag (l1 ++ l2) = named tag l1 ++ named tag l2.
Proof. unfold named. by rewrite filter_app, fmap_app. Qed.

Definition bulk_ids (users : list BulkAddUser) : list string := (λ u, ud_UserID (UserData u)) <$> users.

Lemma add_bulks_effect users r r' :
  ready r → "" ∉ bulk_ids users → NoDup (bulk_ids users) → Forall item_ok (bulk_items users) →
  proc_iter add_bulk users r = (r', Ok tt) → ready r' ∧
  ∀ tag, ids tag r' ≡ₚ filter (λ u, u ∉ bulk_ids users) (ids tag r) ++ named tag (bulk_items users).
Proof.
  unfold proc_iter. revert r. induction users as [|u users IH]; intros r Hr Hne Hnd Hi E.
  { injection E as <-. split; [done|]. intros. cbn. rewrite app_nil_r, filter_true; [done|].
    intros x _. apply not_elem_of_nil. }
  cbn [bulk_ids fmap list_fmap] in Hne, Hnd. apply not_elem_of_cons in Hne as [Hne Hnes].
  apply NoDup_cons in Hnd as [Hnin Hnd]. fold (bulk_ids users) in *.
  change (bulk_items (u :: users)) with ((bulk_item (UserData u) <$> InboundData u) ++ bulk_items users) in *.
  apply Forall_app in Hi as [Hi His]. cbn [proc_fold] in E. proc_as E r2 [] Hb.
  unfold add_bulk in Hb. proc_as Hb r1 [] Hrm.
  destruct (remove_run (ud_UserID (UserData u)) r Hr) as (r1' & Hrm' & Hr1 & Hids0); [done|].
  rewrite Hrm in Hrm'. injection Hrm' as <-.
  assert (proc_iter addUserToTag (bulk_item (UserData u) <$> InboundData u) r1 = (r2, Ok tt)) as Hadd.
  { rewrite <-Hb. apply proc_iter_fmap. }
  destruct (add_tags_effect _ _ _ Hr1 Hi Hadd) as [Hr2 Hids1].
  destruct (IH _ Hr2 Hnes Hnd His E) as [Hr' Hids]. split; [done|]. intros tag.
  rewrite (Hids tag), (Hids1 tag), (Hids0 tag), named_app, filter_app, app_assoc. f_equiv. f_equiv.
  - rewrite list_filter_filter. erewrite list_filter_iff; [reflexivity|].
    intros x. cbn [bulk_ids fmap list_fmap]. rewrite not_elem_of_cons. fold (bulk_ids users). tauto.
  - rewrite filter_true; [done|]. by intros x ->%named_own.
Qed.

Lemma validate_all_ok {A} (check : A → result unit) l :
  validate_all check l = Ok tt → ∀ x, x ∈ l → check x = Ok tt.
Proof.
  unfold validate_all. induction l as [|y l IH]; cbn; intros E x Hx; [by apply not_elem_of_nil in Hx|].
  bind_as E u Hy. destruct u. apply elem_of_cons in Hx as [->|Hx]; [done|by apply IH].
Qed.

Lemma validated_ids request : validate_add_users request = Ok tt → "" ∉ bulk_ids (add_Users request).
Proof.
  intros Hv (u & Hid & Hu)%list_elem_of_fmap. pose proof (validate_all_ok _ _ Hv u Hu) as Hb.
  unfold validate_bulk in Hb. rewrite <-Hid in Hb. done.
Qed.

(** so does an accepted bulk request: its users, each named once, get exactly the
    inbounds listed for them, and the other users keep theirs. *)
Theorem add_users_request ops version request r' tag :
  let r := reached ops version in
  RuntimeState.RunningCore r = RuntimeState.CoreTypeSingBox →
  validate_add_users request = Ok tt → NoDup (bulk_ids (add_Users request)) →
  Forall item_ok (bulk_items (add_Users request)) → tag ≠ "" →
  applyAddUsersRequest request r = (r', Ok tt) →
  RuntimeState.UserID <$> RuntimeState.InboundUsers tag r' ≡ₚ
  filter (λ u, u ∉ bulk_ids (add_Users request)) (RuntimeState.UserID <$> RuntimeState.InboundUsers tag r) ++
  named tag (bulk_items (add_Users request)).
Proof.
  intros r Hrun Hv Hnd Hi Ht E. pose proof (reached_ready _ _ Hrun) as Hr. fold r in Hr.
  destruct (add_bulks_effect _ _ _ Hr (validated_ids _ Hv) Hnd Hi E) as [Hr' Hids].
  rewrite !ready_users by done. apply Hids.
Qed.

Lemma remove_all_effect users r :
  ready r → "" ∉ users → ∃ r', proc_iter removeUserEverywhere users r = (r', Ok tt) ∧ ready r' ∧
  ∀ tag, ids tag r' = filter (λ u, u ∉ users) (ids tag r).
Proof.
  unfold proc_iter. revert r. induction users as [|u users IH]; intros r Hr Hne.
  { exists r. split_and!; [done..|]. intros. rewrite filter_true; [done|]. intros x _. apply not_elem_of_nil. }
  apply not_elem_of_cons in Hne as [Hne Hnes].
  destruct (remove_run u r Hr) as (r1 & Hrm & Hr1 & Hids0); [done|].
  destruct (IH r1 Hr1 Hnes) as (r' & Hit & Hr' & Hids). exists r'. split_and!; [|done|].
  - cbn [proc_fold]. by rewrite (proc_bind_run _ _ _ _ _ Hrm).
  - intros tag. rewrite (Hids tag), (Hids0 tag), list_filter_filter. apply list_filter_iff.
    intros x. rewrite not_elem_of_cons. tauto.
Qed.

(** while sing-box runs an accepted removal succeeds, for any user ids, and takes
    exactly the named users out of every inbound, in order; without a running core it
    fails and changes nothing. *)
Theorem remove_users_request ops version request tag :
  let r := reached ops version in
  let users := ru_UserID <$> remove_Users request in
  validate_remove_users request = Ok tt → tag ≠ "" →
  (RuntimeState.RunningCore r = RuntimeState.CoreTypeSingBox →
   ∃ r', remove_users request r = (r', Ok tt) ∧
     RuntimeState.UserID <$> RuntimeState.InboundUsers tag r' =
     filter (λ u, u ∉ users) (RuntimeState.UserID <$> RuntimeState.InboundUsers tag r)) ∧
  (RuntimeState.RunningCore r = "" → users ≠ [] →
   remove_users request r = (r, Err (ErrMsg "sing-box core is not running"))).
Proof.
  intros r users Hv Ht. assert (remove_users request r = proc_iter removeUserEverywhere users r) as ->.
  { symmetry. apply proc_iter_fmap. }
  split.
  - intros Hrun. pose proof (reached_ready _ _ Hrun) as Hr. fold r in Hr.
    destruct (remove_all_effect users r Hr) as (r' & Hit & Hr' & Hids).
    { unfold users. intros (u & Hid & Hu)%list_elem_of_fmap. pose proof (validate_all_ok _ _ Hv u Hu) as Hb.
      cbn in Hb. rewrite <-Hid in Hb. done. }
    exists r'. split; [exact Hit|]. rewrite !ready_users by done. apply Hids.
  - intros Hrun Hne. destruct users as [|u l]; [done|]. cbn [proc_iter proc_fold].
    assert (removeUserEverywhere u r = (r, Err (ErrMsg "sing-box core is not running"))) as Hu.
    { unfold RuntimeState.RunningCore in Hrun.
      unfold removeUserEverywhere, gets, mbind, proc_bind, RuntimeState.RunningCoreType. by rewrite Hrun. }
    unfold proc_iter. cbn [proc_fold]. by rewrite (proc_bind_run _ _ _ _ _ Hu).
Qed.
End requests.

(** ** The theorems at work *)

Definition demo_ops : list op :=
  let _ : Digest := λ s, s in
  [OpSetSingBoxConfig (applySingBoxAPIConfig (demo_cfg 0) demo_config);
   OpSetRunningCore RuntimeState.CoreTypeSingBox].

Definition demo_item (user : string) : AddUserItem :=
  {| Type_ := "vless"; Tag := "in"; Username := user; Password := ""; UUID := "u-" +:+ user;
     Flow := ""; CipherType := 0; IVCheck := false |}.

Lemma demo_item_ok user : id_ok user → utf8_clean ("u-" +:+ user) = "u-" +:+ user → item_ok (demo_item user).
Proof. intros. by split. Qed.

Lemma id_ok_7 : id_ok "7". Proof. split_and!; [done|vm_compute; reflexivity..]. Qed.
Lemma id_ok_9 : id_ok "9". Proof. split_and!; [done|vm_compute; reflexivity..]. Qed.

Lemma add_user_request_witness :
  let request := {| Data := [demo_item "9"; demo_item "7"]; HashData := {| VLESSUUID := ""; PrevVLESSUUID := "" |} |} in
  let r := reached (H := Merge.sort) demo_ops "1.0" in
  let r' := (applyAddUserRequest request r).1 in
  RuntimeState.UserID <$> RuntimeState.InboundUsers "in" r' ≡ₚ ["8"; "9"; "7"].
Proof.
  intros request r r'. etransitivity.
  - apply (add_user_request (H := Merge.sort) demo_ops "1.0" request r' "in").
    + reflexivity.
    + repeat constructor; try apply demo_item_ok; try apply id_ok_7; try apply id_ok_9; vm_compute; reflexivity.
    + discriminate.
    + vm_compute. reflexivity.
  - vm_compute. reflexivity.
Defined.

Definition demo_bulk (user : string) : BulkAddUser :=
  {| InboundData := [{| in_Type := "vless"; in_Tag := "in"; in_Flow := "" |}];
     UserData := {| ud_UserID := user; HashUUID := ""; ud_VLESSUUID := "v"; TrojanPassword := "t";
                    SSPassword := "s"; AnyTLSPassword := "a"; SnellPSK := "p" |} |}.

Lemma add_users_request_witness :
  let request := {| AffectedInboundTags := ["in"]; add_Users := [demo_bulk "9"; demo_bulk "7"] |} in
  let r := reached (H := Merge.sort) demo_ops "1.0" in
  let r' := (applyAddUsersRequest request r).1 in
  RuntimeState.UserID <$> RuntimeState.InboundUsers "in" r' ≡ₚ ["8"; "9"; "7"].
Proof.
  intros request r r'. etransitivity.
  - apply (add_users_request (H := Merge.sort) demo_ops "1.0" request r' "in").
    + reflexivity.
    + vm_compute. reflexivity.
    + apply (bool_decide_unpack _). vm_compute. exact I.
    + repeat constructor; try apply id_ok_7; try apply id_ok_9; vm_compute; congruence.
    + discriminate.
    + vm_compute. reflexivity.
  - vm_compute. reflexivity.
Defined.

Lemma remove_users_request_witness :
  let request := {| remove_Users := [{| ru_UserID := "7"; ru_HashUUID := "" |}] |} in
  let r := reached (H := Merge.sort) demo_ops "1.0" in
  (∃ r', remove_users request r = (r', Ok tt) ∧
     RuntimeState.UserID <$> RuntimeState.InboundUsers "in" r' =
     filter (λ u, u ∉ ["7"]) (RuntimeState.UserID <$> RuntimeState.InboundUsers "in" r)) ∧
  RuntimeState.UserID <$> RuntimeState.InboundUsers "in" r = ["7"; "8"].
Proof.
  intros request r. split; [|vm_compute; reflexivity].
  apply (proj1 (remove_users_request (H := Merge.sort) demo_ops "1.0" request "in" eq_refl ltac:(discriminate))).
  reflexivity.
Defined.
