(* ===== verification/Activation.v ===== *)
(** * Activation: starting, replacing and restoring the core ([internal/node/manager.go])

    [restartSingBox] checks a candidate configuration, moves it over the current
    one, restarts the core and goes back to the previous configuration when the new
    one does not become healthy.  A [World] is the state of the manager and the
    files; operating system, supervisord and the core answer through [Env], whose
    replies may depend on everything that happened before. *)
From S2P Require Import Prelude GoStr GoTime GoAny GoSort StatName Supervisor RuntimeState NodeConfig SingBoxConfig Users.
Import NodeConfig SingBoxConfig Users.

Module Activation.

(** ** The world *)

Inductive event :=
| EvFile (op path : string)                (* a system call on a file or its directory *)
| EvCheck (candidate : option string)      (* [sing-box check] on this content *)
| EvStop
| EvStart (config : option string)         (* a start, and the configuration file then *)
| EvInfo
| EvStats
| EvVersion.

Abbreviation log := (list event) (only parsing).

(** What the agent talks to; each reply depends on the log, newest event first.
    [temp_name] chooses a name in view of the existing files. *)
Class Env := {
  file_reply : log → option error;
  temp_name : log → gset string → string → string;
  torn : log → string → string;
  check_reply : log → string * option error;
  stop_reply : log → option error;
  start_reply : log → option error;
  info_reply : log → result Supervisor.ProcessInfo;
  stats_reply : log → option error;
  version_reply : log → option string;
  health_waits : log → nat;
  clock : log → time
}.

(** [encoding/json] on decoded values. *)
Class Json := {
  marshal_json : any → string;
  marshal_indent : object → string;
  unmarshal_json : string → result any
}.

Record ApplyResult := {
  status : string; requestedHash : string; activeHash : string; attemptedAt : time;
  appliedAt : option time; rollback : string }.

Record World := {
  runtime : Runtime; files : gmap string string; singBoxApplyResult : option ApplyResult;
  usageCoreRestarted : bool; events : list event }.

Definition set_runtime (r : Runtime) (w : World) : World :=
  {| runtime := r; files := files w; singBoxApplyResult := singBoxApplyResult w;
     usageCoreRestarted := usageCoreRestarted w; events := events w |}.
Definition set_files (f : gmap string string) (w : World) : World :=
  {| runtime := runtime w; files := f; singBoxApplyResult := singBoxApplyResult w;
     usageCoreRestarted := usageCoreRestarted w; events := events w |}.
Definition set_result (a : option ApplyResult) (w : World) : World :=
  {| runtime := runtime w; files := files w; singBoxApplyResult := a;
     usageCoreRestarted := usageCoreRestarted w; events := events w |}.
Definition set_restarted (b : bool) (w : World) : World :=
  {| runtime := runtime w; files := files w; singBoxApplyResult := singBoxApplyResult w;
     usageCoreRestarted := b; events := events w |}.
Definition record (e : event) (w : World) : World :=
  {| runtime := runtime w; files := files w; singBoxApplyResult := singBoxApplyResult w;
     usageCoreRestarted := usageCoreRestarted w; events := e :: events w |}.

(** A procedure of the runtime state, in the world. *)
Definition on_runtime {A} (m : proc Runtime A) : proc World A := λ w,
  let '(r, a) := m (runtime w) in (set_runtime r w, a).
Definition change (f : Runtime → Runtime) : proc World unit := modify (λ w, set_runtime (f (runtime w)) w).
Definition read {A} (f : Runtime → A) : proc World A := gets (λ w, f (runtime w)).

Definition as_result (e : option error) : result unit := match e with Some e => Err e | None => Ok tt end.

Section env.
Context {EnvI : Env} {JsonI : Json} {DigestI : Digest} (cfg : Config).

(** ** Files *)

(** A call that may fail, before it has any effect. *)
Definition file_call (op path : string) : proc World unit := λ w,
  let w := record (EvFile op path) w in (w, as_result (file_reply (events w))).

Definition now : proc World time := gets (λ w, clock (events w)).

(** [os.CreateTemp]: a new empty file. *)
Definition create_temp (target : string) : proc World string :=
  _ ← file_call "createtemp" target;
  path ← gets (λ w, temp_name (events w) (dom (files w)) target);
  _ ← modify (λ w, set_files (<[path := ""]> (files w)) w);
  mret path.

(** A write that fails may have written a part. *)
Definition write_file (path data : string) : proc World unit := λ w,
  let w := record (EvFile "write" path) w in
  match file_reply (events w) with
  | Some e => (set_files (<[path := torn (events w) data]> (files w)) w, Err e)
  | None => (set_files (<[path := data]> (files w)) w, Ok tt)
  end.

Definition rename (from to : string) : proc World unit :=
  _ ← file_call "rename" from;
  f ← gets files;
  match f !! from with
  | Some data => modify (set_files (<[to := data]> (delete from f)))
  | None => throw (ErrMsg "no such file or directory")
  end.

(** [os.Remove], where a missing file is not an error. *)
Definition remove (path : string) : proc World unit :=
  _ ← file_call "remove" path;
  modify (λ w, set_files (delete path (files w)) w).

(** [os.ReadFile], where a missing file is not an error. *)
Definition readOptionalFile (path : string) : proc World (option string) :=
  _ ← file_call "read" path;
  gets (λ w, files w !! path).

Definition syncDirectory (path : string) : proc World unit :=
  _ ← file_call "opendir" path;
  file_call "syncdir" path.

Definition writeCandidateFile (target data : string) : proc World string :=
  path ← create_temp target;
  r ← attempt (_ ← file_call "fchmod" path;
               _ ← write_file path data;
               _ ← file_call "fsync" path;
               file_call "close" path);
  match r with
  | Err e => _ ← attempt (remove path); throw e
  | Ok _ => mret path
  end.

Definition writeFileAtomic (target data : string) : proc World unit :=
  _ ← file_call "mkdir" target;
  temporary ← writeCandidateFile target data;
  r ← attempt (_ ← file_call "chmod" temporary;
               _ ← rename temporary target;
               syncDirectory target);
  _ ← attempt (remove temporary);
  lift r.

Definition restoreOptionalFile (path : string) (previous : option string) : proc World unit :=
  match previous with
  | Some data => writeFileAtomic path data
  | None => _ ← remove path; syncDirectory path
  end.

(** ** Processes *)

Definition StopProcess : proc World unit := λ w,
  let w := record EvStop w in (w, as_result (stop_reply (events w))).
(** supervisord starts the core on the file at [path]. *)
Definition StartProcess (path : string) : proc World unit := λ w,
  let w := record (EvStart (files w !! path)) w in (w, as_result (start_reply (events w))).
Definition GetProcessInfo : proc World Supervisor.ProcessInfo := λ w,
  let w := record EvInfo w in (w, info_reply (events w)).
Definition stats_System : proc World unit := λ w,
  let w := record EvStats w in (w, as_result (stats_reply (events w))).

Definition refreshOnlineStatus : proc World unit :=
  info ← attempt GetProcessInfo;
  change (RuntimeState.SetOnlineStatus
    (match info with Ok i => (Supervisor.State i =? Supervisor.StateRunning)%Z | Err _ => false end)).

Definition checkSingBoxConfig (candidate : string) : proc World unit := λ w,
  let w := record (EvCheck (files w !! candidate)) w in
  match check_reply (events w) with
  | (_, None) => (w, Ok tt)
  | (output, Some e) =>
      let message := trim_space output in
      let message := if (2048 <? slen message)%Z then String.substring 0 2048 message +:+ "..." else message in
      (w, Err (if bool_decide (message = "") then ErrWrap "sing-box configuration preflight failed" e
               else ErrWrap ("sing-box configuration preflight failed: " +:+ message) e))
  end.

Definition unhealthy : error → error := ErrWrap "sing-box failed health confirmation".

(** One look at the core: healthy, not yet (and why), or gone for good. *)
Inductive health := Healthy | NotYet (e : error) | Gone (e : error).

Definition poll_health : proc World health :=
  info ← attempt GetProcessInfo;
  match info with
  | Err e => mret (NotYet (ErrWrap "query supervisord" e))
  | Ok info =>
      if (Supervisor.State info =? Supervisor.StateRunning)%Z then
        r ← attempt stats_System;
        mret (match r with
              | Ok _ => Healthy
              | Err e => NotYet (ErrWrap "sing-box internal statistics API is unavailable" e)
              end)
      else
        let e := ErrMsg ("supervisord reports sing-box state " +:+ Supervisor.StateName info +:+ " (" +:+
                         itoa (Supervisor.State info) +:+ "): " +:+ Supervisor.Raw info) in
        mret (if bool_decide (Supervisor.State info ∈ [Supervisor.StateFatal; Supervisor.StateExited; Supervisor.StateStopped]) then Gone e else NotYet e)
  end.

(** The loop until the deadline, after [waits] timers. *)
Fixpoint poll_until_healthy (waits : nat) : proc World unit :=
  h ← poll_health;
  match h with
  | Healthy => mret tt
  | Gone e => throw (unhealthy e)
  | NotYet e => match waits with
                | O => throw (unhealthy e)
                | S waits => poll_until_healthy waits
                end
  end.

Definition waitForSingBoxHealthy : proc World unit :=
  waits ← gets (λ w, health_waits (events w));
  poll_until_healthy waits.

(** ** Activation *)

Definition hashConfigBytes (data : string) : string :=
  sha256_hex (match unmarshal_json data with Ok v => marshal_json v | Err _ => data end).

Definition newSingBoxApplyResult (status requestedHash activeHash : string) (attemptedAt : time)
    (appliedAt : option time) (rollback : string) : ApplyResult :=
  {| status := status; requestedHash := requestedHash; activeHash := activeHash;
     attemptedAt := attemptedAt; appliedAt := appliedAt; rollback := rollback |}.

Definition report (a : ApplyResult) : proc World unit := modify (set_result (Some a)).

(** [if err := m; err != nil { m.singBoxApplyResult = a; return fmt.Errorf(msg, err) }] *)
Definition or_report {A} (m : proc World A) (a : ApplyResult) (wrap : error → error) : proc World A :=
  r ← attempt m;
  match r with
  | Ok x => mret x
  | Err e => _ ← report a; throw (wrap e)
  end.

Definition configPath : string :=
  if bool_decide (SingBoxConfigPath cfg = "") then "/run/remnawave/sing-box.json" else SingBoxConfigPath cfg.
Definition singBoxLastGoodPath : string :=
  if bool_decide (SingBoxLastGoodPath cfg = "") then configPath +:+ ".last-good" else SingBoxLastGoodPath cfg.

(** What an activation remembers of the situation before it. *)
Record previous := {
  previousCore : string; previousRuntimeConfig : object; previousConfig : option string;
  pv_requestedHash : string; previousHash : string; pv_attemptedAt : time }.

Definition from_singbox (p : previous) : bool :=
  bool_decide (previousCore p = RuntimeState.CoreTypeSingBox).
Definition has_previous (p : previous) : bool := bool_decide (is_Some (previousConfig p)).

(** The first half of [rollbackSingBox]: both files as before, as far as possible. *)
Definition restore_files (p : previous) : proc World (result unit) :=
  restored ← attempt (restoreOptionalFile configPath (previousConfig p));
  restored ← (if has_previous p then mret restored else
    lastGood ← attempt (readOptionalFile singBoxLastGoodPath);
    match lastGood with
    | Err e => mret (Err e)
    | Ok (Some data) => if from_singbox p then attempt (writeFileAtomic configPath data) else mret restored
    | Ok None => mret restored
    end);
  match restored, previousConfig p with
  | Ok _, Some data => if from_singbox p then attempt (writeFileAtomic singBoxLastGoodPath data) else mret restored
  | _, _ => mret restored
  end.

Definition rollbackSingBox (p : previous) : proc World unit :=
  _ ← attempt StopProcess;
  restored ← restore_files p;
  match restored with
  | Err e =>
      _ ← change (RuntimeState.SetRunningCore "");
      _ ← refreshOnlineStatus;
      throw (ErrWrap "restore sing-box configuration" e)
  | Ok _ =>
      started ← (if from_singbox p then
                   _ ← change (RuntimeState.SetSingBoxConfig (previousRuntimeConfig p));
                   attempt (StartProcess configPath)
                 else mret (Ok tt));
      match started with
      | Err e =>
          _ ← change (RuntimeState.SetRunningCore "");
          _ ← refreshOnlineStatus;
          throw (ErrWrap "restart previous core" e)
      | Ok _ =>
          _ ← change (RuntimeState.SetRunningCore (previousCore p));
          refreshOnlineStatus
      end
  end.

Definition failSingBoxActivation (activationErr : error) (p : previous) : proc World unit :=
  r ← attempt (rollbackSingBox p);
  match r with
  | Err e =>
      _ ← report (newSingBoxApplyResult "FAILED" (pv_requestedHash p) (previousHash p) (pv_attemptedAt p) None "FAILED");
      throw (ErrWrap "rollback failed" activationErr)
  | Ok _ =>
      if bool_decide (previousCore p = "") && negb (has_previous p) then
        _ ← report (newSingBoxApplyResult "FAILED" (pv_requestedHash p) "" (pv_attemptedAt p) None "NOT_AVAILABLE");
        throw (ErrWrap "first activation failed and no previous configuration or core was available" activationErr)
      else
        rolledBackAt ← now;
        _ ← report (newSingBoxApplyResult "ROLLED_BACK" (pv_requestedHash p) (previousHash p) (pv_attemptedAt p)
                      (Some rolledBackAt) "SUCCEEDED");
        throw (ErrWrap "previous configuration and core restored" activationErr)
  end.

(** [json.Unmarshal(data, &m)] into a map that holds entries: an object is merged in. *)
Definition unmarshal_into (data : string) (m : object) : result object :=
  v ← unmarshal_json data;
  match v with
  | AObj m' => Ok (m' ∪ m)
  | ANil => Ok ∅
  | _ => Err (ErrMsg "json: cannot unmarshal into Go value of type map[string]interface {}")
  end.

(** From the current configuration to the rename of the candidate over it. *)
Definition prepare (candidate requested : string) (attempted : time) : proc World previous :=
  core ← read RuntimeState.RunningCoreType;
  let failed hash := newSingBoxApplyResult "FAILED" requested hash attempted None "NOT_REQUIRED" in
  file ← or_report (readOptionalFile configPath) (failed "") (ErrWrap "read current sing-box configuration");
  stored ← read RuntimeState.SingBoxConfig;
  let running := bool_decide (core = RuntimeState.CoreTypeSingBox) in
  stored ← (match file with
    | Some data => if running
        then or_report (lift (unmarshal_into data stored)) (failed "")
               (ErrWrap "decode current sing-box configuration for rollback")
        else mret stored
    | None => mret stored
    end);
  let p := {| previousCore := core; previousRuntimeConfig := stored; previousConfig := file;
              pv_requestedHash := requested; previousHash := from_option hashConfigBytes "" file;
              pv_attemptedAt := attempted |} in
  checked ← attempt (checkSingBoxConfig candidate);
  _ ← (match checked with
    | Ok _ => mret tt
    | Err e =>
        _ ← when (from_singbox p && has_previous p)
              (change (RuntimeState.SetSingBoxConfig (previousRuntimeConfig p)));
        _ ← report (newSingBoxApplyResult "REJECTED" requested (previousHash p) attempted None "NOT_REQUIRED");
        throw e
    end);
  _ ← (match file with
    | Some data => when running (or_report (writeFileAtomic singBoxLastGoodPath data) (failed (previousHash p))
                     (ErrWrap "save current sing-box configuration as last-known-good"))
    | None => mret tt
    end);
  _ ← or_report (file_call "chmod" candidate) (failed (previousHash p)) (ErrWrap "set sing-box candidate permissions");
  _ ← or_report (rename candidate configPath) (failed (previousHash p))
        (ErrWrap "activate sing-box candidate configuration");
  mret p.

(** With the candidate in place: sync, restart, wait. *)
Definition activate (config : object) (encoded : string) (p : previous) : proc World unit :=
  synced ← attempt (syncDirectory configPath);
  match synced with
  | Err e =>
      restored ← attempt (restoreOptionalFile configPath (previousConfig p));
      match restored with
      | Err _ =>
          _ ← report (newSingBoxApplyResult "FAILED" (pv_requestedHash p) (previousHash p) (pv_attemptedAt p) None "FAILED");
          throw (ErrWrap "sync sing-box configuration directory; restore current configuration" e)
      | Ok _ =>
          _ ← report (newSingBoxApplyResult "FAILED" (pv_requestedHash p) (previousHash p) (pv_attemptedAt p) None "SUCCEEDED");
          throw (ErrWrap "sync sing-box configuration directory" e)
      end
  | Ok _ =>
      _ ← attempt StopProcess;
      started ← attempt (StartProcess configPath);
      match started with
      | Err e => failSingBoxActivation (ErrWrap "start sing-box" e) p
      | Ok _ =>
          healthy ← attempt waitForSingBoxHealthy;
          match healthy with
          | Err e => failSingBoxActivation e p
          | Ok _ =>
              saved ← attempt (writeFileAtomic singBoxLastGoodPath encoded);
              match saved with
              | Err e => failSingBoxActivation (ErrWrap "persist sing-box last-known-good configuration" e) p
              | Ok _ =>
                  applied ← now;
                  _ ← report (newSingBoxApplyResult "APPLIED" (pv_requestedHash p) (pv_requestedHash p)
                                (pv_attemptedAt p) (Some applied) "NOT_REQUIRED");
                  _ ← change (RuntimeState.SetSingBoxConfig config);
                  _ ← change (RuntimeState.SetRunningCore RuntimeState.CoreTypeSingBox);
                  refreshOnlineStatus
              end
          end
      end
  end.

Definition restartSingBox (config : object) : proc World unit :=
  let config := applySingBoxAPIConfig cfg (cloneMap config) in
  made ← attempt (file_call "mkdir" configPath);
  _ ← (match made with
       | Ok _ => mret tt
       | Err e => throw (ErrWrap "create sing-box configuration directory" e)
       end);
  let encoded := marshal_indent config in
  attempted ← now;
  let requested := hashConfigBytes encoded in
  _ ← report (newSingBoxApplyResult "PENDING" requested "" attempted None "NOT_REQUIRED");
  candidate ← or_report (writeCandidateFile configPath encoded)
                (newSingBoxApplyResult "FAILED" requested "" attempted None "NOT_REQUIRED")
                (ErrWrap "write sing-box candidate configuration");
  prepared ← attempt (prepare candidate requested attempted);
  match prepared with
  | Err e => _ ← attempt (remove candidate); throw e
  | Ok p => activate config encoded p
  end.

Definition restartCurrentCore : proc World unit :=
  _ ← change RuntimeState.MarkHashesDirty;
  core ← read RuntimeState.RunningCoreType;
  if bool_decide (core = RuntimeState.CoreTypeSingBox) then
    config ← read RuntimeState.SingBoxConfig;
    restartSingBox config
  else mret tt.

End env.
End Activation.
