(* ===== verification/ActivationSpec.v ===== *)
(** * What an activation guarantees

    [restart_transaction]: an activation of a new configuration either succeeds, or
    leaves the core alone, or goes back to the previous configuration, or says that
    it could not.  [start_only_checked]: no configuration reaches the core unchecked. *)
From S2P Require Import Prelude GoStr GoTime GoAny GoSort StatName Supervisor RuntimeState RuntimeSpec NodeConfig SingBoxConfig ConfigSpec Users UsersSpec Activation.
Import NodeConfig SingBoxConfig Users Activation.

(** ** Quiet steps: files only *)

Definition is_quiet (e : event) : bool :=
  match e with EvStop | EvStart _ => false | _ => true end.

(** Nothing was asked of the core between the two worlds. *)
Definition untouched (w w' : World) : Prop :=
  ∃ es, events w' = es ++ events w ∧ forallb is_quiet es = true.

Definition quiet (w w' : World) : Prop :=
  runtime w' = runtime w ∧ singBoxApplyResult w' = singBoxApplyResult w ∧
  usageCoreRestarted w' = usageCoreRestarted w ∧ untouched w w'.

#[export] Instance untouched_refl : Reflexive untouched.
Proof. intros w. by exists []. Qed.
#[export] Instance untouched_trans : Transitive untouched.
Proof.
  intros w1 w2 w3 (es1 & E1 & Q1) (es2 & E2 & Q2). exists (es2 ++ es1).
  rewrite E2, E1, app_assoc, forallb_app, Q1, Q2. done.
Qed.
#[export] Instance quiet_refl : Reflexive quiet.
Proof. intros w. by split_and!. Qed.
#[export] Instance quiet_trans : Transitive quiet.
Proof.
  intros w1 w2 w3 (? & ? & ? & ?) (? & ? & ? & ?). unfold quiet.
  split_and!; try congruence. by transitivity w2.
Qed.

Lemma quiet_untouched w w' : quiet w w' → untouched w w'.
Proof. by intros (_ & _ & _ & ?). Qed.

#[export] Hint Resolve quiet_untouched untouched_refl : node.

Section files.
Context `{Env}.

Lemma file_call_spec op path w w' r :
  file_call op path w = (w', r) → quiet w w' ∧ files w' = files w.
Proof. intros [= <- <-]. split; [|done]. split_and!; try done. by eexists [_]. Qed.

Lemma remove_spec path w w' r :
  remove path w = (w', r) → quiet w w' ∧ ∀ k, k ≠ path → files w' !! k = files w !! k.
Proof.
  intros E. unfold remove in E. step E w1 a H1. apply file_call_spec in H1 as [Hq Hf].
  destruct a as [u|e]; [|destruct E as [-> ->]; by rewrite Hf].
  injection E as <- <-. split; [exact Hq|]. intros k Hk. cbn. by rewrite lookup_delete_ne, Hf.
Qed.

Lemma remove_ok path w w' u : remove path w = (w', Ok u) → files w' !! path = None.
Proof.
  intros E. unfold remove in E. proc_as E w1 x H1. injection E as <-. cbn. apply lookup_delete_eq.
Qed.

Lemma rename_spec from to w w' r :
  rename from to w = (w', r) → from ≠ to → quiet w w' ∧
  match r with
  | Ok _ => ∃ data, files w !! from = Some data ∧ files w' = <[to := data]> (delete from (files w))
  | Err _ => files w' = files w
  end.
Proof.
  intros E Hne. unfold rename in E. step E w1 a H1. apply file_call_spec in H1 as [Hq Hf].
  destruct a as [u|e]; [|destruct E as [-> ->]; by rewrite Hf].
  unfold gets, mbind, proc_bind in E. rewrite Hf in E. destruct (files w !! from) as [data|] eqn:Hd.
  - injection E as <- <-. split; [exact Hq|]. exists data. done.
  - injection E as <- <-. by rewrite Hf.
Qed.

Lemma write_file_spec path data w w' r :
  write_file path data w = (w', r) → quiet w w' ∧ (∀ k, k ≠ path → files w' !! k = files w !! k) ∧
  match r with Ok _ => files w' !! path = Some data | Err _ => True end.
Proof.
  unfold write_file. destruct (file_reply _); intros [= <- <-]; (split; [|split]);
    try (split_and!; try done; by eexists [_]);
    try (intros k Hk; cbn; by rewrite lookup_insert_ne); try done.
  cbn. apply lookup_insert_eq.
Qed.

Lemma syncDirectory_spec path w w' r :
  syncDirectory path w = (w', r) → quiet w w' ∧ files w' = files w.
Proof.
  intros E. unfold syncDirectory in E. step E w1 a H1. apply file_call_spec in H1 as [Hq Hf].
  destruct a; [|destruct E as [-> ->]; done].
  apply file_call_spec in E as [Hq2 Hf2]. split; [by transitivity w1|congruence].
Qed.

Lemma readOptionalFile_spec path w w' r :
  readOptionalFile path w = (w', r) → quiet w w' ∧ files w' = files w ∧
  match r with Ok d => d = files w !! path | Err _ => True end.
Proof.
  intros E. unfold readOptionalFile in E. step E w1 a H1. apply file_call_spec in H1 as [Hq Hf].
  destruct a; [|by destruct E as [-> ->]]. injection E as <- <-. by rewrite Hf.
Qed.
End files.

(** ** Whole files: temporary file, then rename *)

Section atomic.
Context `{Env}.
(** Temporary files get new names, none of the kept ones. *)
Context (kept : string → Prop).
Context (Htemp : ∀ l existing target, ¬ kept (temp_name l existing target) ∧ temp_name l existing target ∉ existing).

(** The files that were there, and the kept ones, are as before, except [t]. *)
Definition stays (w : World) (k : string) : Prop := kept k ∨ is_Some (files w !! k).
Definition same_but (t : string) (w w' : World) : Prop :=
  ∀ k, stays w k → k ≠ t → files w' !! k = files w !! k.
Definition same_kept (w w' : World) : Prop := ∀ k, stays w k → files w' !! k = files w !! k.

Lemma same_files w w' : files w' = files w → same_kept w w'.
Proof. intros E k _. by rewrite E. Qed.

Lemma new_name w path k : stays w k → ¬ kept path → files w !! path = None → k ≠ path.
Proof. intros [Hk|[x Hk]] Hp Hn ->; [done|congruence]. Qed.

Lemma create_temp_spec target w w' r :
  create_temp target w = (w', r) → quiet w w' ∧ same_kept w w' ∧
  match r with Ok path => ¬ kept path ∧ files w !! path = None | Err _ => True end.
Proof.
  intros E. unfold create_temp in E. step E w1 a H1. apply file_call_spec in H1 as [Hq Hf].
  destruct a; [|destruct E as [-> ->]; split_and!; [exact Hq|by apply same_files|done]].
  injection E as <- <-. destruct (Htemp (events w1) (dom (files w1)) target) as [Hk Hd].
  assert (files w !! temp_name (events w1) (dom (files w1)) target = None) as Hn.
  { rewrite Hf in *. by apply not_elem_of_dom in Hd. }
  split_and!; [exact Hq| |done..]. intros k Hs. cbn. rewrite lookup_insert_ne; [by rewrite Hf|].
  symmetry. by eapply new_name.
Qed.

Lemma write_temp_spec path data w w' r :
  (_ ← file_call "fchmod" path; _ ← write_file path data; _ ← file_call "fsync" path; file_call "close" path) w
    = (w', r) → quiet w w' ∧ (∀ k, k ≠ path → files w' !! k = files w !! k) ∧
  match r with Ok _ => files w' !! path = Some data | Err _ => True end.
Proof.
  intros E. step E w1 a H1. apply file_call_spec in H1 as [Hq1 Hf1].
  destruct a; [|destruct E as [-> ->]; split_and!; [exact Hq1|by intros; rewrite Hf1|done]].
  step E w2 b H2. apply write_file_spec in H2 as (Hq2 & Ho & Hd). rewrite Hf1 in Ho.
  assert (quiet w w2) as Hq by by transitivity w1.
  destruct b; [|destruct E as [-> ->]; by split_and!].
  step E w3 c H3. apply file_call_spec in H3 as [Hq3 Hf3]. rewrite <-Hf3 in Ho, Hd.
  assert (quiet w w3) as Hq' by by transitivity w2.
  destruct c; [|destruct E as [-> ->]; by split_and!].
  apply file_call_spec in E as [Hq4 Hf4]. rewrite <-Hf4 in Ho, Hd.
  split_and!; [by transitivity w3|done|by destruct r].
Qed.

Lemma writeCandidateFile_spec target data w w' r :
  writeCandidateFile target data w = (w', r) → quiet w w' ∧ same_kept w w' ∧
  match r with
  | Ok path => ¬ kept path ∧ files w !! path = None ∧ files w' !! path = Some data
  | Err _ => True
  end.
Proof.
  intros E. unfold writeCandidateFile in E. step E w1 path H1. apply create_temp_spec in H1 as (Hq1 & Hs1 & Hp).
  destruct path as [path|]; [|destruct E as [-> ->]; by split_and!]. destruct Hp as [Hp Hn].
  step_attempt E w2 a H2. apply write_temp_spec in H2 as (Hq2 & Ho2 & Hd).
  assert (quiet w w2) by by transitivity w1.
  assert (same_kept w w2) as Hs.
  { intros k Hk. rewrite Ho2 by (by eapply new_name). by apply Hs1. }
  destruct a; [injection E as <- <-; by split_and!|].
  step_attempt E w3 b H3. apply remove_spec in H3 as [Hq3 Ho3]. injection E as <- <-.
  split_and!; [by transitivity w2| |done]. intros k Hk. rewrite Ho3 by (by eapply new_name). by apply Hs.
Qed.

Lemma move_spec temporary target data w w' r :
  temporary ≠ target → files w !! temporary = Some data →
  (_ ← file_call "chmod" temporary; _ ← rename temporary target; syncDirectory target) w = (w', r) →
  quiet w w' ∧ (∀ k, k ≠ target → k ≠ temporary → files w' !! k = files w !! k) ∧
  match r with
  | Ok _ => files w' !! target = Some data
  | Err _ => files w' !! target = files w !! target ∨ files w' !! target = Some data
  end.
Proof.
  intros Hne Hd E. step E w1 a H1. apply file_call_spec in H1 as [Hq1 Hf1].
  destruct a; [|destruct E as [-> ->]; split_and!; [exact Hq1|by intros; rewrite Hf1|left; by rewrite Hf1]].
  step E w2 b H2. apply rename_spec in H2 as [Hq2 Hr]; [|done]. rewrite Hf1 in Hr.
  assert (quiet w w2) as Hq by by transitivity w1.
  destruct b; [|destruct E as [-> ->]; split_and!; [exact Hq|by intros; rewrite Hr|left; by rewrite Hr]].
  destruct Hr as (d & Hd' & Hf2). assert (d = data) as -> by congruence.
  apply syncDirectory_spec in E as [Hq3 Hf3]. rewrite Hf3, Hf2, lookup_insert_eq. split_and!.
  - by transitivity w2.
  - intros k H1 H2. by rewrite lookup_insert_ne, lookup_delete_ne.
  - destruct r; [done|by right].
Qed.

Lemma writeFileAtomic_spec target data w w' r :
  kept target → writeFileAtomic target data w = (w', r) → quiet w w' ∧ same_but target w w' ∧
  match r with
  | Ok _ => files w' !! target = Some data
  | Err _ => files w' !! target = files w !! target ∨ files w' !! target = Some data
  end.
Proof.
  intros Ht E. unfold writeFileAtomic in E. step E w1 a H1. apply file_call_spec in H1 as [Hq1 Hf1].
  destruct a; [|destruct E as [-> ->]; split_and!; [exact Hq1|by intros k; rewrite Hf1|left; by rewrite Hf1]].
  step E w2 tmp H2. apply writeCandidateFile_spec in H2 as (Hq2 & Hs2 & Htmp).
  assert (quiet w w2) as Hq by by transitivity w1.
  assert (same_kept w w2) as Hs. { intros k Hk. rewrite <-Hf1. apply Hs2. unfold stays. by rewrite Hf1. }
  destruct tmp as [tmp|]; [|destruct E as [-> ->]; split_and!; [exact Hq|by intros k Hk _; apply Hs|left; apply Hs; by left]].
  destruct Htmp as (Htmp & Hn & Hd). rewrite Hf1 in Hn. assert (tmp ≠ target) as Hne by congruence.
  step_attempt E w3 b H3. apply (move_spec _ _ data) in H3 as (Hq3 & Hs3 & Hr3); try done.
  step_attempt E w4 c H4. apply remove_spec in H4 as [Hq4 Ho4]. injection E as <- <-.
  rewrite Ho4 by done. split_and!.
  - transitivity w3; [by transitivity w2|done].
  - intros k Hk Hk'. assert (k ≠ tmp) by (by eapply new_name). rewrite Ho4, Hs3 by done. by apply Hs.
  - destruct b; [done|]. rewrite <-(Hs target); [done|by left].
Qed.

Lemma restoreOptionalFile_spec target prev w w' r :
  kept target → restoreOptionalFile target prev w = (w', r) → quiet w w' ∧ same_but target w w' ∧
  match r with Ok _ => files w' !! target = prev | Err _ => True end.
Proof.
  intros Ht E. destruct prev as [data|]; cbn [restoreOptionalFile] in E.
  { apply writeFileAtomic_spec in E as (Hq & Hs & Hr); [|done]. split_and!; [done..|]. by destruct r. }
  step E w1 a H1. pose proof (remove_spec _ _ _ _ H1) as [Hq1 Ho1].
  assert (same_but target w w1) as Hs by (intros k _ Hne; by apply Ho1).
  destruct a as [u|]; [|destruct E as [-> ->]; by split_and!]. apply remove_ok in H1.
  apply syncDirectory_spec in E as [Hq2 Hf2]. split_and!.
  - by transitivity w1.
  - intros k Hk Hne. rewrite Hf2. by apply Hs.
  - rewrite Hf2. by destruct r.
Qed.
End atomic.

(** ** The core *)

(** The last thing asked of the core is a start on this configuration, which
    supervisord confirmed. *)
Definition core_on `{Env} (c : option string) (w : World) : Prop :=
  ∃ es rest, events w = es ++ EvStart c :: rest ∧ forallb is_quiet es = true ∧
    start_reply (EvStart c :: rest) = None.

(** The files, the report and the marker are as before, and nothing was asked of the core. *)
Definition looked (w w' : World) : Prop :=
  files w' = files w ∧ singBoxApplyResult w' = singBoxApplyResult w ∧
  usageCoreRestarted w' = usageCoreRestarted w ∧ untouched w w'.

#[export] Instance looked_refl : Reflexive looked.
Proof. intros w. by split_and!. Qed.
#[export] Instance looked_trans : Transitive looked.
Proof.
  intros w1 w2 w3 (? & ? & ? & ?) (? & ? & ? & ?). unfold looked.
  split_and!; try congruence. by transitivity w2.
Qed.

Section core.
Context `{Env}.

Lemma core_on_untouched c w w' : untouched w w' → core_on c w → core_on c w'.
Proof.
  intros (es & E & Q) (es1 & rest & E1 & Q1 & Hs). exists (es ++ es1), rest.
  rewrite E, E1, app_assoc, forallb_app, Q, Q1. done.
Qed.

Lemma GetProcessInfo_spec w w' r :
  GetProcessInfo w = (w', r) → looked w w' ∧ runtime w' = runtime w.
Proof. intros [= <- <-]. split; [|done]. split_and!; try done. by eexists [_]. Qed.

Lemma stats_System_spec w w' r :
  stats_System w = (w', r) → looked w w' ∧ runtime w' = runtime w.
Proof. intros [= <- <-]. split; [|done]. split_and!; try done. by eexists [_]. Qed.

Lemma poll_health_spec w w' r :
  poll_health w = (w', r) → looked w w' ∧ runtime w' = runtime w.
Proof.
  intros E. unfold poll_health in E. step_attempt E w1 a H1. apply GetProcessInfo_spec in H1 as [Hl Hr].
  destruct a as [info|e]; [|by injection E as <- <-].
  destruct (Supervisor.State info =? Supervisor.StateRunning)%Z; [|by injection E as <- <-].
  step_attempt E w2 b H2. apply stats_System_spec in H2 as [Hl2 Hr2]. injection E as <- <-.
  split; [by transitivity w1|congruence].
Qed.

Lemma poll_until_healthy_spec waits w w' r :
  poll_until_healthy waits w = (w', r) → looked w w' ∧ runtime w' = runtime w.
Proof.
  revert w. induction waits as [|waits IH]; intros w E; cbn [poll_until_healthy] in E;
    step E w1 h H1; apply poll_health_spec in H1 as [Hl Hr];
    (destruct h as [[|e|e]|e]; [|..|destruct E as [-> ->]; done]); try by injection E as <- <-.
  apply IH in E as [Hl2 Hr2]. split; [by transitivity w1|congruence].
Qed.

Lemma waitForSingBoxHealthy_spec w w' r :
  waitForSingBoxHealthy w = (w', r) → looked w w' ∧ runtime w' = runtime w.
Proof. intros E. unfold waitForSingBoxHealthy in E. step E w1 n H1. injection H1 as <- <-. by eapply poll_until_healthy_spec. Qed.

Lemma refreshOnlineStatus_spec w w' r :
  refreshOnlineStatus w = (w', r) → r = Ok tt ∧ looked w w' ∧
  ∃ b, runtime w' = RuntimeState.SetOnlineStatus b (runtime w).
Proof.
  intros E. unfold refreshOnlineStatus in E. step_attempt E w1 a H1. apply GetProcessInfo_spec in H1 as [Hl Hr].
  injection E as <- <-. split_and!; [done|exact Hl|]. eexists. cbn. by rewrite Hr.
Qed.

Lemma checkSingBoxConfig_spec candidate w w' r :
  checkSingBoxConfig candidate w = (w', r) → looked w w' ∧ runtime w' = runtime w ∧
  match r with
  | Ok _ => events w' = EvCheck (files w !! candidate) :: events w ∧ (check_reply (events w')).2 = None
  | Err _ => True
  end.
Proof.
  unfold checkSingBoxConfig. destruct (check_reply _) as [output [e|]] eqn:Hc; intros [= <- <-];
    (split; [split_and!; try done; by eexists [_]|split; [done|]]); [done|]. split; [done|]. cbn. cbn in Hc. by rewrite Hc.
Qed.

Lemma StartProcess_spec path w w' r :
  StartProcess path w = (w', r) → files w' = files w ∧ runtime w' = runtime w ∧
  singBoxApplyResult w' = singBoxApplyResult w ∧ usageCoreRestarted w' = usageCoreRestarted w ∧
  events w' = EvStart (files w !! path) :: events w ∧
  match r with Ok _ => core_on (files w !! path) w' | Err _ => True end.
Proof.
  unfold StartProcess. intros [= <- <-]. split_and!; try done. cbn.
  destruct (start_reply _) eqn:Es; [done|]. cbn. exists [], (events w). by cbn.
Qed.

Lemma StopProcess_spec w w' r :
  StopProcess w = (w', r) → files w' = files w ∧ runtime w' = runtime w ∧
  singBoxApplyResult w' = singBoxApplyResult w ∧ usageCoreRestarted w' = usageCoreRestarted w ∧
  events w' = EvStop :: events w.
Proof. by intros [= <- <-]. Qed.
End core.

(** ** Going back *)

Section transaction.
Context {EnvI : Env} {JsonI : Json} {DigestI : Digest} (cfg : Config).

Abbreviation P := (configPath cfg).
Abbreviation L := (singBoxLastGoodPath cfg).

(** The two files the agent keeps; temporary files have other names. *)
Definition own_file (k : string) : Prop := k = P ∨ k = L.
Definition paths_ok : Prop := P ≠ L ∧
  ∀ l existing target, ¬ own_file (temp_name l existing target) ∧ temp_name l existing target ∉ existing.
Context (Hpaths : paths_ok).

Lemma own_P : own_file P. Proof. by left. Qed.
Lemma own_L : own_file L. Proof. by right. Qed.
Lemma stays_P w : stays own_file w P. Proof. left. apply own_P. Qed.
Lemma stays_L w : stays own_file w L. Proof. left. apply own_L. Qed.
Hint Resolve own_P own_L stays_P stays_L : core.
Create HintDb grow.

Definition stopped (w : World) : Prop := RuntimeState.running (runtime w) = "".

Lemma stop_core_spec {A} msg e w w' (r : result A) :
  (_ ← change (RuntimeState.SetRunningCore ""); _ ← refreshOnlineStatus; throw (ErrWrap msg e)) w = (w', r) →
  r = Err (ErrWrap msg e) ∧ stopped w' ∧ looked w w'.
Proof.
  intros E. step E w1 a H1. injection H1 as <- <-. step E w2 b H2.
  apply refreshOnlineStatus_spec in H2 as (-> & Hl & (o & Hr)). injection E as <- <-.
  split_and!; [done| |exact Hl]. unfold stopped. by rewrite Hr.
Qed.

(** The two files after restoring them. *)
Definition restored (p : previous) (w : World) : Prop :=
  ∀ data, previousConfig p = Some data →
    files w !! P = Some data ∧ (from_singbox p = true → files w !! L = Some data).

(** What a rollback that succeeds ends in. *)
Definition rolled_back (p : previous) (w : World) : Prop :=
  restored p w ∧ RuntimeState.running (runtime w) = previousCore p ∧
  (from_singbox p = true → core_on (files w !! P) w ∧
     RuntimeState.singBoxConfig (runtime w) = cloneMap (previousRuntimeConfig p)).

Lemma restore_files_spec p w w' r :
  restore_files cfg p w = (w', r) →
  quiet w w' ∧ ∃ a, r = Ok a ∧ (a = Ok tt → restored p w').
Proof.
  destruct Hpaths as [HPL Htemp]. intros E. unfold restore_files in E. step_attempt E w1 a H1.
  apply (restoreOptionalFile_spec own_file Htemp) in H1 as (Hq1 & Hs1 & Hr1); [|done].
  unfold has_previous in E. destruct (previousConfig p) as [data|] eqn:Hp.
  - rewrite bool_decide_eq_true_2 in E by (by eexists). step E w2 b H2. injection H2 as <- <-.
    destruct a as [[]|e].
    2:{ injection E as <- <-. split; [done|]. eexists. split; [done|]. done. }
    destruct (from_singbox p) eqn:Hsb.
    + apply attempt_inv in E as (c & Hw & ->).
      apply (writeFileAtomic_spec own_file Htemp) in Hw as (Hq2 & Hs2 & Hr2); [|done].
      split; [by transitivity w1|]. exists c. split; [done|]. intros ->. intros d Hd.
      rewrite Hp in Hd. injection Hd as ->. rewrite Hs2 by done. done.
    + injection E as <- <-. split; [done|]. eexists. split; [done|]. intros _ d Hd.
      rewrite Hp in Hd. injection Hd as ->. split; [done|]. by rewrite Hsb.
  - rewrite bool_decide_eq_false_2 in E by (by intros [? ?]).
    assert (∀ w2, restored p w2) as Hany by (intros w2 d Hd; by rewrite Hp in Hd).
    step E w2 b H2. assert (∀ c, b = Ok c → w' = w2 ∧ r = Ok c) as Hret.
    { intros c ->. destruct c; by injection E as <- <-. }
    step_attempt H2 w3 lg H3. apply readOptionalFile_spec in H3 as (Hq3 & Hf3 & _).
    assert (quiet w w3) as Hq by by transitivity w1.
    assert (∀ c, b = Ok c → quiet w w2 → quiet w w' ∧ ∃ a, r = Ok a ∧ (a = Ok tt → restored p w')) as Hdone.
    { intros c Hb Hq2. destruct (Hret c Hb) as [-> ->]. split; [done|]. eauto. }
    destruct lg as [[data|]|e]; [destruct (from_singbox p)|..];
      try (by injection H2 as <- <-; eapply Hdone).
    apply attempt_inv in H2 as (c & Hw & ->).
    apply (writeFileAtomic_spec own_file Htemp) in Hw as (Hq2 & _ & _); [|done].
    eapply Hdone; [done|]. by transitivity w3.
Qed.

Lemma rollback_spec p w w' r :
  rollbackSingBox cfg p w = (w', r) →
  usageCoreRestarted w' = usageCoreRestarted w ∧ singBoxApplyResult w' = singBoxApplyResult w ∧
  match r with Ok _ => rolled_back p w' | Err _ => stopped w' end.
Proof.
  intros E. unfold rollbackSingBox in E. step_attempt E w1 s H1.
  apply StopProcess_spec in H1 as (Hf1 & Hr1 & Ha1 & Hu1 & He1).
  step E w2 x H2. apply restore_files_spec in H2 as ((Hr2 & Ha2 & Hu2 & _) & a & -> & Hres).
  destruct a as [[]|e].
  2:{ apply stop_core_spec in E as (-> & Hs & (_ & Ha & Hu & _)). split_and!; congruence || done. }
  specialize (Hres eq_refl). step E w3 x H3.
  destruct (from_singbox p) eqn:Hsb.
  - step H3 w4 y H4. injection H4 as <- <-. apply attempt_inv in H3 as (st & H3 & ->).
    apply StartProcess_spec in H3 as (Hf3 & Hr3 & Ha3 & Hu3 & _ & Hon). cbn in Hf3, Hr3, Ha3, Hu3, Hon.
    destruct st as [[]|e].
    2:{ apply stop_core_spec in E as (-> & Hs & (_ & Ha & Hu & _)). split_and!; congruence || done. }
    step E w5 y H5. injection H5 as <- <-.
    apply refreshOnlineStatus_spec in E as (-> & (Hf & Ha & Hu & Ht) & (o & Hr)). cbn in Hf, Ha, Hu.
    split_and!; [congruence..|]. rewrite <-Hf3 in Hon. rewrite <-Hf in Hon. unfold rolled_back. split_and!.
    + intros data Hd. rewrite Hf, Hf3. by apply Hres.
    + rewrite Hr. cbn. unfold RuntimeState.SetRunningCore. by case_bool_decide.
    + intros _. split; [by eapply core_on_untouched, Hon|]. rewrite Hr. cbn.
      unfold RuntimeState.SetRunningCore. rewrite Hr3. unfold RuntimeState.SetSingBoxConfig.
      by repeat case_bool_decide.
  - injection H3 as <- <-. step E w5 y H5. injection H5 as <- <-.
    apply refreshOnlineStatus_spec in E as (-> & (Hf & Ha & Hu & Ht) & (o & Hr)). cbn in Hf, Ha, Hu.
    split_and!; [congruence..|]. unfold rolled_back. rewrite Hsb. split_and!; [|
      rewrite Hr; cbn; unfold RuntimeState.SetRunningCore; by case_bool_decide|done].
    intros data Hd. rewrite Hf. by apply Hres.
Qed.

(** The verdict of the last activation, and the hash it calls active. *)
Definition verdict (w : World) : option (string * string * string) :=
  (λ a, (status a, rollback a, activeHash a)) <$> singBoxApplyResult w.
Definition hash_of (file : option string) : string := from_option hashConfigBytes "" file.

Inductive activation (config : object) (encoded : string) (p : previous) (w w' : World) : result unit → Prop :=
| Applied :
    files w' !! P = Some encoded → files w' !! L = Some encoded → core_on (Some encoded) w' →
    RuntimeState.running (runtime w') = RuntimeState.CoreTypeSingBox →
    RuntimeState.singBoxConfig (runtime w') = cloneMap config →
    verdict w' = Some ("APPLIED", "NOT_REQUIRED", pv_requestedHash p) →
    activation config encoded p w w' (Ok tt)
| RolledBack e :
    rolled_back p w' → verdict w' = Some ("ROLLED_BACK", "SUCCEEDED", previousHash p) →
    activation config encoded p w w' (Err e)
| FirstFailed e :
    previousCore p = "" → stopped w' → verdict w' = Some ("FAILED", "NOT_AVAILABLE", "") →
    activation config encoded p w w' (Err e)
| RollbackFailed e :
    stopped w' → verdict w' = Some ("FAILED", "FAILED", previousHash p) →
    activation config encoded p w w' (Err e)
| NotSynced e :
    untouched w w' → runtime w' = runtime w → files w' !! P = previousConfig p →
    verdict w' = Some ("FAILED", "SUCCEEDED", previousHash p) →
    activation config encoded p w w' (Err e)
| NotRestored e :
    untouched w w' → runtime w' = runtime w →
    verdict w' = Some ("FAILED", "FAILED", previousHash p) →
    activation config encoded p w w' (Err e).

Lemma fail_activation_spec config encoded e p w w0 w' r :
  failSingBoxActivation cfg e p w0 = (w', r) →
  activation config encoded p w w' r ∧ usageCoreRestarted w' = usageCoreRestarted w0.
Proof.
  intros E. unfold failSingBoxActivation in E. step_attempt E w1 a H1.
  apply rollback_spec in H1 as (Hu & _ & Hb). destruct a as [u|e1].
  - destruct (bool_decide (previousCore p = "") && negb (has_previous p)) eqn:Hfirst.
    + apply andb_true_iff in Hfirst as [Hcore%bool_decide_eq_true _]. injection E as <- <-.
      split; [|done]. apply FirstFailed; [done| |done]. destruct Hb as (_ & Hr & _). unfold stopped. cbn. congruence.
    + injection E as <- <-. split; [|done]. by apply RolledBack.
  - injection E as <- <-. split; [|done]. by apply RollbackFailed.
Qed.

Lemma activate_spec config encoded p w w' r :
  files w !! P = Some encoded → activate cfg config encoded p w = (w', r) →
  activation config encoded p w w' r ∧ usageCoreRestarted w' = usageCoreRestarted w.
Proof.
  destruct Hpaths as [HPL Htemp]. intros HP E. unfold activate in E. step_attempt E w1 a H1.
  apply syncDirectory_spec in H1 as [(Hr1 & Ha1 & Hu1 & Ht1) Hf1]. destruct a as [u|e].
  2:{ step_attempt E w2 b H2. apply (restoreOptionalFile_spec own_file Htemp) in H2 as ((Hr2 & _ & Hu2 & Ht2) & _ & Hr); [|done].
      assert (untouched w w2) by by transitivity w1.
      destruct b; injection E as <- <-; (split; [|cbn; congruence]).
      - apply NotSynced; try done; cbn; congruence.
      - apply NotRestored; try done; cbn; congruence. }
  step_attempt E w2 b H2. apply StopProcess_spec in H2 as (Hf2 & Hr2 & Ha2 & Hu2 & He2).
  step_attempt E w3 c H3. apply StartProcess_spec in H3 as (Hf3 & Hr3 & Ha3 & Hu3 & _ & Hon).
  assert (usageCoreRestarted w3 = usageCoreRestarted w) as Hu by congruence.
  destruct c as [u3|e3]; [|rewrite <-Hu; by eapply fail_activation_spec].
  step_attempt E w4 d H4. apply waitForSingBoxHealthy_spec in H4 as [(Hf4 & Ha4 & Hu4 & Ht4) Hr4].
  destruct d as [u4|e4]; [|rewrite <-Hu, <-Hu4; by eapply fail_activation_spec].
  step_attempt E w5 f H5. apply (writeFileAtomic_spec own_file Htemp) in H5 as ((Hr5 & Ha5 & Hu5 & Ht5) & Hs5 & Hw5); [|done].
  destruct f as [u5|e5]; [|rewrite <-Hu, <-Hu4, <-Hu5; by eapply fail_activation_spec].
  step E w6 t H6. injection H6 as <- <-. step E w7 t1 H7. injection H7 as <- <-.
  step E w8 t2 H8. injection H8 as <- <-. step E w9 t3 H9. injection H9 as <- <-.
  apply refreshOnlineStatus_spec in E as (-> & (Hf & Ha & Hu' & Ht) & (o & Hr)). cbn in Hf, Ha, Hu', Hr.
  split; [|cbn; congruence]. apply Applied.
  - rewrite Hf, Hs5 by done. congruence.
  - by rewrite Hf.
  - assert (untouched w3 w') as Htt.
    { transitivity w5; [by transitivity w4|]. exact Ht. }
    eapply core_on_untouched; [exact Htt|]. rewrite Hf2, Hf1, HP in Hon. exact Hon.
  - rewrite Hr. cbn. unfold RuntimeState.SetRunningCore. by case_bool_decide.
  - rewrite Hr. cbn. unfold RuntimeState.SetRunningCore, RuntimeState.SetSingBoxConfig.
    by repeat case_bool_decide.
  - unfold verdict. by rewrite Ha.
Qed.

(** ** Up to the rename *)

(** sing-box accepted this very content. *)
Definition checked (encoded : string) (w : World) : Prop :=
  ∃ es rest, events w = es ++ EvCheck (Some encoded) :: rest ∧
    (check_reply (EvCheck (Some encoded) :: rest)).2 = None.

Lemma checked_later encoded w w' es : events w' = es ++ events w → checked encoded w → checked encoded w'.
Proof. intros E (es1 & rest & E1 & Hc). exists (es ++ es1), rest. by rewrite E, E1, app_assoc. Qed.

Lemma checked_untouched encoded w w' : untouched w w' → checked encoded w → checked encoded w'.
Proof. intros (es & E & _). by eapply checked_later. Qed.

(** What [prepare] remembers of the stored configuration: the one of the file, over
    the one of the state. *)
Definition stored_before (w : World) (stored : object) : Prop :=
  match files w !! P with
  | Some data => if bool_decide (RuntimeState.running (runtime w) = RuntimeState.CoreTypeSingBox)
      then unmarshal_into data (RuntimeState.SingBoxConfig (runtime w)) = Ok stored
      else stored = RuntimeState.SingBoxConfig (runtime w)
  | None => stored = RuntimeState.SingBoxConfig (runtime w)
  end.

Definition previous_of (requested : string) (w : World) (p : previous) : Prop :=
  previousCore p = RuntimeState.running (runtime w) ∧ previousConfig p = files w !! P ∧
  pv_requestedHash p = requested ∧ previousHash p = hash_of (files w !! P) ∧
  stored_before w (previousRuntimeConfig p).

(** How the preparation fails: the report, and the runtime state after it. *)
Definition refused (w w' : World) : Prop :=
  (∃ hash, verdict w' = Some ("FAILED", "NOT_REQUIRED", hash)) ∧ runtime w' = runtime w ∨
  verdict w' = Some ("REJECTED", "NOT_REQUIRED", hash_of (files w !! P)) ∧
    (runtime w' = runtime w ∨ ∃ stored, stored_before w stored ∧
       runtime w' = RuntimeState.SetSingBoxConfig stored (runtime w)).

Lemma or_report_inv {A} (m : proc World A) a wrap w w' r :
  or_report m a wrap w = (w', r) → ∃ w1 b, m w = (w1, b) ∧
    match b with
    | Ok x => w' = w1 ∧ r = Ok x
    | Err e => w' = set_result (Some a) w1 ∧ r = Err (wrap e)
    end.
Proof.
  intros E. unfold or_report in E. step_attempt E w1 b H1. exists w1, b. split; [done|].
  destruct b; by injection E as <- <-.
Qed.

Lemma finish_spec candidate encoded hash1 hash2 req att w w' (r : result previous) p :
  files w !! candidate = Some encoded → candidate ≠ P →
  (_ ← or_report (file_call "chmod" candidate) (newSingBoxApplyResult "FAILED" req hash1 att None "NOT_REQUIRED")
         (ErrWrap "set sing-box candidate permissions");
   _ ← or_report (rename candidate P) (newSingBoxApplyResult "FAILED" req hash2 att None "NOT_REQUIRED")
         (ErrWrap "activate sing-box candidate configuration");
   mret p) w = (w', r) →
  untouched w w' ∧ usageCoreRestarted w' = usageCoreRestarted w ∧ runtime w' = runtime w ∧
  match r with
  | Ok p' => p' = p ∧ files w' !! P = Some encoded
  | Err _ => files w' = files w ∧ ∃ hash, verdict w' = Some ("FAILED", "NOT_REQUIRED", hash)
  end.
Proof.
  intros Hc Hne E. step E w1 a H1. apply or_report_inv in H1 as (w0 & b & H1 & Hb).
  apply file_call_spec in H1 as [(Hr1 & Ha1 & Hu1 & Ht1) Hf1]. destruct b as [u|e].
  2:{ destruct Hb as [-> ->]. destruct E as [-> ->]. split_and!; [done..|]. eexists. reflexivity. }
  destruct Hb as [-> ->]. step E w2 b H2. apply or_report_inv in H2 as (w3 & c & H2 & Hb).
  apply rename_spec in H2 as [(Hr2 & Ha2 & Hu2 & Ht2) Hf2]; [|done].
  assert (untouched w w3) by by transitivity w0. destruct c as [u2|e].
  - destruct Hb as [-> ->]. injection E as <- <-. destruct Hf2 as (d & Hd & Hf2).
    rewrite Hf2, lookup_insert_eq. rewrite Hf1 in Hd. split_and!; congruence || done.
  - destruct Hb as [-> ->]. destruct E as [-> ->]. cbn. split_and!; [done|congruence..|]. eexists. reflexivity.
Qed.

(** The configuration to go back to, read before anything changes. *)
Lemma stored_spec file failed w w' r :
  (match file with
   | Some data => if bool_decide (RuntimeState.RunningCoreType (runtime w) = RuntimeState.CoreTypeSingBox)
       then or_report (lift (unmarshal_into data (RuntimeState.SingBoxConfig (runtime w)))) failed
              (ErrWrap "decode current sing-box configuration for rollback")
       else mret (RuntimeState.SingBoxConfig (runtime w))
   | None => mret (RuntimeState.SingBoxConfig (runtime w))
   end) w = (w', r) → file = files w !! P →
  match r with
  | Ok stored => w' = w ∧ stored_before w stored
  | Err _ => w' = set_result (Some failed) w
  end.
Proof.
  intros E ->. unfold stored_before, RuntimeState.RunningCoreType in *.
  destruct (files w !! P) as [data|]; [|by injection E as <- <-].
  case_bool_decide; [|by injection E as <- <-].
  apply or_report_inv in E as (w1 & b & Hl & Hb). injection Hl as <- <-.
  destruct (unmarshal_into _ _); destruct Hb as [-> ->]; done.
Qed.

Lemma prepare_spec candidate encoded requested attempted w w' r :
  ¬ own_file candidate → files w !! candidate = Some encoded →
  prepare cfg candidate requested attempted w = (w', r) →
  untouched w w' ∧ usageCoreRestarted w' = usageCoreRestarted w ∧
  match r with
  | Ok p => previous_of requested w p ∧ runtime w' = runtime w ∧ files w' !! P = Some encoded ∧ checked encoded w'
  | Err _ => files w' !! P = files w !! P ∧ refused w w'
  end.
Proof.
  destruct Hpaths as [HPL Htemp]. intros Hown Hc E. unfold prepare in E.
  assert (candidate ≠ P ∧ candidate ≠ L) as [HcP HcL] by (split; intros ->; auto).
  step E w0 core H0. injection H0 as <- <-.
  step E w1 file H1. apply or_report_inv in H1 as (w2 & a & H1 & Ha).
  apply readOptionalFile_spec in H1 as ((Hr1 & Ha1 & Hu1 & Ht1) & Hf1 & Hfile).
  destruct a as [f|e].
  2:{ destruct Ha as [-> ->]. destruct E as [-> ->]. split_and!; [done|done| |].
      - cbn. by rewrite Hf1.
      - left. split; [by eexists|done]. }
  destruct Ha as [-> ->]. step E w3 st H3. injection H3 as <- <-.
  step E w4 stored H4. rewrite <-Hr1 in H4, E. apply stored_spec in H4; [|congruence].
  destruct stored as [stored|e].
  2:{ subst w4. destruct E as [-> ->]. split_and!; [done|done| |].
      - cbn. by rewrite Hf1.
      - left. split; [by eexists|done]. }
  destruct H4 as [-> Hst]. rewrite Hr1 in E. step_attempt E w5 ck H5.
  apply checkSingBoxConfig_spec in H5 as ((Hf5 & Ha5 & Hu5 & Ht5) & Hr5 & Hck).
  assert (stored_before w stored) as Hst' by (unfold stored_before in *; by rewrite Hf1, Hr1 in Hst).
  assert (untouched w w5) as Ht by by transitivity w2.
  step E w6 x H6. destruct ck as [u|e].
  2:{ assert (Hw6 : usageCoreRestarted w6 = usageCoreRestarted w ∧ files w6 = files w ∧ untouched w w6 ∧
        verdict w6 = Some ("REJECTED", "NOT_REQUIRED", hash_of f) ∧
        (runtime w6 = runtime w ∨ runtime w6 = RuntimeState.SetSingBoxConfig stored (runtime w)) ∧
        x = Err e).
      { step H6 w7 y H7. unfold when in H7. destruct (_ && _); injection H7 as <- <-; injection H6 as <- <-;
          cbn; split_and!; try done; try congruence; [right|left]; congruence. }
      destruct Hw6 as (Hu6 & Hf6 & Ht6 & Hv6 & Hr6 & ->). destruct E as [-> ->].
      split_and!; [done|done|by rewrite Hf6|]. right. rewrite <-Hfile. split; [done|].
      destruct Hr6; [by left|right; eauto]. }
  injection H6 as <- <-. destruct Hck as [Hck1 Hck2]. rewrite Hf1, Hc in Hck1.
  assert (checked encoded w5) as Hchk by (exists [], (events w2); rewrite <-Hck1; done).
  step E w7 y H7.
  assert (Hw7 : untouched w5 w7 ∧ usageCoreRestarted w7 = usageCoreRestarted w ∧ runtime w7 = runtime w ∧
    files w7 !! P = files w !! P ∧ files w7 !! candidate = Some encoded ∧
    match y with Ok _ => True | Err _ => ∃ hash, verdict w7 = Some ("FAILED", "NOT_REQUIRED", hash) end).
  { assert (∀ z, w7 = w5 → y = Ok z → untouched w5 w7 ∧ usageCoreRestarted w7 = usageCoreRestarted w ∧
      runtime w7 = runtime w ∧ files w7 !! P = files w !! P ∧ files w7 !! candidate = Some encoded ∧
      match y with Ok _ => True | Err _ => ∃ hash, verdict w7 = Some ("FAILED", "NOT_REQUIRED", hash) end) as Hsame.
    { intros z -> ->. split_and!; congruence || done. }
    destruct f as [data|]; [|injection H7 as <- <-; by eapply Hsame].
    unfold when in H7. case_bool_decide; [|injection H7 as <- <-; by eapply Hsame].
    apply or_report_inv in H7 as (w8 & b & H7 & Hb).
    apply (writeFileAtomic_spec own_file Htemp) in H7 as ((Hr7 & Ha7 & Hu7 & Ht7) & Hs7 & _); [|done].
    assert (files w8 !! P = files w !! P) by (rewrite Hs7 by done; congruence).
    assert (files w8 !! candidate = Some encoded).
    { rewrite Hs7; [congruence| |done]. right. rewrite Hf5, Hf1, Hc. by eexists. }
    destruct b; destruct Hb as [-> ->]; cbn; split_and!; try congruence; try done. by eexists. }
  destruct Hw7 as (Ht7 & Hu7 & Hr7 & Hp7 & Hc7 & Hy). assert (untouched w w7) by by transitivity w5.
  destruct y as [z|e].
  2:{ destruct E as [-> ->]. split_and!; [done..|]. by left. }
  apply (finish_spec _ encoded) in E as (Ht8 & Hu8 & Hr8 & Hp8); [|done..].
  split; [by transitivity w7|]. split; [congruence|]. destruct r as [p|e].
  - destruct Hp8 as [-> Hp8]. split_and!; [|congruence|done|].
    + unfold previous_of, hash_of. rewrite <-Hfile. cbn. unfold RuntimeState.RunningCoreType. split_and!; done.
    + eapply checked_untouched; [|exact Hchk]. by transitivity w7.
  - destruct Hp8 as [Hf8 Hv8]. split; [congruence|]. left. split; [done|congruence].
Qed.

(** ** The whole activation *)

(** [encoded] is what [restartSingBox] would put in place for [config]. *)
Definition built (config : object) : object := applySingBoxAPIConfig cfg (cloneMap config).

Definition prepared_by (config : object) (w w1 : World) (p : previous) : Prop :=
  untouched w w1 ∧ runtime w1 = runtime w ∧ checked (marshal_indent (built config)) w1 ∧
  previous_of (hashConfigBytes (marshal_indent (built config))) w p.

Lemma restart_spec config w w' r :
  restartSingBox cfg config w = (w', r) →
  usageCoreRestarted w' = usageCoreRestarted w ∧
  ((∃ p w1, prepared_by config w w1 p ∧
      activate cfg (built config) (marshal_indent (built config)) p w1 = (w', r) ∧
      activation (built config) (marshal_indent (built config)) p w1 w' r) ∨
   ∃ e, r = Err e ∧ untouched w w' ∧ files w' !! P = files w !! P ∧
     (refused w w' ∨ runtime w' = runtime w ∧ singBoxApplyResult w' = singBoxApplyResult w)).
Proof.
  destruct Hpaths as [HPL Htemp]. intros E. unfold restartSingBox in E. fold (built config) in E.
  set (enc := marshal_indent (built config)) in *. step_attempt E w1 a H1.
  apply file_call_spec in H1 as [(Hr1 & Ha1 & Hu1 & Ht1) Hf1]. step E w2 x H2.
  destruct a as [u|e].
  2:{ injection H2 as <- <-. destruct E as [-> ->]. split; [done|]. right. eexists.
      split_and!; [done|done|by rewrite Hf1|by right]. }
  injection H2 as <- <-. step E w3 att H3. injection H3 as <- <-. step E w4 y H4. injection H4 as <- <-.
  step E w5 cand H5. apply or_report_inv in H5 as (w6 & b & H5 & Hb).
  apply (writeCandidateFile_spec own_file Htemp) in H5 as ((Hr5 & Ha5 & Hu5 & Ht5) & Hs5 & Hc).
  cbn in Hr5, Hu5. assert (untouched w w6) as Ht by by transitivity w1.
  assert (files w6 !! P = files w !! P) as HP by (rewrite Hs5 by auto; cbn; by rewrite Hf1).
  destruct b as [path|e].
  2:{ destruct Hb as [-> ->]. destruct E as [-> ->]. split; [cbn; congruence|]. right. eexists.
      split_and!; [done|done|done|]. left. left. split; [by eexists|cbn; congruence]. }
  destruct Hb as [-> ->]. destruct Hc as (Hown & _ & Hc). step_attempt E w7 p H7.
  apply (prepare_spec _ _ _ _ _ _ _ Hown Hc) in H7 as (Ht7 & Hu7 & Hp).
  assert (untouched w w7) as Ht' by by transitivity w6.
  assert (∀ st, stored_before w6 st → stored_before w st) as Hst.
  { intros st. unfold stored_before. by rewrite HP, Hr5, Hr1. }
  destruct p as [p|e].
  - destruct Hp as (Hprev & Hr7 & Hf7 & Hck). pose proof E as Hrun. apply activate_spec in E as [Hact Hu]; [|done].
    split; [congruence|]. left. exists p, w7. split; [|done]. split_and!; [done|congruence|done|].
    destruct Hprev as (? & ? & ? & ? & ?). unfold previous_of. rewrite <-HP, <-Hr1, <-Hr5.
    split_and!; [done..|by apply Hst].
  - step_attempt E w8 c H8. apply remove_spec in H8 as [(Hr8 & Ha8 & Hu8 & Ht8) Ho8]. injection E as <- <-.
    destruct Hp as [HP7 Href]. split; [congruence|]. right. eexists. split; [done|]. split; [by transitivity w7|].
    split; [rewrite Ho8 by (intros Heq; apply Hown; rewrite <-Heq; auto); congruence|]. left.
    unfold refused, verdict in *. rewrite Ha8, Hr8, <-HP, <-Hr1, <-Hr5.
    destruct Href as [?|[? [?|(st & ? & ?)]]]; [by left|right; auto|right; split; [done|right; eauto]].
Qed.

(** This configuration is the one of the file, of the core and of the agent. *)
Definition in_effect (file : string) (config : object) (w : World) : Prop :=
  RuntimeState.running (runtime w) = RuntimeState.CoreTypeSingBox ∧ files w !! P = Some file ∧
  core_on (Some file) w ∧ RuntimeState.singBoxConfig (runtime w) = config.

(** C2: an activation while a configuration is in effect ends in one of three ways:
    the new configuration is in effect, and reported as applied; or the old file is
    back in effect, with the configuration of that file over the stored one if that
    was set back; or the rollback itself failed and is reported so.  The marker of
    restarts for the usage counters never moves. *)
Theorem restart_transaction config w w' r data m old :
  in_effect data old w → unmarshal_json data = Ok (AObj m) →
  restartSingBox cfg config w = (w', r) →
  let new := marshal_indent (built config) in
  usageCoreRestarted w' = usageCoreRestarted w ∧
  ((r = Ok tt ∧ in_effect new (cloneMap (built config)) w' ∧
    verdict w' = Some ("APPLIED", "NOT_REQUIRED", hashConfigBytes new)) ∨
   (∃ e, r = Err e ∧ (in_effect data old w' ∨ in_effect data (cloneMap (m ∪ cloneMap old)) w')) ∨
   (∃ e, r = Err e ∧ verdict w' = Some ("FAILED", "FAILED", hashConfigBytes data) ∧
         (stopped w' ∨ untouched w w'))).
Proof.
  intros (Hrun & HP & Hon & Hcfg) Hdata E new. apply restart_spec in E as [Hu E]. split; [done|].
  assert (∀ st, stored_before w st → st = m ∪ cloneMap old) as Hst.
  { intros st. unfold stored_before. rewrite HP, bool_decide_eq_true_2 by done.
    unfold unmarshal_into. rewrite Hdata. unfold RuntimeState.SingBoxConfig. rewrite Hcfg. cbn. congruence. }
  assert (∀ w1, untouched w w1 → core_on (Some data) w1) as Hkeep by (intros; by eapply core_on_untouched).
  destruct E as [(p & w1 & (Ht & Hr & _ & Hpc & Hpf & Hph & Hpp & Hps) & _ & Hact)|(e & -> & Ht & HP' & Hv)].
  - assert (from_singbox p = true) as Hsb by (unfold from_singbox; rewrite Hpc, Hrun; done).
    rewrite HP in Hpf, Hpp. destruct Hact as [H1 H2 H3 H4 H5 H6|e (Hres & Hr' & Hsb') H2|e H1 H2 H3|e H1 H2|e H1 H2 H3 H4|e H1 H2 H3].
    + left. split_and!; try done. by rewrite H6, Hph.
    + right. left. exists e. split; [done|]. right. destruct (Hres _ Hpf) as [HP2 _].
      destruct (Hsb' Hsb) as [Hc Hcf]. rewrite HP2 in Hc. rewrite (Hst _ Hps) in Hcf. split_and!; congruence || done.
    + rewrite Hpc, Hrun in H1. done.
    + right. right. exists e. split_and!; [done| |by left]. by rewrite H2, Hpp.
    + right. left. exists e. split; [done|]. left. split_and!; try congruence. apply Hkeep. by transitivity w1.
    + right. right. exists e. split_and!; [done|by rewrite H3, Hpp|]. right. by transitivity w1.
  - right. left. exists e. split; [done|].
    assert (∀ st, runtime w' = RuntimeState.SetSingBoxConfig st (runtime w) → in_effect data (cloneMap st) w') as Hset.
    { intros st Er. split_and!; [..|by apply Hkeep|]; rewrite ?Er; try congruence;
        unfold RuntimeState.SetSingBoxConfig; by case_bool_decide. }
    assert (runtime w' = runtime w → in_effect data old w') as Hsame.
    { intros Er. split_and!; [congruence..|by apply Hkeep|congruence]. }
    destruct Hv as [[[_ Hr]|[_ [Hr|(st & Hs & Hr)]]]|[Hr _]]; auto.
    right. rewrite <-(Hst _ Hs). by apply Hset.
Qed.

(** ** Invariants of activations *)

(** A property that the activation's single steps keep, the activation keeps: files,
    reports, and the three parts of the runtime state that it writes. *)
Record stable (I : World → Prop) : Prop := {
  stable_record : ∀ e w, I w → I (record e w);
  stable_files : ∀ f w, I w → I (set_files f w);
  stable_result : ∀ a w, I w → I (set_result a w);
  stable_config : ∀ c w, I w → I (set_runtime (RuntimeState.SetSingBoxConfig c (runtime w)) w);
  stable_core : ∀ c w, I w → I (set_runtime (RuntimeState.SetRunningCore c (runtime w)) w);
  stable_online : ∀ b w, I w → I (set_runtime (RuntimeState.SetOnlineStatus b (runtime w)) w)
}.

Section invariants.
Context (I : World → Prop) (HI : stable I).

Lemma files_step f w : I w → I (set_files f w).
Proof. apply HI. Qed.
Lemma result_step a w : I w → I (set_result a w).
Proof. apply HI. Qed.
Lemma config_step c w : I w → I (set_runtime (RuntimeState.SetSingBoxConfig c (runtime w)) w).
Proof. apply HI. Qed.
Lemma core_step c w : I w → I (set_runtime (RuntimeState.SetRunningCore c (runtime w)) w).
Proof. apply HI. Qed.
Lemma online_step b w : I w → I (set_runtime (RuntimeState.SetOnlineStatus b (runtime w)) w).
Proof. apply HI. Qed.
Hint Resolve files_step result_step config_step core_step online_step : grow.

Ltac grow :=
  repeat first [ progress intros | apply preserves_bind | apply preserves_attempt | apply preserves_ret
               | apply preserves_throw | apply preserves_lift | apply preserves_gets | apply preserves_when
               | apply preserves_modify; intros; cbn beta; solve [eauto with grow]
               | case_match | progress eauto with grow ].
Ltac grow_call := intros w Hw; solve [exact Hw | by apply (stable_record _ HI)].

Lemma file_call_grows op path : preserves I (file_call op path).
Proof. grow_call. Qed.
Lemma write_file_grows path data : preserves I (write_file path data).
Proof. intros w Hw. unfold write_file. case_match; by apply (stable_files _ HI), (stable_record _ HI). Qed.
Lemma StopProcess_grows : preserves I StopProcess.
Proof. grow_call. Qed.
Lemma StartProcess_grows path : preserves I (StartProcess path).
Proof. grow_call. Qed.
Lemma GetProcessInfo_grows : preserves I GetProcessInfo.
Proof. grow_call. Qed.
Lemma stats_System_grows : preserves I stats_System.
Proof. grow_call. Qed.
Lemma checkSingBoxConfig_grows candidate : preserves I (checkSingBoxConfig candidate).
Proof. intros w Hw. unfold checkSingBoxConfig. destruct (check_reply _) as [o [e|]]; by apply (stable_record _ HI). Qed.

Hint Resolve file_call_grows write_file_grows StopProcess_grows StartProcess_grows GetProcessInfo_grows
  stats_System_grows checkSingBoxConfig_grows : grow.

Lemma remove_grows path : preserves I (remove path).
Proof. unfold remove. grow. Qed.
Lemma rename_grows from to : preserves I (rename from to).
Proof. unfold rename. grow. Qed.
Lemma syncDirectory_grows path : preserves I (syncDirectory path).
Proof. unfold syncDirectory. grow. Qed.
Lemma create_temp_grows target : preserves I (create_temp target).
Proof. unfold create_temp. grow. Qed.
Hint Resolve remove_grows rename_grows syncDirectory_grows create_temp_grows : grow.

Lemma writeCandidateFile_grows target data : preserves I (writeCandidateFile target data).
Proof. unfold writeCandidateFile. grow. Qed.
Hint Resolve writeCandidateFile_grows : grow.
Lemma writeFileAtomic_grows target data : preserves I (writeFileAtomic target data).
Proof. unfold writeFileAtomic. grow. Qed.
Lemma readOptionalFile_grows path : preserves I (readOptionalFile path).
Proof. unfold readOptionalFile. grow. Qed.
Lemma refreshOnlineStatus_grows : preserves I refreshOnlineStatus.
Proof. unfold refreshOnlineStatus, change. grow. Qed.
Hint Resolve writeFileAtomic_grows readOptionalFile_grows refreshOnlineStatus_grows : grow.
Lemma restoreOptionalFile_grows path prev : preserves I (restoreOptionalFile path prev).
Proof. unfold restoreOptionalFile. grow. Qed.
Lemma poll_health_grows : preserves I poll_health.
Proof. unfold poll_health. grow. Qed.
Hint Resolve restoreOptionalFile_grows poll_health_grows : grow.
Lemma poll_until_healthy_grows waits : preserves I (poll_until_healthy waits).
Proof. induction waits; cbn [poll_until_healthy]; grow. Qed.
Hint Resolve poll_until_healthy_grows : grow.
Lemma waitForSingBoxHealthy_grows : preserves I waitForSingBoxHealthy.
Proof. unfold waitForSingBoxHealthy. grow. Qed.
Lemma restore_files_grows p : preserves I (restore_files cfg p).
Proof. unfold restore_files. grow. Qed.
Hint Resolve waitForSingBoxHealthy_grows restore_files_grows : grow.
Lemma rollbackSingBox_grows p : preserves I (rollbackSingBox cfg p).
Proof. unfold rollbackSingBox, change. grow. Qed.
Hint Resolve rollbackSingBox_grows : grow.
Lemma failSingBoxActivation_grows e p : preserves I (failSingBoxActivation cfg e p).
Proof. unfold failSingBoxActivation, report, now. grow. Qed.
Hint Resolve failSingBoxActivation_grows : grow.
Lemma activate_grows config encoded p : preserves I (activate cfg config encoded p).
Proof. unfold activate, report, now, change. grow. Qed.
Lemma or_report_grows {A} (m : proc World A) a wrap : preserves I m → preserves I (or_report m a wrap).
Proof. intros. unfold or_report, report. grow. Qed.
Hint Resolve activate_grows or_report_grows : grow.
Lemma prepare_grows candidate requested attempted : preserves I (prepare cfg candidate requested attempted).
Proof. unfold prepare, report, change, read. grow; apply or_report_grows; grow. Qed.
Hint Resolve prepare_grows : grow.
Lemma restartSingBox_grows config : preserves I (restartSingBox cfg config).
Proof. unfold restartSingBox, report, now. grow; apply or_report_grows; grow. Qed.
End invariants.

(** The log only grows. *)
Definition grows (base : list event) (w : World) : Prop := ∃ es, events w = es ++ base.

Lemma grows_stable base : stable (grows base).
Proof.
  split; intros; try done. destruct H as [es E]. exists (e :: es). cbn. by rewrite E.
Qed.

(** The hashes of the last start stay. *)
Definition hashes_are (h : RuntimeState.StartHashes) (dirty : bool) (w : World) : Prop :=
  RuntimeState.lastHashes (runtime w) = h ∧ RuntimeState.hashesDirty (runtime w) = dirty.

Lemma hashes_are_stable h dirty : stable (hashes_are h dirty).
Proof.
  split; intros; try done; unfold hashes_are in *; cbn;
    unfold RuntimeState.SetSingBoxConfig, RuntimeState.SetRunningCore; by case_bool_decide.
Qed.

(** C13: the core is only stopped or started when sing-box has accepted, in this very
    activation, the content that is put in place. *)
Theorem start_only_checked config w w' r :
  restartSingBox cfg config w = (w', r) → ¬ untouched w w' →
  checked (marshal_indent (built config)) w'.
Proof.
  intros E Hn. apply restart_spec in E as [_ [(p & w1 & (_ & _ & Hc & _) & Ha & _)|(e & _ & Ht & _)]]; [|done].
  pose proof (activate_grows _ (grows_stable (events w1)) (built config) (marshal_indent (built config)) p w1) as Hg.
  rewrite Ha in Hg. destruct Hg as [es Hes]; [by exists []|]. by eapply checked_later.
Qed.
End transaction.

(** ** The theorems at work *)

Module ActivationDemo.

Definition cfg : Config := demo_cfg 0.
Definition own : gset string := {[configPath cfg; singBoxLastGoodPath cfg]}.

(** A system in which everything works. *)
#[export] Instance env : Env := {|
  file_reply := λ _, None;
  temp_name := λ _ existing _, fresh (existing ∪ own);
  torn := λ _ _, "";
  check_reply := λ _, ("", None);
  stop_reply := λ _, None;
  start_reply := λ _, None;
  info_reply := λ _, Ok {| Supervisor.Name := "sing-box"; Supervisor.State := 20; Supervisor.StateName := "RUNNING"; Supervisor.Raw := "" |};
  stats_reply := λ _, None;
  version_reply := λ _, None;
  health_waits := λ _, 40;
  clock := λ l, Z.of_nat (length l)
|}.
#[export] Instance json : Json := {|
  marshal_json := λ _, "{}"; marshal_indent := λ _, "new"; unmarshal_json := λ _, Ok (AObj demo_config) |}.
#[export] Instance digest : Digest := λ s, s.

Lemma paths : paths_ok cfg.
Proof.
  split; [vm_compute; discriminate|]. intros l existing target.
  pose proof (is_fresh (existing ∪ own)) as Hf. cbn [temp_name env]. unfold own_file.
  split; [|set_solver]. intros [Hx|Hx]; apply Hf; rewrite Hx; unfold own; set_solver.
Qed.

Definition start_world : World :=
  {| runtime := RuntimeState.SetRunningCore RuntimeState.CoreTypeSingBox
                  (RuntimeState.SetSingBoxConfig demo_config (RuntimeState.New "1.0"));
     files := {[configPath cfg := "old"]}; singBoxApplyResult := None; usageCoreRestarted := false;
     events := [EvStart (Some "old")] |}.

Lemma demo_in_effect : in_effect cfg "old" demo_config start_world.
Proof.
  split_and!; [vm_compute; reflexivity..| |vm_compute; reflexivity].
  exists [], []. split_and!; reflexivity.
Qed.

Definition after : World := (restartSingBox cfg demo_config start_world).1.

Lemma after_restart : restartSingBox cfg demo_config start_world = (after, Ok tt).
Proof. unfold after. vm_compute. reflexivity. Qed.

Lemma restart_transaction_witness :
  usageCoreRestarted after = false ∧
  (in_effect cfg "new" (cloneMap (built cfg demo_config)) after ∧
   verdict after = Some ("APPLIED", "NOT_REQUIRED", "{}") ∨
   False).
Proof.
  destruct (restart_transaction cfg paths demo_config start_world after (Ok tt) "old" demo_config demo_config)
    as [Hu [(_ & He & Hv)|[(e & He & _)|(e & He & _)]]].
  - exact demo_in_effect.
  - reflexivity.
  - exact after_restart.
  - split; [exact Hu|left; split; [exact He|exact Hv]].
  - discriminate He.
  - discriminate He.
Defined.

Lemma untouched_prefix w w' :
  untouched w w' → forallb is_quiet (take (length (events w') - length (events w)) (events w')) = true.
Proof.
  intros (es & E & Q). rewrite E, length_app. replace (length es + length (events w) - length (events w)) with (length es) by lia.
  by rewrite take_app_length.
Qed.

Lemma after_touched : ¬ untouched start_world after.
Proof.
  intros Hu%untouched_prefix. assert (true = false) as Hb; [|discriminate Hb].
  etransitivity; [symmetry; exact Hu|]. vm_compute. reflexivity.
Qed.

Lemma start_only_checked_witness : checked (marshal_indent (built cfg demo_config)) after ∧ marshal_indent (built cfg demo_config) = "new".
Proof.
  split; [|reflexivity].
  exact (start_only_checked cfg paths demo_config start_world after (Ok tt) after_restart after_touched).
Defined.
End ActivationDemo.
