(* ===== verification/Lifecycle.v ===== *)
(** * Lifecycle: the start, stop and user handlers of [internal/node/manager.go]

    Each handler holds the manager's lock, so it is one procedure on the [World].
    Whether a configuration collides with a forwarding rule is asked through
    [CoreGuard]. *)
From S2P Require Import Prelude GoStr GoTime GoAny GoSort StatName RuntimeState NodeConfig SingBoxConfig Users Activation.
Import NodeConfig SingBoxConfig Users Activation.

Module Lifecycle.

(** What the lifecycle asks of the forwarding service. *)
Class CoreGuard := ValidateCoreConfig : string → object → result unit.

Record StartRequest := {
  CoreType : string; ForceRestart : bool; Hashes : RuntimeState.StartHashes; req_SingBoxConfig : object }.

(** The parts of the response of [Start] that depend on its course. *)
Record StartResponse := {
  isStarted : bool; version : option string; resp_error : option error; resp_runningCore : string;
  configApply : option ApplyResult }.

Section handlers.
Context {EnvI : Env} {JsonI : Json} {DigestI : Digest} {GuardI : CoreGuard} {RangeI : MapRange} (cfg : Config).

(** [readVersion]: the version that the binary reports, if it can be run. *)
Definition readVersion : proc World (option string) := λ w,
  let w := record EvVersion w in (w, Ok (version_reply (events w))).

Definition SyncEnvironment : proc World unit :=
  v ← readVersion;
  _ ← change (RuntimeState.SetCoreVersion v);
  refreshOnlineStatus.

Definition SyncProcessStatus : proc World unit := refreshOnlineStatus.

Definition activeVersion (core : string) (r : Runtime) : option string :=
  if bool_decide (core = RuntimeState.CoreTypeSingBox) then RuntimeState.CoreVersion r else None.

Definition shouldRestartCore (core : string) (force : bool) (hashes : RuntimeState.StartHashes) (r : Runtime) : bool :=
  force || DisableHashCheck cfg || negb (bool_decide (RuntimeState.RunningCoreType r = core)) ||
  negb (RuntimeState.OnlineStatus r) || RuntimeState.ShouldRestart hashes r.

Definition recordUnchangedSingBoxConfig (config : object) : proc World unit :=
  at_ ← now;
  let hash := hashConfigBytes (marshal_json (AObj config)) in
  report (newSingBoxApplyResult "UNCHANGED" hash hash at_ None "NOT_REQUIRED").

Definition startConfigApplyResult (core : string) (w : World) : option ApplyResult :=
  if bool_decide (core = RuntimeState.CoreTypeSingBox) then singBoxApplyResult w else None.

Definition failureResponse (e : error) (apply : World → option ApplyResult) : proc World StartResponse :=
  _ ← refreshOnlineStatus;
  gets (λ w, {| isStarted := RuntimeState.OnlineStatus (runtime w);
                version := activeVersion (RuntimeState.RunningCoreType (runtime w)) (runtime w);
                resp_error := Some e;
                resp_runningCore := RuntimeState.RunningCoreType (runtime w);
                configApply := apply w |}).
Definition coreActivationFailureResponse (e : error) := failureResponse e singBoxApplyResult.
Definition coreConflictResponse (e : error) := failureResponse e (λ _, None).

(** [usage_active] is [UsageSnapshotActive]: the usage queue is on. *)
Definition Start (usage_active : bool) (request : StartRequest) : proc World StartResponse :=
  _ ← SyncEnvironment;
  let core := RuntimeState.CoreTypeSingBox in
  should ← read (shouldRestartCore core (ForceRestart request) (Hashes request));
  let config := applySingBoxAPIConfig cfg (normalizeSingBoxKeys (AObj (cloneMap (req_SingBoxConfig request)))) in
  if bool_decide (config = ∅) then
    mret {| isStarted := false; version := None;
            resp_error := Some (ErrMsg "singBoxConfig is required for SING_BOX core");
            resp_runningCore := core; configApply := None |}
  else match ValidateCoreConfig core config with
  | Err e => coreConflictResponse e
  | Ok _ =>
      stored ← read RuntimeState.SingBoxConfig;
      let should := should || negb (bool_decide (stored = config)) in
      applied ← attempt (if should then restartSingBox cfg config
                         else _ ← change (RuntimeState.SetSingBoxConfig config);
                              recordUnchangedSingBoxConfig config);
      match applied with
      | Err e => coreActivationFailureResponse e
      | Ok _ =>
          _ ← change (RuntimeState.SetLastHashes (Hashes request));
          _ ← refreshOnlineStatus;
          _ ← when (should && usage_active) (modify (set_restarted true));
          gets (λ w, {| isStarted := RuntimeState.OnlineStatus (runtime w);
                        version := activeVersion core (runtime w);
                        resp_error := None;
                        resp_runningCore := core;
                        configApply := startConfigApplyResult core w |})
      end
  end.

Definition Stop : proc World unit :=
  _ ← attempt StopProcess;
  _ ← change (RuntimeState.SetRunningCore "");
  _ ← change (RuntimeState.SetOnlineStatus false);
  change RuntimeState.Reset.

(** ** User handlers: change the stored configuration, then restart on it *)

Definition then_restart (m : proc Runtime unit) : proc World unit :=
  _ ← on_runtime m;
  restartCurrentCore cfg.

Definition AddUser (request : AddUserRequest) : proc World unit := then_restart (applyAddUserRequest request).
Definition AddUsers (request : AddUsersRequest) : proc World unit := then_restart (applyAddUsersRequest request).
Definition RemoveUser (request : RemoveUserRequest) : proc World unit :=
  then_restart (removeUserEverywhere (rm_Username request)).
Definition RemoveUsers (request : RemoveUsersRequest) : proc World unit := then_restart (remove_users request).

End handlers.
End Lifecycle.
