(* ===== verification/LifecycleSpec.v ===== *)
(** * What the lifecycle handlers guarantee

    A user request that succeeds is in effect: the core runs on a checked file whose
    users are the requested ones ([user_change_in_effect]).  A start that reports no
    error has its configuration in effect ([start_in_effect]). *)
From S2P Require Import Prelude GoStr GoTime GoAny GoSort StatName RuntimeState RuntimeSpec NodeConfig SingBoxConfig ConfigSpec Users UsersSpec Activation ActivationSpec Lifecycle.
Import NodeConfig SingBoxConfig Users Activation Lifecycle.

(** ** Names survive the agent's own rewriting *)

Definition all_users (Q : object → Prop) (config : object) : Prop :=
  ∀ inbound user, inbound ∈ inbounds_of config → user ∈ asMapSlice (field inbound "users") → Q user.

(** A panel user id that statistics names and JSON carry unchanged. *)
Definition name_ok (user : object) : Prop :=
  plain_user (StatName.UserID (raw_name user)) ∧ is_ascii (StatName.UserID (raw_name user)) = true.

Lemma field_clone m k :
  (∀ k' x, m !! k' = Some x → utf8_clean k' = k') → field (cloneMap m) k = json_clone (field m k).
Proof.
  intros Hk. unfold field, cloneMap. cbn [json_clone].
  assert (∀ k' x, rekey utf8_clean (sorted_entries (json_clone <$> m)) !! k' = Some x ↔
    (json_clone <$> m) !! k' = Some x) as Hr.
  { intros k' x. rewrite rekey_lookup.
    - setoid_rewrite sorted_entries_elem. split.
      + intros (k0 & Hx & Hf). rewrite lookup_fmap in Hx. destruct (m !! k0) as [y|] eqn:E; [|done].
        assert (k0 = k') as -> by (rewrite <-Hf; symmetry; by eapply Hk). by rewrite lookup_fmap, E.
      + intros Hx. exists k'. split; [done|]. rewrite lookup_fmap in Hx. destruct (m !! k') as [y|] eqn:E; [|done].
        by eapply Hk.
    - assert (utf8_clean ∘ fst <$> sorted_entries (json_clone <$> m) = (sorted_entries (json_clone <$> m)).*1) as ->;
        [|apply sorted_entries_nodup].
      apply list_fmap_ext. intros i [k1 x1] Hx. cbn. apply list_elem_of_lookup_2, sorted_entries_elem in Hx.
      rewrite lookup_fmap in Hx. destruct (m !! k1) eqn:E; [|done]. by eapply Hk. }
  destruct (m !! k) as [x|] eqn:E; cbn.
  - assert (rekey utf8_clean (sorted_entries (json_clone <$> m)) !! k = Some (json_clone x)) as ->; [|done].
    apply Hr. by rewrite lookup_fmap, E.
  - destruct (rekey _ _ !! k) as [y|] eqn:E2; [|done]. apply Hr in E2. by rewrite lookup_fmap, E in E2.
Qed.

Lemma encode_user_clean tag user :
  clean_object user → name_ok user → clean_object (encode_user tag user).
Proof.
  intros Hc [_ Ha]. unfold encode_user. case_bool_decide; [done|].
  apply clean_insert; [done..|]. by apply clean_str, clean_names.
Qed.

Lemma encode_inbound_clean inbound :
  clean_object inbound → (∀ user, user ∈ asMapSlice (field inbound "users") → name_ok user) →
  clean_object (encode_inbound inbound).
Proof.
  intros Hc Hn. unfold encode_inbound. case_bool_decide; [done|]. apply clean_insert; [done..|].
  apply clean_toAnySlice. intros m (u & -> & Hu)%list_elem_of_fmap. apply encode_user_clean; [|by apply Hn].
  eapply clean_asMapSlice; [|exact Hu]. by apply clean_field.
Qed.

Lemma clean_update_objects_in f v :
  clean_any v = true → (∀ m, m ∈ asMapSlice v → clean_object m → clean_object (f m)) →
  clean_any (update_objects f v) = true.
Proof.
  destruct v as [| | | | |l|]; try done. cbn [update_objects clean_any]. rewrite !forallb_elem_of.
  intros Hl Hf x (y & -> & Hy)%list_elem_of_fmap. specialize (Hl y Hy).
  destruct y; try done. apply clean_obj. apply Hf; [|by apply clean_obj].
  apply list_elem_of_omap. by eexists.
Qed.

Lemma encode_config_clean config :
  clean_object config → all_users name_ok config → clean_object (encodeSingBoxConfigUsers config).
Proof.
  intros Hc Hn. unfold encodeSingBoxConfigUsers, update_field.
  destruct (config !! "inbounds") as [v|] eqn:E; [|done]. destruct (Hc _ _ E).
  assert (field config "inbounds" = v) as Hf by (unfold field; by rewrite E).
  apply clean_insert; [done..|]. apply clean_update_objects_in; [done|]. intros m Hm Hcm.
  apply encode_inbound_clean; [done|]. intros u Hu. eapply Hn; [|exact Hu]. unfold inbounds_of. by rewrite Hf.
Qed.

(** Encoding the names keeps the users. *)
Lemma encode_user_entry tag protocol user :
  tag ≠ "" → plain_user (StatName.UserID (raw_name user)) →
  RuntimeState.user_entry tag protocol (encode_user tag user) = RuntimeState.user_entry tag protocol user.
Proof.
  intros Ht Hp. unfold encode_user. case_bool_decide as Hu; [done|].
  rewrite (user_entry_new _ _ _ (StatName.UserID (raw_name user))); [|by apply raw_name_set, user_inbound_nonempty|done..].
  unfold RuntimeState.user_entry, RuntimeState.asString. fold (raw_name user).
  rewrite bool_decide_eq_false_2; [done|]. intros Hraw. rewrite Hraw in Hu. by apply Hu.
Qed.

Lemma encode_users_of tag l :
  tag ≠ "" → (∀ i u, i ∈ l → u ∈ asMapSlice (field i "users") → name_ok u) →
  users_of tag (encode_inbound <$> l) = users_of tag l.
Proof.
  intros Ht Hn. unfold users_of. rewrite <-list_fmap_compose. f_equal. apply list_fmap_ext.
  intros n i Hi. apply list_elem_of_lookup_2 in Hi. cbn. unfold encode_inbound.
  destruct (bool_decide (stringValue (field i "tag") = "")) eqn:Htag; [done|].
  apply bool_decide_eq_false in Htag. unfold inbound_protocol. rewrite !field_insert_ne by done.
  rewrite field_insert_eq. unfold RuntimeState.asString. fold (inbound_protocol i).
  case_bool_decide as Heq; [|done]. cbn [andb]. destruct (negb _); [|done].
  unfold RuntimeState.asObjectSlice. rewrite asMapSlice_toAnySlice, Heq.
  assert (∀ us : list object, (∀ u, u ∈ us → name_ok u) →
    omap (RuntimeState.user_entry tag (inbound_protocol i)) (encode_user tag <$> us) =
    omap (RuntimeState.user_entry tag (inbound_protocol i)) us) as Hus; [|apply Hus; intros; by eapply Hn].
  induction us as [|u us IH]; intros Hok; [done|]. cbn [fmap list_fmap omap list_omap].
  rewrite encode_user_entry; [|done|by apply Hok; left]. rewrite IH; [done|]. intros. apply Hok. by right.
Qed.

Section users.
Context {DigestI : Digest} (cfg : Config).

Lemma apply_inbounds config :
  field (applySingBoxAPIConfig cfg config) "inbounds" = field config "inbounds" ∨
  field (applySingBoxAPIConfig cfg config) "inbounds" = field (encodeSingBoxConfigUsers config) "inbounds".
Proof.
  unfold applySingBoxAPIConfig. destruct (_ || _); [by left|right].
  by rewrite with_audit_service_field, field_insert_ne.
Qed.

Definition clean_keys (m : object) : Prop := ∀ k x, m !! k = Some x → utf8_clean k = k.

Lemma clean_keys_insert m k v : clean_keys m → utf8_clean k = k → clean_keys (<[k := v]> m).
Proof. intros Hm Hk k' x' [[<- _]|[_ Hx]]%lookup_insert_Some; [done|by eapply Hm]. Qed.

Lemma apply_keys config : clean_object config → clean_keys (applySingBoxAPIConfig cfg config).
Proof.
  intros Hc. assert (clean_keys config) as Hk by (intros k x Hx; by apply (Hc k x)).
  unfold applySingBoxAPIConfig. destruct (_ || _); [done|].
  assert (clean_keys (encodeSingBoxConfigUsers config)) as Henc.
  { unfold encodeSingBoxConfigUsers, update_field. destruct (config !! "inbounds"); [|done].
    by apply clean_keys_insert. }
  unfold with_audit_service. case_match; repeat apply clean_keys_insert; done.
Qed.

(** The configuration put in place has the users of the stored one. *)
Lemma built_users config tag :
  clean_object config → all_users name_ok config → tag ≠ "" →
  users_of tag (inbounds_of (cloneMap (built cfg config))) = users_of tag (inbounds_of config).
Proof.
  intros Hc Hn Ht. unfold built. rewrite (cloneMap_id config) by done.
  unfold inbounds_of at 1. rewrite field_clone by (by apply apply_keys).
  destruct (apply_inbounds config) as [->| ->].
  - rewrite json_clone_id by (by apply clean_field). done.
  - rewrite json_clone_id by (by apply clean_field, encode_config_clean).
    unfold encodeSingBoxConfigUsers. rewrite field_update_field, asMapSlice_update.
    by apply encode_users_of.
Qed.
End users.

(** ** Changes keep the names *)

Lemma all_users_add Q config item config' :
  all_users Q config → (∀ inbound user, new_user inbound item = Ok user → Q user) →
  addSingBoxUser config item = Ok config' → all_users Q config'.
Proof.
  intros Hall Hnew E. unfold addSingBoxUser in E. bind_as E l Hl. injection E as <-.
  assert (∀ l l', add_to_inbounds item l = Ok l' → ∀ i u, i ∈ asMapSlice (AArr l') →
    u ∈ asMapSlice (field i "users") → Q u ∨ ∃ i0, i0 ∈ asMapSlice (AArr l) ∧ u ∈ asMapSlice (field i0 "users")) as Hgen.
  { clear -Hnew. induction l as [|v l IH]; intros l' E i u Hi Hu; [done|].
    rewrite asMapSlice_cons. setoid_rewrite elem_of_app.
    assert (∀ rest, add_to_inbounds item l = Ok rest → i ∈ asMapSlice (AArr (v :: rest)) →
      Q u ∨ ∃ i0, (i0 ∈ match v with AObj m => [m] | _ => [] end ∨ i0 ∈ asMapSlice (AArr l)) ∧
        u ∈ asMapSlice (field i0 "users")) as Hrest.
    { intros rest Hr. rewrite asMapSlice_cons. intros [Hi'|Hi']%elem_of_app; [right; eauto|].
      destruct (IH _ Hr _ _ Hi' Hu) as [?|(i0 & ? & ?)]; [by left|right; eauto]. }
    destruct v as [| | | | | |inbound]; cbn [add_to_inbounds] in E;
      try (bind_as E rest Hr; injection E as <-; by eapply Hrest).
    case_bool_decide; [|bind_as E rest Hr; injection E as <-; by eapply Hrest].
    bind_as E inbound' Ha. injection E as <-. rewrite asMapSlice_cons in Hi.
    apply elem_of_app in Hi as [->%list_elem_of_singleton|Hi]; [|right; eauto].
    unfold add_to_inbound in Ha. bind_as Ha user Hu'. injection Ha as <-.
    rewrite field_insert_eq, asMapSlice_toAnySlice in Hu. apply elem_of_app in Hu as [Hu|Hu].
    - right. exists inbound. split; [left; by left|done].
    - apply list_elem_of_singleton in Hu as ->. left. by eapply Hnew. }
  intros i u Hi Hu. unfold inbounds_of in Hi. rewrite field_insert_eq in Hi.
  destruct (Hgen _ _ Hl i u Hi Hu) as [?|(i0 & Hi0 & Hu0)]; [done|].
  eapply Hall; [|exact Hu0]. unfold inbounds_of. by destruct (field config "inbounds").
Qed.

Lemma all_users_remove Q username config :
  all_users Q config → all_users Q (removeSingBoxUser username config).
Proof.
  intros Hall i u. unfold inbounds_of, removeSingBoxUser. rewrite field_update_field, asMapSlice_update.
  intros (i0 & -> & Hi)%list_elem_of_fmap Hu. unfold remove_from_inbound in Hu.
  rewrite field_insert_eq, asMapSlice_toAnySlice in Hu. apply list_elem_of_filter in Hu as [_ Hu].
  by eapply Hall.
Qed.

Lemma new_user_ok inbound item user : item_ok item → new_user inbound item = Ok user → name_ok user.
Proof.
  intros ((Hne & Hp & Ha) & Ht & _) Hn. unfold name_ok. rewrite (new_user_name _ _ _ Hn).
  by rewrite user_id_user_inbound.
Qed.

(** A stored configuration whose users have plain names. *)
Definition named_ok (r : Runtime) : Prop := all_users name_ok (RuntimeState.singBoxConfig r).

Lemma remove_named_ok username :
  preserves (λ r, ready r ∧ named_ok r) (removeUserEverywhere username).
Proof.
  intros r [Hr Hn]. pose proof Hr as [Hrun [_ Hc]].
  unfold removeUserEverywhere, gets, modify, mbind, proc_bind, RuntimeState.RunningCoreType.
  rewrite Hrun, bool_decide_eq_true_2 by done. cbn [fst].
  assert (RuntimeState.SingBoxConfig r = RuntimeState.singBoxConfig r) as -> by by apply cloneMap_id.
  destruct (set_config_ready (removeSingBoxUser username (RuntimeState.singBoxConfig r)) r Hr) as [Hr' Hcfg].
  { by apply removeSingBoxUser_clean. }
  split; [done|]. unfold named_ok. rewrite Hcfg. by apply all_users_remove.
Qed.

Lemma add_named_ok item :
  item_ok item → preserves (λ r, ready r ∧ named_ok r) (addUserToTag item).
Proof.
  intros Hi r [Hr Hn]. pose proof Hr as [Hrun [_ Hc]].
  unfold addUserToTag, gets, lift, modify, mbind, proc_bind, RuntimeState.RunningCoreType.
  rewrite Hrun, bool_decide_eq_true_2 by done.
  assert (RuntimeState.SingBoxConfig r = RuntimeState.singBoxConfig r) as -> by by apply cloneMap_id.
  destruct (addSingBoxUser _ item) as [config|] eqn:Ha; [|done]. cbn [fst].
  destruct (set_config_ready config r Hr) as [Hr' Hcfg]; [by eapply addSingBoxUser_clean|].
  split; [done|]. unfold named_ok. rewrite Hcfg. eapply all_users_add; [exact Hn| |exact Ha].
  intros inbound user. by apply new_user_ok.
Qed.

Lemma apply_add_named_ok request :
  Forall item_ok (Data request) → preserves (λ r, ready r ∧ named_ok r) (applyAddUserRequest request).
Proof.
  intros Hi. unfold applyAddUserRequest. apply preserves_bind; [|intros; apply preserves_ret].
  apply preserves_fold. intros seen item Hin. unfold add_item. apply preserves_bind.
  { case_bool_decide; [apply preserves_ret|]. apply preserves_bind; [apply remove_named_ok|].
    intros; apply preserves_ret. }
  intros seen'. apply preserves_bind; [|intros; apply preserves_ret]. apply add_named_ok.
  rewrite Forall_forall in Hi. by apply Hi.
Qed.

Lemma apply_bulk_named_ok request :
  Forall item_ok (bulk_items (add_Users request)) →
  preserves (λ r, ready r ∧ named_ok r) (applyAddUsersRequest request).
Proof.
  intros Hi. unfold applyAddUsersRequest, proc_iter. apply preserves_fold. intros [] user Hu.
  unfold add_bulk. apply preserves_bind; [apply remove_named_ok|]. intros _. unfold proc_iter.
  apply preserves_fold. intros [] i Hin. apply add_named_ok. rewrite Forall_forall in Hi. apply Hi.
  unfold bulk_items. apply list_elem_of_join. exists (bulk_item (UserData user) <$> InboundData user).
  split; apply list_elem_of_fmap; eauto.
Qed.

Lemma remove_users_named_ok request : preserves (λ r, ready r ∧ named_ok r) (remove_users request).
Proof. unfold remove_users, proc_iter. apply preserves_fold. intros [] u _. apply remove_named_ok. Qed.

(** ** User requests *)

Inductive user_request :=
| RAddUser (request : AddUserRequest)
| RAddUsers (request : AddUsersRequest)
| RRemoveUser (request : RemoveUserRequest)
| RRemoveUsers (request : RemoveUsersRequest).

Definition change_of (q : user_request) : proc Runtime unit :=
  match q with
  | RAddUser request => applyAddUserRequest request
  | RAddUsers request => applyAddUsersRequest request
  | RRemoveUser request => removeUserEverywhere (rm_Username request)
  | RRemoveUsers request => remove_users request
  end.

(** Accepted requests, with plain names. *)
Definition request_ok (q : user_request) : Prop :=
  match q with
  | RAddUser request => Forall item_ok (Data request)
  | RAddUsers request => validate_add_users request = Ok tt ∧ NoDup (bulk_ids (add_Users request)) ∧
      Forall item_ok (bulk_items (add_Users request))
  | RRemoveUser request => validate_remove_user request = Ok tt
  | RRemoveUsers request => validate_remove_users request = Ok tt
  end.

(** The users of a tag after the request, from those before. *)
Definition expected (q : user_request) (tag : string) (old : list string) : list string :=
  match q with
  | RAddUser request => filter (λ u, u ∉ Username <$> Data request) old ++ named tag (Data request)
  | RAddUsers request =>
      filter (λ u, u ∉ bulk_ids (add_Users request)) old ++ named tag (bulk_items (add_Users request))
  | RRemoveUser request => filter (λ u, u ≠ rm_Username request) old
  | RRemoveUsers request => filter (λ u, u ∉ ru_UserID <$> remove_Users request) old
  end.

Lemma removed_ids request : validate_remove_users request = Ok tt → "" ∉ ru_UserID <$> remove_Users request.
Proof.
  intros Hv (u & Hid & Hu)%list_elem_of_fmap. pose proof (validate_all_ok _ _ Hv u Hu) as Hb.
  cbn in Hb. by rewrite <-Hid in Hb.
Qed.

Lemma change_effect q r r' :
  ready r → named_ok r → request_ok q → change_of q r = (r', Ok tt) →
  ready r' ∧ named_ok r' ∧ ∀ tag, ids tag r' ≡ₚ expected q tag (ids tag r).
Proof.
  intros Hr Hn Hq E. assert (preserves (λ r, ready r ∧ named_ok r) (change_of q)) as Hpres.
  { destruct q; [by apply apply_add_named_ok|apply apply_bulk_named_ok, Hq|apply remove_named_ok|
      apply remove_users_named_ok]. }
  pose proof (Hpres r (conj Hr Hn)) as [Hr' Hn']. rewrite E in Hr', Hn'. split_and!; [done..|].
  destruct q as [q|q|q|q]; cbn in Hq, E |- *.
  - unfold applyAddUserRequest in E. proc_as E r1 seen Hf. injection E as ->.
    destruct (add_items_effect _ _ _ _ _ Hr Hq Hf) as [_ Hids]. intros tag. rewrite (Hids tag). f_equiv.
    erewrite list_filter_iff; [reflexivity|]. intros u. cbn. rewrite elem_of_nil. naive_solver.
  - destruct Hq as (Hv & Hnd & Hi). exact (proj2 (add_bulks_effect _ _ _ Hr (validated_ids _ Hv) Hnd Hi E)).
  - unfold validate_remove_user in Hq. destruct (is_empty (rm_Username q)) eqn:He; [done|].
    apply bool_decide_eq_false in He. destruct (remove_run _ r Hr He) as (r1 & Hrm & _ & Hids).
    rewrite E in Hrm. injection Hrm as <-. intros tag. by rewrite (Hids tag).
  - destruct (remove_all_effect (ru_UserID <$> remove_Users q) r Hr) as (r1 & Hrm & _ & Hids); [by apply removed_ids|].
    rewrite proc_iter_fmap in Hrm. unfold remove_users in E. rewrite E in Hrm. injection Hrm as <-.
    intros tag. by rewrite (Hids tag).
Qed.

Section lifecycle.
Context {EnvI : Env} {JsonI : Json} {DigestI : Digest} {GuardI : CoreGuard} {RangeI : MapRange} (cfg : Config).
Context (Hpaths : paths_ok cfg).

Definition handle (q : user_request) : proc World unit :=
  match q with
  | RAddUser request => AddUser cfg request
  | RAddUsers request => AddUsers cfg request
  | RRemoveUser request => RemoveUser cfg request
  | RRemoveUsers request => RemoveUsers cfg request
  end.

Lemma restart_ok config w w' :
  restartSingBox cfg config w = (w', Ok tt) →
  in_effect cfg (marshal_indent (built cfg config)) (cloneMap (built cfg config)) w' ∧
  usageCoreRestarted w' = usageCoreRestarted w.
Proof.
  intros E. apply (restart_spec cfg Hpaths) in E as [Hu [(p & w1 & _ & _ & Ha)|(e & ? & _)]]; [|done].
  inversion Ha. by split_and!.
Qed.

(** C6: a user request that succeeds is in effect: the core runs, after a start that
    supervisord confirmed, on a file whose users are, under every inbound tag, those
    the request asks for; the agent's own state agrees; and the next start request
    restarts the core again, because the hashes no longer match. *)
Theorem user_change_in_effect q w w' :
  ready (runtime w) → named_ok (runtime w) → request_ok q → handle q w = (w', Ok tt) →
  ∃ config, in_effect cfg (marshal_indent config) (cloneMap config) w' ∧
    RuntimeState.hashesDirty (runtime w') = true ∧
    ∀ tag, tag ≠ "" →
      RuntimeState.UserID <$> users_of tag (inbounds_of (cloneMap config)) ≡ₚ
      expected q tag (RuntimeState.UserID <$> RuntimeState.InboundUsers tag (runtime w)).
Proof.
  intros Hr Hn Hq E.
  assert (∃ r1, change_of q (runtime w) = (r1, Ok tt) ∧ restartCurrentCore cfg (set_runtime r1 w) = (w', Ok tt)) as (r1 & Hc & Hre).
  { assert (handle q = then_restart cfg (change_of q)) as Hh by by destruct q.
    rewrite Hh in E. unfold then_restart in E. proc_as E w1 [] H1. unfold on_runtime in H1.
    destruct (change_of q (runtime w)) as [r1 a]. injection H1 as <- ->. eauto. }
  destruct (change_effect q _ _ Hr Hn Hq Hc) as ([Hrun [Hi Hcl]] & Hn1 & Hids).
  unfold restartCurrentCore in Hre. proc_as Hre w2 [] H2. injection H2 as <-. proc_as Hre w3 core H3.
  injection H3 as <- <-. cbn in Hre. unfold RuntimeState.RunningCoreType in Hre. cbn in Hre.
  rewrite bool_decide_eq_true_2 in Hre by done. proc_as Hre w4 config H4. injection H4 as <- <-.
  set (w0 := set_runtime _ _) in Hre. cbn in Hre.
  pose proof (restartSingBox_grows cfg _ (hashes_are_stable (RuntimeState.lastHashes r1) true)
    (RuntimeState.SingBoxConfig (RuntimeState.MarkHashesDirty r1)) w0) as Hh.
  rewrite Hre in Hh. destruct Hh as [_ Hdirty]; [by split|]. apply restart_ok in Hre as [He _].
  assert (RuntimeState.SingBoxConfig (RuntimeState.MarkHashesDirty r1) = RuntimeState.singBoxConfig r1) as Hsame
    by by apply cloneMap_id.
  rewrite Hsame in He. eexists. split; [exact He|]. split; [exact Hdirty|]. intros tag Ht.
  rewrite built_users by done. fold (ids tag r1). rewrite (Hids tag).
  by rewrite ready_users.
Qed.

(** a user request never sets the marker of restarts, also when it restarts the
    core, successfully or not: the next sample of the core then takes counters that
    started again for the old ones grown. *)
Theorem user_restart_unmarked q w w' r :
  handle q w = (w', r) → usageCoreRestarted w' = usageCoreRestarted w.
Proof.
  intros E. assert (handle q = then_restart cfg (change_of q)) as Hh by by destruct q.
  rewrite Hh in E. unfold then_restart in E. step E w1 a H1. unfold on_runtime in H1.
  destruct (change_of q (runtime w)) as [r1 b]. injection H1 as <- <-.
  destruct b as [u|e]; [|by destruct E as [-> ->]]. unfold restartCurrentCore in E.
  step E w2 x H2. injection H2 as <- <-. step E w3 core H3. injection H3 as <- <-.
  case_bool_decide; [|by injection E as <- <-]. step E w4 config H4. injection H4 as <- <-.
  apply (restart_spec cfg Hpaths) in E as [Hu _]. exact Hu.
Qed.

Lemma SyncEnvironment_spec w w' r :
  SyncEnvironment w = (w', r) → r = Ok tt ∧ looked w w' ∧
  ∃ v b, runtime w' = RuntimeState.SetOnlineStatus b (RuntimeState.SetCoreVersion v (runtime w)).
Proof.
  intros E. unfold SyncEnvironment in E. step E w1 v H1.
  assert (looked w w1 ∧ runtime w1 = runtime w ∧ ∃ x, v = Ok x) as (Hl & Hr & x & ->).
  { injection H1 as <- <-. split; [|eauto]. split_and!; try done. by eexists [_]. }
  step E w2 u H2. injection H2 as <- <-. apply refreshOnlineStatus_spec in E as (-> & Hl2 & b & Hr2).
  split; [done|]. split; [by transitivity w1|]. cbn in Hr2. rewrite Hr in Hr2. eauto.
Qed.

Lemma failure_response_spec e apply w :
  ∃ w' resp, failureResponse e apply w = (w', Ok resp) ∧ resp_error resp = Some e ∧ looked w w' ∧
    RuntimeState.singBoxConfig (runtime w') = RuntimeState.singBoxConfig (runtime w).
Proof.
  unfold failureResponse. destruct (refreshOnlineStatus w) as [w1 r] eqn:E.
  rewrite (proc_bind_run _ _ _ _ _ E). apply refreshOnlineStatus_spec in E as (-> & Hl & b & Hr).
  eexists _, _. split; [reflexivity|]. split_and!; try done; try apply Hl. by rewrite Hr.
Qed.

Lemma in_effect_looked file config w w' :
  in_effect cfg file config w → looked w w' →
  RuntimeState.running (runtime w') = RuntimeState.running (runtime w) →
  RuntimeState.singBoxConfig (runtime w') = RuntimeState.singBoxConfig (runtime w) →
  in_effect cfg file config w'.
Proof.
  intros (H1 & H2 & H3 & H4) (Hf & _ & _ & Ht) Hr Hc.
  split_and!; [congruence|by rewrite Hf|by eapply core_on_untouched|congruence].
Qed.

Definition start_config (request : StartRequest) : object :=
  applySingBoxAPIConfig cfg (normalizeSingBoxKeys (AObj (cloneMap (req_SingBoxConfig request)))).

(** The end of a start that met no error. *)
Lemma start_end_spec active request w w' r :
  (_ ← change (RuntimeState.SetLastHashes (Hashes request));
   _ ← refreshOnlineStatus;
   _ ← when active (modify (set_restarted true));
   gets (λ w, {| isStarted := RuntimeState.OnlineStatus (runtime w);
                 version := activeVersion RuntimeState.CoreTypeSingBox (runtime w);
                 resp_error := None;
                 resp_runningCore := RuntimeState.CoreTypeSingBox;
                 configApply := startConfigApplyResult RuntimeState.CoreTypeSingBox w |})) w = (w', r) →
  ∃ resp, r = Ok resp ∧ files w' = files w ∧ untouched w w' ∧
    usageCoreRestarted w' = active || usageCoreRestarted w ∧
    ∃ b, runtime w' = RuntimeState.SetOnlineStatus b (RuntimeState.SetLastHashes (Hashes request) (runtime w)).
Proof.
  intros E. step E w1 u H1. injection H1 as <- <-. step E w2 u2 H2.
  apply refreshOnlineStatus_spec in H2 as (-> & (Hf & _ & Hu & Ht) & b & Hr). cbn in Hf, Hu, Hr.
  step E w3 u3 H3. destruct active; injection H3 as <- <-; injection E as <- <-; eexists;
    (split; [reflexivity|]); split_and!; eauto.
Qed.

Lemma read_run {A B} (f : Runtime → A) (k : A → proc World B) w : (read f ≫= k) w = k (f (runtime w)) w.
Proof. done. Qed.

(** C16: [Start] always answers.  When it reports no error the hashes of the request
    are stored, and either its configuration is in effect after a restart, which the
    usage marker records while usage snapshots are on, or it equals the stored one and
    the core was not touched.  A configuration that collides with a forwarding rule
    changes nothing. *)
Theorem start_in_effect active request w :
  let config := start_config request in
  ∃ w' resp, Start cfg active request w = (w', Ok resp) ∧
  (resp_error resp = None →
     RuntimeState.LastHashes (runtime w') = Hashes request ∧ RuntimeState.hashesDirty (runtime w') = false ∧
     (in_effect cfg (marshal_indent (built cfg config)) (cloneMap (built cfg config)) w' ∧
      usageCoreRestarted w' = active || usageCoreRestarted w ∨
      RuntimeState.SingBoxConfig (runtime w) = config ∧ untouched w w' ∧ files w' = files w ∧
      RuntimeState.singBoxConfig (runtime w') = cloneMap config ∧
      usageCoreRestarted w' = usageCoreRestarted w)) ∧
  (∀ e, ValidateCoreConfig RuntimeState.CoreTypeSingBox config = Err e → config ≠ ∅ →
     resp_error resp = Some e ∧ untouched w w' ∧ files w' = files w ∧
     RuntimeState.singBoxConfig (runtime w') = RuntimeState.singBoxConfig (runtime w)).
Proof.
  intros config. unfold Start. fold (start_config request). fold config.
  destruct (SyncEnvironment w) as [w1 r1] eqn:E1. rewrite (proc_bind_run _ _ _ _ _ E1).
  apply SyncEnvironment_spec in E1 as (-> & (Hf1 & Ha1 & Hu1 & Ht1) & v & b & Hr1).
  rewrite read_run.
  set (should := shouldRestartCore cfg _ _ _ _).
  case_bool_decide as Hempty. { eexists _, _. split; [reflexivity|]. split; [done|]. intros e _ Hne. done. }
  destruct (ValidateCoreConfig RuntimeState.CoreTypeSingBox config) as [[]|e] eqn:Hv.
  2:{ destruct (failure_response_spec e (λ _, None) w1) as (w' & resp & Hresp & He & (Hf & _ & Hu & Ht) & Hc).
      exists w', resp. split; [exact Hresp|]. split; [congruence|]. intros e' [= <-] _.
      split_and!; [done|by transitivity w1|congruence|]. by rewrite Hc, Hr1. }
  rewrite read_run.
  assert (RuntimeState.SingBoxConfig (runtime w1) = RuntimeState.SingBoxConfig (runtime w)) as Hstored by by rewrite Hr1.
  rewrite Hstored. set (go := should || _).
  match goal with |- context [attempt ?m ≫= _] => destruct (attempt m w1) as [w2 r2] eqn:E2 end.
  rewrite (proc_bind_run _ _ _ _ _ E2).
  apply attempt_inv in E2 as (a & E2 & ->). destruct a as [[]|e].
  2:{ destruct (failure_response_spec e singBoxApplyResult w2) as (w' & resp & Hresp & He & _).
      exists w', resp. split; [exact Hresp|]. split; [congruence|]. done. }
  match goal with |- ∃ w' resp, ?m = _ ∧ _ => destruct m as [w' r] eqn:E3 end.
  apply start_end_spec in E3 as (resp & -> & Hf3 & Ht3 & Hu3 & b3 & Hr3).
  exists w', resp. split; [done|]. split; [|done]. intros _. rewrite Hr3. split; [done|]. split; [done|].
  destruct go eqn:Hgo.
  - left. apply restart_ok in E2 as [(H1 & H2 & H3 & H4) Hu2]. split.
    + split_and!; rewrite ?Hr3; [done|by rewrite Hf3|by eapply core_on_untouched|done].
    + rewrite Hu3, Hu2, Hu1. by rewrite andb_true_l.
  - right. unfold go in Hgo. apply orb_false_iff in Hgo as [_ Hgo]. apply negb_false_iff, bool_decide_eq_true in Hgo.
    proc_as E2 w3 [] H3. injection H3 as <-. unfold recordUnchangedSingBoxConfig in E2.
    proc_as E2 w4 t H4. injection H4 as <- <-. injection E2 as <-. cbn in Hf3, Hu3, Hr3, Ht3.
    split_and!; [done| |congruence| |cbn in Hu3; congruence].
    + transitivity w1; [done|]. exact Ht3.
    + cbn. unfold RuntimeState.SetSingBoxConfig. by case_bool_decide.
Qed.
End lifecycle.

(** ** The theorems at work *)

Module LifecycleDemo.
Import ActivationDemo.

#[export] Instance guard : CoreGuard := λ _ _, Ok tt.

Lemma demo_ready : ready (runtime start_world).
Proof.
  split; [reflexivity|]. exact (run_sound (H := Merge.sort)
    [OpSetSingBoxConfig demo_config; OpSetRunningCore RuntimeState.CoreTypeSingBox] "1.0").
Qed.

Lemma demo_named : named_ok (runtime start_world).
Proof.
  intros inbound user Hi Hu.
  assert (inbound ∈ inbounds_of demo_config) as Hi' by exact Hi.
  apply list_elem_of_singleton in Hi' as ->.
  apply elem_of_cons in Hu as [->|Hu%list_elem_of_singleton]; [|subst user]; split; vm_compute; reflexivity.
Qed.

Definition removal : user_request := RRemoveUser {| rm_Username := "7"; rm_VLESSUUID := "" |}.

Lemma user_change_in_effect_witness :
  ∃ config, in_effect cfg (marshal_indent config) (cloneMap config) (handle cfg removal start_world).1 ∧
    RuntimeState.UserID <$> users_of "in" (inbounds_of (cloneMap config)) ≡ₚ ["8"].
Proof.
  destruct (user_change_in_effect cfg paths removal start_world (handle cfg removal start_world).1
    demo_ready demo_named eq_refl) as (config & He & _ & Hu).
  - vm_compute. reflexivity.
  - exists config. split; [exact He|]. etransitivity; [exact (Hu "in" ltac:(discriminate))|]. vm_compute. reflexivity.
Defined.

Lemma user_restart_unmarked_witness :
  usageCoreRestarted (handle cfg removal start_world).1 = false ∧
  forallb is_quiet (take 3 (rev (events (handle cfg removal start_world).1))) = false.
Proof.
  split; [|vm_compute; reflexivity].
  exact (user_restart_unmarked cfg paths removal start_world _ _ (surjective_pairing (handle cfg removal start_world))).
Defined.

Definition demo_request : StartRequest :=
  {| CoreType := "SING_BOX"; ForceRestart := true;
     Hashes := {| RuntimeState.EmptyConfig := "h"; RuntimeState.Inbounds := [] |};
     req_SingBoxConfig := demo_config |}.

Lemma start_in_effect_witness :
  ∃ w' resp, Start (RangeI := Merge.range) cfg true demo_request start_world = (w', Ok resp) ∧
    (resp_error resp = None → RuntimeState.LastHashes (runtime w') = Hashes demo_request).
Proof.
  destruct (start_in_effect (RangeI := Merge.range) cfg paths true demo_request start_world)
    as (w' & resp & Hs & Hok & _).
  exists w', resp. split; [exact Hs|]. intros He. exact (proj1 (Hok He)).
Defined.
End LifecycleDemo.
