(* ===== verification/Stats.v ===== *)
(** * Traffic statistics: the queries of [internal/node/manager.go]

    The core reports cumulative counters under names such as
    [user>>>NAME>>>traffic>>>uplink]; the manager groups them by tag, or by user and
    inbound. *)
From S2P Require Import Prelude GoStr GoTime GoSort StatName RuntimeState.

Module Stats.

Record Stat := { stat_Name : string; stat_Value : Z }.

(** The statistics service of the core: package [coreapi], over gRPC. *)
Class StatsClient := Query : string → bool → result (list Stat).

(** The JSON object of an item: its name or names, and two counters. *)
Record Traffic (L : Type) := { label : L; uplink : Z; downlink : Z }.
Arguments label {L} t.
Arguments uplink {L} t.
Arguments downlink {L} t.
Arguments Build_Traffic {L} label uplink downlink.

Inductive direction := Uplink | Downlink.
#[export] Instance direction_eq_dec : EqDecision direction.
Proof. solve_decision. Defined.

Definition direction_of (s : string) : option direction :=
  if bool_decide (s = "uplink") then Some Uplink
  else if bool_decide (s = "downlink") then Some Downlink else None.

Definition marker : string := ">>>traffic>>>".

(** The name of a counter after its prefix: the tag before the last marker, and the
    direction after it. *)
Definition parse_name (prefix name : string) : option (string * direction) :=
  remainder ← strip_prefix prefix name;
  '(tag, dir) ← cut_last remainder marker;
  d ← direction_of dir;
  if bool_decide (tag = "") then None else Some (tag, d).

Definition traffic_in {L} (d : direction) (t : Traffic L) : Z :=
  match d with Uplink => uplink t | Downlink => downlink t end.

(** [item[direction] += value] on [int64]s. *)
Definition add_traffic {L} (d : direction) (v : Z) (t : Traffic L) : Traffic L :=
  match d with
  | Uplink => {| label := label t; uplink := Int.wrap64 (uplink t + v); downlink := downlink t |}
  | Downlink => {| label := label t; uplink := uplink t; downlink := Int.wrap64 (downlink t + v) |}
  end.

(** One counter of a group: its key in the map, its label, its direction and value. *)
Record reading (L : Type) := { rd_key : string; rd_label : L; rd_dir : direction; rd_value : Z }.
Arguments rd_key {L} r.
Arguments rd_label {L} r.
Arguments rd_dir {L} r.
Arguments rd_value {L} r.
Arguments Build_reading {L} rd_key rd_label rd_dir rd_value.

Definition zero {L} (l : L) : Traffic L := {| label := l; uplink := 0; downlink := 0 |}.

(** The body of the loops: find or create the item, add the value. *)
Definition group {L} (grouped : gmap string (Traffic L)) (r : reading L) : gmap string (Traffic L) :=
  <[rd_key r := add_traffic (rd_dir r) (rd_value r) (default (zero (rd_label r)) (grouped !! rd_key r))]> grouped.

Section queries.
Context {SortI : SortSlice} {RangeI : MapRange} {ClientI : StatsClient}.

(** The items of the map, sorted. *)
Definition items_of {L} (less : L → L → bool) (grouped : gmap string (Traffic L)) : list (Traffic L) :=
  sort_slice (λ x y, less (label x) (label y)) (range_map grouped).*2.

(** [statsClient]: there is one while sing-box runs. *)
Definition has_client (r : RuntimeState.Runtime) : bool :=
  bool_decide (RuntimeState.RunningCoreType r = RuntimeState.CoreTypeSingBox).

Definition tag_reading (prefix : string) (s : Stat) : option (reading string) :=
  '(tag, d) ← parse_name prefix (stat_Name s);
  Some {| rd_key := tag; rd_label := tag; rd_dir := d; rd_value := stat_Value s |}.

Definition fetchGroupedStats (kind pattern : string) (reset : bool) (r : RuntimeState.Runtime)
    : result (list (Traffic string)) :=
  if has_client r then
    stats ← Query pattern reset;
    Ok (items_of str_ltb (foldl group ∅ (omap (tag_reading (kind +:+ ">>>")) stats)))
  else Ok [].

Definition nul : string := String (chr 0) "".

(** The user and inbound of a counter: those of its encoded name, or the raw name. *)
Definition user_of (raw : string) : string * string :=
  match StatName.ParseUserInbound raw with Some (u, i) => (u, i) | None => (raw, "") end.

Definition user_reading (s : Stat) : option (reading (string * string)) :=
  '(raw, d) ← parse_name "user>>>" (stat_Name s);
  let '(u, i) := user_of raw in
  Some {| rd_key := u +:+ nul +:+ i; rd_label := (u, i); rd_dir := d; rd_value := stat_Value s |}.

Definition user_less (x y : string * string) : bool :=
  if bool_decide (x.1 = y.1) then str_ltb x.2 y.2 else str_ltb x.1 y.1.

Definition fetchUserInboundStats (reset : bool) (r : RuntimeState.Runtime)
    : result (list (Traffic (string * string))) :=
  if has_client r then
    stats ← Query "user>>>" reset;
    Ok (items_of user_less (foldl group ∅ (omap user_reading stats)))
  else Ok [].

(** Failed queries are logged and read as empty. *)
Definition queryGroupedStats (kind pattern : string) (reset : bool) (r : RuntimeState.Runtime) : list (Traffic string) :=
  match fetchGroupedStats kind pattern reset r with Ok l => l | Err _ => [] end.
Definition queryUserInboundStats (reset : bool) (r : RuntimeState.Runtime) : list (Traffic (string * string)) :=
  match fetchUserInboundStats reset r with Ok l => l | Err _ => [] end.

Definition nonzero {L} (t : Traffic L) : bool := negb (uplink t =? 0)%Z || negb (downlink t =? 0)%Z.

(** Per user, over its inbounds. *)
Definition add_user (grouped : gmap string (Traffic string)) (user : Traffic (string * string))
    : gmap string (Traffic string) :=
  let username := (label user).1 in
  let item := default (zero username) (grouped !! username) in
  <[username := add_traffic Downlink (downlink user) (add_traffic Uplink (uplink user) item)]> grouped.

Definition GetUsersStats (reset : bool) (r : RuntimeState.Runtime) : list (Traffic string) :=
  let grouped := foldl add_user ∅ (queryUserInboundStats reset r) in
  sort_slice (λ x y, str_ltb (label x) (label y)) (filter (λ t, nonzero t = true) (range_map grouped).*2).

Definition GetUsersInboundStats (reset : bool) (r : RuntimeState.Runtime) : list (Traffic (string * string)) :=
  filter (λ t, nonzero t = true) (queryUserInboundStats reset r).

Definition findTagStats (items : list (Traffic string)) (tag : string) : Traffic string :=
  default (zero tag) (head (filter (λ t, label t = tag) items)).

Definition GetInboundStats (tag : string) (reset : bool) (r : RuntimeState.Runtime) : Traffic string :=
  findTagStats (queryGroupedStats "inbound" ("inbound>>>" +:+ tag +:+ ">>>") reset r) tag.
Definition GetOutboundStats (tag : string) (reset : bool) (r : RuntimeState.Runtime) : Traffic string :=
  findTagStats (queryGroupedStats "outbound" ("outbound>>>" +:+ tag +:+ ">>>") reset r) tag.
Definition GetAllInboundStats (reset : bool) (r : RuntimeState.Runtime) : list (Traffic string) :=
  queryGroupedStats "inbound" "inbound>>>" reset r.
Definition GetAllOutboundStats (reset : bool) (r : RuntimeState.Runtime) : list (Traffic string) :=
  queryGroupedStats "outbound" "outbound>>>" reset r.
Definition GetCombinedStats (reset : bool) (r : RuntimeState.Runtime) : list (Traffic string) * list (Traffic string) :=
  (queryGroupedStats "inbound" "inbound>>>" reset r, queryGroupedStats "outbound" "outbound>>>" reset r).
End queries.

End Stats.
