(* ===== verification/StatsSpec.v ===== *)
(** * What the statistics queries guarantee

    No traffic is lost or double-counted by grouping: the figures of a user are the
    sums of its counters ([users_stats_exact]). *)
From S2P Require Import Prelude GoStr GoTime GoSort StatName RuntimeState Stats.
Import Stats.

(** ** Sums over a map *)

Section sums.
Context {L : Type}.
Implicit Types (m : gmap string (Traffic L)) (t : Traffic L).

Definition sum_map (f : Traffic L → Z) m : Z := sum_Z (f <$> (map_to_list m).*2).

Lemma sum_map_empty f : sum_map f ∅ = 0%Z.
Proof. unfold sum_map. by rewrite map_to_list_empty. Qed.

Lemma sum_map_delete f m k : sum_map f m = (from_option f 0 (m !! k) + sum_map f (delete k m))%Z.
Proof.
  destruct (m !! k) as [t|] eqn:E; cbn.
  - unfold sum_map. rewrite <-(map_to_list_delete m k t) by done. done.
  - by rewrite delete_id.
Qed.

Lemma sum_map_insert f m k t :
  sum_map f (<[k := t]> m) = (f t - from_option f 0 (m !! k) + sum_map f m)%Z.
Proof.
  rewrite (sum_map_delete f (<[k := t]> m) k), lookup_insert_eq, (sum_map_delete f m k), delete_insert_eq. cbn. lia.
Qed.
End sums.

(** ** Grouping *)

Section group.
Context {L : Type} `{EqDecision L} (key : L → string) (fine : L → Prop).
Context (key_inj : ∀ l1 l2, fine l1 → fine l2 → key l1 = key l2 → l1 = l2).
Implicit Types (m : gmap string (Traffic L)) (r : reading L).

(** Items stand under the key of their label; readings name theirs. *)
Definition keyed m : Prop := ∀ k t, m !! k = Some t → k = key (label t) ∧ fine (label t).
Definition reads_key r : Prop := rd_key r = key (rd_label r) ∧ fine (rd_label r).

Lemma label_add d v (t : Traffic L) : label (add_traffic d v t) = label t.
Proof. by destruct d. Qed.

Lemma group_item m r :
  keyed m → reads_key r → label (default (zero (rd_label r)) (m !! rd_key r)) = rd_label r.
Proof.
  intros Hm [Hk Hf]. destruct (m !! rd_key r) as [t|] eqn:E; [|done]. cbn.
  destruct (Hm _ _ E) as [Hk' Hf']. apply key_inj; [done..|congruence].
Qed.

Lemma group_keyed m r : keyed m → reads_key r → keyed (group m r).
Proof.
  intros Hm Hr k t. unfold group. intros [[<- <-]|[_ ?]]%lookup_insert_Some; [|by apply Hm].
  rewrite label_add, group_item by done. by destruct Hr.
Qed.

Lemma groups_keyed m l : keyed m → Forall reads_key l → keyed (foldl group m l).
Proof.
  intros Hm Hl. revert m Hm. induction Hl as [|r l Hr _ IH]; intros m Hm; [done|]. cbn. by apply IH, group_keyed.
Qed.

(** The traffic of the labels that a predicate selects. *)
Definition select (P : L → bool) (d : direction) (t : Traffic L) : Z :=
  if P (label t) then traffic_in d t else 0.
Definition selected (P : L → bool) (d : direction) (l : list (reading L)) : Z :=
  sum_Z ((λ r, if P (rd_label r) && bool_decide (rd_dir r = d) then rd_value r else 0%Z) <$> l).

Lemma traffic_add d d' v (t : Traffic L) :
  Int.wrap64 (traffic_in d (add_traffic d' v t)) = Int.wrap64 (traffic_in d t + if decide (d' = d) then v else 0).
Proof. destruct d, d'; cbn; rewrite ?Z.add_0_r, ?Int.wrap64_idem; done. Qed.

Lemma group_sum P d m r :
  keyed m → reads_key r →
  Int.wrap64 (sum_map (select P d) (group m r)) =
  Int.wrap64 (sum_map (select P d) m + selected P d [r]).
Proof.
  intros Hm Hr. unfold group. rewrite sum_map_insert. unfold selected. cbn [fmap list_fmap sum_Z].
  set (old := default (zero (rd_label r)) (m !! rd_key r)).
  assert (from_option (select P d) 0 (m !! rd_key r) = select P d old)%Z as ->.
  { unfold old. destruct (m !! rd_key r); [done|]. unfold select, zero. cbn. by destruct (P _), d. }
  assert (label old = rd_label r) as Hl by by apply group_item.
  unfold select at 1 2. rewrite label_add, Hl. destruct (P (rd_label r)); cbn [andb].
  - replace (traffic_in d (add_traffic (rd_dir r) (rd_value r) old) - traffic_in d old + sum_map (select P d) m)%Z
      with (traffic_in d (add_traffic (rd_dir r) (rd_value r) old) + (sum_map (select P d) m - traffic_in d old))%Z by lia.
    rewrite <-Int.wrap64_add_l, traffic_add, Int.wrap64_add_l. f_equal.
    case_bool_decide; [rewrite decide_True by done|rewrite decide_False by done]; lia.
  - f_equal. lia.
Qed.

Lemma selected_cons P d r l : selected P d (r :: l) = (selected P d [r] + selected P d l)%Z.
Proof. unfold selected. cbn. lia. Qed.

Lemma groups_sum P d m l :
  keyed m → Forall reads_key l →
  Int.wrap64 (sum_map (select P d) (foldl group m l)) = Int.wrap64 (sum_map (select P d) m + selected P d l).
Proof.
  intros Hm Hl. revert m Hm. induction Hl as [|r l Hr _ IH]; intros m Hm; cbn [foldl].
  - unfold selected. cbn. by rewrite Z.add_0_r.
  - rewrite IH by (by apply group_keyed). rewrite <-Int.wrap64_add_l, group_sum, Int.wrap64_add_l by done.
    rewrite (selected_cons P d r l). f_equal. lia.
Qed.
End group.

(** ** Users *)

Definition of_user (u : string) (l : string * string) : bool := bool_decide (l.1 = u).

(** Items are filed under their user, and their figures are [int64]s. *)
Definition filed (m : gmap string (Traffic string)) : Prop :=
  ∀ k t, m !! k = Some t → label t = k ∧ ∀ d, Int.wrap64 (traffic_in d t) = traffic_in d t.

Lemma add_user_item (m : gmap string (Traffic string)) user u d :
  Int.wrap64 (traffic_in d (default (zero u) (add_user m user !! u))) =
  Int.wrap64 (traffic_in d (default (zero u) (m !! u)) + select (of_user u) d user).
Proof.
  unfold add_user, select, of_user. rewrite lookup_insert. case_decide as Hu.
  - subst u. rewrite bool_decide_eq_true_2 by done. cbn. set (t := default _ _).
    destruct d; cbn; by rewrite Int.wrap64_idem.
  - rewrite bool_decide_eq_false_2 by done. by rewrite Z.add_0_r.
Qed.

Lemma add_users_item m T u d :
  Int.wrap64 (traffic_in d (default (zero u) (foldl add_user m T !! u))) =
  Int.wrap64 (traffic_in d (default (zero u) (m !! u)) + sum_Z (select (of_user u) d <$> T)).
Proof.
  revert m. induction T as [|user T IH]; intros m; cbn [foldl fmap list_fmap sum_Z].
  - by rewrite Z.add_0_r.
  - rewrite IH, <-Int.wrap64_add_l, add_user_item, Int.wrap64_add_l. f_equal. lia.
Qed.

Lemma add_users_filed m T : filed m → filed (foldl add_user m T).
Proof.
  revert m. induction T as [|user T IH]; intros m Hm; [done|]. cbn. apply IH. intros k t. unfold add_user.
  intros [[<- <-]|[_ ?]]%lookup_insert_Some; [|by apply Hm]. split.
  - cbn. destruct (m !! _) as [t|] eqn:E; [|done]. by apply (Hm _ _ E).
  - intros []; cbn; apply Int.wrap64_idem.
Qed.

Section users.
Context {SortI : SortSlice} {RangeI : MapRange} {ClientI : StatsClient} `{!SortSliceLaws} `{!MapRangeLaws}.

(** Usernames without NUL: the key of the map keeps them apart from the inbounds. *)
Definition user_key (l : string * string) : string := l.1 +:+ nul +:+ l.2.
Definition no_nul_byte (s : string) : Prop := all_bytes (λ c, negb (Ascii.eqb c (chr 0))) s = true.
Definition user_fine (l : string * string) : Prop := no_nul_byte l.1.

Lemma user_key_inj l1 l2 : user_fine l1 → user_fine l2 → user_key l1 = user_key l2 → l1 = l2.
Proof.
  destruct l1, l2. unfold user_fine, user_key. cbn. intros H1 H2 E.
  apply sep_app_inj in E as [-> ->]; done.
Qed.

(** The counters of a query: who they count, in which direction. *)
Definition user_readings (stats : list Stat) : list (reading (string * string)) := omap user_reading stats.
Definition users_plain (stats : list Stat) : Prop := Forall (λ r, user_fine (rd_label r)) (user_readings stats).

Lemma readings_key stats : users_plain stats → Forall (reads_key user_key user_fine) (user_readings stats).
Proof.
  unfold users_plain. rewrite !Forall_forall. intros Hf r Hr. split; [|by apply Hf].
  unfold user_readings in Hr. apply list_elem_of_omap in Hr as (s & _ & Hs). unfold user_reading in Hs.
  destruct (parse_name _ _) as [[raw d]|]; [|done]. cbn in Hs. destruct (user_of raw) as [u i] eqn:E.
  injection Hs as <-. done.
Qed.

Lemma items_perm {L} less (m : gmap string (Traffic L)) : items_of less m ≡ₚ (map_to_list m).*2.
Proof. unfold items_of. by rewrite law_sort_perm, law_range. Qed.

Lemma less_transitive : Transitive (not_less (λ x y : Traffic string, str_ltb (label x) (label y))).
Proof. intros x y z H1 H2. exact (str_le_trans _ _ _ H1 H2). Qed.
Lemma less_total : Total (not_less (λ x y : Traffic string, str_ltb (label x) (label y))).
Proof. intros x y. exact (str_le_total (label x) (label y)). Qed.

(** The items of a filed map have the keys as labels. *)
Lemma filed_labels m : filed m → label <$> (map_to_list m).*2 = (map_to_list m).*1.
Proof.
  intros Hm. rewrite <-list_fmap_compose. apply list_fmap_ext. intros i [k t] Hx.
  apply list_elem_of_lookup_2, elem_of_map_to_list in Hx. cbn. by apply (Hm _ _ Hx).
Qed.

Lemma find_unique (l : list (Traffic string)) u t :
  NoDup (label <$> l) → t ∈ l → label t = u → findTagStats l u = t.
Proof.
  unfold findTagStats. induction l as [|x l IH]; intros Hnd Ht Hu; [by apply not_elem_of_nil in Ht|].
  cbn in Hnd. apply NoDup_cons in Hnd as [Hx Hnd]. rewrite filter_cons.
  apply elem_of_cons in Ht as [->|Ht]; [by rewrite decide_True|].
  rewrite decide_False; [by apply IH|]. intros He. apply Hx. apply list_elem_of_fmap. exists t. split; [congruence|done].
Qed.

Lemma find_none (l : list (Traffic string)) u :
  (∀ t, t ∈ l → label t ≠ u) → findTagStats l u = zero u.
Proof. intros Hl. unfold findTagStats. by rewrite filter_false. Qed.

(** C32: the statistics of users are exact: when the core answers, each listed user is
    listed once, in order and with some traffic, and in each direction the figure of
    any user (zero when it is not listed) is the sum, on [int64]s, of the counters that
    the core keeps for it, over all its inbounds and however they are ordered. *)
Theorem users_stats_exact reset r stats :
  has_client r = true → Query "user>>>" reset = Ok stats → users_plain stats →
  let users := GetUsersStats reset r in
  NoDup (label <$> users) ∧ StronglySorted str_le (label <$> users) ∧
  (∀ t, t ∈ users → nonzero t = true) ∧
  ∀ u d, traffic_in d (findTagStats users u) =
    Int.wrap64 (sum_Z (rd_value <$> filter (λ c, (rd_label c).1 = u ∧ rd_dir c = d) (user_readings stats))).
Proof.
  intros Hc Hq Hp users. set (G := foldl group ∅ (user_readings stats)).
  set (M := foldl add_user ∅ (items_of user_less G)).
  assert (users = sort_slice (λ x y, str_ltb (label x) (label y)) (filter (λ t, nonzero t = true) (range_map M).*2)) as Hu.
  { unfold users, GetUsersStats, queryUserInboundStats, fetchUserInboundStats. by rewrite Hc, Hq. }
  assert (users ≡ₚ filter (λ t, nonzero t = true) (map_to_list M).*2) as Hperm.
  { rewrite Hu, law_sort_perm. by rewrite law_range. }
  assert (filed M) as HM by (apply add_users_filed; intros k t; by rewrite lookup_empty).
  assert (NoDup (label <$> users)) as Hnd.
  { rewrite Hperm. apply NoDup_fmap_filter. rewrite filed_labels by done. apply NoDup_fst_map_to_list. }
  split; [done|]. split; [|split].
  - rewrite Hu. eapply (StronglySorted_fmap label); [|apply law_sort_sorted; [apply less_transitive|apply less_total]].
    done.
  - intros t. rewrite Hperm. by intros [? _]%list_elem_of_filter.
  - intros u d.
    assert (traffic_in d (findTagStats users u) = traffic_in d (default (zero u) (M !! u))) as ->.
    { destruct (M !! u) as [t|] eqn:E; cbn [default].
      - destruct (HM _ _ E) as [Hl _]. destruct (nonzero t) eqn:Hz.
        + rewrite (find_unique _ _ t); [done..| |done]. rewrite Hperm. apply list_elem_of_filter. split; [done|].
          apply list_elem_of_fmap. exists (u, t). split; [done|]. by apply elem_of_map_to_list.
        + rewrite find_none.
          * unfold nonzero in Hz. apply orb_false_iff in Hz as [H1 H2].
            apply negb_false_iff, Z.eqb_eq in H1. apply negb_false_iff, Z.eqb_eq in H2. destruct d; cbn; congruence.
          * intros t'. rewrite Hperm. intros [Hz' Ht']%list_elem_of_filter He.
            apply list_elem_of_fmap in Ht' as ([k x] & -> & Hx). apply elem_of_map_to_list in Hx. cbn in He, Hz'.
            destruct (HM _ _ Hx) as [<- _]. rewrite He, E in Hx. congruence.
      - rewrite find_none; [by destruct d|]. intros t'. rewrite Hperm. intros [_ Ht']%list_elem_of_filter He.
        apply list_elem_of_fmap in Ht' as ([k x] & -> & Hx). apply elem_of_map_to_list in Hx. cbn in He.
        destruct (HM _ _ Hx) as [<- _]. congruence. }
    assert (traffic_in d (default (zero u) (M !! u)) = Int.wrap64 (traffic_in d (default (zero u) (M !! u)))) as ->.
    { destruct (M !! u) as [t|] eqn:E; cbn [default]; [symmetry; by apply (HM _ _ E)|by destruct d]. }
    unfold M. rewrite add_users_item, lookup_empty. cbn [default].
    assert (traffic_in d (zero u) = 0%Z) as -> by by destruct d. rewrite Z.add_0_l.
    rewrite (items_perm user_less G). fold (sum_map (select (of_user u) d) G). unfold G.
    rewrite (groups_sum user_key user_fine user_key_inj); [|intros k t; by rewrite lookup_empty|by apply readings_key].
    rewrite sum_map_empty, Z.add_0_l. f_equal. unfold selected. clear.
    induction (user_readings stats) as [|c l IH]; [done|]. cbn [fmap list_fmap sum_Z]. rewrite IH, filter_cons.
    unfold of_user. case_decide as Hd; cbn [fmap list_fmap sum_Z].
    + destruct Hd. by rewrite !bool_decide_eq_true_2.
    + repeat case_bool_decide; cbn [andb]; try done. tauto.
Qed.
End users.
