(* ===== verification/UsageCapture.v ===== *)
(** * Usage capture: sampling counters into the queue ([internal/node/manager.go])

    A capture reads the forwarding counters and, while the core answers, the counters
    of the core, and commits them to the usage queue; a marker tells it that the core
    was restarted since the last complete sample.  The forwarding service and the core
    are asked through [ForwardingUsage] and [StatsClient]. *)
From S2P Require Import Prelude GoStr GoTime GoSort Bolt StatName UsageStore RuntimeState Stats.
Import Stats.

Module UsageCapture.

Record UsageCounter := {
  RuleID : string; fw_Protocol : string; fw_Scope : string; fw_Direction : string; Bytes : Z }.

(** What the manager asks of the forwarding service: its counters and whether any rule
    counts, and the state and number of enabled rules of its summary. *)
Class ForwardingUsage := {
  UsageCounters : result (list UsageCounter * bool);
  summary_State : string;
  summary_EnabledRules : Z
}.

Definition forwarding_counter (c : UsageCounter) : UsageStore.Counter :=
  {| UsageStore.Kind := "forwarding"; UsageStore.Name := RuleID c; UsageStore.Inbound := "";
     UsageStore.Protocol := fw_Protocol c; UsageStore.Scope := fw_Scope c;
     UsageStore.Direction := fw_Direction c; UsageStore.Value := Bytes c |}.

(** One counter per direction. *)
Definition core_counters (kind : string) (label_of : string * string) (up down : Z) : list UsageStore.Counter :=
  (λ dv : string * Z,
     {| UsageStore.Kind := kind; UsageStore.Name := label_of.1; UsageStore.Inbound := label_of.2;
        UsageStore.Protocol := ""; UsageStore.Scope := ""; UsageStore.Direction := dv.1;
        UsageStore.Value := dv.2 |}) <$> [("uplink", up); ("downlink", down)].

Section sample.
Context {SortI : SortSlice} {RangeI : MapRange} {ClientI : StatsClient} {ForwardingI : ForwardingUsage}.
Abbreviation Runtime := RuntimeState.Runtime.

Definition user_counters (t : Traffic (string * string)) : list UsageStore.Counter :=
  core_counters "user" (label t) (uplink t) (downlink t).
Definition tag_counters (kind : string) (t : Traffic string) : list UsageStore.Counter :=
  core_counters kind (label t, "") (uplink t) (downlink t).

Definition currentCoreUsageCounters (r : Runtime) : result (list UsageStore.Counter) :=
  users ← fetchUserInboundStats false r;
  inbounds ← fetchGroupedStats "inbound" "inbound>>>" false r;
  outbounds ← fetchGroupedStats "outbound" "outbound>>>" false r;
  Ok (mjoin (user_counters <$> users) ++ mjoin (tag_counters "inbound" <$> inbounds) ++
      mjoin (tag_counters "outbound" <$> outbounds)).

(** The counters, whether anything counts, and whether those of the core are in. *)
Definition currentUsageCounters (r : Runtime) : result (list UsageStore.Counter * bool * bool) :=
  '(forwarded, active) ← UsageCounters;
  let counters := forwarding_counter <$> forwarded in
  if negb (has_client r) || bool_decide (RuntimeState.RunningCoreType r = "") then Ok (counters, active, true)
  else match currentCoreUsageCounters r with
       | Err _ => Ok (counters, true, false)
       | Ok core => Ok (counters ++ core, true, true)
       end.

(** ** The capture *)
Context {B : Type} `{BucketOps B} `{Codec UsageStore.Snapshot} `{TxOps (UsageStore.DB B)}.

(** The queue and the marker [usageCoreRestarted]. *)
Record Usage := { store : UsageStore.Store B; marker : bool }.

Definition set_marker (m : bool) : proc Usage unit := modify (λ u, {| store := store u; marker := m |}).
Definition on_store {A} (f : UsageStore.Store B → UsageStore.Store B * result A) : proc Usage A := λ u,
  let '(s, a) := f (store u) in ({| store := s; marker := marker u |}, a).

Definition UsageSnapshotActive (u : Usage) : bool := UsageStore.is_active (UsageStore.db (store u)).

Definition is_not_active (e : error) : bool :=
  error_chain (λ e, match e with ErrNotActive => true | _ => false end) e.

Definition captureUsageSnapshot (now : time) (r : Runtime) : proc Usage unit :=
  active ← gets UsageSnapshotActive;
  if negb active then mret tt else
  sample ← lift (currentUsageCounters r);
  let '(counters, capturing, complete) := sample : list UsageStore.Counter * bool * bool in
  if negb capturing then mret tt else
  restarted ← (if complete then m ← gets marker; _ ← set_marker false; mret m else mret false);
  let core := if bool_decide (RuntimeState.RunningCoreType r = "") then "FORWARDING_ONLY"
              else RuntimeState.RunningCoreType r in
  committed ← attempt (on_store (UsageStore.Capture core counters now restarted));
  match committed with
  | Ok _ => mret tt
  | Err e => if is_not_active e then mret tt else _ ← when restarted (set_marker true); throw e
  end.

(** Errors of the periodic capture are only logged. *)
Definition CaptureUsageSnapshot (now : time) (r : Runtime) : proc Usage unit :=
  _ ← attempt (captureUsageSnapshot now r); mret tt.

Definition withUsageSnapshotRuntime (r : Runtime) (status : UsageStore.Status) : UsageStore.Status :=
  if UsageStore.Active status then
    {| UsageStore.Active := true;
       UsageStore.Capturing := (bool_decide (RuntimeState.RunningCoreType r = RuntimeState.CoreTypeSingBox) &&
                                RuntimeState.OnlineStatus r) ||
                               (bool_decide (summary_State = "applied") && (0 <? summary_EnabledRules)%Z);
       UsageStore.st_Generation := UsageStore.st_Generation status;
       UsageStore.OldestSequence := UsageStore.OldestSequence status;
       UsageStore.LatestSequence := UsageStore.LatestSequence status;
       UsageStore.AckedThrough := UsageStore.AckedThrough status;
       UsageStore.Pending := UsageStore.Pending status;
       UsageStore.Bytes := UsageStore.Bytes status;
       UsageStore.LastCapturedAt := UsageStore.LastCapturedAt status |}
  else status.

Definition ActivateUsageSnapshots (random : result string) (r : Runtime) : proc Usage UsageStore.Status :=
  sample ← lift (currentUsageCounters r);
  let '(counters, _, complete) := sample : list UsageStore.Counter * bool * bool in
  if negb complete then throw ErrCoreUnavailable else
  status ← on_store (UsageStore.Activate random counters);
  mret (withUsageSnapshotRuntime r status).

Definition PullUsageSnapshots (request : UsageStore.PullRequest) : proc Usage UsageStore.PullResponse := λ u,
  (u, UsageStore.Pull request (store u)).

Definition AckUsageSnapshots (request : UsageStore.AckRequest) (r : Runtime) : proc Usage UsageStore.Status :=
  status ← on_store (UsageStore.Ack request);
  mret (withUsageSnapshotRuntime r status).

Definition UsageSnapshotStatus (r : Runtime) (u : Usage) : UsageStore.Status :=
  withUsageSnapshotRuntime r (UsageStore.StatusOf (UsageStore.db (store u))).

End sample.
Arguments Usage : clear implicits.
End UsageCapture.
