(* ===== verification/CaptureSpec.v ===== *)
(** * What the usage capture guarantees

    A complete sample of the core has a baseline of its own for every counter
    ([core_sample_distinct]).  Over any course of samples, failed commits, silent
    cores, restarts, activations and acknowledgements the bill of a counter of the core
    accounts for what the complete samples saw of it, and the marker tells exactly
    whether the first one after a restart made by [Start] is still to come
    ([capture_billing]). *)
From S2P Require Import Prelude GoStr GoTime GoSort Bolt StatName UsageStore UsageSpec UsageBilling RuntimeState Stats StatsSpec UsageCapture.
Import Stats UsageCapture.

(** ** Distinct baselines *)

(** The identity of a core counter: kind, name, inbound, direction. *)
Definition identity (c : UsageStore.Counter) : string * string * string * string :=
  (UsageStore.Kind c, UsageStore.Name c, UsageStore.Inbound c, UsageStore.Direction c).
Definition identity_key (i : string * string * string * string) : string :=
  let '(k, n, i, d) := i in
  k +:+ UsageStore.nul +:+ n +:+ UsageStore.nul +:+ i +:+ UsageStore.nul +:+ d.
Definition plain_identity (i : string * string * string * string) : Prop :=
  let '(k, n, i, _) := i in no_nul k ∧ no_nul n ∧ no_nul i.

Lemma counterKey_identity c :
  UsageStore.Kind c ≠ "forwarding" → UsageStore.counterKey c = identity_key (identity c).
Proof. intros. unfold UsageStore.counterKey. by rewrite bool_decide_eq_false_2. Qed.

Lemma identity_key_inj i1 i2 :
  plain_identity i1 → plain_identity i2 → identity_key i1 = identity_key i2 → i1 = i2.
Proof.
  destruct i1 as [[[k1 n1] i1] d1], i2 as [[[k2 n2] i2] d2]. cbn.
  intros (? & ? & ?) (? & ? & ?) E. apply nul_app_inj in E as [-> E]; [|done..].
  apply nul_app_inj in E as [-> E]; [|done..]. by apply nul_app_inj in E as [-> ->].
Qed.

Definition both (kind : string) (l : string * string) : list (string * string * string * string) :=
  [(kind, l.1, l.2, "uplink"); (kind, l.1, l.2, "downlink")].

Lemma both_elem kind l i : i ∈ both kind l → i.1 = (kind, l.1, l.2).
Proof. unfold both. intros [->|[->|[]%not_elem_of_nil]%elem_of_cons]%elem_of_cons; done. Qed.

Lemma both_nodup kind labels : NoDup labels → NoDup (mjoin (both kind <$> labels)).
Proof.
  induction 1 as [|l labels Hl _ IH]; [constructor|]. cbn [fmap list_fmap mjoin list_join].
  apply NoDup_app. split; [|split; [|exact IH]].
  - unfold both. repeat constructor; [|by intros ?%not_elem_of_nil]. intros Hd%list_elem_of_singleton. done.
  - intros i Hi%both_elem Hin. apply list_elem_of_join in Hin as (bl & Hi' & Hb).
    apply list_elem_of_fmap in Hb as (l' & -> & Hl'). apply both_elem in Hi'. rewrite Hi in Hi'.
    injection Hi' as H1 H2. apply Hl. destruct l, l'. cbn in *. by subst.
Qed.

Lemma join_identities {T} (f : T → list UsageStore.Counter) kind (lab : T → string * string) items :
  (∀ t, identity <$> f t = both kind (lab t)) →
  identity <$> mjoin (f <$> items) = mjoin (both kind <$> (lab <$> items)).
Proof.
  intros Hf. induction items as [|t items IH]; [done|].
  cbn [fmap list_fmap mjoin list_join]. rewrite fmap_app, Hf. f_equal. exact IH.
Qed.

Section sample.
Context {SortI : SortSlice} {RangeI : MapRange} {ClientI : StatsClient} {ForwardingI : ForwardingUsage}
  `{!SortSliceLaws} `{!MapRangeLaws}.

Lemma keyed_labels {L} `{EqDecision L} (key : L → string) fine less (m : gmap string (Traffic L)) :
  keyed key fine m → NoDup (label <$> items_of less m) ∧ ∀ l, l ∈ label <$> items_of less m → fine l.
Proof.
  intros Hm. split.
  - rewrite (items_perm less m). apply (NoDup_fmap_1 key).
    assert (key <$> (label <$> (map_to_list m).*2) = (map_to_list m).*1) as ->; [|apply NoDup_fst_map_to_list].
    rewrite <-!list_fmap_compose. apply list_fmap_ext. intros i [k t] Hx.
    apply list_elem_of_lookup_2, elem_of_map_to_list in Hx. cbn. by destruct (Hm _ _ Hx).
  - intros l. rewrite (items_perm less m). intros (t & -> & Ht)%list_elem_of_fmap.
    apply list_elem_of_fmap in Ht as ([k x] & -> & Hx). apply elem_of_map_to_list in Hx. by destruct (Hm _ _ Hx).
Qed.

(** Names without NUL in every counter the core reports. *)
Definition plain_stats (stats : list Stat) : Prop :=
  (∀ r, r ∈ user_readings stats → no_nul (rd_label r).1 ∧ no_nul (rd_label r).2) ∧
  ∀ kind r, kind ∈ ["inbound"; "outbound"] → r ∈ omap (tag_reading (kind +:+ ">>>")) stats →
    no_nul (rd_label r).
Definition plain_core : Prop := ∀ pattern stats, Query pattern false = Ok stats → plain_stats stats.

Lemma user_labels r items :
  plain_core → fetchUserInboundStats false r = Ok items →
  NoDup (label <$> items) ∧ ∀ l, l ∈ label <$> items → no_nul l.1 ∧ no_nul l.2.
Proof.
  intros Hp. unfold fetchUserInboundStats. destruct (has_client r).
  2:{ intros [= <-]. split; [constructor|]. intros l Hl. by apply not_elem_of_nil in Hl. }
  destruct (Query "user>>>" false) as [stats|] eqn:Hq; [|done]. intros [= <-].
  destruct (Hp _ _ Hq) as [Hu _].
  apply (keyed_labels user_key (λ l, no_nul l.1 ∧ no_nul l.2)). apply groups_keyed.
  - intros l1 l2 [? _] [? _]. by apply user_key_inj.
  - intros k t. by rewrite lookup_empty.
  - assert (users_plain stats) as Hpl.
    { unfold users_plain. rewrite Forall_forall. intros x Hx. by apply Hu. }
    apply readings_key in Hpl. rewrite Forall_forall in Hpl |- *. intros x Hx.
    split; [by apply Hpl|by apply Hu].
Qed.

Lemma tag_labels kind pattern r items :
  plain_core → kind ∈ ["inbound"; "outbound"] → fetchGroupedStats kind pattern false r = Ok items →
  NoDup (label <$> items) ∧ ∀ l, l ∈ label <$> items → no_nul l.
Proof.
  intros Hp Hkind. unfold fetchGroupedStats. destruct (has_client r).
  2:{ intros [= <-]. split; [constructor|]. intros l Hl. by apply not_elem_of_nil in Hl. }
  destruct (Query pattern false) as [stats|] eqn:Hq; [|done]. intros [= <-].
  destruct (Hp _ _ Hq) as [_ Ht].
  apply (keyed_labels (λ l, l) no_nul). apply groups_keyed; [done|intros k t; by rewrite lookup_empty|].
  rewrite Forall_forall. intros x Hx. split; [|by eapply Ht].
  apply list_elem_of_omap in Hx as (s & _ & Hs). unfold tag_reading in Hs.
  destruct (parse_name _ _) as [[tag d]|]; [|done]. by injection Hs as <-.
Qed.

Definition tag_label (t : Traffic string) : string * string := (label t, "").

(** The counters of a complete sample of the core have distinct baseline keys, so
    that none is billed against the reading of another. *)
Theorem core_sample_distinct r counters :
  plain_core → currentCoreUsageCounters r = Ok counters →
  NoDup (UsageStore.counterKey <$> counters) ∧ Forall (λ c, plain_identity (identity c)) counters.
Proof.
  intros Hp E. unfold currentCoreUsageCounters in E. bind_as E users Hu. bind_as E inb Hi. bind_as E out Ho.
  injection E as <-.
  destruct (user_labels _ _ Hp Hu) as [Hu1 Hu2]. destruct (tag_labels _ _ _ _ Hp ltac:(left) Hi) as [Hi1 Hi2].
  destruct (tag_labels _ _ _ _ Hp ltac:(right; left) Ho) as [Ho1 Ho2].
  set (counters := _ ++ _ ++ _).
  assert (identity <$> counters = mjoin (both "user" <$> (label <$> users)) ++
    mjoin (both "inbound" <$> (tag_label <$> inb)) ++ mjoin (both "outbound" <$> (tag_label <$> out))) as Hid.
  { unfold counters. rewrite !fmap_app. f_equal; [|f_equal]; by apply join_identities. }
  assert (∀ kind labels i, i ∈ mjoin (both kind <$> labels) → i.1.1.1 = kind ∧ ∃ l, l ∈ labels ∧ i.1 = (kind, l.1, l.2)) as Hkind.
  { intros kind labels i (bl & Hib & Hb)%list_elem_of_join. apply list_elem_of_fmap in Hb as (l & -> & Hl).
    apply both_elem in Hib. split; [by rewrite Hib|eauto]. }
  assert (∀ l : list (Traffic string), NoDup (label <$> l) → NoDup (tag_label <$> l)) as Htag.
  { intros l Hl. apply (NoDup_fmap_1 fst). by rewrite <-list_fmap_compose. }
  assert (Forall plain_identity (identity <$> counters)) as Hplain.
  { rewrite Hid, !Forall_app, !Forall_forall. split_and!; intros i (_ & l & Hl & Hi')%Hkind;
      destruct i as [[[k n] b] d]; injection Hi' as -> -> ->; (split; [done|]).
    - by apply Hu2.
    - apply list_elem_of_fmap in Hl as (t & -> & Ht). split; [|done]. apply Hi2, list_elem_of_fmap. eauto.
    - apply list_elem_of_fmap in Hl as (t & -> & Ht). split; [|done]. apply Ho2, list_elem_of_fmap. eauto. }
  split; [|by rewrite Forall_fmap in Hplain].
  assert (UsageStore.counterKey <$> counters = identity_key <$> (identity <$> counters)) as ->.
  { rewrite <-list_fmap_compose. apply list_fmap_ext. intros n c Hc. cbn. apply counterKey_identity. intros Hf.
    apply list_elem_of_lookup_2 in Hc.
    assert (identity c ∈ identity <$> counters) as Hin by (apply list_elem_of_fmap; eauto).
    rewrite Hid, !elem_of_app in Hin.
    destruct Hin as [[Hk _]%Hkind|[[Hk _]%Hkind|[Hk _]%Hkind]]; cbn in Hk; congruence. }
  apply NoDup_fmap_2_strong.
  - rewrite Forall_forall in Hplain. intros x y Hx Hy. apply identity_key_inj; by apply Hplain.
  - rewrite Hid. apply NoDup_app. split; [by apply both_nodup|]. split.
    + intros i [Hk _]%Hkind [[Hk' _]%Hkind|[Hk' _]%Hkind]%elem_of_app; congruence.
    + apply NoDup_app. split; [by apply both_nodup, Htag|]. split; [|by apply both_nodup, Htag].
      intros i [Hk _]%Hkind [Hk' _]%Hkind. congruence.
Qed.
End sample.

(** ** The marker, and billing end to end *)

Section billing.
Context {SortI : SortSlice} {RangeI : MapRange}.
Context {B : Type} {BucketI : BucketOps B} {BucketL : BucketLaws B}.
Context {CodecI : Codec UsageStore.Snapshot} {CodecL : CodecLaws UsageStore.Snapshot}.
Context {TxI : TxOps (UsageStore.DB B)} {TxL : TxLaws (UsageStore.DB B)}.
Abbreviation Usage := (UsageCapture.Usage B).

(** The sources of one sample: what the core and the forwarding service answer. *)
Record sources := { src_client : StatsClient; src_forwarding : ForwardingUsage }.

Definition sampled (src : sources) (r : RuntimeState.Runtime) :=
  currentUsageCounters (ClientI := src_client src) (ForwardingI := src_forwarding src) r.
Definition capture_with (src : sources) (now : time) (r : RuntimeState.Runtime) : proc Usage unit :=
  captureUsageSnapshot (ClientI := src_client src) (ForwardingI := src_forwarding src) now r.

Definition core_name (r : RuntimeState.Runtime) : string :=
  if bool_decide (RuntimeState.RunningCoreType r = "") then "FORWARDING_ONLY" else RuntimeState.RunningCoreType r.

(** What one capture does: nothing while the queue is off or nothing counts; else it
    commits the sample with the marker, which a complete committed sample uses up and
    any error leaves alone. *)
Lemma capture_step src now r u u' res :
  capture_with src now r u = (u', res) →
  (UsageSnapshotActive u = false → u' = u ∧ res = Ok tt) ∧
  (∀ e, res = Err e → u' = u) ∧
  (∀ counters complete, UsageSnapshotActive u = true → sampled src r = Ok (counters, true, complete) →
     ∃ a, UsageStore.Capture (core_name r) counters now (complete && marker u) (store u) = (store u', a) ∧
       match a with
       | Ok _ => res = Ok tt ∧ marker u' = (if complete then false else marker u)
       | Err e => is_not_active e = true ∧ marker u' = (if complete then false else marker u) ∨
                  is_not_active e = false ∧ res = Err e ∧ u' = u
       end).
Proof.
  unfold capture_with, captureUsageSnapshot, sampled. intros E. step E u0 active H0. injection H0 as <- <-.
  destruct (UsageSnapshotActive u) eqn:Hact; cbn [negb] in E.
  2:{ injection E as <- <-. by split_and!. }
  step E u0 sample H0. injection H0 as <- <-.
  destruct (currentUsageCounters r) as [[[counters capturing] complete]|e] eqn:Hs.
  2:{ destruct E as [-> ->]. split_and!; [done| |done]. intros e' [= <-]. done. }
  destruct capturing; cbn [negb] in E.
  2:{ injection E as <- <-. split_and!; [done..|]. intros c1 c2 _ [= _ ?]. }
  split; [done|]. step E u1 m H1.
  assert (m = Ok (complete && marker u) ∧ store u1 = store u ∧ marker u1 = (if complete then false else marker u)) as (-> & Hst & Hm).
  { destruct complete; [|by injection H1 as <- <-]. by injection H1 as <- <-. }
  fold (core_name r) in E. step_attempt E u2 a H2. unfold on_store in H2.
  destruct (UsageStore.Capture (core_name r) counters now (complete && marker u) (store u1)) as [s a'] eqn:Hc.
  injection H2 as <- <-. rewrite Hst in Hc.
  assert (∀ e, a' = Err e → s = store u) as Herr.
  { intros e ->. unfold UsageStore.Capture in Hc. destruct (update_cases (UsageStore.capture_tx
      (UsageStore.maxBytes (store u)) (core_name r) counters now (complete && marker u)) (store u)) as [[e' E']|(d' & _ & E')];
      rewrite E' in Hc; congruence. }
  destruct a' as [[]|e].
  - injection E as <- <-. split; [done|]. intros c1 c2 _ [= <- <-]. exists (Ok tt). by split_and!.
  - rewrite (Herr e eq_refl) in *. destruct (is_not_active e) eqn:Hna.
    + injection E as <- <-. split; [done|]. intros c1 c2 _ [= <- <-]. exists (Err e). split; [done|]. by left.
    + assert (u' = u ∧ res = Err e) as [-> ->].
      { destruct (complete && marker u) eqn:Hcm; injection E as <- <-; (split; [|done]).
        - apply andb_true_iff in Hcm as [_ Hmu]. destruct u; cbn in *. by subst.
        - destruct u as [st mk]. cbn in *. destruct complete; cbn in Hcm; congruence. }
      split; [done|]. intros c1 c2 _ [= <- <-]. exists (Err e). split; [done|]. by right.
Qed.

(** What happens around the queue.  [Zeroed marked]: the counters of the core start
    again from zero, marked when [Start] restarted it; a restart by a user request and
    a statistics query that resets them are not marked. *)
Inductive event :=
| Zeroed (marked : bool)
| Sample (src : sources) (now : time) (r : RuntimeState.Runtime)
| Activation (src : sources) (random : result string) (r : RuntimeState.Runtime)
| Acknowledgement (src : sources) (request : UsageStore.AckRequest) (r : RuntimeState.Runtime).

(** What the code does. *)
Definition after (e : event) (u : Usage) : Usage :=
  match e with
  | Zeroed marked => if marked then {| store := store u; marker := true |} else u
  | Sample src now r => (capture_with src now r u).1
  | Activation src random r =>
      (ActivateUsageSnapshots (ClientI := src_client src) (ForwardingI := src_forwarding src) random r u).1
  | Acknowledgement src request r => (AckUsageSnapshots (ForwardingI := src_forwarding src) request r u).1
  end.

(** What the next observation will say: the counters were zeroed since the last one, and
    the next complete sample is marked for it. *)
Record pending := { zeroed : bool; to_mark : bool }.

(** What the event lets the queue see of counter [k]: a complete sample that the queue
    takes is an observation, with the counter or without it, and settles what was
    pending.  A sample that the queue refuses leaves it pending; the answer that the
    queue is not active drops the mark. *)
Definition sees (k : string) (p : pending) (u : Usage) (e : event) : list observation * pending :=
  match e with
  | Zeroed marked => ([], {| zeroed := true; to_mark := marked || to_mark p |})
  | Sample src now r =>
      match sampled src r with
      | Ok (counters, true, complete) =>
          match (UsageStore.Capture (core_name r) counters now (complete && to_mark p) (store u)).2 with
          | Ok _ => if complete
                    then ([(zeroed p, to_mark p, value_of k counters)], {| zeroed := false; to_mark := false |})
                    else ([], p)
          | Err e => ([], if complete && is_not_active e then {| zeroed := zeroed p; to_mark := false |} else p)
          end
      | _ => ([], p)
      end
  | _ => ([], p)
  end.

Fixpoint course (k : string) (es : list event) (p : pending) (u : Usage) : Usage * list observation * pending :=
  match es with
  | [] => (u, [], p)
  | e :: es' =>
      let '(seen, p') := sees k p u e in
      let '(u', obs, p'') := course k es' p' (after e u) in (u', seen ++ obs, p'')
  end.

(** The samples hold values that JSON keeps, at most one counter with the key, and it
    is not one of the forwarding rules. *)
Definition event_ok (k : string) (e : event) : Prop :=
  match e with
  | Zeroed _ => True
  | Sample src now r => ∀ counters complete, sampled src r = Ok (counters, true, complete) →
      sample_ok (core_name r) counters now ∧ one_counter k false counters
  | Activation src _ r => ∀ counters capturing complete, sampled src r = Ok (counters, capturing, complete) →
      counters_ok counters
  | Acknowledgement _ request _ => (0 ≤ UsageStore.ThroughSequence request)%Z
  end.

(** An incomplete sample has the counters of the forwarding rules only. *)
Lemma incomplete_absent k src r counters :
  sampled src r = Ok (counters, true, false) → one_counter k false counters → value_of k counters = None.
Proof.
  unfold sampled, currentUsageCounters. intros E [_ Hk]. bind_as E [forwarded active] Hf.
  destruct (_ || _); [by injection E|]. destruct (currentCoreUsageCounters r); [by injection E|].
  injection E as <-. destruct (value_of_cases k (forwarding_counter <$> forwarded)) as [[_ ?]|(c & Hc & Hkey & _)]; [done|].
  specialize (Hk c Hc Hkey). apply list_elem_of_fmap in Hc as (x & -> & _). by vm_compute in Hk.
Qed.

(** What one event does to the abstract store [a], in terms of what it lets see. *)
Definition accounted (k : string) (a a' : AStore) (seen : list observation) : Prop :=
  a_active a' = true ∧ (a_latest a' ≤ a_latest a + 1)%Z ∧ Forall mark_sound seen ∧
  (∃ new, a_history a' = a_history a ++ new ∧
    billed k new = traffic (default 0%Z (a_base a !! k)) (present seen)) ∧
  default 0%Z (a_base a' !! k) = final (default 0%Z (a_base a !! k)) (present seen).*2.

Lemma accounted_same k a : a_active a = true → accounted k a a [].
Proof.
  intros Ha. unfold accounted. split_and!; [done|lia|by constructor| |done]. exists []. by rewrite app_nil_r.
Qed.

Lemma accounted_capture k p core counters t reset a :
  a_active a = true → sample_ok core counters t → one_counter k false counters →
  (to_mark p = true → zeroed p = true) → reset = to_mark p →
  accounted k a (a_capture core counters t reset a) [(zeroed p, to_mark p, value_of k counters)].
Proof.
  intros Ha [Hok _] Hk Hp ->.
  destruct (capture_observed k false (zeroed p) core counters t (to_mark p) a Hok Hk) as [Hn Hb].
  unfold observe in Hn, Hb. rewrite andb_true_r in Hn, Hb.
  pose proof (a_exec_latest (OpCapture core counters t (to_mark p)) a).
  split; [done|]. split; [done|]. split; [by apply Forall_singleton|]. done.
Qed.

Lemma accounted_absent k core counters t reset a :
  a_active a = true → sample_ok core counters t → one_counter k false counters → value_of k counters = None →
  accounted k a (a_capture core counters t reset a) [].
Proof.
  intros Ha [Hok _] Hk Hv. destruct (capture_observed k false false core counters t reset a Hok Hk) as [Hn Hb].
  unfold observe in Hn, Hb. rewrite Hv in Hn, Hb. pose proof (a_exec_latest (OpCapture core counters t reset) a).
  split; [done|]. split; [done|]. split; [by constructor|]. done.
Qed.

(** The other operations of the queue bill nothing. *)
Lemma accounted_other k o u u' a :
  rep (UsageStore.db (store u)) a → a_active a = true → (a_latest a + 2 < 2 ^ 64)%Z → op_ok o →
  (∀ core counters t reset, o ≠ OpCapture core counters t reset) →
  store u' = (exec o (store u)).1 → ∃ a', rep (UsageStore.db (store u')) a' ∧ accounted k a a' [].
Proof.
  intros Hrep Ha Hroom Ho Hne ->.
  destruct (exec_refines_aux o (store u) a Hrep Ho Hroom) as [[e ->]|(d' & -> & Hrep')]; cbn [fst].
  { exists a. split; [done|by apply accounted_same]. }
  exists (a_exec o a). split; [done|]. pose proof (a_exec_latest o a). pose proof (accounted_same k a Ha) as Hs.
  destruct o as [random counters|core counters t reset|request]; [|by destruct (Hne core counters t reset)|].
  - cbn [a_exec]. unfold a_activate. by rewrite Ha.
  - unfold accounted in *. cbn. tauto.
Qed.

Lemma capture_unsampled src now r u u' res :
  (∀ counters complete, sampled src r ≠ Ok (counters, true, complete)) →
  capture_with src now r u = (u', res) → u' = u.
Proof.
  unfold capture_with, captureUsageSnapshot, sampled. intros Hn E. step E u0 active H0. injection H0 as <- <-.
  destruct (negb (UsageSnapshotActive u)); [by injection E as <- <-|].
  step E u0 sample H0. injection H0 as <- <-.
  destruct (currentUsageCounters r) as [[[counters []] complete]|e]; [by destruct (Hn counters complete)|..].
  - by injection E as <- <-.
  - by destruct E as [-> _].
Qed.

Lemma capture_sample_err src now r u u' res e :
  UsageSnapshotActive u = true → sampled src r = Err e → capture_with src now r u = (u', res) → res = Err e.
Proof.
  unfold capture_with, captureUsageSnapshot, sampled. intros Hact Hs E. step E u0 active H0. injection H0 as <- <-.
  rewrite Hact in E. cbn [negb] in E. step E u0 sample H0. injection H0 as <- <-. rewrite Hs in E. by destruct E as [_ ->].
Qed.

Lemma activation_store src random r u :
  let u' := (ActivateUsageSnapshots (ClientI := src_client src) (ForwardingI := src_forwarding src) random r u).1 in
  (store u' = store u ∨ ∃ counters capturing, sampled src r = Ok (counters, capturing, true) ∧
     store u' = (exec (OpActivate random counters) (store u)).1) ∧ marker u' = marker u.
Proof.
  unfold ActivateUsageSnapshots, mbind, proc_bind, lift, sampled.
  destruct (currentUsageCounters r) as [[[counters capturing] []]|e]; [|split; [by left|done]..].
  cbn -[UsageStore.Activate]. unfold on_store.
  destruct (UsageStore.Activate random counters (store u)) as [s [st|e]] eqn:E; cbn [fst store marker];
    (split; [right; exists counters, capturing|done]); (split; [done|]); by rewrite E.
Qed.

Lemma acknowledgement_store src request r u :
  let u' := (AckUsageSnapshots (ForwardingI := src_forwarding src) request r u).1 in
  store u' = (exec (OpAck request) (store u)).1 ∧ marker u' = marker u.
Proof.
  unfold AckUsageSnapshots, mbind, proc_bind, on_store. cbn -[UsageStore.Ack].
  by destruct (UsageStore.Ack request (store u)) as [s [st|e]].
Qed.

Lemma event_accounted k p e u a :
  rep (UsageStore.db (store u)) a → a_active a = true → (a_latest a + 2 < 2 ^ 64)%Z → event_ok k e →
  marker u = to_mark p → (to_mark p = true → zeroed p = true) →
  let '(seen, p') := sees k p u e in
  (∃ a', rep (UsageStore.db (store (after e u))) a' ∧ accounted k a a' seen) ∧
  marker (after e u) = to_mark p' ∧ (to_mark p' = true → zeroed p' = true).
Proof.
  intros Hrep Ha Hroom Hok Hm Hp. pose proof (accounted_same k a Ha) as Hsame.
  destruct e as [marked|src now r|src random r|src request r]; cbn [sees after].
  - split; [|by destruct marked]. exists a. by destruct marked.
  - assert (UsageSnapshotActive u = true) as Hua by (unfold UsageSnapshotActive; by rewrite (rep_active _ _ Hrep)).
    destruct (capture_with src now r u) as [u' res] eqn:E. cbn [fst].
    destruct (sampled src r) as [[[counters []] complete]|e] eqn:Hs.
    + cbn in Hok. destruct (Hok _ _ Hs) as [Hsample Hkey].
      apply capture_step in E as (_ & _ & Hstep). destruct (Hstep _ _ Hua Hs) as (x & Hc & Hx).
      rewrite Hm in *. rewrite Hc. cbn [snd].
      destruct (exec_refines_aux (OpCapture (core_name r) counters now (complete && to_mark p)) (store u) a
        Hrep Hsample ltac:(lia)) as [[e Hx1]|(d' & Hx1 & Hrep')]; cbn [exec] in Hx1; rewrite Hx1 in Hc;
        injection Hc as Hst <-.
      * split; [exists a; rewrite <-Hst; split; [done|by destruct complete, (is_not_active e)]|].
        destruct Hx as [[-> ->]|(-> & _ & ->)]; [|rewrite andb_false_r]; by destruct complete.
      * destruct Hx as [_ ->]. rewrite <-Hst.
        destruct complete; cbn [andb]; (split; [|done]); eexists; (split; [exact Hrep'|]).
        -- by apply accounted_capture.
        -- apply accounted_absent; [done..|]. by eapply incomplete_absent.
    + assert (u' = u) as ->; [|split; [by exists a|done]].
      eapply capture_unsampled; [|exact E]. intros ??. congruence.
    + assert (u' = u) as ->; [|split; [by exists a|done]].
      eapply capture_unsampled; [|exact E]. intros ??. congruence.
  - destruct (activation_store src random r u) as [Hst Hmk]. rewrite Hmk. split; [|done].
    destruct Hst as [Hst|(counters & capturing & Hs & Hst)]; [exists a; by rewrite Hst|].
    eapply (accounted_other k (OpActivate random counters) u); [done..| |done|exact Hst]. by eapply Hok.
  - destruct (acknowledgement_store src request r u) as [Hst Hmk]. rewrite Hmk. split; [|done].
    eapply (accounted_other k (OpAck request) u); [done..|exact Hst].
Qed.

(** C1: whatever happens around the queue, the bill of a counter of the core accounts
    for what the complete samples saw of it: a sample after a restart that [Start] made
    is marked, unless another complete sample came first, and bills the counter in
    full; the bill is what the counter counted when the first complete sample after
    every restart is marked and has it; a complete sample without the counter uses the
    mark up, and the old baseline may be lost.  The marker of the code says at every
    time whether the mark is still to come. *)
Theorem capture_billing k es p u a :
  rep (UsageStore.db (store u)) a → a_active a = true →
  (a_latest a + Z.of_nat (length es) + 2 < 2 ^ 64)%Z → Forall (event_ok k) es →
  marker u = to_mark p → (to_mark p = true → zeroed p = true) →
  let '(u', obs, p') := course k es p u in
  marker u' = to_mark p' ∧
  ∃ a' new, rep (UsageStore.db (store u')) a' ∧ a_history a' = a_history a ++ new ∧
    accounts (default 0%Z (a_base a !! k)) obs (billed k new).
Proof.
  intros Hrep Ha Hroom Hok Hm Hp.
  cut (let '(u', obs, p') := course k es p u in marker u' = to_mark p' ∧ Forall mark_sound obs ∧
    ∃ a' new, rep (UsageStore.db (store u')) a' ∧ a_history a' = a_history a ++ new ∧
      billed k new = traffic (default 0%Z (a_base a !! k)) (present obs)).
  { destruct (course k es p u) as [[u' obs] p']. intros (H1 & H2 & a' & new & H3 & H4 & H5).
    split; [done|]. exists a', new. rewrite H5. split_and!; [done..|]. by apply accounts_traffic. }
  revert p u a Hrep Ha Hroom Hm Hp. induction Hok as [|e es He _ IH]; intros p u a Hrep Ha Hroom Hm Hp; cbn [course].
  { split_and!; [done|by constructor|]. exists a, []. by rewrite app_nil_r. }
  cbn [length] in Hroom. pose proof (event_accounted k p e u a Hrep Ha ltac:(lia) He Hm Hp) as Hone.
  destruct (sees k p u e) as [seen p1].
  destruct Hone as ((a1 & Hrep1 & Ha1 & Hl1 & Hs1 & (new1 & Hh1 & Hn1) & Hb1) & Hm1 & Hp1).
  specialize (IH p1 (after e u) a1 Hrep1 Ha1 ltac:(lia) Hm1 Hp1).
  destruct (course k es p1 (after e u)) as [[u' obs] p']. destruct IH as (Hm' & Hs' & a' & new & Hrep' & Hh & Hn).
  split; [done|]. split; [by apply Forall_app|]. exists a', (new1 ++ new). split; [done|].
  rewrite Hh, Hh1, <-app_assoc, billed_app, Hn1, Hn, Hb1, present_app, traffic_app. done.
Qed.
End billing.

(** ** The theorems at work *)

Module CaptureDemo.
Import UsageDemo Merge Mem.

#[export] Instance client : StatsClient := λ pattern _,
  if bool_decide (pattern = "user>>>") then
    Ok [{| stat_Name := "user>>>7.rwib.aW4>>>traffic>>>uplink"; stat_Value := 25 |};
        {| stat_Name := "user>>>7>>>traffic>>>uplink"; stat_Value := 5 |}]
  else Ok [].
#[export] Instance forwarding : ForwardingUsage :=
  {| UsageCounters := Ok ([], false); summary_State := "disabled"; summary_EnabledRules := 0 |}.

Definition core : RuntimeState.Runtime :=
  RuntimeState.SetRunningCore RuntimeState.CoreTypeSingBox (RuntimeState.New "1.0").

Definition user_stats : list Stat :=
  [{| stat_Name := "user>>>7.rwib.aW4>>>traffic>>>uplink"; stat_Value := 25 |};
   {| stat_Name := "user>>>7>>>traffic>>>uplink"; stat_Value := 5 |}].

Lemma plain_users : users_plain user_stats.
Proof. unfold users_plain. vm_compute. repeat constructor. Qed.

Lemma users_stats_exact_witness :
  traffic_in Uplink (findTagStats (GetUsersStats (SortI := Merge.sort) (RangeI := Merge.range) false core) "7") = 30%Z.
Proof.
  etransitivity.
  - exact (proj2 (proj2 (proj2 (users_stats_exact (SortI := Merge.sort) (RangeI := Merge.range)
      false core user_stats eq_refl eq_refl plain_users))) "7" Uplink).
  - vm_compute. reflexivity.
Defined.

Definition counters : list UsageStore.Counter :=
  match currentCoreUsageCounters (SortI := Merge.sort) (RangeI := Merge.range) core with Ok l => l | Err _ => [] end.

Lemma core_plain : plain_core.
Proof.
  intros pattern stats. unfold Query, client. case_bool_decide; intros [= <-]; split.
  - intros r Hr. vm_compute in Hr. apply elem_of_cons in Hr as [->|Hr%list_elem_of_singleton]; [|subst r]; by vm_compute.
  - intros kind r Hk Hr. apply elem_of_cons in Hk as [->|Hk%list_elem_of_singleton]; [|subst kind];
      vm_compute in Hr; by apply not_elem_of_nil in Hr.
  - intros r Hr. by apply not_elem_of_nil in Hr.
  - intros kind r _ Hr. by apply not_elem_of_nil in Hr.
Qed.

Lemma core_sample_distinct_witness :
  NoDup (UsageStore.counterKey <$> counters) ∧ length counters = 4.
Proof.
  split; [|vm_compute; reflexivity].
  exact (proj1 (core_sample_distinct (SortI := Merge.sort) (RangeI := Merge.range) core counters core_plain eq_refl)).
Defined.

(** The core was restarted, then a sample reads 25 bytes: they are billed in full. *)
Definition u0 : UsageCapture.Usage Mem.bucket := {| store := s1; marker := false |}.
Definition src : sources := {| src_client := client; src_forwarding := forwarding |}.
Definition settled : pending := {| zeroed := false; to_mark := false |}.
Definition first_counter : UsageStore.Counter :=
  {| UsageStore.Kind := "user"; UsageStore.Name := "7"; UsageStore.Inbound := "in"; UsageStore.Protocol := "";
     UsageStore.Scope := ""; UsageStore.Direction := "uplink"; UsageStore.Value := 25 |}.
Definition first_key : string := UsageStore.counterKey first_counter.
Definition demo_events : list event := [Zeroed true; Sample src 9%Z core].

(** A core that lists no counters, as one does before their first traffic: its complete
    sample uses the mark up, and of the 25 bytes of the new lifetime none is billed. *)
Definition fresh_client : StatsClient := λ _ _, Ok [].
Definition fresh_src : sources := {| src_client := fresh_client; src_forwarding := forwarding |}.
Definition gap_events : list event :=
  [Sample src 8%Z core; Zeroed true; Sample fresh_src 9%Z core; Sample src 10%Z core].

Definition course_of (es : list event) :=
  course (SortI := Merge.sort) (RangeI := Merge.range) first_key es settled u0.

Example demo_observations :
  (course_of demo_events).1.2 = [(true, true, Some 25%Z)] ∧ (course_of demo_events).2 = settled.
Proof. vm_compute. done. Qed.

Example gap_observations :
  (course_of gap_events).1.2 = [(false, false, Some 25%Z); (true, true, None); (false, false, Some 25%Z)] ∧
  traffic 0%Z (present (course_of gap_events).1.2) = 25%Z ∧ lost false 0%Z (course_of gap_events).1.2 = 25%Z ∧
  counted 0%Z (lifetimes (course_of gap_events).1.2) = 50%Z.
Proof. vm_compute. done. Qed.

Lemma sampled_demo : sampled (SortI := Merge.sort) (RangeI := Merge.range) src core = Ok (counters, true, true).
Proof. vm_compute. reflexivity. Qed.
Lemma sampled_fresh : sampled (SortI := Merge.sort) (RangeI := Merge.range) fresh_src core = Ok ([], true, true).
Proof. vm_compute. reflexivity. Qed.

Lemma sample_demo_ok t : event_ok (SortI := Merge.sort) (RangeI := Merge.range) first_key (Sample src t core).
Proof.
  intros l complete E. rewrite sampled_demo in E. assert (l = counters) as -> by congruence. clear E.
  split; [split; [|done]|split].
  - intros c Hc. vm_compute in Hc. repeat (apply elem_of_cons in Hc as [->|Hc]; [cbn; lia|]). by apply not_elem_of_nil in Hc.
  - apply (bool_decide_eq_true_1 _). vm_compute. reflexivity.
  - intros c Hc _. vm_compute in Hc. repeat (apply elem_of_cons in Hc as [->|Hc]; [done|]). by apply not_elem_of_nil in Hc.
Qed.

Lemma sample_fresh_ok t : event_ok (SortI := Merge.sort) (RangeI := Merge.range) first_key (Sample fresh_src t core).
Proof.
  intros l complete E. rewrite sampled_fresh in E. assert (l = []) as -> by congruence. clear E.
  split; [split; [|done]|split]; [|constructor|]; intros c Hc; by apply not_elem_of_nil in Hc.
Qed.

Lemma demo_events_ok : Forall (event_ok (SortI := Merge.sort) (RangeI := Merge.range) first_key) demo_events.
Proof. unfold demo_events. apply Forall_cons; split; [done|]. apply Forall_singleton, sample_demo_ok. Qed.

Lemma gap_events_ok : Forall (event_ok (SortI := Merge.sort) (RangeI := Merge.range) first_key) gap_events.
Proof.
  unfold gap_events. apply Forall_cons; split; [apply sample_demo_ok|]. apply Forall_cons; split; [done|].
  apply Forall_cons; split; [apply sample_fresh_ok|]. apply Forall_singleton, sample_demo_ok.
Qed.

Lemma capture_billing_witness :
  (∃ a' new, rep (UsageStore.db (store (course_of demo_events).1.1)) a' ∧ a_history a' = a_history a1 ++ new ∧
     billed first_key new = 25%Z) ∧
  ∃ a' new, rep (UsageStore.db (store (course_of gap_events).1.1)) a' ∧ a_history a' = a_history a1 ++ new ∧
     billed first_key new = 25%Z.
Proof.
  split.
  - pose proof (capture_billing (SortI := Merge.sort) (RangeI := Merge.range) first_key demo_events settled u0 a1
      rep1 eq_refl eq_refl demo_events_ok eq_refl
      (λ H, H)) as H.
    fold (course_of demo_events) in H. destruct (course_of demo_events) as [[u' obs] p'] eqn:E.
    destruct H as (_ & a' & new & H1 & H2 & H3 & _). exists a', new. split; [exact H1|]. split; [exact H2|].
    pose proof (proj1 demo_observations) as Ho. rewrite E in Ho. cbn [fst snd] in Ho. rewrite H3, Ho. vm_compute. reflexivity.
  - pose proof (capture_billing (SortI := Merge.sort) (RangeI := Merge.range) first_key gap_events settled u0 a1
      rep1 eq_refl eq_refl gap_events_ok eq_refl
      (λ H, H)) as H.
    fold (course_of gap_events) in H. destruct (course_of gap_events) as [[u' obs] p'] eqn:E.
    destruct H as (_ & a' & new & H1 & H2 & H3 & _). exists a', new. split; [exact H1|]. split; [exact H2|].
    pose proof (proj1 gap_observations) as Ho. rewrite E in Ho. cbn [fst snd] in Ho. rewrite H3, Ho. vm_compute. reflexivity.
Defined.
End CaptureDemo.
