(* ===== verification/Plugin.v ===== *)
(** * The plugin: filters, shared lists and nftables ([internal/node/manager.go])

    A plugin configuration is compiled into a [PluginState] (addresses, domains
    resolved to addresses, ports), which [SyncPlugin] loads into sets of one nftables
    table.  The [nft] tool, DNS and the clock answer through [PluginEnv]; the reply of
    [nft] may depend on all commands before. *)
From S2P Require Import Prelude GoStr GoTime GoNet GoAny GoSort RuntimeState NodeConfig SingBoxConfig Users Activation.
Import RuntimeState.

Module Plugin.

Record PluginConfig := { config : object; uuid : string; name : string }.
Record PluginSyncRequest := { req_ConfigHash : string; req_Plugin : option PluginConfig }.

(** ** Shared lists *)

Record pluginSharedList := { Type_ : string; Items : list string }.
Abbreviation shared_lists := (gmap string pluginSharedList).

Definition list_item (item : any) : option string :=
  match item with
  | AStr s => Some s
  | AFloat f => if is_integral f then Some (itoa (int_of_float f)) else None
  | _ => None
  end.

Definition read_list (out : shared_lists) (l : object) : shared_lists :=
  let n := stringValue (field l "name") in
  let t := stringValue (field l "type") in
  if bool_decide (n = "") || bool_decide (t = "") then out
  else <[n := {| Type_ := t; Items := omap list_item (asAnySlice (field l "items")) |}]> out.

Definition readSharedLists (config : object) : shared_lists :=
  foldl read_list ∅ (asMapSlice (field config "sharedLists")).

Definition is_reference (value : string) : bool := has_prefix value "ext:".

Definition check_reference (shared : shared_lists) (expected : string) (item : any) : result unit :=
  match item with
  | AStr value =>
      if is_reference value then
        match shared !! value with
        | None => Err (ErrMsg ("shared list " +:+ value +:+ " was not provided"))
        | Some l => fail_if (negb (bool_decide (Type_ l = expected)))
                      (ErrMsg ("shared list " +:+ value +:+ " has type " +:+ Type_ l +:+ ", expected " +:+ expected))
        end
      else Ok tt
  | _ => Ok tt
  end.

Definition ingress_of (config : object) : object := ensureConfigMap (field config "ingressFilter").
Definition egress_of (config : object) : object := ensureConfigMap (field config "egressFilter").

(** The lists that may refer to shared lists, each with the type it needs. *)
Definition reference_fields (config : object) : list (list any * string) :=
  [(asAnySlice (field (ingress_of config) "blockedIps"), "ipList");
   (asAnySlice (field (egress_of config) "blockedIps"), "ipList");
   (asAnySlice (field (egress_of config) "blockedDomains"), "domainList");
   (asAnySlice (field (egress_of config) "blockedPorts"), "portList")].

Definition validateSharedListReferences (config : object) (shared : shared_lists) : result unit :=
  Users.validate_all (λ f : list any * string, Users.validate_all (check_reference shared f.2) f.1) (reference_fields config).

(** ** Resolving lists *)

Definition shared_items (shared : shared_lists) (name : string) : list string :=
  from_option Items [] (shared !! name).

Definition resolveIPList (values : list string) (shared : shared_lists) : list string :=
  mjoin ((λ v, if is_reference v then shared_items shared v else [v]) <$> values).

Definition add_unique (out : list string) (value : string) : list string :=
  let value := trim_space value in
  if bool_decide (value = "") || bool_decide (value ∈ out) then out else out ++ [value].

Definition uniqueStrings (values : list string) : list string :=
  sort_strings (foldl add_unique [] values).

Definition resolveStringList (values : list string) (shared : shared_lists) : list string :=
  uniqueStrings (resolveIPList values shared).

Definition port_value (value : string) : list Z :=
  match atoi value with
  | Some port => if (1 <=? port)%Z && (port <=? 65535)%Z then [port] else []
  | None => []
  end.

Definition port_values (shared : shared_lists) (item : any) : list Z :=
  match item with
  | AFloat f => port_value (itoa (int_of_float f))
  | AStr value => if is_reference value then mjoin (port_value <$> shared_items shared value) else port_value value
  | _ => []
  end.

(** Equal neighbours once. *)
Definition dedup (out : list Z) (port : Z) : list Z :=
  if bool_decide (last out = Some port) then out else out ++ [port].

Definition resolvePortList (values : list any) (shared : shared_lists) : list Z :=
  foldl dedup [] (sort_ints (mjoin (port_values shared <$> values))).

(** ** The compiled state *)

Definition emptyPluginState : PluginState := RuntimeState.emptyPlugin.

Definition with_ingress (l : list string) (p : PluginState) : PluginState :=
  {| ConfigHash_ := ConfigHash_ p; ActivePlugin := ActivePlugin p; AppliedAt := AppliedAt p;
     LastAttemptAt := LastAttemptAt p; LastError := LastError p; DomainResolutions := DomainResolutions p;
     IngressBlocked := l; EgressBlockedBaseIPs := EgressBlockedBaseIPs p; EgressBlockedIPs := EgressBlockedIPs p;
     EgressBlockedDomains := EgressBlockedDomains p; EgressBlockedPorts := EgressBlockedPorts p |}.

Definition with_egress (base ips domains : list string) (ports : list Z) (p : PluginState) : PluginState :=
  {| ConfigHash_ := ConfigHash_ p; ActivePlugin := ActivePlugin p; AppliedAt := AppliedAt p;
     LastAttemptAt := LastAttemptAt p; LastError := LastError p; DomainResolutions := DomainResolutions p;
     IngressBlocked := IngressBlocked p; EgressBlockedBaseIPs := base; EgressBlockedIPs := ips;
     EgressBlockedDomains := domains; EgressBlockedPorts := ports |}.

Definition with_resolutions (d : gmap string DomainResolution) (ips : list string) (p : PluginState) : PluginState :=
  {| ConfigHash_ := ConfigHash_ p; ActivePlugin := ActivePlugin p; AppliedAt := AppliedAt p;
     LastAttemptAt := LastAttemptAt p; LastError := LastError p; DomainResolutions := d;
     IngressBlocked := IngressBlocked p; EgressBlockedBaseIPs := EgressBlockedBaseIPs p; EgressBlockedIPs := ips;
     EgressBlockedDomains := EgressBlockedDomains p; EgressBlockedPorts := EgressBlockedPorts p |}.

Definition with_times (applied attempt : option time) (err : string) (p : PluginState) : PluginState :=
  {| ConfigHash_ := ConfigHash_ p; ActivePlugin := ActivePlugin p; AppliedAt := applied;
     LastAttemptAt := attempt; LastError := err; DomainResolutions := DomainResolutions p;
     IngressBlocked := IngressBlocked p; EgressBlockedBaseIPs := EgressBlockedBaseIPs p;
     EgressBlockedIPs := EgressBlockedIPs p; EgressBlockedDomains := EgressBlockedDomains p;
     EgressBlockedPorts := EgressBlockedPorts p |}.

Definition with_plugin (hash : string) (meta : PluginMeta) (p : PluginState) : PluginState :=
  {| ConfigHash_ := hash; ActivePlugin := Some meta; AppliedAt := AppliedAt p;
     LastAttemptAt := LastAttemptAt p; LastError := LastError p; DomainResolutions := DomainResolutions p;
     IngressBlocked := IngressBlocked p; EgressBlockedBaseIPs := EgressBlockedBaseIPs p;
     EgressBlockedIPs := EgressBlockedIPs p; EgressBlockedDomains := EgressBlockedDomains p;
     EgressBlockedPorts := EgressBlockedPorts p |}.

Definition configureIngressFilter (p : PluginState) (config : object) (shared : shared_lists) : PluginState :=
  if boolValue (field (ingress_of config) "enabled")
  then with_ingress (resolveIPList (stringSlice (field (ingress_of config) "blockedIps")) shared) p else p.

Definition configureEgressFilter (p : PluginState) (config : object) (shared : shared_lists) : PluginState :=
  let plugin := egress_of config in
  if boolValue (field plugin "enabled") then
    let base := resolveIPList (stringSlice (field plugin "blockedIps")) shared in
    with_egress base base (resolveStringList (stringSlice (field plugin "blockedDomains")) shared)
      (resolvePortList (asAnySlice (field plugin "blockedPorts")) shared) p
  else p.

(** ** nftables *)

(** The commands the agent gives, and their arguments. *)
Inductive nft_cmd :=
| DeleteTable
| AddTable
| AddSet (set : string) (spec : list string)
| AddChain (chain : string)
| AddRule (chain : string) (rule : list string)
| FlushSet (set : string)
| AddElements (set : string) (elements : list string) (timeout : option Z)
| DeleteElement (set value : string).

Definition nftTableName : string := "remnanode".

Definition args (c : nft_cmd) : list string :=
  match c with
  | DeleteTable => ["delete"; "table"; "inet"; nftTableName]
  | AddTable => ["add"; "table"; "inet"; nftTableName]
  | AddSet set spec => ["add"; "set"; "inet"; nftTableName; set; "{"] ++ spec ++ ["}"]
  | AddChain chain => ["add"; "chain"; "inet"; nftTableName; chain; "{"; "type"; "filter"; "hook"; chain;
                       "priority"; "0;"; "policy"; "accept;"; "}"]
  | AddRule chain rule => ["add"; "rule"; "inet"; nftTableName; chain] ++ rule
  | FlushSet set => ["flush"; "set"; "inet"; nftTableName; set]
  | AddElements set elements timeout =>
      ["add"; "element"; "inet"; nftTableName; set; "{"; join ", " elements] ++
      (match timeout with Some t => ["timeout"; itoa t +:+ "s"] | None => [] end) ++ ["}"]
  | DeleteElement set value => ["delete"; "element"; "inet"; nftTableName; set; "{"; value; "}"]
  end.

(** What the plugin asks of its surroundings. *)
Class PluginEnv := {
  nftReady : bool;
  has_ss : bool;
  nft_reply : list (nft_cmd * bool) → nft_cmd → option (string * error);
  lookup_ip : nat → string → result (list ip);
  clock_at : nat → time
}.

(** The state: the runtime, the commands given to [nft] (newest first, with whether it
    accepted them), the addresses whose connections were killed, and the number of
    readings of the clock. *)
Record PluginWorld := {
  p_runtime : Runtime; nft_log : list (nft_cmd * bool); killed : list string; ticks : nat }.

Definition upd_runtime (f : Runtime → Runtime) : proc PluginWorld unit := modify (λ w,
  {| p_runtime := f (p_runtime w); nft_log := nft_log w; killed := killed w; ticks := ticks w |}).

Section env.
Context {EnvP : PluginEnv} {JsonI : Activation.Json} {DigestI : SingBoxConfig.Digest}.

Definition now : proc PluginWorld time := λ w,
  ({| p_runtime := p_runtime w; nft_log := nft_log w; killed := killed w; ticks := S (ticks w) |},
   Ok (clock_at (ticks w))).

(** A command: a failure that says that something does not exist counts as success. *)
Definition runNft (c : nft_cmd) : proc PluginWorld unit := λ w,
  let reply := nft_reply (nft_log w) c in
  ({| p_runtime := p_runtime w; nft_log := (c, bool_decide (reply = None)) :: nft_log w; killed := killed w;
      ticks := ticks w |},
   match reply with
   | None => Ok tt
   | Some (output, e) =>
       if negb (bool_decide (output = "")) && contains output "No such file or directory" then Ok tt
       else Err (ErrWrap "nft failed" e)
   end).

Definition setup : list nft_cmd :=
  [AddSet "temporary-blocked-ip" ["type"; "ipv4_addr;"; "flags"; "timeout;"];
   AddSet "temporary-blocked-ip6" ["type"; "ipv6_addr;"; "flags"; "timeout;"];
   AddSet "ingress-filter-ip" ["type"; "ipv4_addr;"; "flags"; "interval;"; "auto-merge;"];
   AddSet "ingress-filter-ip6" ["type"; "ipv6_addr;"; "flags"; "interval;"; "auto-merge;"];
   AddSet "egress-filter-ip" ["type"; "ipv4_addr;"; "flags"; "interval;"; "auto-merge;"];
   AddSet "egress-filter-ip6" ["type"; "ipv6_addr;"; "flags"; "interval;"; "auto-merge;"];
   AddSet "egress-filter-port" ["type"; "inet_service;"];
   AddChain "input"; AddChain "output";
   AddRule "input" ["ip"; "saddr"; "@ingress-filter-ip"; "drop"];
   AddRule "input" ["ip"; "saddr"; "@temporary-blocked-ip"; "drop"];
   AddRule "input" ["ip6"; "saddr"; "@ingress-filter-ip6"; "drop"];
   AddRule "input" ["ip6"; "saddr"; "@temporary-blocked-ip6"; "drop"];
   AddRule "output" ["ip"; "daddr"; "@egress-filter-ip"; "drop"];
   AddRule "output" ["ip6"; "daddr"; "@egress-filter-ip6"; "drop"];
   AddRule "output" ["tcp"; "dport"; "@egress-filter-port"; "drop"];
   AddRule "output" ["udp"; "dport"; "@egress-filter-port"; "drop"]].

Definition recreateNFTables : proc PluginWorld unit :=
  if negb nftReady then mret tt else
  _ ← attempt (runNft DeleteTable);
  _ ← runNft AddTable;
  proc_iter runNft setup.

(** The canonical text of an address or network, and whether it is IPv6. *)
Definition normalizeIPOrCIDR (value : string) : option (string * bool) :=
  let value := trim_space value in
  match parse_ip value with
  | Some a => Some (ip_string a, negb (is_v4 a))
  | None => match parse_cidr value with
            | Some (a, network, lit4, n) => Some (cidr_string network lit4 n, negb (is_v4 a))
            | None => None
            end
  end.

Definition family_items (items : list string) (ipv6 : bool) : list string :=
  omap (λ item, match normalizeIPOrCIDR item with
                | Some (value, six) => if Bool.eqb six ipv6 then Some value else None
                | None => None
                end) items.

Definition nftSyncSet (set : string) (items : list string) (ipv6 : bool) : proc PluginWorld unit :=
  _ ← runNft (FlushSet set);
  match family_items items ipv6 with
  | [] => mret tt
  | filtered => runNft (AddElements set filtered None)
  end.

Definition nftSyncPortSet (set : string) (ports : list Z) : proc PluginWorld unit :=
  _ ← runNft (FlushSet set);
  match ports with
  | [] => mret tt
  | _ => runNft (AddElements set (itoa <$> ports) None)
  end.

Definition syncNFTState (p : PluginState) : proc PluginWorld unit :=
  if negb nftReady then mret tt else
  _ ← nftSyncSet "ingress-filter-ip" (IngressBlocked p) false;
  _ ← nftSyncSet "ingress-filter-ip6" (IngressBlocked p) true;
  _ ← nftSyncSet "egress-filter-ip" (EgressBlockedIPs p) false;
  _ ← nftSyncSet "egress-filter-ip6" (EgressBlockedIPs p) true;
  nftSyncPortSet "egress-filter-port" (EgressBlockedPorts p).

(** Failures of the way back are logged. *)
Definition restorePluginNFTState (p : PluginState) : proc PluginWorld unit :=
  if negb nftReady then mret tt else
  r ← attempt recreateNFTables;
  match r with
  | Err _ => mret tt
  | Ok _ => _ ← attempt (syncNFTState p); mret tt
  end.

Definition applyPluginNFTState (next fallback : PluginState) : proc PluginWorld unit :=
  r ← attempt (_ ← recreateNFTables; syncNFTState next);
  match r with
  | Err e => _ ← restorePluginNFTState fallback; throw e
  | Ok _ => mret tt
  end.

(** ** Domains *)


Definition resolution (domain : string) (at_ : time) (addresses : list string) (success : option time)
    (failures : Z) (err : string) (stale : bool) : DomainResolution :=
  {| Domain := domain; Addresses := addresses; dr_LastAttemptAt := Some at_; LastSuccessAt := success;
     FailureCount := failures; dr_LastError := err; Stale := stale |}.

Definition invalid_domain (domain : string) : bool :=
  bool_decide (is_Some (parse_ip domain)) || contains_any domain " /\".

(** One domain: its addresses now, or those of the last resolution when DNS fails. *)
Definition resolve_domain (previous : option PluginState) (domain : string) : proc PluginWorld DomainResolution :=
  if invalid_domain domain then throw (ErrMsg ("invalid egress domain " +:+ domain)) else
  tick ← gets ticks;
  at_ ← now;
  match lookup_ip tick domain with
  | Err e =>
      match p ← previous; DomainResolutions p !! domain with
      | Some existing =>
          if bool_decide (Addresses existing = []) then throw (ErrWrap ("resolve egress domain " +:+ domain) e)
          else mret (resolution domain at_ (Addresses existing) (LastSuccessAt existing)
                       (Int.wrap64 (FailureCount existing + 1)) (error_text e) true)
      | None => throw (ErrWrap ("resolve egress domain " +:+ domain) e)
      end
  | Ok [] => throw (ErrMsg ("egress domain " +:+ domain +:+ " resolved to no addresses"))
  | Ok ips => mret (resolution domain at_ (uniqueStrings (ip_string <$> ips)) (Some at_) 0 "" false)
  end.

Definition resolveEgressDomains (target : PluginState) (previous : option PluginState) : proc PluginWorld PluginState :=
  acc ← proc_fold (λ (acc : list string * gmap string DomainResolution) domain,
          status ← resolve_domain previous domain;
          mret (acc.1 ++ Addresses status, <[domain := status]> acc.2))
        (EgressBlockedBaseIPs target, ∅) (EgressBlockedDomains target);
  mret (with_resolutions acc.2 (uniqueStrings acc.1) target).

Definition ConfigHash (config : object) : string := SingBoxConfig.sha256_hex (Activation.marshal_json (AObj config)).

Definition compilePluginState (request : PluginSyncRequest) (previous : option PluginState) : proc PluginWorld PluginState :=
  at_ ← now;
  let next := with_times None (Some at_) "" emptyPluginState in
  match req_Plugin request with
  | None => mret next
  | Some plugin =>
      let hash := if bool_decide (req_ConfigHash request = "") then ConfigHash (config plugin) else req_ConfigHash request in
      let next := with_plugin hash {| UUID := uuid plugin; Name := name plugin |} next in
      let shared := readSharedLists (config plugin) in
      _ ← lift (validateSharedListReferences (config plugin) shared);
      resolveEgressDomains (configureEgressFilter (configureIngressFilter next (config plugin) shared) (config plugin) shared)
        previous
  end.

(** ** Handlers *)

(** The summary of a compilation: the numbers of entries. *)
Definition pluginCompileSummary (p : PluginState) : nat * nat * nat * nat :=
  (length (IngressBlocked p), length (EgressBlockedIPs p), length (EgressBlockedDomains p), length (EgressBlockedPorts p)).

Definition CompilePlugin (request : PluginSyncRequest) : proc PluginWorld PluginState :=
  match req_Plugin request with
  | None => mret emptyPluginState
  | Some _ => compilePluginState request None
  end.

(** Reject: keep the plugin state, note the attempt and the error. *)
Definition reject {A} (current : PluginState) (e : error) : proc PluginWorld A :=
  at_ ← now;
  _ ← upd_runtime (SetPluginState (with_times (AppliedAt current) (Some at_) (error_text e) current));
  throw e.

Definition SyncPlugin (request : PluginSyncRequest) : proc PluginWorld string :=
  current ← gets (λ w, PluginState_ (p_runtime w));
  match req_Plugin request with
  | None =>
      at_ ← now;
      r ← (if nftReady then attempt recreateNFTables else mret (Ok tt));
      match r with
      | Err e =>
          _ ← upd_runtime (SetPluginState (with_times None (Some at_) (error_text e) emptyPluginState));
          throw e
      | Ok _ =>
          _ ← upd_runtime (SetPluginState (with_times (Some at_) (Some at_) "" emptyPluginState));
          mret ""
      end
  | Some _ =>
      compiled ← attempt (compilePluginState request (Some current));
      match compiled with
      | Err e => reject current e
      | Ok next =>
          r ← (if nftReady then attempt (applyPluginNFTState next current) else mret (Ok tt));
          match r with
          | Err e => reject current e
          | Ok _ =>
              _ ← upd_runtime (SetPluginState next);
              at_ ← now;
              _ ← upd_runtime (SetPluginState (with_times (Some at_) (Some at_) "" next));
              mret (ConfigHash_ next)
          end
      end
  end.

(** [!reflect.DeepEqual(previous, next)], where [previous] is an [append] to a nil slice
    and [next] is made by [uniqueStrings]: two empty slices are not equal. *)
Definition addresses_changed (previous next : list string) : bool :=
  negb (bool_decide (previous = next)) || bool_decide (next = []).

(** The plugin's part of [RefreshForwardingDNS]: resolve again, load when it changed. *)
Definition refreshPluginDNS : proc PluginWorld unit :=
  previous ← gets (λ w, PluginState_ (p_runtime w));
  resolved ← attempt (resolveEgressDomains previous (Some previous));
  match resolved with
  | Err e =>
      at_ ← now;
      upd_runtime (SetPluginState (with_times (AppliedAt previous) (Some at_) (error_text e) previous))
  | Ok next =>
      if negb (addresses_changed (EgressBlockedIPs previous) (EgressBlockedIPs next)) then
        upd_runtime (SetPluginState (with_times (AppliedAt next) (LastAttemptAt next) "" next))
      else
        r ← attempt (syncNFTState next);
        match r with
        | Err e =>
            _ ← restorePluginNFTState previous;
            at_ ← now;
            upd_runtime (SetPluginState (with_times (AppliedAt previous) (Some at_) (error_text e) previous))
        | Ok _ => upd_runtime (SetPluginState (with_times (AppliedAt next) (LastAttemptAt next) "" next))
        end
  end.

(** ** Temporary blocks *)

Definition defaultIgnoredIPs : list string :=
  ["::"; "::1"; "0.0.0.0"; "0.0.0.0/0"; "127.0.0.0/8"; "127.0.0.1"; "255.255.255.255"].
Definition isIgnoredIP (ip : string) (extra : list string) : bool :=
  bool_decide (ip ∈ defaultIgnoredIPs) || bool_decide (ip ∈ extra).

Definition dropConnections (ip : string) : proc PluginWorld unit :=
  if bool_decide (ip = "") || isIgnoredIP ip [] || negb has_ss then mret tt
  else modify (λ w, {| p_runtime := p_runtime w; nft_log := nft_log w; killed := ip :: killed w; ticks := ticks w |}).

Definition nftSetFamily (ip : string) : option string :=
  match parse_ip ip with Some a => Some (if is_v4 a then "" else "6") | None => None end.

Definition blockIPWithTimeout (ip : string) (timeout : Z) : proc PluginWorld unit :=
  match nftSetFamily ip with
  | None => throw (ErrMsg ("invalid IP address " +:+ ip))
  | Some family =>
      until ← (if (0 <? timeout)%Z then t ← now; mret (t + Int.wrap64 (timeout * second))%Z else mret zero_time);
      _ ← upd_runtime (SetBlockedIP ip until);
      _ ← when nftReady (runNft (AddElements ("temporary-blocked-ip" +:+ family) [ip]
                                  (if (0 <? timeout)%Z then Some timeout else None)));
      dropConnections ip
  end.

Definition BlockIPs (ips : list Users.BlockIP) : proc PluginWorld unit :=
  proc_iter (λ item, blockIPWithTimeout (Users.bi_IP item) (Users.bi_Timeout item)) ips.

Definition nftDeleteElement (set value : string) : proc PluginWorld unit :=
  if negb nftReady then mret tt else runNft (DeleteElement set value).

Definition unblock_ip (ip : string) : proc PluginWorld unit :=
  _ ← upd_runtime (DeleteBlockedIP ip);
  if nftReady then
    match nftSetFamily ip with
    | None => throw (ErrMsg "not accepted")
    | Some family =>
        _ ← nftDeleteElement ("temporary-blocked-ip" +:+ family) ip;
        nftDeleteElement ("ingress-filter-ip" +:+ family) ip
    end
  else mret tt.

Definition UnblockIPs (ips : list string) : proc PluginWorld unit := proc_iter unblock_ip ips.
Definition DropIPs (ips : list string) : proc PluginWorld unit := proc_iter dropConnections ips.
Definition RecreateTables : proc PluginWorld unit := recreateNFTables.

End env.
End Plugin.
