(* ===== verification/PluginSpec.v ===== *)
(** * What a synchronised plugin guarantees

    The commands that [nft] accepted are interpreted on an abstract table (sets of
    elements, chains, rules).  [sync_in_effect]: what an accepted synchronisation leaves in
    the plugin state and in that table; after the removal of a plugin the old filters stay
    when [nft] would not delete the table.  [sync_rejected]: what a rejected one leaves; one
    that carries a plugin keeps the plugin state and goes back to its table, a removal
    forgets the plugin and goes back to nothing.  [compile_sound]: what a compiled state
    holds, in terms of the entries of the configuration. *)
From S2P Require Import Prelude GoStr GoTime GoNet GoAny GoSort RuntimeState NodeConfig SingBoxConfig Users UsersSpec Activation ActivationSpec Plugin.
Import RuntimeState Plugin.

(** ** The table that the accepted commands make *)

Record table := { sets : gmap string (gset string); chains : gset string; rules : list (string * list string) }.
Abbreviation kernel := (option table).

Definition on_set (set : string) (f : gset string → gset string) (t : table) : table :=
  {| sets := alter f set (sets t); chains := chains t; rules := rules t |}.

Definition effect (k : kernel) (c : nft_cmd) : kernel :=
  match c with
  | DeleteTable => None
  | AddTable => Some (default {| sets := ∅; chains := ∅; rules := [] |} k)
  | AddSet set _ => (λ t, {| sets := <[set := default ∅ (sets t !! set)]> (sets t); chains := chains t; rules := rules t |}) <$> k
  | AddChain chain => (λ t, {| sets := sets t; chains := {[chain]} ∪ chains t; rules := rules t |}) <$> k
  | AddRule chain rule => (λ t, {| sets := sets t; chains := chains t; rules := rules t ++ [(chain, rule)] |}) <$> k
  | FlushSet set => on_set set (λ _, ∅) <$> k
  | AddElements set elements _ => on_set set (λ s, s ∪ list_to_set elements) <$> k
  | DeleteElement set value => on_set set (λ s, s ∖ {[value]}) <$> k
  end.

Definition kernel_of (k0 : kernel) (log : list (nft_cmd * bool)) : kernel :=
  foldr (λ (c : nft_cmd * bool) k, if c.2 then effect k c.1 else k) k0 log.

(** What a command names is there. *)
Definition has_set (set : string) (k : kernel) : Prop := ∃ t, k = Some t ∧ is_Some (sets t !! set).
Definition present (c : nft_cmd) (k : kernel) : Prop :=
  match c with
  | AddTable => True
  | DeleteTable | AddSet _ _ | AddChain _ => is_Some k
  | AddRule chain rule => ∃ t, k = Some t ∧ chain ∈ chains t ∧ ∀ set, ("@" +:+ set) ∈ rule → is_Some (sets t !! set)
  | FlushSet set | AddElements set _ _ | DeleteElement set _ => has_set set k
  end.

(** The documented behaviour of [nft] that the agent relies on: it says "No such file or
    directory" only of a thing that is not there.  [k0] is the table before the agent's
    first command. *)
Class NftLaw {EnvP : PluginEnv} (k0 : kernel) := nft_missing log c output e :
  nft_reply log c = Some (output, e) → contains output "No such file or directory" = true →
  ¬ present c (kernel_of k0 log).

(** ** The table of a plugin state *)

Definition filter_sets (p : PluginState) : list (string * list string) :=
  [("ingress-filter-ip", family_items (IngressBlocked p) false);
   ("ingress-filter-ip6", family_items (IngressBlocked p) true);
   ("egress-filter-ip", family_items (EgressBlockedIPs p) false);
   ("egress-filter-ip6", family_items (EgressBlockedIPs p) true);
   ("egress-filter-port", itoa <$> EgressBlockedPorts p)].

Definition setup_rules : list (string * list string) :=
  omap (λ c, match c with AddRule chain rule => Some (chain, rule) | _ => None end) setup.

(** The filters hold exactly the entries of the plugin state, and the rules that use them
    are there. *)
Definition filters (p : PluginState) (t : table) : Prop :=
  (∀ set items, (set, items) ∈ filter_sets p → sets t !! set = Some (list_to_set items)) ∧
  setup_rules ⊆ rules t.

Definition load (t : table) (f : string * list string) : table :=
  {| sets := <[f.1 := list_to_set f.2]> (sets t); chains := chains t; rules := rules t |}.

Definition fresh_table : table :=
  {| sets := list_to_map ((λ s, (s, ∅)) <$> ["temporary-blocked-ip"; "temporary-blocked-ip6"; "ingress-filter-ip";
                          "ingress-filter-ip6"; "egress-filter-ip"; "egress-filter-ip6"; "egress-filter-port"]);
     chains := {["input"; "output"]}; rules := setup_rules |}.

(** Nothing else in the table: the temporary blocks are empty. *)
Definition table_of (p : PluginState) : table := foldl load fresh_table (filter_sets p).

Section spec.
Context {EnvP : PluginEnv} {k0 : kernel} {Law : NftLaw k0} {JsonI : Activation.Json} {DigestI : SingBoxConfig.Digest}.

Abbreviation kern := (λ w : PluginWorld, kernel_of k0 (nft_log w)).

(** ** Commands *)

Lemma runNft_spec c w w' r :
  runNft c w = (w', r) →
  p_runtime w' = p_runtime w ∧ (∃ b, nft_log w' = (c, b) :: nft_log w) ∧
  match r with
  | Ok _ => present c (kern w) → kern w' = effect (kern w) c
  | Err _ => nft_log w' = (c, false) :: nft_log w
  end.
Proof.
  unfold runNft. destruct (nft_reply (nft_log w) c) as [[output e]|] eqn:Hr.
  - rewrite (bool_decide_eq_false_2 (Some (output, e) = None)) by done.
    destruct (negb (bool_decide (output = "")) && contains output _) eqn:Hc; intros [= <- <-];
      (split; [done|split; [by eexists|]]); [|done].
    apply andb_true_iff in Hc as [_ Hc]. intros Hp. exfalso. by eapply (nft_missing _ c).
  - intros [= <- <-]. split; [done|split; [by eexists|]]. done.
Qed.

(** The commands of a list, each naming what is there by then. *)
Fixpoint all_present (cs : list nft_cmd) (k : kernel) : Prop :=
  match cs with [] => True | c :: rest => present c k ∧ all_present rest (effect k c) end.

(** How a run of commands ended: in a table with the property, or at a refused command. *)
Definition ran (Q : kernel → Prop) (w w' : PluginWorld) (r : result unit) : Prop :=
  p_runtime w' = p_runtime w ∧
  match r with
  | Ok _ => Q (kern w')
  | Err _ => ∃ c rest, nft_log w' = (c, false) :: rest
  end.

Lemma ran_bind (m : proc PluginWorld unit) f Q1 Q2 w w' r :
  (m ≫= f) w = (w', r) → (∀ w1 a, m w = (w1, a) → ran Q1 w w1 a) →
  (∀ u w1, Q1 (kern w1) → f u w1 = (w', r) → ran Q2 w1 w' r) → ran Q2 w w' r.
Proof.
  intros E H1 H2. step E w1 a Hm. destruct (H1 _ _ Hm) as [R1 K1].
  destruct a as [u|e]; [|destruct E as [-> ->]; by split].
  destruct (H2 _ _ K1 E) as [R2 K2]. split; [congruence|exact K2].
Qed.

Lemma ran_weaken Q1 Q2 w w' r : (∀ k, Q1 k → Q2 k) → ran Q1 w w' r → ran Q2 w w' r.
Proof. intros HQ [R K]. split; [done|]. destruct r; [by apply HQ|done]. Qed.

Lemma runNft_ran c w w' r : present c (kern w) → runNft c w = (w', r) → ran (eq (effect (kern w) c)) w w' r.
Proof.
  intros Hp E. apply runNft_spec in E as (R & _ & K). split; [done|]. destruct r; [symmetry; by apply K|eauto].
Qed.

Lemma run_all cs w w' r :
  all_present cs (kern w) → proc_iter runNft cs w = (w', r) → ran (eq (foldl effect (kern w) cs)) w w' r.
Proof.
  revert w. induction cs as [|c cs IH]; intros w Hp E.
  - injection E as <- <-. done.
  - destruct Hp as [Hc Hp]. unfold proc_iter in E. cbn [proc_fold] in E.
    eapply ran_bind; [exact E|intros w1 a; by apply runNft_ran|].
    intros [] w1 Hk E1. cbn [foldl]. rewrite Hk. apply IH; [by rewrite <- Hk|exact E1].
Qed.

(** ** Making the table *)

(** What is known to be there: sets and chains. *)
Definition known : Type := list string * list string.
Definition has (n : known) (k : kernel) : Prop :=
  ∃ t, k = Some t ∧ (∀ set, set ∈ n.1 → is_Some (sets t !! set)) ∧ (∀ chain, chain ∈ n.2 → chain ∈ chains t).

Definition names (r : list string) : list string := (λ x, default "" (strip_prefix "@" x)) <$> filter (λ x, has_prefix x "@") r.
Definition adds (n : known) (c : nft_cmd) : option known :=
  match c with
  | AddSet set _ => Some (set :: n.1, n.2)
  | AddChain chain => Some (n.1, chain :: n.2)
  | AddRule chain rule =>
      if bool_decide (chain ∈ n.2) && forallb (λ x, negb (has_prefix x "@") || existsb (λ s, bool_decide (x = "@" +:+ s)) n.1) rule
      then Some n else None
  | _ => None
  end.
Fixpoint adds_all (n : known) (cs : list nft_cmd) : option known :=
  match cs with [] => Some n | c :: rest => n' ← adds n c; adds_all n' rest end.

(** Every set keeps its elements. *)
Definition keeps (t t' : table) : Prop := ∀ set elements, sets t !! set = Some elements → sets t' !! set = Some elements.

Lemma adds_step n c n' t : adds n c = Some n' → has n (Some t) →
  present c (Some t) ∧ ∃ t', effect (Some t) c = Some t' ∧ has n' (Some t') ∧ keeps t t' ∧
    rules t' = rules t ++ omap (λ c, match c with AddRule chain rule => Some (chain, rule) | _ => None end) [c].
Proof.
  intros E (t0 & [= <-] & Hs & Hc). destruct c as [| |set spec|chain|chain rule| | |]; try discriminate E; cbn [adds] in E.
  - injection E as <-. split; [by eexists|]. eexists. split; [reflexivity|]. split; [|split; [|by rewrite app_nil_r]].
    2:{ intros s elements Hse. cbn [sets]. destruct (decide (set = s)) as [->|Hne].
        - by rewrite lookup_insert_eq, Hse.
        - by rewrite lookup_insert_ne. }
    eexists. split; [done|]. split; [|exact Hc]. intros s Hin. cbn [sets]. apply lookup_insert_is_Some'.
    apply elem_of_cons in Hin as [->|Hin]; [by left|right; by apply Hs].
  - injection E as <-. split; [by eexists|]. eexists. split; [reflexivity|]. split; [|split; [by intros ?|by rewrite app_nil_r]].
    eexists. split; [done|]. split; [exact Hs|]. intros s Hin. cbn [chains].
    apply elem_of_cons in Hin as [->|Hin]; [set_solver|apply elem_of_union_r; by apply Hc].
  - destruct (bool_decide (chain ∈ n.2) && _) eqn:G; [|discriminate E]. injection E as <-.
    apply andb_true_iff in G as [Gc Gr]. apply bool_decide_eq_true in Gc. rewrite forallb_elem_of in Gr. split.
    + exists t. split; [done|]. split; [by apply Hc|]. intros set Hset. specialize (Gr _ Hset).
      apply orb_true_iff in Gr as [Gr|Gr]; [by destruct set|].
      apply existsb_elem_of in Gr as (s & Hin & Heq). apply bool_decide_eq_true in Heq. injection Heq as <-. by apply Hs.
    + eexists. split; [reflexivity|]. split; [by eexists|]. split; [by intros ?|done].
Qed.

Lemma adds_all_spec cs n n' t : adds_all n cs = Some n' → has n (Some t) →
  all_present cs (Some t) ∧ ∃ t', foldl effect (Some t) cs = Some t' ∧ has n' (Some t') ∧ keeps t t' ∧
    rules t' = rules t ++ omap (λ c, match c with AddRule chain rule => Some (chain, rule) | _ => None end) cs.
Proof.
  revert n t. induction cs as [|c cs IH]; intros n t E Hn.
  - injection E as <-. split; [done|]. exists t. rewrite app_nil_r. split; [done|]. split; [done|]. split; [by intros ?|done].
  - cbn [adds_all] in E. apply bind_Some in E as (n1 & E1 & E).
    destruct (adds_step _ _ _ _ E1 Hn) as (Hp & t1 & Ht1 & Hn1 & K1 & R1).
    destruct (IH _ _ E Hn1) as (Hall & t2 & Ht2 & Hn2 & K2 & R2). rewrite <- Ht1 in Hall.
    split; [by split|]. exists t2. cbn [foldl]. rewrite Ht1. split; [done|]. split; [done|].
    split; [intros set elements Hse; by apply K2, K1|].
    by rewrite R2, R1, <- app_assoc, <- omap_app.
Qed.

Definition all_sets : list string :=
  ["egress-filter-port"; "egress-filter-ip6"; "egress-filter-ip"; "ingress-filter-ip6"; "ingress-filter-ip";
   "temporary-blocked-ip6"; "temporary-blocked-ip"].

Lemma setup_spec t :
  all_present setup (Some t) ∧ ∃ t', foldl effect (Some t) setup = Some t' ∧ has (all_sets, ["output"; "input"]) (Some t') ∧
    keeps t t' ∧ rules t' = rules t ++ setup_rules.
Proof. apply (adds_all_spec _ ([], [])); [reflexivity|]. exists t. split; [done|]. split; intros ? []%elem_of_nil. Qed.

Lemma setup_fresh : foldl effect (effect None AddTable) setup = Some fresh_table.
Proof. vm_compute. reflexivity. Qed.

(** The table was deleted, or there was none. *)
Definition deleted (w : PluginWorld) : Prop := nft_reply (nft_log w) DeleteTable = None ∨ kern w = None.

(** The table as [recreateNFTables] leaves it, from the table [before]: the fresh one when the
    old one was deleted; else it has all sets and rules, and the old elements. *)
Definition made (clean : Prop) (before k : kernel) : Prop :=
  ∃ t, k = Some t ∧ (∀ set, set ∈ all_sets → is_Some (sets t !! set)) ∧ setup_rules ⊆ rules t ∧
       (clean → t = fresh_table) ∧ (∀ t0, before = Some t0 → ¬ clean → keeps t0 t).

Lemma drop_table_spec w w' r : runNft DeleteTable w = (w', r) → deleted w → kern w' = None.
Proof.
  unfold runNft. intros [= <- _] [Hr|Hk].
  - by rewrite Hr.
  - cbn. destruct (bool_decide _); [done|exact Hk].
Qed.

Lemma keep_table w w' r : runNft DeleteTable w = (w', r) → ¬ deleted w → kern w' = kern w.
Proof.
  unfold runNft, deleted. intros [= <- _] Hn. cbn. rewrite bool_decide_eq_false_2; [done|]. intros Hr. apply Hn. by left.
Qed.

Lemma recreate_spec w w' r :
  nftReady = true → recreateNFTables w = (w', r) → ran (made (deleted w) (kern w)) w w' r.
Proof.
  intros Hready E. unfold recreateNFTables in E. rewrite Hready in E. cbn [negb] in E.
  step_attempt E w1 a1 H1. apply runNft_spec in H1 as Hd. destruct Hd as (R1 & _ & _).
  assert (deleted w → kern w1 = None) as Hdel.
  { eapply drop_table_spec. exact H1. }
  pose proof (keep_table _ _ _ H1) as Hkeep.
  assert (ran (made (deleted w) (kern w)) w1 w' r) as [R2 K2]; [|split; [congruence|exact K2]].
  eapply ran_bind; [exact E|intros w2 a; by apply runNft_ran|].
  intros u w2 Hk E2. cbn [effect] in Hk. set (t := default _ _) in Hk. destruct (setup_spec t) as (Hp & t' & Ht' & (? & [= <-] & Hs & _) & Hkt & Hr).
  eapply ran_weaken; [|eapply run_all; [by rewrite <- Hk|exact E2]].
  intros k <-. rewrite <- Hk. exists t'. split; [done|]. split; [exact Hs|]. split.
  - intros x Hx. rewrite Hr. apply elem_of_app. by right.
  - split.
    + intros Hc. apply (inj Some). rewrite <- Ht'. subst t. rewrite (Hdel Hc). apply setup_fresh.
    + intros t0 Ht0 Hc. subst t. rewrite (Hkeep Hc), Ht0 in Hkt. exact Hkt.
Qed.

(** Its commands make the empty table; none of them loads an entry. *)
Lemma iter_log cs w w' r :
  proc_iter runNft cs w = (w', r) → ∃ l, nft_log w' = l ++ nft_log w ∧ ∀ c, c ∈ l → c.1 ∈ cs.
Proof.
  revert w. induction cs as [|c cs IH]; intros w E.
  - injection E as <- <-. exists []. split; [done|]. by intros ? ?%elem_of_nil.
  - unfold proc_iter in E. cbn [proc_fold] in E. step E w1 a H1. apply runNft_spec in H1 as (_ & [b Hl] & _).
    destruct a as [u|e].
    + destruct u. apply IH in E as (l & Hl' & Hin). exists (l ++ [(c, b)]). rewrite Hl', Hl, <- app_assoc. split; [done|].
      intros x. rewrite elem_of_app, list_elem_of_singleton. intros [Hx| ->]; [right; by apply Hin|left].
    + destruct E as [-> _]. exists [(c, b)]. split; [exact Hl|]. intros x ->%list_elem_of_singleton. left.
Qed.

Lemma recreate_log w w' r :
  recreateNFTables w = (w', r) → ∃ l, nft_log w' = l ++ nft_log w ∧ ∀ c, c ∈ l → c.1 ∈ DeleteTable :: AddTable :: setup.
Proof.
  intros E. unfold recreateNFTables in E. destruct (negb nftReady).
  { injection E as <- <-. exists []. split; [done|]. by intros ? ?%elem_of_nil. }
  step_attempt E w1 a1 H1. apply runNft_spec in H1 as (_ & [b1 L1] & _).
  step E w2 a2 H2. apply runNft_spec in H2 as (_ & [b2 L2] & _). destruct a2 as [u|e].
  - apply iter_log in E as (l & L & Hin). exists (l ++ [(AddTable, b2); (DeleteTable, b1)]).
    rewrite L, L2, L1, <- app_assoc. split; [done|]. intros x. rewrite elem_of_app, !elem_of_cons.
    intros [Hx|[->|[->|[]%elem_of_nil]]]; [right; right; by apply Hin|by right; left|by left].
  - destruct E as [-> _]. exists [(AddTable, b2); (DeleteTable, b1)]. rewrite L2, L1. split; [done|].
    intros x. rewrite !elem_of_cons. intros [->|[->|[]%elem_of_nil]]; [by right; left|by left].
Qed.

(** ** Loading the table *)

Lemma load_set t set items : sets (load t (set, items)) !! set = Some (list_to_set items).
Proof. apply lookup_insert_eq. Qed.

Lemma sync_set set (elements : list string) w w' r t :
  kern w = Some t → is_Some (sets t !! set) →
  (_ ← runNft (FlushSet set); match elements with [] => mret tt | _ => runNft (AddElements set elements None) end) w = (w', r) →
  ran (eq (Some (load t (set, elements)))) w w' r.
Proof.
  intros Hk [x Hx] E.
  assert (effect (kern w) (FlushSet set) = Some (load t (set, []))) as Hf.
  { rewrite Hk. cbn. unfold load, on_set. do 2 f_equal. cbn. apply map_eq. intros s. destruct (decide (s = set)) as [->|Hs].
    - by rewrite lookup_alter_eq, lookup_insert_eq, Hx.
    - by rewrite lookup_alter_ne, lookup_insert_ne. }
  eapply ran_bind; [exact E|intros w1 a; apply runNft_ran; rewrite Hk; by exists t; eauto|].
  intros u w1 H1 E1. rewrite Hf in H1. destruct elements as [|e es].
  { injection E1 as <- <-. by split. }
  eapply ran_weaken; [|eapply runNft_ran; [|exact E1]].
  - intros k <-. rewrite <- H1. cbn [effect fmap option_fmap option_map]. unfold load, on_set. cbn [fst snd sets chains rules].
    do 2 f_equal. apply map_eq. intros s. destruct (decide (s = set)) as [->|Hs].
    + rewrite lookup_alter_eq, !lookup_insert_eq. cbn. f_equal. set_solver.
    + by rewrite lookup_alter_ne, !lookup_insert_ne.
  - rewrite <- H1. eexists. split; [done|]. rewrite load_set. by eexists.
Qed.

Lemma nftSyncSet_spec set items six w w' r t :
  kern w = Some t → is_Some (sets t !! set) → nftSyncSet set items six w = (w', r) →
  ran (eq (Some (load t (set, family_items items six)))) w w' r.
Proof. intros Hk Hs E. eapply sync_set; [done|done|]. unfold nftSyncSet in E. by destruct (family_items items six). Qed.

Lemma nftSyncPortSet_spec set ports w w' r t :
  kern w = Some t → is_Some (sets t !! set) → nftSyncPortSet set ports w = (w', r) →
  ran (eq (Some (load t (set, itoa <$> ports)))) w w' r.
Proof. intros Hk Hs E. eapply sync_set; [done|done|]. unfold nftSyncPortSet in E. by destruct ports. Qed.

Lemma load_is_Some t f set : is_Some (sets t !! set) → is_Some (sets (load t f) !! set).
Proof. intros H. cbn. apply lookup_insert_is_Some'. by right. Qed.

Lemma sync_spec p w w' r t :
  nftReady = true → kern w = Some t → (∀ set, set ∈ all_sets → is_Some (sets t !! set)) → syncNFTState p w = (w', r) →
  ran (eq (Some (foldl load t (filter_sets p)))) w w' r.
Proof.
  intros Hready Hk Hs E. unfold syncNFTState in E. rewrite Hready in E. cbn [negb] in E. unfold filter_sets. cbn [foldl].
  do 4 (eapply ran_bind; [exact E|intros ? ?; apply nftSyncSet_spec; [exact Hk|repeat apply load_is_Some; apply Hs; set_solver]|];
    let w1 := fresh "w" in clear E Hk; intros ? w1 Hk E; symmetry in Hk).
  eapply nftSyncPortSet_spec; [exact Hk|repeat apply load_is_Some; apply Hs; set_solver|exact E].
Qed.

Lemma loaded_filters t p : setup_rules ⊆ rules t → filters p (foldl load t (filter_sets p)).
Proof.
  intros Hr. split.
  - intros set items Hin. unfold filter_sets in *. rewrite !elem_of_cons in Hin. cbn [foldl load fst snd sets].
    repeat (destruct Hin as [Hin|Hin]; [injection Hin as -> ->;
      repeat (first [apply lookup_insert_eq|rewrite lookup_insert_ne by done])|]).
    by apply elem_of_nil in Hin.
  - exact Hr.
Qed.

(** The table of the plugin state, the exact one when the old table was deleted. *)
Definition table_shows (p : PluginState) (clean : Prop) (k : kernel) : Prop :=
  ∃ t, k = Some t ∧ filters p t ∧ (clean → t = table_of p).

Lemma apply_tables p w w' r :
  nftReady = true → (_ ← recreateNFTables; syncNFTState p) w = (w', r) → ran (table_shows p (deleted w)) w w' r.
Proof.
  intros Hready E. eapply ran_bind; [exact E|intros w1 a; by apply recreate_spec|].
  intros [] w1 (t & Hk & Hs & Hr & Hc & _) E1. eapply ran_weaken; [|eapply sync_spec; [done|exact Hk|exact Hs|exact E1]].
  intros k <-. eexists. split; [reflexivity|]. split; [by apply loaded_filters|]. intros H. by rewrite (Hc H).
Qed.

(** ** What the other steps leave alone *)

Lemma restore_spec p w w' r :
  nftReady = true → restorePluginNFTState p w = (w', r) →
  p_runtime w' = p_runtime w ∧ r = Ok tt ∧
  ((∃ clean, table_shows p clean (kern w')) ∨ ∃ c rest, nft_log w' = (c, false) :: rest).
Proof.
  intros Hready E. unfold restorePluginNFTState in E. rewrite Hready in E. cbn [negb] in E.
  step_attempt E w1 a Ha. apply (recreate_spec _ _ _ Hready) in Ha as [R1 K1].
  destruct a as [u|e].
  - destruct K1 as (t & Hk & Hs & Hr & Hc & _). step_attempt E w2 b Hb.
    apply (sync_spec _ _ _ _ _ Hready Hk Hs) in Hb as [R2 K2]. injection E as <- <-.
    split; [congruence|]. split; [done|]. destruct b; [left|by right].
    exists False. rewrite <- K2. eexists. split; [reflexivity|]. split; [by apply loaded_filters|done].
  - injection E as <- <-. split; [done|]. split; [done|]. by right.
Qed.

Lemma apply_spec next fallback w w' r :
  nftReady = true → applyPluginNFTState next fallback w = (w', r) →
  p_runtime w' = p_runtime w ∧
  match r with
  | Ok _ => table_shows next (deleted w) (kern w')
  | Err _ => (∃ clean, table_shows fallback clean (kern w')) ∨ ∃ c rest, nft_log w' = (c, false) :: rest
  end.
Proof.
  intros Hready E. unfold applyPluginNFTState in E. step_attempt E w1 a Ha.
  apply (apply_tables _ _ _ _ Hready) in Ha as [R1 K1]. destruct a as [u|e].
  - by injection E as <- <-.
  - step E w2 b Hb. apply (restore_spec _ _ _ _ Hready) in Hb as (R2 & -> & K2).
    injection E as <- <-. split; [congruence|done].
Qed.
End spec.

(** ** Lists without repetition *)

Lemma add_unique_fold out l x :
  x ∈ foldl add_unique out l ↔ x ∈ out ∨ x ≠ "" ∧ ∃ v, v ∈ l ∧ trim_space v = x.
Proof.
  revert out. induction l as [|v l IH]; intros out.
  - cbn. split; [by left|]. intros [?|(_ & v & Hv & _)]; [done|by apply elem_of_nil in Hv].
  - cbn [foldl]. rewrite IH. unfold add_unique. setoid_rewrite elem_of_cons.
    destruct (bool_decide (trim_space v = "")) eqn:E1; cbn [orb].
    { apply bool_decide_eq_true in E1. split; [intros [?|(? & v' & ? & ?)]; [by left|right; split; [done|exists v'; auto]]|].
      intros [?|(Hx & v' & [->|?] & <-)]; [by left|done|right; eauto]. }
    apply bool_decide_eq_false in E1. case_bool_decide as E2.
    + split; [intros [?|(? & v' & ? & ?)]; [by left|right; split; [done|exists v'; auto]]|].
      intros [?|(Hx & v' & [->|?] & <-)]; [by left|by left|right; eauto].
    + rewrite elem_of_app, list_elem_of_singleton. split.
      * intros [[?| ->]|(? & v' & ? & ?)]; [by left|right; eauto|right; split; [done|exists v'; auto]].
      * intros [?|(Hx & v' & [->|?] & <-)]; [by left; left|by left; right|right; eauto].
Qed.

Lemma add_unique_NoDup out l : NoDup out → NoDup (foldl add_unique out l).
Proof.
  revert out. induction l as [|v l IH]; intros out H; [done|]. cbn [foldl]. apply IH. unfold add_unique.
  destruct (bool_decide (trim_space v = "")); cbn [orb]; [done|]. case_bool_decide as E; [done|].
  apply NoDup_app. split; [done|]. split; [|apply NoDup_singleton].
  intros x Hx ->%list_elem_of_singleton. done.
Qed.

Lemma uniqueStrings_in x l : x ∈ uniqueStrings l ↔ x ≠ "" ∧ ∃ v, v ∈ l ∧ trim_space v = x.
Proof.
  unfold uniqueStrings. rewrite sort_strings_perm, add_unique_fold.
  split; [|by right]. intros [H|?]; [by apply elem_of_nil in H|done].
Qed.
Lemma uniqueStrings_NoDup l : NoDup (uniqueStrings l).
Proof. unfold uniqueStrings. rewrite sort_strings_perm. apply add_unique_NoDup, NoDup_nil_2. Qed.
Lemma uniqueStrings_sorted l : StronglySorted str_le (uniqueStrings l).
Proof. apply sort_strings_sorted. Qed.

(** What a strictly increasing list becomes by [dedup] with something not smaller. *)
Lemma dedup_spec out y :
  StronglySorted Z.lt out → (∀ x, x ∈ out → (x ≤ y)%Z) →
  StronglySorted Z.lt (dedup out y) ∧ ∀ x, x ∈ dedup out y ↔ x ∈ out ∨ x = y.
Proof.
  intros Ho Hle. unfold dedup. case_bool_decide as E.
  - apply last_Some in E as [pre ->]. split; [exact Ho|]. intros x. split; [by left|].
    intros [?| ->]; [done|]. apply elem_of_app. right. by left.
  - split; [|intros x; by rewrite elem_of_app, list_elem_of_singleton].
    apply StronglySorted_app_2; [|exact Ho|by repeat constructor].
    intros x z Hx ->%list_elem_of_singleton. specialize (Hle x Hx) as Hxy.
    destruct (decide (x = y)) as [->|]; [|lia]. exfalso.
    apply list_elem_of_split in Hx as (l1 & l2 & ->). destruct l2 as [|z l2 _] using rev_ind.
    + apply E. by rewrite last_snoc.
    + assert (y < z)%Z as Hlt.
      { eapply (StronglySorted_app_1_elem_of Z.lt (l1 ++ [y]) (l2 ++ [z])).
        - by rewrite <- app_assoc.
        - apply elem_of_app. right. by left.
        - apply elem_of_app. right. by left. }
      specialize (Hle z). rewrite elem_of_app, elem_of_cons, elem_of_app, list_elem_of_singleton in Hle.
      assert (z ≤ y)%Z by (apply Hle; auto). lia.
Qed.

Lemma dedup_fold out l :
  StronglySorted Z.lt out → StronglySorted Z.le l → (∀ x y, x ∈ out → y ∈ l → (x ≤ y)%Z) →
  StronglySorted Z.lt (foldl dedup out l) ∧ ∀ x, x ∈ foldl dedup out l ↔ x ∈ out ∨ x ∈ l.
Proof.
  revert out. induction l as [|y l IH]; intros out Ho Hl Hle.
  - cbn. split; [done|]. intros x. split; [by left|]. intros [?|?%elem_of_nil]; done.
  - apply StronglySorted_inv in Hl as [Hl Hy]. rewrite Forall_forall in Hy. cbn [foldl].
    destruct (dedup_spec out y) as [Hs Hd]; [done|intros x Hx; apply Hle; [done|left]|].
    destruct (IH (dedup out y) Hs Hl) as [S Hin].
    { intros x z [Hx| ->]%Hd Hz; [apply Hle; [done|by right]|]. by apply Hy. }
    split; [exact S|]. intros x. rewrite Hin, Hd, elem_of_cons. tauto.
Qed.

Lemma resolvePortList_in values shared x :
  x ∈ resolvePortList values shared ↔ x ∈ mjoin (port_values shared <$> values).
Proof.
  unfold resolvePortList. destruct (dedup_fold [] (sort_ints (mjoin (port_values shared <$> values)))) as [_ Hin].
  - constructor.
  - apply sort_ints_sorted.
  - intros ? ? ?%elem_of_nil. done.
  - rewrite Hin, sort_ints_perm. set_solver.
Qed.
Lemma resolvePortList_sorted values shared : StronglySorted Z.lt (resolvePortList values shared).
Proof.
  apply dedup_fold.
  - constructor.
  - apply sort_ints_sorted.
  - intros ? ? ?%elem_of_nil. done.
Qed.
Lemma port_values_range shared item x : x ∈ port_values shared item → (1 ≤ x ≤ 65535)%Z.
Proof.
  assert (∀ v, x ∈ port_value v → (1 ≤ x ≤ 65535)%Z) as Hv.
  { intros v. unfold port_value. destruct (atoi v) as [z|]; [|by intros ?%elem_of_nil].
    destruct (_ && _) eqn:E; [|by intros ?%elem_of_nil]. intros ->%list_elem_of_singleton. lia. }
  destruct item as [|b|n|f|s|l|o]; cbn [port_values]; try by intros ?%elem_of_nil.
  - apply Hv.
  - destruct (is_reference s); [|apply Hv]. intros (ps & Hin & Hx)%list_elem_of_join.
    apply list_elem_of_fmap in Hx as (v & -> & _). eapply Hv. exact Hin.
Qed.

(** ** Domains *)

(** Where the addresses of a domain come from: DNS now, or the last resolution when DNS
    fails. *)
Definition resolved `{PluginEnv} (previous : option PluginState) (domain : string) (st : DomainResolution) : Prop :=
  invalid_domain domain = false ∧ Domain st = domain ∧
  ((Stale st = false ∧ ∃ tick ips, lookup_ip tick domain = Ok ips ∧ ips ≠ [] ∧ Addresses st = uniqueStrings (ip_string <$> ips)) ∨
   (Stale st = true ∧ (∃ tick e, lookup_ip tick domain = Err e) ∧ ∃ p old, previous = Some p ∧
      DomainResolutions p !! domain = Some old ∧ Addresses old ≠ [] ∧ Addresses st = Addresses old ∧
      LastSuccessAt st = LastSuccessAt old ∧ FailureCount st = Int.wrap64 (FailureCount old + 1))).

(** Only the clock was read. *)
Definition clock_only (w w' : PluginWorld) : Prop :=
  p_runtime w' = p_runtime w ∧ nft_log w' = nft_log w ∧ killed w' = killed w.
#[export] Instance clock_only_refl : Reflexive clock_only.
Proof. by intros w. Qed.
#[export] Instance clock_only_trans : Transitive clock_only.
Proof. intros w1 w2 w3 (? & ? & ?) (? & ? & ?). unfold clock_only. split_and!; congruence. Qed.

Section compile.
Context {EnvP : PluginEnv} {JsonI : Activation.Json} {DigestI : SingBoxConfig.Digest}.

Lemma resolve_domain_spec previous domain w w' r :
  resolve_domain previous domain w = (w', r) →
  clock_only w w' ∧ match r with Ok st => resolved previous domain st | Err _ => True end.
Proof.
  unfold resolve_domain. destruct (invalid_domain domain) eqn:Hv; [by intros [= <- <-]|]. intros E.
  step E w1 tick Ht. injection Ht as <- <-. step E w2 at_ Ha. injection Ha as <- <-.
  cbn beta iota in E. destruct (lookup_ip (ticks w) domain) as [ips|e] eqn:Hl.
  - destruct ips as [|a ips]; injection E as <- <-; [done|]. split; [done|]. split; [done|]. split; [done|]. left.
    split; [done|]. by exists (ticks w), (a :: ips).
  - destruct (p ← previous; DomainResolutions p !! domain) as [old|] eqn:Ho; [|injection E as <- <-; done].
    case_bool_decide as Ha; injection E as <- <-; [done|]. split; [done|]. split; [done|]. split; [done|]. right.
    split; [done|]. apply bind_Some in Ho as (p & -> & Ho). eauto 12.
Qed.

Lemma resolve_all_spec previous domains acc w w' r :
  proc_fold (λ (acc : list string * gmap string DomainResolution) domain,
     status ← resolve_domain previous domain; mret (acc.1 ++ Addresses status, <[domain := status]> acc.2)) acc domains w = (w', r) →
  clock_only w w' ∧
  match r with
  | Ok out => NoDup domains → (∀ d, d ∈ domains → acc.2 !! d = None) →
      (∀ d, d ∉ domains → out.2 !! d = acc.2 !! d) ∧
      (∀ d, d ∈ domains → ∃ st, out.2 !! d = Some st ∧ resolved previous d st) ∧
      (∀ a, a ∈ out.1 ↔ a ∈ acc.1 ∨ ∃ d st, d ∈ domains ∧ out.2 !! d = Some st ∧ a ∈ Addresses st)
  | Err _ => True
  end.
Proof.
  revert acc w. induction domains as [|d0 rest IH]; intros acc w E.
  - injection E as <- <-. split; [done|]. intros _ _. split; [done|]. split; [by intros d ?%elem_of_nil|].
    intros a. split; [by left|]. intros [?|(d & st & ?%elem_of_nil & _)]; done.
  - cbn [proc_fold] in E. step E w1 b H1. step H1 w2 st H2. apply resolve_domain_spec in H2 as [C2 R2].
    destruct st as [st|e]; [|destruct H1 as [-> ->]; destruct E as [-> ->]; done].
    injection H1 as <- <-. apply IH in E as [C E]. split; [by transitivity w2|]. destruct r as [out|e]; [|done].
    intros [Hd0 Hnd]%NoDup_cons Hacc. cbn [fst snd] in E. destruct E as (E1 & E2 & E3); [done| |].
    { intros d Hd. rewrite lookup_insert_ne by (intros ->; done). apply Hacc. by right. }
    assert (out.2 !! d0 = Some st) as H0 by (rewrite E1 by done; apply lookup_insert_eq).
    setoid_rewrite elem_of_cons. split_and!.
    + intros d Hd. rewrite E1 by tauto. apply lookup_insert_ne. intros ->. tauto.
    + intros d [->|Hd]; [eauto|by apply E2].
    + intros a. rewrite E3, elem_of_app. split.
      * intros [[?|?]|(d & st' & ? & ? & ?)]; [by left|right; eauto 8|right; eauto 8].
      * intros [?|(d & st' & [->|?] & Hst & ?)]; [auto| |right; eauto 8]. rewrite H0 in Hst. injection Hst as <-. auto.
Qed.

(** The addresses in force after [resolveEgressDomains]. *)
Definition egress_resolved (previous : option PluginState) (p : PluginState) : Prop :=
  (∀ d, d ∈ EgressBlockedDomains p → ∃ st, DomainResolutions p !! d = Some st ∧ resolved previous d st) ∧
  StronglySorted str_le (EgressBlockedIPs p) ∧ NoDup (EgressBlockedIPs p) ∧
  (∀ v, v ∈ EgressBlockedIPs p ↔ v ≠ "" ∧ ∃ a, trim_space a = v ∧
     (a ∈ EgressBlockedBaseIPs p ∨ ∃ d st, d ∈ EgressBlockedDomains p ∧ DomainResolutions p !! d = Some st ∧ a ∈ Addresses st)).

Lemma resolveEgressDomains_spec target previous w w' r :
  resolveEgressDomains target previous w = (w', r) →
  clock_only w w' ∧
  match r with
  | Ok p => p = with_resolutions (DomainResolutions p) (EgressBlockedIPs p) target ∧
            (NoDup (EgressBlockedDomains target) → egress_resolved previous p)
  | Err _ => True
  end.
Proof.
  intros E. unfold resolveEgressDomains in E. step E w1 acc H1. apply resolve_all_spec in H1 as [C H1].
  destruct acc as [acc|e]; [|destruct E as [-> ->]; done]. injection E as <- <-. split; [done|]. split; [done|].
  intros Hnd. destruct (H1 Hnd) as (_ & H2 & H3); [by intros; apply lookup_empty|]. split; [exact H2|].
  split; [apply uniqueStrings_sorted|]. split; [apply uniqueStrings_NoDup|].
  intros v. cbn [EgressBlockedIPs with_resolutions]. rewrite uniqueStrings_in. setoid_rewrite H3. cbn. split.
  - intros (Hv & a & Ha & <-). eauto.
  - intros (Hv & a & <- & Ha). eauto.
Qed.

Lemma check_reference_ok shared expected item :
  check_reference shared expected item = Ok tt ↔
  ∀ v, item = AStr v → is_reference v = true → ∃ l, shared !! v = Some l ∧ Type_ l = expected.
Proof.
  unfold check_reference. destruct item as [|b|n|f|s|l|o]; try (split; [intros _ v [=]|done]).
  destruct (is_reference s) eqn:Hr.
  - destruct (shared !! s) as [l|] eqn:Hl.
    + rewrite fail_if_ok, negb_false_iff, bool_decide_eq_true. split; [intros <- v [= <-] _; eauto|].
      intros H. destruct (H s eq_refl Hr) as (l' & Hl' & <-). congruence.
    + split; [done|]. intros H. destruct (H s eq_refl Hr) as (l' & Hl' & _). congruence.
  - split; [intros _ v [= <-]; congruence|done].
Qed.
End compile.

(** ** What a plugin configuration lists

    Read off the configuration, without the functions that compile it. *)

Definition section_of (cfg : object) (key : string) : object :=
  match cfg !! key with Some (AObj o) => o | _ => ∅ end.
Definition switched_on (o : object) : Prop :=
  o !! "enabled" = Some (ABool true) ∨ o !! "enabled" = Some (AStr "true").
Definition entry (o : object) (key : string) (item : any) : Prop :=
  ∃ l, o !! key = Some (AArr l) ∧ item ∈ l.
Definition text (o : object) (key value : string) : Prop := o !! key = Some (AStr value) ∧ value ≠ "".

(** The value of a list refers to a shared list. *)
Definition refers (value : string) : Prop := ∃ rest, value = "ext:" +:+ rest.

(** [o] defines the shared list [name] of type [ty], and no later object does. *)
Definition defines (name ty : string) (o : object) : Prop := text o "name" name ∧ text o "type" ty.
Definition shared_list (cfg : object) (name ty : string) (o : object) : Prop :=
  ∃ pre post, cfg !! "sharedLists" = Some (AArr (pre ++ AObj o :: post)) ∧ defines name ty o ∧
    ∀ o' ty', AObj o' ∈ post → ¬ defines name ty' o'.

(** A text, or a number without a fraction. *)
Definition item_text (item : any) (s : string) : Prop :=
  item = AStr s ∨ ∃ n, item = AFloat (float_of_int n) ∧ int_of_float (float_of_int n) = n ∧ s = pretty n.

(** The texts under a key, those of shared lists in place of the references. *)
Definition listed (cfg o : object) (key s : string) : Prop :=
  ∃ value, entry o key (AStr value) ∧
    (¬ refers value ∧ s = value ∨
     refers value ∧ ∃ ty l item, shared_list cfg value ty l ∧ entry l "items" item ∧ item_text item s).

(** A port is listed by such a text, or by a number, cut to an integer. *)
Definition listed_port (cfg o : object) (key : string) (port : Z) : Prop :=
  (1 ≤ port ≤ 65535)%Z ∧
  ((∃ s, listed cfg o key s ∧ atoi s = Some port) ∨ ∃ f, entry o key (AFloat f) ∧ int_of_float f = port).

(** ** Reading the configuration *)

Lemma defines_iff name o :
  (∃ ty, defines name ty o) ↔ name ≠ "" ∧ stringValue (field o "name") = name ∧ stringValue (field o "type") ≠ "".
Proof.
  unfold defines, text, field. split.
  - intros (ty & (-> & Hn) & -> & Ht). by cbn.
  - intros (Hn & H1 & H2). exists (stringValue (default ANil (o !! "type"))).
    destruct (o !! "name") as [[]|]; cbn in H1; try congruence.
    destruct (o !! "type") as [[]|]; cbn in H2 |- *; try done. by subst.
Qed.

Definition list_of (o : object) : pluginSharedList :=
  {| Type_ := stringValue (field o "type"); Items := omap list_item (asAnySlice (field o "items")) |}.

Lemma read_list_lookup out o name :
  ((∃ ty, defines name ty o) ∧ read_list out o !! name = Some (list_of o)) ∨
  (¬ (∃ ty, defines name ty o)) ∧ read_list out o !! name = out !! name.
Proof.
  rewrite defines_iff. unfold read_list. cbn zeta. fold (list_of o).
  destruct (bool_decide_reflect (stringValue (field o "name") = "")) as [E1|E1]; cbn [orb].
  { right. split; [|done]. intros (Hn & <- & _). done. }
  destruct (bool_decide_reflect (stringValue (field o "type") = "")) as [E2|E2]; cbn [orb].
  { right. split; [|done]. by intros (_ & _ & ?). }
  destruct (decide (stringValue (field o "name") = name)) as [<-|Hne].
  - left. split; [done|]. apply lookup_insert_eq.
  - right. split; [by intros (_ & ? & _)|]. by apply lookup_insert_ne.
Qed.

Definition objects_of (l : list any) : list object := omap (λ x, match x with AObj m => Some m | _ => None end) l.

Lemma objects_app l1 l2 : objects_of (l1 ++ l2) = objects_of l1 ++ objects_of l2.
Proof. apply omap_app. Qed.

Definition last_defines (name : string) (l : list any) (o : object) : Prop :=
  ∃ pre post, l = pre ++ AObj o :: post ∧ (∃ ty, defines name ty o) ∧ ∀ o' ty', AObj o' ∈ post → ¬ defines name ty' o'.

Lemma last_defines_snoc name l x o :
  last_defines name (l ++ [x]) o ↔
  (x = AObj o ∧ ∃ ty, defines name ty o) ∨
  (∀ o' ty', x = AObj o' → ¬ defines name ty' o') ∧ last_defines name l o.
Proof.
  split.
  - intros (pre & post & E & Hd & Hn). destruct post as [|y post _] using rev_ind.
    + apply app_inj_tail in E as [_ ->]. by left.
    + rewrite app_comm_cons, app_assoc in E. apply app_inj_tail in E as [-> ->]. right. split.
      * intros o' ty' ->. apply Hn, elem_of_app. right. by left.
      * exists pre, post. split; [done|]. split; [done|]. intros o' ty' Ho'. apply Hn, elem_of_app. by left.
  - intros [[-> Hd]|[Hx (pre & post & -> & Hd & Hn)]].
    + exists l, []. split; [done|]. split; [done|]. by intros ? ? ?%elem_of_nil.
    + exists pre, (post ++ [x]). rewrite <- app_assoc. split; [done|]. split; [done|].
      intros o' ty' [Ho'|Ho'%list_elem_of_singleton]%elem_of_app; [by apply Hn|]. by apply Hx.
Qed.

Lemma shared_fold name l x :
  foldl read_list ∅ (objects_of l) !! name = Some x ↔ ∃ o, last_defines name l o ∧ x = list_of o.
Proof.
  revert x. induction l as [|y l IH] using rev_ind; intros x.
  { cbn [objects_of omap list_omap foldl]. rewrite lookup_empty. split; [done|]. intros (o & (pre & post & E & _) & _). by destruct pre. }
  rewrite objects_app, foldl_app. setoid_rewrite last_defines_snoc.
  destruct y as [| | | | | |o1]; cbn; rewrite ?IH; try naive_solver.
  destruct (read_list_lookup (foldl read_list ∅ (objects_of l)) o1 name) as [[Hd ->]|[Hd ->]].
  - split.
    + intros [= <-]. exists o1. split; [by left|done].
    + intros (o & [[[= <-] _]|[Hn _]] & ->); [done|]. destruct Hd as [ty Hd]. by destruct (Hn o1 ty).
  - rewrite IH. split.
    + intros (o & Ho & ->). exists o. split; [|done]. right. split; [|done]. intros o' ty' [= <-] Hd'. by destruct Hd; exists ty'.
    + intros (o & [[[= <-] ?]|[_ Ho]] & ->); [done|]. eauto.
Qed.

Lemma shared_lookup cfg name x :
  readSharedLists cfg !! name = Some x ↔ ∃ ty o, shared_list cfg name ty o ∧ x = list_of o.
Proof.
  unfold readSharedLists, shared_list, asMapSlice, field.
  destruct (cfg !! "sharedLists") as [[| | | | |l|]|]; cbn [default from_option id];
    try (cbn [foldl]; rewrite lookup_empty; naive_solver).
  fold (objects_of l). rewrite shared_fold. unfold last_defines. naive_solver.
Qed.

Lemma entry_iff o key item : entry o key item ↔ item ∈ asAnySlice (field o key).
Proof.
  unfold entry, asAnySlice, field. destruct (o !! key) as [[| | | | |l|]|]; cbn; split; intros H;
    try (by apply elem_of_nil in H); try (by destruct H as (l' & [=] & _)); [by destruct H as (? & [= <-] & ?)|eauto].
Qed.

Lemma text_entry o key s : s ∈ stringSlice (field o key) ↔ entry o key (AStr s).
Proof.
  rewrite entry_iff. unfold stringSlice, asAnySlice. destruct (field o key) as [| | | | |l|]; try (split; by intros ?%elem_of_nil).
  rewrite list_elem_of_omap. split; [intros (x & Hx & E); destruct x; try done; by injection E as ->|eauto].
Qed.

Lemma item_text_iff item s : list_item item = Some s ↔ item_text item s.
Proof.
  unfold list_item, item_text, is_integral, itoa. split.
  - destruct item as [|b|n|f|s'|l|o]; try done; [|intros [= ->]; by left].
    case_bool_decide as E; [|done]. intros [= <-]. right. exists (int_of_float f). rewrite <- E. done.
  - intros [->|(n & -> & Hn & ->)]; [done|]. rewrite Hn. by rewrite bool_decide_eq_true_2.
Qed.

Lemma refers_iff value : is_reference value = true ↔ refers value.
Proof.
  unfold is_reference, refers, has_prefix. destruct (strip_prefix "ext:" value) as [rest|] eqn:E.
  - apply strip_prefix_spec in E. split; [eauto|done].
  - split; [done|]. intros [rest ->]. by rewrite strip_prefix_app in E.
Qed.

Lemma shared_items_iff cfg value s :
  s ∈ shared_items (readSharedLists cfg) value ↔
  ∃ ty l item, shared_list cfg value ty l ∧ entry l "items" item ∧ item_text item s.
Proof.
  unfold shared_items. split.
  - destruct (readSharedLists cfg !! value) as [x|] eqn:E; [|by intros ?%elem_of_nil].
    apply shared_lookup in E as (ty & l & Hl & ->). cbn. intros (item & Hi & Ht)%list_elem_of_omap.
    exists ty, l, item. by rewrite entry_iff, <- item_text_iff.
  - intros (ty & l & item & Hl & Hi & Ht). assert (readSharedLists cfg !! value = Some (list_of l)) as -> by (apply shared_lookup; eauto).
    cbn. apply list_elem_of_omap. exists item. by rewrite entry_iff, <- item_text_iff in *.
Qed.

Lemma listed_iff cfg o key s :
  s ∈ resolveIPList (stringSlice (field o key)) (readSharedLists cfg) ↔ listed cfg o key s.
Proof.
  unfold resolveIPList, listed. rewrite list_elem_of_join. setoid_rewrite list_elem_of_fmap. split.
  - intros (l & Hs & v & -> & Hv%text_entry). exists v. split; [done|]. destruct (is_reference v) eqn:E.
    + right. rewrite <- refers_iff, <- shared_items_iff. done.
    + left. apply list_elem_of_singleton in Hs as ->. split; [|done]. rewrite <- refers_iff. by rewrite E.
  - intros (v & Hv%text_entry & Hc). eexists. split; [|by exists v]. destruct (is_reference v) eqn:E.
    + destruct Hc as [[Hn _]|[_ Hs]]; [by rewrite <- refers_iff, E in Hn|]. by apply shared_items_iff.
    + destruct Hc as [[_ ->]|[Hn _]]; [by left|]. by rewrite <- refers_iff, E in Hn.
Qed.

Lemma port_value_iff s port : port ∈ port_value s ↔ atoi s = Some port ∧ (1 ≤ port ≤ 65535)%Z.
Proof.
  unfold port_value. destruct (atoi s) as [z|]; [|split; [by intros ?%elem_of_nil|by intros [? _]]].
  destruct (_ && _) eqn:E.
  - rewrite list_elem_of_singleton. split; [intros ->; split; [done|lia]|by intros [[= ->] _]].
  - split; [by intros ?%elem_of_nil|]. intros [[= ->] ?]. lia.
Qed.

Lemma int_of_float_range f : (- 2 ^ 63 ≤ int_of_float f < 2 ^ 63)%Z.
Proof. unfold int_of_float. cbn zeta. destruct (_ && _) eqn:E; lia. Qed.

Lemma listed_port_iff cfg o key port :
  port ∈ resolvePortList (asAnySlice (field o key)) (readSharedLists cfg) ↔ listed_port cfg o key port.
Proof.
  rewrite resolvePortList_in, list_elem_of_join. setoid_rewrite list_elem_of_fmap. unfold listed_port. split.
  - intros (ps & Hp & item & -> & Hi%entry_iff). split; [by eapply port_values_range|].
    destruct item as [|b|n|f|s|l|m]; cbn [port_values] in Hp; try by apply elem_of_nil in Hp.
    + right. exists f. split; [done|]. apply port_value_iff in Hp as [Hp _].
      rewrite atoi_itoa in Hp by apply int_of_float_range. congruence.
    + left. destruct (is_reference s) eqn:E.
      * apply list_elem_of_join in Hp as (vs & Hp & Hvs). apply list_elem_of_fmap in Hvs as (v & -> & Hv).
        apply port_value_iff in Hp as [Hp _]. exists v. split; [|done]. exists s. split; [done|]. right.
        rewrite <- refers_iff, <- shared_items_iff. done.
      * apply port_value_iff in Hp as [Hp _]. exists s. split; [|done]. exists s. split; [done|]. left.
        rewrite <- refers_iff. by rewrite E.
  - intros (Hr & [(s & (v & Hv & Hs) & Ha)|(f & Hf & Hp)]).
    + apply entry_iff in Hv. eexists. split; [|by exists (AStr v)]. cbn [port_values].
      assert (port ∈ port_value s) as Hp by by apply port_value_iff. destruct (is_reference v) eqn:E.
      * destruct Hs as [[Hn _]|[_ Hs]]; [by rewrite <- refers_iff, E in Hn|]. apply shared_items_iff in Hs.
        apply list_elem_of_join. exists (port_value s). split; [done|]. apply list_elem_of_fmap. eauto.
      * destruct Hs as [[_ ->]|[Hn _]]; [done|]. by rewrite <- refers_iff, E in Hn.
    + apply entry_iff in Hf. exists (port_values (readSharedLists cfg) (AFloat f)). split; [|by exists (AFloat f)].
      cbn [port_values]. apply port_value_iff. rewrite atoi_itoa by apply int_of_float_range. by rewrite Hp.
Qed.

Lemma enabled_iff o : boolValue (field o "enabled") = true ↔ switched_on o.
Proof.
  unfold switched_on, field. destruct (o !! "enabled") as [[|b| | |s| |]|]; cbn; try naive_solver.
  rewrite bool_decide_eq_true. naive_solver.
Qed.

Lemma section_iff cfg key : ensureConfigMap (field cfg key) = section_of cfg key.
Proof. unfold section_of, field. by destruct (cfg !! key) as [[]|]. Qed.

(** ** Handlers *)

Section handlers.
Context {EnvP : PluginEnv} {k0 : kernel} {Law : NftLaw k0} {JsonI : Activation.Json} {DigestI : SingBoxConfig.Digest}.

Abbreviation kern := (λ w : PluginWorld, kernel_of k0 (nft_log w)).

Lemma compile_quiet req previous w w' r : compilePluginState req previous w = (w', r) → clock_only w w'.
Proof.
  intros E. unfold compilePluginState in E. step E w1 at_ H1. injection H1 as <- <-.
  destruct (req_Plugin req) as [plugin|]; [|by injection E as <- <-].
  step E w2 u H2. injection H2 as <- <-. destruct (validateSharedListReferences _ _) as [[]|e]; [|by destruct E as [-> ->]].
  apply resolveEgressDomains_spec in E as [C _]. exact C.
Qed.

Lemma reject_spec {A} current e w w' (r : result A) :
  reject current e w = (w', r) →
  r = Err e ∧ nft_log w' = nft_log w ∧
  ∃ at_, p_runtime w' = SetPluginState (with_times (AppliedAt current) (Some at_) (error_text e) current) (p_runtime w).
Proof. intros [= <- <-]. cbn. eauto. Qed.

Lemma deleted_same w w' : nft_log w' = nft_log w → deleted (k0 := k0) w → deleted (k0 := k0) w'.
Proof. unfold deleted. by intros ->. Qed.



Lemma configure_ingress p cfg :
  let q := configureIngressFilter p cfg (readSharedLists cfg) in
  q = with_ingress (IngressBlocked q) p ∧
  (IngressBlocked p = [] → ∀ a, a ∈ IngressBlocked q ↔
     switched_on (section_of cfg "ingressFilter") ∧ listed cfg (section_of cfg "ingressFilter") "blockedIps" a).
Proof.
  unfold configureIngressFilter, ingress_of. rewrite section_iff. cbn zeta.
  pose proof (enabled_iff (section_of cfg "ingressFilter")) as Hon. destruct (boolValue _).
  - split; [by destruct p|]. intros _ a. cbn [IngressBlocked with_ingress]. rewrite listed_iff. tauto.
  - split; [by destruct p|]. intros -> a. split; [by intros ?%elem_of_nil|]. intros [?%Hon _]. done.
Qed.

Lemma configure_egress p cfg :
  EgressBlockedBaseIPs p = [] → EgressBlockedDomains p = [] → EgressBlockedPorts p = [] →
  let q := configureEgressFilter p cfg (readSharedLists cfg) in let egress := section_of cfg "egressFilter" in
  q = with_egress (EgressBlockedBaseIPs q) (EgressBlockedIPs q) (EgressBlockedDomains q) (EgressBlockedPorts q) p ∧
  (∀ a, a ∈ EgressBlockedBaseIPs q ↔ switched_on egress ∧ listed cfg egress "blockedIps" a) ∧
  (StronglySorted str_le (EgressBlockedDomains q) ∧ NoDup (EgressBlockedDomains q) ∧
   ∀ d, d ∈ EgressBlockedDomains q ↔
     switched_on egress ∧ d ≠ "" ∧ ∃ s, listed cfg egress "blockedDomains" s ∧ trim_space s = d) ∧
  (StronglySorted Z.lt (EgressBlockedPorts q) ∧
   ∀ port, port ∈ EgressBlockedPorts q ↔ switched_on egress ∧ listed_port cfg egress "blockedPorts" port).
Proof.
  intros Hb Hd Hp. unfold configureEgressFilter, egress_of. rewrite section_iff. cbn zeta.
  pose proof (enabled_iff (section_of cfg "egressFilter")) as Hon. destruct (boolValue _).
  - cbn [EgressBlockedBaseIPs EgressBlockedDomains EgressBlockedPorts with_egress]. split; [by destruct p|].
    split; [intros a; rewrite listed_iff; tauto|]. split; [split; [apply uniqueStrings_sorted|split; [apply uniqueStrings_NoDup|]]|].
    + intros d. unfold resolveStringList. rewrite uniqueStrings_in. setoid_rewrite listed_iff. tauto.
    + split; [apply resolvePortList_sorted|]. intros port. rewrite listed_port_iff. tauto.
  - assert (¬ switched_on (section_of cfg "egressFilter")) as Hoff by (intros ?%Hon; done).
    split; [by destruct p|]. rewrite Hb, Hd, Hp. split; [intros a; split; [by intros ?%elem_of_nil|by intros [? _]]|].
    split; [|split; [constructor|intros port; split; [by intros ?%elem_of_nil|by intros [? _]]]].
    split; [constructor|]. split; [constructor|]. intros d; split; [by intros ?%elem_of_nil|by intros [? _]].
Qed.

(** C25: what a plugin compiles to, in terms of the entries of its configuration.  The hash
    is the one of the request, or of the configuration when the request has none, and the
    plugin is the named one, not yet applied.  Every reference names a shared list of the
    right type, the last one of its name.  The blocked addresses of each direction are
    exactly those listed under [blockedIps] of its filter, the domains exactly the texts
    under [blockedDomains], trimmed, sorted and without repetition, and the ports exactly
    those listed under [blockedPorts] between 1 and 65535, increasing; nothing is blocked
    by a filter that is not switched on.  The addresses in force for egress are the listed
    ones and those of the domains, each with the addresses DNS gave, or when DNS failed
    those of its last resolution.  Compiling asks nothing of [nft]. *)
Theorem compile_sound req plugin previous w w' p :
  req_Plugin req = Some plugin → compilePluginState req previous w = (w', Ok p) →
  let cfg := config plugin in
  let ingress := section_of cfg "ingressFilter" in let egress := section_of cfg "egressFilter" in
  clock_only w w' ∧
  (ConfigHash_ p = (if decide (req_ConfigHash req = "") then ConfigHash cfg else req_ConfigHash req) ∧
   ActivePlugin p = Some {| UUID := uuid plugin; Name := name plugin |} ∧ AppliedAt p = None ∧ LastError p = "") ∧
  (∀ o key ty v, (o, key, ty) ∈ [(ingress, "blockedIps", "ipList"); (egress, "blockedIps", "ipList");
                                (egress, "blockedDomains", "domainList"); (egress, "blockedPorts", "portList")] →
     entry o key (AStr v) → refers v → ∃ l, shared_list cfg v ty l) ∧
  (∀ a, a ∈ IngressBlocked p ↔ switched_on ingress ∧ listed cfg ingress "blockedIps" a) ∧
  (∀ a, a ∈ EgressBlockedBaseIPs p ↔ switched_on egress ∧ listed cfg egress "blockedIps" a) ∧
  (StronglySorted str_le (EgressBlockedDomains p) ∧ NoDup (EgressBlockedDomains p) ∧
   ∀ d, d ∈ EgressBlockedDomains p ↔
     switched_on egress ∧ d ≠ "" ∧ ∃ s, listed cfg egress "blockedDomains" s ∧ trim_space s = d) ∧
  (StronglySorted Z.lt (EgressBlockedPorts p) ∧
   ∀ port, port ∈ EgressBlockedPorts p ↔ switched_on egress ∧ listed_port cfg egress "blockedPorts" port) ∧
  egress_resolved previous p.
Proof.
  intros Hp E cfg ingress egress. pose proof (compile_quiet _ _ _ _ _ E) as C. split; [exact C|].
  unfold compilePluginState in E. proc_as E w1 at_ H1. rewrite Hp in E. proc_as E w2 u H2. injection H2 as <- Hv.
  apply resolveEgressDomains_spec in E as (_ & Hres & Hdom). fold cfg in Hres, Hdom, Hv.
  set (next := with_plugin _ _ _) in Hres, Hdom.
  destruct (configure_ingress next cfg) as [Hi Hin]. specialize (Hin eq_refl).
  set (mid := configureIngressFilter next cfg (readSharedLists cfg)) in *.
  assert (EgressBlockedBaseIPs mid = [] ∧ EgressBlockedDomains mid = [] ∧ EgressBlockedPorts mid = []) as (M1 & M2 & M3)
    by (by rewrite Hi).
  destruct (configure_egress mid cfg M1 M2 M3) as (Ht & Hbase & (Hds & Hdn & Hdomains) & Hports).
  set (target := configureEgressFilter mid cfg (readSharedLists cfg)) in *. specialize (Hdom Hdn).
  assert (p = with_resolutions (DomainResolutions p) (EgressBlockedIPs p) (with_egress (EgressBlockedBaseIPs target)
    (EgressBlockedIPs target) (EgressBlockedDomains target) (EgressBlockedPorts target) (with_ingress (IngressBlocked mid) next)))
    as Hshape by (rewrite <- Hi, <- Ht; exact Hres).
  split; [|split].
  - rewrite Hshape. split_and!; try done. cbn. by destruct (decide _) as [->|Hne]; [|rewrite bool_decide_eq_false_2].
  - intros o key ty v Hin' Hitem Href. destruct u. pose proof (proj2 (refers_iff v) Href) as Href'.
    assert ((asAnySlice (field o key), ty) ∈ reference_fields cfg) as Hf.
    { unfold reference_fields, ingress_of, egress_of. rewrite !section_iff. fold ingress egress. apply entry_iff in Hitem.
      rewrite !elem_of_cons. rewrite !elem_of_cons in Hin'. destruct Hin' as [[= -> -> ->]|[[= -> -> ->]|[[= -> -> ->]|[[= -> -> ->]|[]%elem_of_nil]]]]; auto. }
    pose proof (UsersSpec.validate_all_ok _ _ Hv _ Hf) as Hf'. cbn [fst snd] in Hf'. apply entry_iff in Hitem.
    destruct (proj1 (check_reference_ok _ _ _) (UsersSpec.validate_all_ok _ _ Hf' _ Hitem) v eq_refl Href') as (x & Hx & Hty).
    apply shared_lookup in Hx as (ty' & l & Hl & ->). exists l. assert (ty' = ty) as <-; [|done].
    destruct Hl as (_ & _ & _ & (_ & Ht' & _) & _). cbn in Hty. unfold field in Hty. by rewrite Ht' in Hty.
  - rewrite Hshape. split; [exact Hin|]. split; [exact Hbase|]. split; [by split|]. split; [exact Hports|].
    rewrite <- Hshape. by apply Hdom.
Qed.
End handlers.

(** ** The theorems at work *)

Module PluginDemo.
Import ActivationSpec.ActivationDemo.

(** [nft] refuses to delete a table that is not there, and accepts the rest. *)
#[export] Instance plugin_env : PluginEnv := {|
  nftReady := true; has_ss := true;
  nft_reply := λ log c, match c with
    | DeleteTable => if bool_decide (kernel_of None log = None) then Some ("Error: No such file or directory", ErrMsg "exit status 1") else None
    | _ => None
    end;
  lookup_ip := λ _ domain, if bool_decide (domain = "bad.example") then Err (ErrMsg "no such host") else Ok [of_v4 3405803777%Z];
  clock_at := λ n, Z.of_nat n |}.

#[export] Instance plugin_law : NftLaw None.
Proof.
  intros log c output e E _ Hp. destruct c; try discriminate E. cbn in E.
  case_bool_decide as Hk; [|discriminate E]. rewrite Hk in Hp. by destruct Hp.
Qed.

Definition plugin_object (domain : string) : object :=
  {["sharedLists" := AArr [AObj {["name" := AStr "ext:office"; "type" := AStr "ipList"; "items" := AArr [AStr "198.51.100.7"]]}];
    "ingressFilter" := AObj {["enabled" := ABool true; "blockedIps" := AArr [AStr "ext:office"; AStr " 2001:db8::/33 "]]};
    "egressFilter" := AObj {["enabled" := ABool true; "blockedIps" := AArr [AStr "192.0.2.0/24"];
                              "blockedDomains" := AArr [AStr domain];
                              "blockedPorts" := AArr [AStr "25"; AStr "70000"; AStr "22"; AStr "25"]]}]}.
Definition request (domain : string) : PluginSyncRequest :=
  {| req_ConfigHash := "h"; req_Plugin := Some {| config := plugin_object domain; uuid := "u"; name := "n" |} |}.

Definition w0 : PluginWorld := {| p_runtime := New "1"; nft_log := []; killed := []; ticks := 0 |}.
Definition blocked : PluginWorld := (BlockIPs [{| Users.bi_IP := "203.0.113.9"; Users.bi_Timeout := 60 |}] (SyncPlugin (request "good.example") w0).1).1.
Definition synced : PluginWorld := (SyncPlugin (request "good.example") blocked).1.
Definition refused : PluginWorld := (SyncPlugin (request "bad.example") synced).1.

Lemma plugin_synced_ok : SyncPlugin (request "good.example") blocked = (synced, Ok "h").
Proof. unfold synced. vm_compute. reflexivity. Qed.
Lemma refused_err : SyncPlugin (request "bad.example") synced = (refused, Err (ErrWrap "resolve egress domain bad.example" (ErrMsg "no such host"))).
Proof. unfold refused. vm_compute. reflexivity. Qed.

(** A block of an address, in the table and in the state before a synchronisation, is in
    the state only after it. *)
Lemma sync_forgets_blocks :
  (∃ t, kernel_of None (nft_log blocked) = Some t ∧ sets t !! "temporary-blocked-ip" = Some {["203.0.113.9"]}) ∧
  (∃ t, kernel_of None (nft_log synced) = Some t ∧ sets t !! "temporary-blocked-ip" = Some ∅) ∧
  is_Some (BlockedIPs (p_runtime synced) !! "203.0.113.9").
Proof. split; [|split]; eexists; [split|split|]; vm_compute; reflexivity. Qed.

(** The same host, but [nft] will not delete the table once it is there. *)
Definition busy_env : PluginEnv := {|
  nftReady := true; has_ss := true;
  nft_reply := λ log c, match c with
    | DeleteTable => if bool_decide (kernel_of None log = None) then Some ("Error: No such file or directory", ErrMsg "exit status 1")
                     else Some ("Error: Device or resource busy", ErrMsg "exit status 1")
    | _ => None
    end;
  lookup_ip := @lookup_ip plugin_env; clock_at := @clock_at plugin_env |}.

Lemma busy_law : NftLaw (EnvP := busy_env) None.
Proof.
  intros log c output e E Hs Hp. destruct c; try discriminate E. cbn in E.
  case_bool_decide as Hk; [|by injection E as <- _]. rewrite Hk in Hp. by destruct Hp.
Qed.

(** The same host, but [nft] refuses to add a table the second time. *)
Definition denied_env : PluginEnv := {|
  nftReady := true; has_ss := true;
  nft_reply := λ log c, match c with
    | AddTable => if existsb (λ x : nft_cmd * bool, bool_decide (args x.1 = args AddTable)) log
                  then Some ("Error: Operation not permitted", ErrMsg "exit status 1") else None
    | _ => @nft_reply plugin_env log c
    end;
  lookup_ip := @lookup_ip plugin_env; clock_at := @clock_at plugin_env |}.

Lemma denied_law : NftLaw (EnvP := denied_env) None.
Proof.
  intros log c output e E Hs Hp. destruct c; try discriminate E.
  - by apply (nft_missing (EnvP := plugin_env) (k0 := None) log DeleteTable output e).
  - cbn in E. destruct (existsb _ log); [|discriminate E]. by injection E as <- _.
Qed.

Definition removal : PluginSyncRequest := {| req_ConfigHash := ""; req_Plugin := None |}.
Definition busy_synced : PluginWorld := (SyncPlugin (EnvP := busy_env) (request "good.example") w0).1.
Definition busy_removed : PluginWorld := (SyncPlugin (EnvP := busy_env) removal busy_synced).1.
Definition denied_synced : PluginWorld := (SyncPlugin (EnvP := denied_env) (request "good.example") w0).1.
Definition denied_removed : PluginWorld := (SyncPlugin (EnvP := denied_env) removal denied_synced).1.

Definition set_of (name : string) (w : PluginWorld) : option (gset string) :=
  t ← kernel_of None (nft_log w); sets t !! name.

(** An accepted removal leaves the old filters in force. *)
Example removal_keeps_filters :
  (SyncPlugin (EnvP := busy_env) removal busy_synced).2 = Ok "" ∧
  set_of "egress-filter-ip" busy_removed = Some {["192.0.2.0/24"; "203.0.113.1"]} ∧
  EgressBlockedIPs (PluginState_ (p_runtime busy_removed)) = [].
Proof. split_and!; vm_compute; reflexivity. Qed.

(** A rejected removal forgets the plugin, and the table is gone. *)
Example removal_forgets :
  is_ok (SyncPlugin (EnvP := denied_env) removal denied_synced).2 = false ∧
  EgressBlockedIPs (PluginState_ (p_runtime denied_synced)) = ["192.0.2.0/24"; "203.0.113.1"] ∧
  EgressBlockedIPs (PluginState_ (p_runtime denied_removed)) = [] ∧ kernel_of None (nft_log denied_removed) = None.
Proof. split_and!; vm_compute; reflexivity. Qed.



Definition compiled := compilePluginState (request "good.example") None w0.

Lemma compile_sound_witness :
  ∃ p, compiled = (compiled.1, Ok p) ∧ egress_resolved None p ∧ EgressBlockedPorts p = [22; 25]%Z.
Proof.
  destruct compiled as [w' [p|e]] eqn:E; [|exfalso; vm_compute in E; discriminate E].
  exists p. split; [reflexivity|].
  destruct (compile_sound (request "good.example") _ None w0 w' p eq_refl E) as (_ & _ & _ & _ & _ & _ & _ & Hr).
  split; [exact Hr|]. assert (compiled.2 = Ok p) as Hp by (by rewrite E). vm_compute in Hp. injection Hp as <-. reflexivity.
Defined.
End PluginDemo.
