(* ===== verification/ForwardRules.v ===== *)
(** * Forwarding: rules, listeners and conflicts ([internal/forwarding])

    The rules of port forwarding, the listeners that a core configuration opens
    ([listeners.go]) and the overlap of the two.  A [Protocol] is the string of the
    request. *)
From S2P Require Import Prelude GoStr GoTime GoNet GoAny.

Module Forward.

Definition ProtocolTCP : string := "TCP".
Definition ProtocolUDP : string := "UDP".
Definition ProtocolTCPUDP : string := "TCP_UDP".

Record Rule := {
  ID : string; Name : string; Enabled : bool; Protocol : string; ListenPort : Z;
  TargetAddress : string; TargetPort : Z }.
Record Config := { cfg_Enabled : bool; ListenInterface : string; Rules : list Rule }.
Record Listener := { ls_Protocol : string; ls_Port : Z; ls_Source : string }.

#[export] Instance Rule_eq_dec : EqDecision Rule.
Proof. solve_decision. Defined.
#[export] Instance Config_eq_dec : EqDecision Config.
Proof. solve_decision. Defined.

Definition protocolsOverlap (left right : string) : bool :=
  bool_decide (left = ProtocolTCPUDP) || bool_decide (right = ProtocolTCPUDP) || bool_decide (left = right).
Definition overlapProtocol (left right : string) : string :=
  if bool_decide (left = ProtocolTCPUDP) then right else left.

Definition expandedProtocols (protocol : string) : list string :=
  if bool_decide (protocol = ProtocolTCP) then ["tcp"]
  else if bool_decide (protocol = ProtocolUDP) then ["udp"]
  else ["tcp"; "udp"].

Definition enabled_rules (cfg : Config) : list Rule := filter (λ r, Enabled r = true) (Rules cfg).
Definition enabledRuleCount (cfg : Config) : nat := length (enabled_rules cfg).

(** ** The listeners of a core configuration *)

Definition is_loopback (a : ip) : bool :=
  match to4 a with Some v => (v / 2 ^ 24 =? 127)%Z | None => (a =? 1)%Z end.

Definition integerValue (value : any) : Z :=
  match value with
  | AInt n => n
  | AFloat f => int_of_float f
  | AStr s => atoi_value s
  | _ => 0%Z
  end.

Definition loopbackOnly (value : any) : bool :=
  let text := trim_space (stringValue value) in
  if bool_decide (text = "") then false
  else let host := trim_set text "[]" in
       bool_decide (host = "localhost") ||
       match parse_ip host with Some a => is_loopback a | None => false end.

Section case.
Context {CaseI : UnicodeCase}.

(** [strings.FieldsFunc] for commas and blanks *)
Definition network_fields (s : string) : list string :=
  filter (λ x, x ≠ "") (mjoin (split_byte " " <$> split_byte "," s)).

Definition add_protocol (result : list string) (value : string) : list string :=
  let add p := if bool_decide (p ∈ result) then result else result ++ [p] in
  if bool_decide (value = "tcp") then add ProtocolTCP
  else if bool_decide (value = "udp") then add ProtocolUDP
  else result.

Definition networkValues (value : any) : list string :=
  foldl add_protocol []
    match value with
    | AStr s => network_fields (to_lower s)
    | AArr items => to_lower <$> omap (λ i, match i with AStr s => Some s | _ => None end) items
    | _ => []
    end.

Definition inferProtocols (coreType : string) (inbound : object) : list string :=
  match networkValues (field inbound "network") with
  | [] =>
      let kind := to_lower (stringValue (field inbound "type")) in
      let kind := if bool_decide (kind = "") then to_lower (stringValue (field inbound "protocol")) else kind in
      if equal_fold coreType "SING_BOX" then
        if bool_decide (kind ∈ ["snell"; "anytls"; "trojan"; "vless"; "http"; "naive"; "shadowtls"]) then [ProtocolTCP]
        else if bool_decide (kind ∈ ["hysteria"; "hysteria2"; "tuic"; "quic"]) then [ProtocolUDP]
        else [ProtocolTCP; ProtocolUDP]
      else [ProtocolTCP; ProtocolUDP]
  | values => values
  end.

Definition listen_port (inbound : object) : Z :=
  let port := integerValue (field inbound "listen_port") in
  let port := if (port =? 0)%Z then integerValue (field inbound "listenPort") else port in
  if (port =? 0)%Z then integerValue (field inbound "port") else port.

Definition inbound_listeners (coreType : string) (index : nat) (raw : any) : list Listener :=
  match raw with
  | AObj inbound =>
      let port := listen_port inbound in
      if loopbackOnly (field inbound "listen") || negb ((1 <=? port)%Z && (port <=? 65535)%Z) then []
      else let tag := stringValue (field inbound "tag") in
           let tag := if bool_decide (tag = "") then "inbound[" +:+ itoa (Z.of_nat index) +:+ "]" else tag in
           (λ p, {| ls_Protocol := p; ls_Port := port; ls_Source := tag |}) <$> inferProtocols coreType inbound
  | _ => []
  end.

Definition ExtractCoreListeners (coreType : string) (config : object) : list Listener :=
  mjoin (imap (inbound_listeners coreType) (asAnySlice (field config "inbounds"))).

(** ** Conflicts *)

Definition clashes (rule : Rule) (l : Listener) : bool :=
  (ListenPort rule =? ls_Port l)%Z && protocolsOverlap (Protocol rule) (ls_Protocol l).

(** The first enabled rule that clashes, with its first clashing listener. *)
Definition core_conflict (rules : list Rule) (listeners : list Listener) : result unit :=
  foldr_result (λ _ rule, if Enabled rule then
      foldr_result (λ _ l, fail_if (clashes rule l)
        (ErrConflict (overlapProtocol (Protocol rule) (ls_Protocol l)) (ListenPort rule) "CORE_INBOUND" (ls_Source l))) tt listeners
    else Ok tt) tt rules.

(** [Service.ValidateCoreConfig], of the applied configuration *)
Definition validate_core (applied : Config) (coreType : string) (config : object) : result unit :=
  if cfg_Enabled applied then core_conflict (Rules applied) (ExtractCoreListeners coreType config) else Ok tt.

(** Two enabled rules on one port and protocol *)
Fixpoint rule_conflict (rules : list Rule) : result unit :=
  match rules with
  | [] => Ok tt
  | this :: rest =>
      _ ← (if Enabled this then
             foldr_result (λ _ other, fail_if (Enabled other && (ListenPort this =? ListenPort other)%Z &&
                                               protocolsOverlap (Protocol this) (Protocol other))
               (ErrConflict (overlapProtocol (Protocol this) (Protocol other)) (ListenPort this) "FORWARDING_RULE" (Name other))) tt rest
           else Ok tt);
      rule_conflict rest
  end.

(** ** Normalisation and validation of the parts of a rule *)

Definition normalize_rule (r : Rule) : Rule :=
  {| ID := trim_space (ID r); Name := trim_space (Name r); Enabled := Enabled r; Protocol := Protocol r;
     ListenPort := ListenPort r; TargetAddress := to_lower (trim_suffix (trim_space (TargetAddress r)) ".");
     TargetPort := TargetPort r |}.
Definition normalizeConfig (cfg : Config) : Config :=
  {| cfg_Enabled := cfg_Enabled cfg;
     ListenInterface := if bool_decide (trim_space (ListenInterface cfg) = "") then "auto" else ListenInterface cfg;
     Rules := normalize_rule <$> Rules cfg |}.

End case.

Definition isIPv4Literal (value : string) : bool :=
  match parse_ip value with Some a => is_v4 a | None => false end.

Definition isRoutableIPv4 (a : ip) : bool :=
  match to4 a with
  | Some v => negb (v =? 0)%Z && negb (v / 2 ^ 24 =? 127)%Z && negb (in_range 224 239 (v / 2 ^ 24)) &&
              negb (v / 2 ^ 16 =? 43518)%Z && negb (v =? 4294967295)%Z
  | None => false
  end.

Definition onlyDigitsAndDots (value : string) : bool := all_bytes (λ c, is_digit c || Ascii.eqb c ".") value.

Definition host_char (c : ascii) : bool :=
  in_range 97 122 (byte_of c) || is_digit c || Ascii.eqb c "-".
Definition valid_label (label : string) : bool :=
  negb (bool_decide (label = "")) && (slen label <=? 63)%Z && negb (has_prefix label "-") && negb (has_suffix label "-") &&
  all_bytes host_char label.
Definition isValidHostname (value : string) : bool :=
  negb (bool_decide (value = "")) && (slen value <=? 253)%Z && negb (contains value "..") &&
  negb (onlyDigitsAndDots value) && forallb valid_label (split_byte "." value).

Definition enabledHostnameRuleCount (cfg : Config) : nat :=
  length (filter (λ r, Enabled r = true ∧ isIPv4Literal (TargetAddress r) = false) (Rules cfg)).

End Forward.
