(* ===== verification/ForwardRender.v ===== *)
(** * Forwarding: the texts given to [nft] ([renderRuleset], [renderHostFirewallRules])

    Scripts are built line by line, as the code writes them; [quote] is the verb [%q].
    Which runes beyond ASCII are printable is a table of the Go runtime, [UnicodePrint];
    the order in which a map with struct keys is ranged over is [SetRange]. *)
From S2P Require Import Prelude GoStr GoNet GoAny GoSort SingBoxConfig ForwardRules.
Import Forward.

Class UnicodePrint := is_print : Z → bool.

Class SetRange := range_set : ∀ {K} `{Countable K}, gset K → list K.
Class SetRangeLaws `{SetRange} : Prop :=
  range_set_perm K `{Countable K} (s : gset K) : range_set s ≡ₚ elements s.

Module Render.

Definition nl : string := String (chr 10) "".
Definition dquote : string := String (chr 34) "".

(** ** [strconv.Quote] *)

Fixpoint hex_fixed (n : nat) (v : Z) : string :=
  match n with O => "" | S n' => hex_fixed n' (v / 16) +:+ String (hex_char (v mod 16)) "" end.

Definition control_escape (r : Z) : option string :=
  (if r =? 7 then Some "\a" else if r =? 8 then Some "\b" else if r =? 12 then Some "\f"
   else if r =? 10 then Some "\n" else if r =? 13 then Some "\r" else if r =? 9 then Some "\t"
   else if r =? 11 then Some "\v" else None)%Z.

Section quote.
Context {PrintI : UnicodePrint}.

Definition printable (r : Z) : bool := if (r <? 128)%Z then in_range 32 126 r else is_print r.

Definition quote_rune (r : rune) : string :=
  let '(z, bytes) := r in
  if (z =? rune_error)%Z && (slen bytes =? 1)%Z then
    match bytes with String c _ => "\x" +:+ hex_fixed 2 (byte_of c) | EmptyString => "" end
  else if (z =? 34)%Z || (z =? 92)%Z then "\" +:+ bytes
  else if printable z then bytes
  else match control_escape z with
       | Some e => e
       | None => if (z <? 32)%Z || (z =? 127)%Z then "\x" +:+ hex_fixed 2 z
                 else if (z <? 65536)%Z then "\u" +:+ hex_fixed 4 z
                 else "\U" +:+ hex_fixed 8 z
       end.

Definition quote (s : string) : string := dquote +:+ foldr (λ r acc, quote_rune r +:+ acc) "" (runes s) +:+ dquote.

End quote.

(** ** Names *)

Definition TableName : string := "remnanode_forward".

Section names.
Context {DigestI : SingBoxConfig.Digest}.
(** [hex.EncodeToString(digest[:8])]: the first 16 of the 64 digits *)
Definition counterPrefix (id protocol : string) : string :=
  "rw_" +:+ String.substring 0 16 (SingBoxConfig.sha256_hex (id +:+ ":" +:+ protocol)).
End names.

Definition hostAllowComment (id protocol direction : string) : string :=
  "remnanode-forward-host-allow:" +:+ id +:+ ":" +:+ protocol +:+ ":" +:+ direction.

Definition text (lines : list string) : string := foldr (λ l acc, l +:+ nl +:+ acc) "" lines.

Record natKey := { k_in : string; k_out : string; k_proto : string; k_addr : string; k_port : Z }.
#[export] Instance natKey_eq_dec : EqDecision natKey.
Proof. solve_decision. Defined.
#[export] Instance natKey_countable : Countable natKey.
Proof.
  refine (inj_countable' (λ k, (k_in k, k_out k, k_proto k, k_addr k, k_port k))
            (λ '(a, b, c, d, e), {| k_in := a; k_out := b; k_proto := c; k_addr := d; k_port := e |}) _).
  by intros [].
Defined.

(** [fmt.Sprint] of a key *)
Definition sprint_key (k : natKey) : string :=
  "{" +:+ k_in k +:+ " " +:+ k_out k +:+ " " +:+ k_proto k +:+ " " +:+ k_addr k +:+ " " +:+ itoa (k_port k) +:+ "}".

Section render.
Context {PrintI : UnicodePrint} {DigestI : SingBoxConfig.Digest} {SortI : SortSlice} {RangeI : SetRange}.

(** One line, or a few, for each protocol of each enabled rule. *)
Definition per_flow (cfg : Config) (f : Rule → string → list string) : list string :=
  mjoin ((λ r, mjoin (f r <$> expandedProtocols (Protocol r))) <$> enabled_rules cfg).

Definition counter_lines (rule : Rule) (proto : string) : list string :=
  let prefix := counterPrefix (ID rule) proto in
  ["  counter " +:+ prefix +:+ "_up {}"; "  counter " +:+ prefix +:+ "_down {}"].

Definition dnat_line (ingress : string) (rule : Rule) (proto : string) : string :=
  "    iifname " +:+ quote ingress +:+ " " +:+ proto +:+ " dport " +:+ itoa (ListenPort rule) +:+ " dnat to " +:+
  TargetAddress rule +:+ ":" +:+ itoa (TargetPort rule) +:+ " comment " +:+
  quote ("remnanode-forward:" +:+ ID rule +:+ ":" +:+ proto +:+ ":dnat").

Definition route_of (routes : gmap string string) (rule : Rule) : string := default "" (routes !! TargetAddress rule).

Definition nat_keys (cfg : Config) (ingress : string) (routes : gmap string string) : gset natKey :=
  list_to_set (mjoin ((λ r, (λ proto, {| k_in := ingress; k_out := route_of routes r; k_proto := proto;
     k_addr := TargetAddress r; k_port := TargetPort r |}) <$> expandedProtocols (Protocol r)) <$> enabled_rules cfg)).

Definition masquerade_line (k : natKey) : string :=
  "    iifname " +:+ quote (k_in k) +:+ " oifname " +:+ quote (k_out k) +:+ " ct status dnat ip daddr " +:+ k_addr k +:+ " " +:+
  k_proto k +:+ " dport " +:+ itoa (k_port k) +:+ " masquerade".

Definition traffic_lines (ingress : string) (routes : gmap string string) (rule : Rule) (proto : string) : list string :=
  let out := route_of routes rule in
  let prefix := counterPrefix (ID rule) proto in
  ["    iifname " +:+ quote ingress +:+ " oifname " +:+ quote out +:+ " ip daddr " +:+ TargetAddress rule +:+ " " +:+ proto +:+
     " dport " +:+ itoa (TargetPort rule) +:+ " counter name " +:+ prefix +:+ "_up";
   "    iifname " +:+ quote out +:+ " oifname " +:+ quote ingress +:+ " ip saddr " +:+ TargetAddress rule +:+ " " +:+ proto +:+
     " sport " +:+ itoa (TargetPort rule) +:+ " counter name " +:+ prefix +:+ "_down"].

Definition ordered_keys (keys : gset natKey) : list natKey :=
  sort_slice (λ a b, str_ltb (sprint_key a) (sprint_key b)) (range_set keys).

Definition config_comment (hash : string) : string := "remnanode-forward-config:" +:+ hash.

Definition ruleset_lines (cfg : Config) (ingress : string) (routes : gmap string string) (hash : string) (replace : bool) : list string :=
  (if replace then ["delete table ip " +:+ TableName] else []) ++
  ["table ip " +:+ TableName +:+ " {";
   "  comment " +:+ dquote +:+ config_comment hash +:+ dquote] ++
  per_flow cfg counter_lines ++
  ["  chain prerouting {"; "    type nat hook prerouting priority dstnat; policy accept;"] ++
  per_flow cfg (λ r proto, [dnat_line ingress r proto]) ++
  ["  }"; "  chain postrouting {"; "    type nat hook postrouting priority srcnat; policy accept;"] ++
  (masquerade_line <$> ordered_keys (nat_keys cfg ingress routes)) ++
  ["  }"; "  chain traffic {"; "    type filter hook forward priority mangle; policy accept;"] ++
  per_flow cfg (traffic_lines ingress routes) ++
  ["  }"; "}"].

Definition renderRuleset (cfg : Config) (ingress : string) (routes : gmap string string) (hash : string) (replace : bool) : string :=
  text (ruleset_lines cfg ingress routes hash replace).

(** ** The host firewall *)

Definition hostFilterTable : string := "filter".
Definition hostFilterParentChain : string := "DOCKER-USER".
Definition hostFilterChain : string := "REMNANODE_FORWARD".
Definition hostJumpComment : string := "remnanode-forward-host-jump".

Definition flush_host_chain : string := "flush chain ip " +:+ hostFilterTable +:+ " " +:+ hostFilterChain.

Definition host_lines (ingress : string) (routes : gmap string string) (rule : Rule) (protocol : string) : list string :=
  let egress := route_of routes rule in
  let head := "add rule ip " +:+ hostFilterTable +:+ " " +:+ hostFilterChain +:+ " iifname " in
  let orig := " ct original proto-dst " +:+ itoa (ListenPort rule) in
  [head +:+ quote ingress +:+ " oifname " +:+ quote egress +:+ " ip daddr " +:+ TargetAddress rule +:+ " " +:+ protocol +:+
     " dport " +:+ itoa (TargetPort rule) +:+ orig +:+ " ct state new,related,established counter accept comment " +:+
     quote (hostAllowComment (ID rule) protocol "up");
   head +:+ quote egress +:+ " oifname " +:+ quote ingress +:+ " ip saddr " +:+ TargetAddress rule +:+ " " +:+ protocol +:+
     " sport " +:+ itoa (TargetPort rule) +:+ orig +:+ " ct state related,established counter accept comment " +:+
     quote (hostAllowComment (ID rule) protocol "down")].

Definition renderHostFirewallRules (cfg : Config) (ingress : string) (routes : gmap string string) (createChain createJump : bool) : string :=
  text ([if createChain then "add chain ip " +:+ hostFilterTable +:+ " " +:+ hostFilterChain else flush_host_chain] ++
        (if createJump then ["insert rule ip " +:+ hostFilterTable +:+ " " +:+ hostFilterParentChain +:+ " jump " +:+ hostFilterChain +:+
                             " comment " +:+ quote hostJumpComment] else []) ++
        per_flow cfg (host_lines ingress routes)).

End render.
End Render.
