(* ===== verification/CoreApi.v ===== *)
(** * The statistics client of the core ([internal/coreapi/stats.go])

    The calls of the core's statistics service.  gRPC takes a request and decodes the answer
    into the message that the caller names: [invoke] is that, with the type of the message as
    the index of [rpc].  [stats_client] is the client that the statistics queries and the
    capture of usage are proved against. *)
From S2P Require Import Prelude GoStr Stats ForwardRender.

Module CoreApi.

Definition singBoxStatsService : string := "v2ray.core.app.stats.command.StatsService".

(** ** Messages *)

Record queryStatsRequest := { query_Reset : bool; Patterns : list string }.
Record statRecord := { rec_Name : string; rec_Value : Z }.
Record queryStatsResponse := { query_Stat : list statRecord }.
Record sysStatsResponse := {
  res_NumGoroutine : Z; res_NumGC : Z; res_Alloc : Z; res_TotalAlloc : Z; res_Sys : Z; res_Mallocs : Z;
  res_Frees : Z; res_LiveObjects : Z; res_PauseTotalNs : Z; res_Uptime : Z }.
Record getStatsRequest := { get_Name : string; get_Reset : bool }.
Record getStatsResponse := { get_Stat : option statRecord }.
Record getStatsOnlineIPListResponse := { list_Name : string; IPs : gmap string Z }.
Record getAllOnlineUsersResponse := { Users : list string }.

(** A request, with the message that its answer is decoded into *)
Inductive rpc : Type → Type :=
| QueryStats (r : queryStatsRequest) : rpc queryStatsResponse
| SysStats : rpc sysStatsResponse
| GetStats (r : getStatsRequest) : rpc getStatsResponse
| GetIPList (r : getStatsRequest) : rpc getStatsOnlineIPListResponse
| GetAllUsers : rpc getAllOnlineUsersResponse.

(** [grpc.NewClient] for a target, and [Invoke] of a method *)
Class Grpc := {
  new_client : string → option error;
  invoke : ∀ {R}, string → rpc R → result R
}.

Record SystemStats := {
  NumGoroutine : Z; NumGC : Z; Alloc : Z; TotalAlloc : Z; Sys : Z; Mallocs : Z; Frees : Z; LiveObjects : Z;
  PauseTotalNs : Z; Uptime : Z }.

Record GRPCStatsClient := { target : string; service : string }.

Section client.
Context {GrpcI : Grpc} {PrintI : UnicodePrint}.

Definition newStatsClient (target service : string) : result GRPCStatsClient :=
  match new_client target with
  | Some e => Err (ErrWrap ("create stats client for " +:+ target) e)
  | None => Ok {| target := target; service := service |}
  end.
Definition NewSingBoxStatsClient (target : string) : result GRPCStatsClient := newStatsClient target singBoxStatsService.

Definition method (c : GRPCStatsClient) (name : string) : string := "/" +:+ service c +:+ "/" +:+ name.

Definition Query (c : GRPCStatsClient) (pattern : string) (reset : bool) : result (list Stats.Stat) :=
  match invoke (method c "QueryStats") (QueryStats {| query_Reset := reset; Patterns := [pattern] |}) with
  | Err e => Err (ErrWrap ("query stats " +:+ Render.quote pattern) e)
  | Ok response =>
      Ok ((λ i, {| Stats.stat_Name := rec_Name i; Stats.stat_Value := rec_Value i |}) <$> query_Stat response)
  end.

Definition System (c : GRPCStatsClient) : result SystemStats :=
  match invoke (method c "GetSysStats") SysStats with
  | Err e => Err (ErrWrap "get system stats" e)
  | Ok r => Ok {| NumGoroutine := res_NumGoroutine r; NumGC := res_NumGC r; Alloc := res_Alloc r; TotalAlloc := res_TotalAlloc r;
                  Sys := res_Sys r; Mallocs := res_Mallocs r; Frees := res_Frees r; LiveObjects := res_LiveObjects r;
                  PauseTotalNs := res_PauseTotalNs r; Uptime := res_Uptime r |}
  end.

Definition online_name (userID : string) : string := "user>>>" +:+ userID +:+ ">>>online".
Definition Online (c : GRPCStatsClient) (userID : string) : result bool :=
  _ ← invoke (method c "GetStatsOnline") (GetStats {| get_Name := online_name userID; get_Reset := false |}); Ok true.
Definition UserIPs (c : GRPCStatsClient) (userID : string) : result (gmap string Z) :=
  r ← invoke (method c "GetStatsOnlineIpList") (GetIPList {| get_Name := online_name userID; get_Reset := true |}); Ok (IPs r).
Definition OnlineUsers (c : GRPCStatsClient) : result (list string) :=
  r ← invoke (method c "GetAllOnlineUsers") GetAllUsers; Ok (Users r).

(** The client of [Stats] and [UsageCapture] *)
Definition stats_client (c : GRPCStatsClient) : Stats.StatsClient := Query c.
End client.
End CoreApi.
