(* ===== verification/ForwardProbe.v ===== *)
(** * Forwarding: reading the output of [ip], [ss] and [nft]

    Pure functions of the text a command printed: output interfaces, listening sockets,
    foreign DNAT rules (a matcher of the code's regular expression), the policy and the
    allow rules of the host firewall. *)
From S2P Require Import Prelude GoStr GoNet GoAny ForwardRules ForwardRender.
Import Forward Render.

Module Probe.

(** The word after the first ["dev"] that has one *)
Fixpoint after_dev (fields : list string) : option string :=
  match fields with
  | x :: (y :: _) as rest => if bool_decide (x = "dev") then Some y else after_dev rest
  | _ => None
  end.

(** ** Listening sockets *)

Definition splitSocketAddress (value : string) : option (string * Z) :=
  match cut_last value ":" with
  | Some (host, port) => if bool_decide (port = "") then None else (λ p, (trim_set host "[]", p)) <$> atoi port
  | None => None
  end.

Definition isLoopbackAddress (value : string) : bool :=
  let value := match cut value "%" with Some (l, _) => l | None => value end in
  bool_decide (value = "localhost") || has_prefix value "127." || bool_decide (value = "::1").

Definition listens (cfg : Config) (port : Z) (proto : string) : bool :=
  existsb (λ r, Enabled r && (ListenPort r =? port)%Z && protocolsOverlap (Protocol r) proto) (Rules cfg).

Section case.
Context {CaseI : UnicodeCase}.

Definition socket_line (cfg : Config) (line : string) : result unit :=
  match fields line with
  | f0 :: f1 :: f2 :: f3 :: f4 :: rest =>
      let proto := to_upper f0 in
      if negb (bool_decide (proto = ProtocolTCP) || bool_decide (proto = ProtocolUDP)) then Ok tt
      else match splitSocketAddress f4 with
           | None => Ok tt
           | Some (address, port) =>
               if isLoopbackAddress address then Ok tt
               else fail_if (listens cfg port proto) (ErrConflict proto port "NODE_SERVICE" (join " " rest))
           end
  | _ => Ok tt
  end.

Definition socket_conflict (cfg : Config) (out : string) : result unit :=
  foldr_result (λ _, socket_line cfg) tt (split_byte (chr 10) out).

(** ** Foreign DNAT rules *)

Definition word_char (c : ascii) : bool :=
  is_digit c || in_range 65 90 (byte_of c) || in_range 97 122 (byte_of c) || Ascii.eqb c "_".
Definition starts_word (s : string) : bool := match s with String c _ => word_char c | EmptyString => false end.
Definition re_space (c : ascii) : bool :=
  let b := byte_of c in (b =? 32)%Z || (b =? 9)%Z || (b =? 10)%Z || (b =? 12)%Z || (b =? 13)%Z.

Fixpoint span (p : ascii → bool) (s : string) : string * string :=
  match s with
  | String c s' => if p c then let '(a, b) := span p s' in (String c a, b) else ("", s)
  | EmptyString => ("", "")
  end.
(** One or more *)
Definition some_of (p : ascii → bool) (s : string) : option (string * string) :=
  let '(a, b) := span p s in if bool_decide (a = "") then None else Some (a, b).

(** [.*\bw\b], after a word character or not *)
Fixpoint find_word (w : string) (prev : bool) (s : string) : bool :=
  (negb prev && match strip_prefix w s with Some rest => negb (starts_word rest) | None => false end) ||
  match s with String c s' => find_word w (word_char c) s' | EmptyString => false end.

(** [(tcp|udp)\s+dport\s+([0-9]+)\b.*\bdnat\b] here *)
Definition dnat_at (s : string) : option (string * string) :=
  '(proto, s) ← match strip_prefix "tcp" s with Some r => Some ("tcp", r)
                | None => (λ r, ("udp", r)) <$> strip_prefix "udp" s end;
  '(_, s) ← some_of re_space s;
  s ← strip_prefix "dport" s;
  '(_, s) ← some_of re_space s;
  '(port, s) ← some_of is_digit s;
  if starts_word s || negb (find_word "dnat" true s) then None else Some (proto, port).

(** The leftmost match of [dnatRulePattern] *)
Fixpoint dnat_match (prev : bool) (s : string) : option (string * string) :=
  match (if prev then None else dnat_at s) with
  | Some r => Some r
  | None => match s with String c s' => dnat_match (word_char c) s' | EmptyString => None end
  end.

(** The lines a [bufio.Scanner] delivers, and whether it met one that does not fit its
    buffer of 64 KiB. *)
Fixpoint scan (lines : list string) : list string * bool :=
  match lines with
  | [] => ([], false)
  | [last] => if bool_decide (last = "") then ([], false)
              else if (65536 <=? slen last)%Z then ([], true) else ([trim_suffix last (String (chr 13) "")], false)
  | line :: rest =>
      if (65536 <=? slen line)%Z then ([], true)
      else let '(ls, e) := scan rest in (trim_suffix line (String (chr 13) "") :: ls, e)
  end.

Definition braces (line : string) : Z := (count_byte "{" line - count_byte "}" line)%Z.
Definition managed_head (line : string) : bool :=
  has_prefix line ("table ip " +:+ TableName +:+ " ") || bool_decide (line = "table ip " +:+ TableName +:+ " {").

Definition dnat_line_conflict (cfg : Config) (line : string) : result unit :=
  match dnat_match false line with
  | None => Ok tt
  | Some (proto, port) =>
      fail_if (listens cfg (atoi_value port) (to_upper proto)) (ErrConflict (to_upper proto) (atoi_value port) "NFT_RULE" line)
  end.

(** The loop, with whether the line is in the agent's own table and how deep *)
Definition nft_line (cfg : Config) (state : bool * Z) (line : string) : result (bool * Z) :=
  let line := trim_space line in
  let '(inManagedTable, depth) := state in
  if has_prefix line "table " then Ok (managed_head line, braces line)
  else if inManagedTable : bool then
    let depth := (depth + braces line)%Z in Ok (negb (depth <=? 0)%Z, depth)
  else _ ← dnat_line_conflict cfg line; Ok (inManagedTable, depth).

Definition nft_conflict (cfg : Config) (out : string) : result unit :=
  let '(lines, too_long) := scan (split_byte (chr 10) out) in
  _ ← foldr_result (nft_line cfg) (false, 0%Z) lines;
  fail_if too_long (ErrMsg "bufio.Scanner: token too long").

End case.

(** ** The host firewall *)

Definition forward_policy (out : string) : string :=
  if contains out "policy drop" then "drop" else if contains out "policy accept" then "accept" else "unknown".

Definition allows (cfg : Config) (ruleset : string) : bool :=
  forallb (λ r, forallb (λ protocol, forallb (λ direction, contains ruleset (hostAllowComment (ID r) protocol direction))
                                       ["up"; "down"])
                  (expandedProtocols (Protocol r))) (enabled_rules cfg).

#[local] Instance example_case : UnicodeCase := {| lower_rune z := z; upper_rune z := z |}.
Example dnat_match_examples :
  dnat_match false "iifname eth0 tcp dport 443 counter dnat to 1.2.3.4:443" = Some ("tcp", "443") ∧
  dnat_match false "udp  dport 53x dnat" = None ∧ dnat_match false "xtcp dport 1 dnat" = None ∧
  dnat_match false "tcp dport 80 accept udp dport 81 dnat" = Some ("tcp", "80") ∧
  dnat_match false "tcp dport { 80, 443 } dnat to 1.2.3.4" = None.
Proof. vm_compute. split_and!; reflexivity. Qed.

Example socket_examples :
  splitSocketAddress "[::]:443" = Some ("::", 443%Z) ∧ splitSocketAddress "0.0.0.0:*" = None ∧
  isLoopbackAddress "127.0.0.53%lo" = true.
Proof. vm_compute. split_and!; reflexivity. Qed.
End Probe.
