(* ===== verification/Forwarding.v ===== *)
(** * The forwarding service ([internal/forwarding/forwarding.go], [host_firewall.go])

    The service keeps the applied configuration; its surroundings (commands, network
    interfaces, DNS, files, the clock) answer through [Host], where an answer may depend on
    everything asked before.  The mutex makes each method one step.

    Validation resolves the targets {e in place}: [result.config.Rules] and [cfg.Rules] are
    one array, so the rules of the argument change too.  [validateLocked] returns the array
    as it left it, and writes it back into the service when it was the applied one. *)
From S2P Require Import Prelude GoStr GoTime GoNet GoAny GoSort SingBoxConfig ForwardRules ForwardRender ForwardProbe.
Import Forward Render Probe.

Module Service.

Definition Capability : string := "port_forwarding_v1".
Definition DNSCapability : string := "port_forwarding_dns_v1".
Definition UsageCapability : string := "port_forwarding_usage_v1".
Definition maxRules : nat := 64.

Record Counter := { Packets : Z; Bytes : Z }.
Record DirectionCounters := { Upload : Counter; Download : Counter }.
Record UsageCounter := { uc_RuleID : string; uc_Protocol : string; uc_Direction : string; uc_Scope : string; uc_Bytes : Z }.
Record RuleStatus := {
  rs_ID : string; ResolvedTargetAddress : string; rs_TCP : option DirectionCounters; rs_UDP : option DirectionCounters }.
Record Status := {
  State : string; st_AppliedHash : string; st_AppliedAt : option time; ResolvedListenInterface : string; st_LastError : string;
  ForwardingEnabled : bool; FirewallForwardPolicy : string; st_Rules : list RuleStatus }.
Record RuntimeSummary := {
  sum_State : string; ConfigHash : string; LastSyncedAt : option time; sum_LastError : string; ConfiguredRules : Z;
  EnabledRules : Z; DNSResults : gmap string string; sum_DNSStale : bool; sum_DNSLastResolvedAt : option time;
  sum_DNSFailureCount : Z }.

Record persistedState := {
  ps_Config : Config; ps_AppliedHash : string; ps_AppliedAt : time; ps_Interface : string;
  ResolvedTargets : gmap string string; DNSStale : bool; DNSLastResolvedAt : option time; DNSFailureCount : Z }.

Record preparedConfig := {
  config : Config; pc_iface : string; routes : gmap string string; resolvedTargets : gmap string string }.

Record service := {
  applied : Config; appliedHash : string; appliedAt : option time; iface : string; resolved : gmap string string;
  lastError : string; dnsStale : bool; dnsLastResolvedAt : option time; dnsFailureCount : Z }.

Definition DefaultConfig : Config := {| cfg_Enabled := false; ListenInterface := "auto"; Rules := [] |}.
Definition New : service :=
  {| applied := {| cfg_Enabled := false; ListenInterface := ""; Rules := [] |}; appliedHash := ""; appliedAt := None;
     iface := ""; resolved := ∅; lastError := ""; dnsStale := false; dnsLastResolvedAt := None; dnsFailureCount := 0 |}.

(** ** The surroundings *)

Inductive event :=
| EvCommand (args : list string)
| EvScript (check : bool) (script : string) (ok : bool)
| EvLookup (host : string)
| EvInterface (name : string)
| EvAddrs
| EvReadForward
| EvWriteForward
| EvFile (op : string)
| EvClock.

(** A command that only reads prints a text and may fail; [script_reply] is [nft -f] of a
    temporary file, with [-c] when it only checks. *)
Class Host := {
  command_reply : list event → list string → string * option error;
  script_reply : list event → bool → string → option error;
  interface_up : list event → string → option bool;
  interface_addrs : list event → list ip;
  lookup_ip4 : list event → string → result (list ip);
  forward_file : list event → option string;
  forward_write : list event → option error;
  file_reply : list event → string → option error;
  clock : list event → time
}.

(** [encoding/json] of the state file, of a configuration, and of what [nft -j] prints: the
    ["counter"] members of its items, and one such member. *)
Class StateJson := {
  marshal_config : Config → string;
  marshal_state : persistedState → string;
  unmarshal_state : string → result persistedState;
  nft_items : string → result (list (option string));
  nft_counter : string → option (string * Counter)
}.

(** The [error] method of [error]: its text *)
Fixpoint Error `{UnicodePrint} `{UnicodeCase} (e : error) : string :=
  match e with
  | ErrMsg m => m
  | ErrWrap m inner => m +:+ ": " +:+ Error inner
  | ErrDNS target inner => "resolve targetAddress " +:+ quote target +:+ ": " +:+ Error inner
  | ErrConflict protocol port conflictsWith detail =>
      "forwarding port conflict: " +:+ to_lower protocol +:+ "/" +:+ itoa port +:+ " conflicts with " +:+
      conflictsWith +:+ (if bool_decide (detail = "") then "" else ": " +:+ detail)
  | _ => "error"
  end.

Definition isDNSResolutionError : error → bool := error_chain (λ e, match e with ErrDNS _ _ => true | _ => false end).
Definition IsConflict : error → bool := error_chain (λ e, match e with ErrConflict _ _ _ _ => true | _ => false end).

Record World := { svc : service; events : list event; state_file : option string }.

Definition with_rules (rules : list Rule) (cfg : Config) : Config :=
  {| cfg_Enabled := cfg_Enabled cfg; ListenInterface := ListenInterface cfg; Rules := rules |}.
Definition with_target (address : string) (r : Rule) : Rule :=
  {| ID := ID r; Name := Name r; Enabled := Enabled r; Protocol := Protocol r; ListenPort := ListenPort r;
     TargetAddress := address; TargetPort := TargetPort r |}.

Definition set_svc (f : service → service) : proc World unit :=
  modify (λ w, {| svc := f (svc w); events := events w; state_file := state_file w |}).
Definition set_error (e : string) (s : service) : service :=
  {| applied := applied s; appliedHash := appliedHash s; appliedAt := appliedAt s; iface := iface s; resolved := resolved s;
     lastError := e; dnsStale := dnsStale s; dnsLastResolvedAt := dnsLastResolvedAt s; dnsFailureCount := dnsFailureCount s |}.
Definition set_dns (stale : bool) (last : option time) (failures : Z) (s : service) : service :=
  {| applied := applied s; appliedHash := appliedHash s; appliedAt := appliedAt s; iface := iface s; resolved := resolved s;
     lastError := lastError s; dnsStale := stale; dnsLastResolvedAt := last; dnsFailureCount := failures |}.
Definition set_applied (cfg : Config) (s : service) : service :=
  {| applied := cfg; appliedHash := appliedHash s; appliedAt := appliedAt s; iface := iface s; resolved := resolved s;
     lastError := lastError s; dnsStale := dnsStale s; dnsLastResolvedAt := dnsLastResolvedAt s;
     dnsFailureCount := dnsFailureCount s |}.
Definition set_targets (i : string) (targets : gmap string string) (s : service) : service :=
  {| applied := applied s; appliedHash := appliedHash s; appliedAt := appliedAt s; iface := i; resolved := targets;
     lastError := lastError s; dnsStale := dnsStale s; dnsLastResolvedAt := dnsLastResolvedAt s;
     dnsFailureCount := dnsFailureCount s |}.

(** Ask the surroundings. *)
Definition ask {A} (e : event) (reply : list event → A) : proc World A := λ w,
  ({| svc := svc w; events := e :: events w; state_file := state_file w |}, Ok (reply (events w))).

Section host.
Context {HostI : Host} {StateI : StateJson} {CaseI : UnicodeCase} {PrintI : UnicodePrint} {DigestI : SingBoxConfig.Digest}
        {SortI : SortSlice} {SetI : SetRange}.

Definition command (args : list string) : proc World (string * option error) :=
  ask (EvCommand args) (λ l, command_reply l args).
Definition now : proc World time := ask EvClock clock.

(** The output, or the error with it *)
Definition output (what : string) (args : list string) : proc World string :=
  r ← command args;
  match r with
  | (out, None) => mret out
  | (out, Some e) => throw (ErrWrap what (ErrMsg (Error e +:+ " (" +:+ trim_space out +:+ ")")))
  end.

Definition runNFTScript (script : string) (check : bool) : proc World unit := λ w,
  let r := script_reply (events w) check script in
  ({| svc := svc w; events := EvScript check script (bool_decide (r = None)) :: events w; state_file := state_file w |},
   match r with None => Ok tt | Some e => Err (ErrWrap "nft" e) end).

Definition file_step (op : string) : proc World unit :=
  r ← ask (EvFile op) (λ l, file_reply l op);
  match r with None => mret tt | Some e => throw e end.

(** Written beside and renamed: the file changes whole or not at all. *)
Definition persist (value : persistedState) : proc World unit :=
  _ ← proc_iter file_step ["mkdir"; "create"; "chmod"; "write"; "sync"; "close"; "rename"];
  modify (λ w, {| svc := svc w; events := events w; state_file := Some (marshal_state value) |}).

Definition persisted_of (s : service) (at_ : time) : persistedState :=
  {| ps_Config := applied s; ps_AppliedHash := appliedHash s; ps_AppliedAt := at_; ps_Interface := iface s;
     ResolvedTargets := resolved s; DNSStale := dnsStale s; DNSLastResolvedAt := dnsLastResolvedAt s;
     DNSFailureCount := dnsFailureCount s |}.
Definition persistCurrentLocked : proc World unit :=
  s ← gets svc;
  match appliedAt s with None => mret tt | Some at_ => persist (persisted_of s at_) end.

(** ** The table of the agent *)

Definition list_table : list string := ["nft"; "list"; "table"; "ip"; TableName].
Definition tableExists : proc World bool := r ← command list_table; mret (bool_decide (r.2 = None)).
Definition tableMatches (hash : string) : proc World bool :=
  if bool_decide (hash = "") then mret false
  else r ← command list_table; mret (bool_decide (r.2 = None) && contains r.1 (config_comment hash)).

Definition delete_script : string := "delete table ip " +:+ TableName +:+ nl.
Definition deleteTable : proc World unit :=
  exists_ ← tableExists;
  if negb exists_ then mret tt
  else _ ← runNFTScript delete_script true; runNFTScript delete_script false.

(** ** The host firewall *)

Definition firewallForwardPolicy : proc World string :=
  r ← command ["nft"; "list"; "chain"; "ip"; "filter"; "FORWARD"];
  mret (match r with (out, None) => forward_policy out | _ => "unknown" end).

Definition hostFirewallAllows (cfg : Config) : proc World bool :=
  r ← command ["nft"; "list"; "ruleset"];
  mret (match r with (out, None) => allows cfg out | _ => false end).

Definition list_chain (chain : string) : list string := ["nft"; "list"; "chain"; "ip"; hostFilterTable; chain].
Definition nftChainExists (chain : string) : proc World bool :=
  r ← command (list_chain chain); mret (bool_decide (r.2 = None)).

Definition runHostFirewallScript (script : string) : proc World unit :=
  if bool_decide (trim_space script = "") then mret tt
  else r ← attempt (runNFTScript script true);
       match r with
       | Err e => throw (ErrWrap "validate managed host firewall" e)
       | Ok _ => r ← attempt (runNFTScript script false);
                 match r with Err e => throw (ErrWrap "update managed host firewall" e) | Ok _ => mret tt end
       end.

Definition reconcileHostFirewall (cfg : Config) (ingress : string) (routes : gmap string string) : proc World unit :=
  managed ← nftChainExists hostFilterChain;
  let enabled := cfg_Enabled cfg && negb (enabledRuleCount cfg =? 0)%nat in
  policy ← (if enabled then firewallForwardPolicy else mret "");
  if negb enabled || negb (bool_decide (policy = "drop")) then
    if negb managed then mret tt else runHostFirewallScript (flush_host_chain +:+ nl)
  else
    parent ← nftChainExists hostFilterParentChain;
    if negb parent then throw (ErrMsg "host FORWARD policy is drop but Docker DOCKER-USER chain is unavailable")
    else
      listing ← output "inspect Docker DOCKER-USER chain" (list_chain hostFilterParentChain);
      runHostFirewallScript (renderHostFirewallRules cfg ingress routes (negb managed) (negb (contains listing hostJumpComment))).

(** ** Conflicts with the host *)

Definition detectSocketConflicts (cfg : Config) : proc World unit :=
  out ← output "inspect listening sockets" ["ss"; "-H"; "-lntup"]; lift (socket_conflict cfg out).
Definition detectNFTConflicts (cfg : Config) : proc World unit :=
  out ← output "inspect nftables ruleset" ["nft"; "list"; "ruleset"]; lift (nft_conflict cfg out).

(** ** [net.ipv4.ip_forward] *)

Definition readIPv4Forwarding : proc World bool :=
  r ← ask EvReadForward forward_file;
  mret (match r with Some raw => bool_decide (trim_space raw = "1") | None => false end).

Definition ensureIPv4Forwarding : proc World unit :=
  on ← readIPv4Forwarding;
  if on : bool then mret tt else
  r ← ask EvWriteForward forward_write;
  match r with
  | Some e => throw (ErrWrap "net.ipv4.ip_forward is disabled; run 'sysctl -w net.ipv4.ip_forward=1' on the host" e)
  | None =>
      on ← readIPv4Forwarding;
      if on : bool then mret tt else throw (ErrMsg "net.ipv4.ip_forward remains disabled after enabling it")
  end.

(** ** Interfaces and targets *)

Definition localIPv4Addresses : proc World (gset string) :=
  addrs ← ask EvAddrs interface_addrs;
  mret (list_to_set (ip_string <$> filter (λ a, is_v4 a = true) addrs)).

Definition resolveListenInterface (configured : string) : proc World string :=
  if negb (bool_decide (configured = "") || bool_decide (configured = "auto")) then
    up ← ask (EvInterface configured) (λ l, interface_up l configured);
    match up with
    | None => throw (ErrMsg ("listen interface " +:+ quote configured +:+ " does not exist"))
    | Some false => throw (ErrMsg ("listen interface " +:+ quote configured +:+ " is down"))
    | Some true => mret configured
    end
  else
    out ← output "resolve default IPv4 interface" ["ip"; "-4"; "route"; "show"; "default"];
    match after_dev (fields out) with
    | Some dev => mret dev
    | None => throw (ErrMsg "default IPv4 route has no interface")
    end.

Definition resolveTargetInterface (target : string) : proc World string :=
  out ← output ("no IPv4 route to " +:+ target) ["ip"; "-4"; "route"; "get"; target];
  match after_dev (fields out) with
  | Some dev => mret dev
  | None => throw (ErrMsg ("route to " +:+ target +:+ " has no output interface"))
  end.

(** The preferred address when DNS still gives it, else the first routable one. *)
Definition choose_address (preferred : string) (ips : list ip) : option string :=
  let values := ip_string <$> filter (λ a, isRoutableIPv4 a = true) ips in
  if bool_decide (preferred ∈ values) then Some preferred else head values.

Definition resolveTargetIPv4 (target preferred : string) : proc World string :=
  match parse_ip target with
  | Some a =>
      if isRoutableIPv4 a then mret (ip_string a)
      else throw (ErrMsg ("targetAddress " +:+ quote target +:+ " must be a routable IPv4 address"))
  | None =>
      if negb (isValidHostname target) then throw (ErrMsg ("targetAddress " +:+ quote target +:+ " is not a valid hostname"))
      else
        r ← ask (EvLookup target) (λ l, lookup_ip4 l target);
        match r with
        | Err e => throw (ErrDNS target e)
        | Ok ips => match choose_address preferred ips with
                    | Some value => mret value
                    | None => throw (ErrDNS target (ErrMsg "no routable IPv4 address"))
                    end
        end
  end.

(** ** Validation *)

(** What is checked of the rule at [i] before its target is resolved *)
Definition check_rule (i : nat) (seenIDs : gset string) (rule : Rule) : result unit :=
  _ ← fail_if (bool_decide (trim_space (ID rule) = "")) (ErrMsg ("rule " +:+ itoa (Z.of_nat i + 1) +:+ " id is required"));
  _ ← fail_if (bool_decide (ID rule ∈ seenIDs)) (ErrMsg ("duplicate forwarding rule id " +:+ quote (ID rule)));
  _ ← fail_if (bool_decide (trim_space (Name rule) = "") || (64 <? slen (Name rule))%Z)
        (ErrMsg ("rule " +:+ ID rule +:+ " name must be 1-64 characters"));
  _ ← fail_if (negb (bool_decide (Protocol rule ∈ [ProtocolTCP; ProtocolUDP; ProtocolTCPUDP])))
        (ErrMsg ("rule " +:+ ID rule +:+ " has unsupported protocol " +:+ quote (Protocol rule)));
  _ ← fail_if (negb (in_range 1 65535 (ListenPort rule) && in_range 1 65535 (TargetPort rule)))
        (ErrMsg ("rule " +:+ ID rule +:+ " port must be between 1 and 65535"));
  fail_if (negb (isIPv4Literal (TargetAddress rule)) && negb (isValidHostname (TargetAddress rule)))
    (ErrMsg ("rule " +:+ ID rule +:+ " targetAddress must be a routable IPv4 address or valid hostname")).

(** The first loop of [validateLocked]: the array as it left it, the targets it resolved,
    and the error it stopped at. *)
Record resolution := { array : list Rule; targets : gmap string string; failed : option error }.
Definition keep (rule : Rule) (r : resolution) : resolution :=
  {| array := rule :: array r; targets := targets r; failed := failed r |}.
Definition stop (e : error) (rules : list Rule) (t : gmap string string) : resolution :=
  {| array := rules; targets := t; failed := Some e |}.

Fixpoint resolve_rules (locals : gset string) (preferred : gmap string string) (i : nat) (seenIDs : gset string)
    (t : gmap string string) (rules : list Rule) : proc World resolution :=
  match rules with
  | [] => mret {| array := []; targets := t; failed := None |}
  | rule :: rest =>
      match check_rule i seenIDs rule with
      | Err e => mret (stop e rules t)
      | Ok _ =>
          let seenIDs := {[ID rule]} ∪ seenIDs in
          if negb (Enabled rule) then
            r ← resolve_rules locals preferred (S i) seenIDs t rest; mret (keep rule r)
          else
            r ← attempt (resolveTargetIPv4 (TargetAddress rule) (default "" (preferred !! ID rule)));
            match r with
            | Err e => mret (stop (ErrWrap ("rule " +:+ ID rule) e) rules t)
            | Ok address =>
                if bool_decide (address ∈ locals) then
                  mret (stop (ErrMsg ("rule " +:+ ID rule +:+ " targetAddress resolves to this node (" +:+ address +:+ ")")) rules t)
                else
                  r ← resolve_rules locals preferred (S i) seenIDs (<[ID rule := address]> t) rest;
                  mret (keep (with_target address rule) r)
            end
      end
  end.

Definition add_route (routes : gmap string string) (rule : Rule) : proc World (gmap string string) :=
  if negb (Enabled rule) || bool_decide (is_Some (routes !! TargetAddress rule)) then mret routes
  else egress ← resolveTargetInterface (TargetAddress rule); mret (<[TargetAddress rule := egress]> routes).

(** The rest of [validateLocked], with the resolved rules *)
Definition prepare (cfg : Config) (t : gmap string string) (coreListeners : list Listener) : proc World preparedConfig :=
  _ ← lift (rule_conflict (Rules cfg));
  if negb (cfg_Enabled cfg) || (enabledRuleCount cfg =? 0)%nat then
    mret {| config := cfg; pc_iface := ""; routes := ∅; resolvedTargets := t |}
  else
    i ← resolveListenInterface (ListenInterface cfg);
    _ ← lift (core_conflict (Rules cfg) coreListeners);
    r ← proc_fold add_route ∅ (Rules cfg);
    mret {| config := cfg; pc_iface := i; routes := r; resolvedTargets := t |}.

(** Whose array the rules are: that of the applied configuration, or of a request. *)
Inductive owner := Applied | Request.

(** The configuration as validation left it, and the outcome *)
Definition validateLocked (own : owner) (cfg : Config) (coreListeners : list Listener) : proc World (Config * result preparedConfig) :=
  if (maxRules <? length (Rules cfg))%nat then
    mret (cfg, Err (ErrMsg ("forwarding rules exceed maximum of " +:+ itoa (Z.of_nat maxRules))))
  else
    locals ← localIPv4Addresses;
    s ← gets svc;
    r ← resolve_rules locals (resolved s) 0 ∅ ∅ (Rules cfg);
    let cfg := with_rules (array r) cfg in
    _ ← (match own with Applied => set_svc (set_applied cfg) | Request => mret tt end);
    match failed r with
    | Some e => mret (cfg, Err e)
    | None => p ← attempt (prepare cfg (targets r) coreListeners); mret (cfg, p)
    end.

Definition Validate (cfg : Config) (coreListeners : list Listener) : proc World unit :=
  r ← validateLocked Request (normalizeConfig cfg) coreListeners;
  match r.2 with Ok _ => mret tt | Err e => throw e end.

(** ** Applying *)

Definition configHash (cfg : Config) : string := SingBoxConfig.sha256_hex (marshal_config cfg).

Definition unused (cfg : Config) : bool := negb (cfg_Enabled cfg) || (enabledRuleCount cfg =? 0)%nat.

Definition apply_disabled (cfg : Config) (hash : string) : proc World unit :=
  _ ← reconcileHostFirewall cfg "" ∅;
  _ ← deleteTable;
  at_ ← now;
  _ ← persist {| ps_Config := cfg; ps_AppliedHash := hash; ps_AppliedAt := at_; ps_Interface := ""; ResolvedTargets := ∅;
                 DNSStale := false; DNSLastResolvedAt := None; DNSFailureCount := 0 |};
  set_svc (λ s, {| applied := cfg; appliedHash := hash; appliedAt := Some at_; iface := ""; resolved := ∅;
                   lastError := lastError s; dnsStale := false; dnsLastResolvedAt := None; dnsFailureCount := 0 |}).

Definition apply_rules (cfg : Config) (prepared : preparedConfig) (skipConflicts : bool) (hash : string) : proc World unit :=
  _ ← ensureIPv4Forwarding;
  _ ← when (negb skipConflicts) (_ ← detectSocketConflicts cfg; detectNFTConflicts cfg);
  replace ← tableExists;
  let script := renderRuleset (config prepared) (pc_iface prepared) (routes prepared) hash replace in
  r ← attempt (runNFTScript script true);
  match r with Err e => throw (ErrWrap "validate nftables rules" e) | Ok _ =>
  r ← attempt (reconcileHostFirewall (config prepared) (pc_iface prepared) (routes prepared));
  match r with Err e => throw (ErrWrap "apply host firewall rules" e) | Ok _ =>
  r ← attempt (runNFTScript script false);
  match r with Err e => throw (ErrWrap "apply nftables rules" e) | Ok _ =>
  at_ ← now;
  let last := if (0 <? enabledHostnameRuleCount cfg)%nat then Some at_ else None in
  s ← gets svc;
  _ ← persist {| ps_Config := cfg; ps_AppliedHash := hash; ps_AppliedAt := at_; ps_Interface := pc_iface prepared;
                 ResolvedTargets := resolvedTargets prepared; DNSStale := false; DNSLastResolvedAt := last;
                 DNSFailureCount := dnsFailureCount s |};
  set_svc (λ s, {| applied := cfg; appliedHash := hash; appliedAt := Some at_; iface := pc_iface prepared;
                   resolved := resolvedTargets prepared; lastError := lastError s; dnsStale := false;
                   dnsLastResolvedAt := last; dnsFailureCount := dnsFailureCount s |})
  end end end.

Definition applyPreparedLocked (cfg : Config) (prepared : preparedConfig) (skipConflicts : bool) (desiredHash : string) : proc World unit :=
  let hash := if bool_decide (desiredHash = "") then configHash cfg else desiredHash in
  if unused cfg then apply_disabled cfg hash else apply_rules cfg prepared skipConflicts hash.

Definition applyLocked (own : owner) (cfg : Config) (coreListeners : list Listener) (desiredHash : string) : proc World unit :=
  r ← validateLocked own cfg coreListeners;
  match r.2 with
  | Err e => throw e
  | Ok prepared => applyPreparedLocked r.1 prepared false desiredHash
  end.

(** ** Status *)

Definition policy_error : string :=
  "host FORWARD policy is drop; add explicit allow rules with remnanode-forward-host-allow comments for every forwarded flow".

(** The check of the host firewall, for an applied table *)
Definition degraded (state : string) (cfg : Config) : proc World bool :=
  if negb (bool_decide (state = "applied")) then mret false else
  policy ← firewallForwardPolicy;
  if negb (bool_decide (policy = "drop")) then mret false
  else allowed ← hostFirewallAllows cfg; mret (negb allowed).

Definition runtimeStateLocked : proc World (string * string) :=
  s ← gets svc;
  matches ← (if unused (applied s) then mret true else tableMatches (appliedHash s));
  let state := if unused (applied s) then "disabled" else if matches : bool then "applied" else "error" in
  let last := if negb matches && bool_decide (lastError s = "")
              then "applied nftables rules do not match the stored forwarding configuration" else lastError s in
  let state := if bool_decide (lastError s = "") then state else "error" in
  d ← degraded state (applied s);
  mret (if d : bool then ("degraded", policy_error) else (state, last)).

Fixpoint read_items (result : gmap string Counter) (items : list (option string)) : gmap string Counter :=
  match items with
  | [] => result
  | item :: rest =>
      read_items (match raw ← item; nft_counter raw with Some (name, c) => <[name := c]> result | None => result end) rest
  end.

Definition readCounters : proc World (gmap string Counter) :=
  out ← output "read forwarding counters" ["nft"; "-j"; "list"; "counters"; "ip"; TableName];
  match nft_items out with
  | Err e => throw (ErrWrap "decode forwarding counters" e)
  | Ok items => mret (read_items ∅ items)
  end.

Definition zero_counter : Counter := {| Packets := 0; Bytes := 0 |}.
Definition directionCounters (values : gmap string Counter) (id protocol : string) : DirectionCounters :=
  let prefix := counterPrefix id protocol in
  {| Upload := default zero_counter (values !! (prefix +:+ "_up")); Download := default zero_counter (values !! (prefix +:+ "_down")) |}.

Definition rule_status (s : service) (values : gmap string Counter) (rule : Rule) : RuleStatus :=
  {| rs_ID := ID rule; ResolvedTargetAddress := default "" (resolved s !! ID rule);
     rs_TCP := if bool_decide (Protocol rule = ProtocolTCP) || bool_decide (Protocol rule = ProtocolTCPUDP)
               then Some (directionCounters values (ID rule) "tcp") else None;
     rs_UDP := if bool_decide (Protocol rule = ProtocolUDP) || bool_decide (Protocol rule = ProtocolTCPUDP)
               then Some (directionCounters values (ID rule) "udp") else None |}.

Definition statusLocked : proc World Status :=
  r ← runtimeStateLocked;
  forwarding ← readIPv4Forwarding;
  policy ← firewallForwardPolicy;
  s ← gets svc;
  allowed ← (if bool_decide (r.1 = "applied") && bool_decide (policy = "drop") then hostFirewallAllows (applied s) else mret true);
  c ← attempt readCounters;
  let values := match c with Ok v => v | Err _ => ∅ end in
  mret {| State := if allowed : bool then r.1 else "degraded"; st_AppliedHash := appliedHash s; st_AppliedAt := appliedAt s;
          ResolvedListenInterface := iface s; st_LastError := if allowed then r.2 else policy_error;
          ForwardingEnabled := forwarding; FirewallForwardPolicy := policy;
          st_Rules := rule_status s values <$> enabled_rules (applied s) |}.

Definition Status_ : proc World Status := statusLocked.

Definition RuntimeSummary_ : proc World RuntimeSummary :=
  r ← runtimeStateLocked;
  s ← gets svc;
  mret {| sum_State := r.1; ConfigHash := appliedHash s; LastSyncedAt := appliedAt s; sum_LastError := r.2;
          ConfiguredRules := Z.of_nat (length (Rules (applied s))); EnabledRules := Z.of_nat (enabledRuleCount (applied s));
          DNSResults := resolved s; sum_DNSStale := dnsStale s; sum_DNSLastResolvedAt := dnsLastResolvedAt s;
          sum_DNSFailureCount := dnsFailureCount s |}.

(** ** Operations *)

Definition SyncWithHash (cfg : Config) (coreListeners : list Listener) (desiredHash : string) : proc World (Status * option error) :=
  r ← attempt (applyLocked Request (normalizeConfig cfg) coreListeners desiredHash);
  match r with
  | Err e =>
      _ ← set_svc (set_error (Error e));
      s ← gets svc;
      _ ← when (isDNSResolutionError e && negb (bool_decide (resolved s = ∅)))
            (_ ← set_svc (λ s, set_dns true (dnsLastResolvedAt s) (Int.uwrap64 (dnsFailureCount s + 1)) s);
             _ ← attempt persistCurrentLocked; mret tt);
      st ← statusLocked; mret (st, Some e)
  | Ok _ => _ ← set_svc (set_error ""); st ← statusLocked; mret (st, None)
  end.
Definition Sync (cfg : Config) (coreListeners : list Listener) : proc World (Status * option error) :=
  SyncWithHash cfg coreListeners "".

Definition refresh_failed (e : error) : proc World unit :=
  _ ← set_svc (set_error (Error e)); _ ← attempt persistCurrentLocked; throw e.

(** [sameStringMap]: of one size, and what the first maps a key to the second does
    (an absent key reads as the empty string). *)
Definition sameStringMap (this other : gmap string string) : bool :=
  (size this =? size other)%nat && bool_decide (map_Forall (λ k v, default "" (other !! k) = v) this).

Definition RefreshDNS (coreListeners : list Listener) : proc World unit :=
  s ← gets svc;
  if negb (cfg_Enabled (applied s)) || (enabledHostnameRuleCount (applied s) =? 0)%nat then mret tt else
  r ← validateLocked Applied (applied s) coreListeners;
  match r.2 with
  | Err e =>
      _ ← set_svc (set_error (Error e));
      _ ← when (isDNSResolutionError e)
            (set_svc (λ s, set_dns (negb (bool_decide (resolved s = ∅))) (dnsLastResolvedAt s) (Int.uwrap64 (dnsFailureCount s + 1)) s));
      _ ← attempt persistCurrentLocked; throw e
  | Ok prepared =>
      if sameStringMap (resolved s) (resolvedTargets prepared) then
        at_ ← now;
        _ ← set_svc (λ s, set_error "" (set_dns false (Some at_) (dnsFailureCount s) s));
        _ ← attempt persistCurrentLocked; mret tt
      else
        a ← attempt (applyPreparedLocked r.1 prepared true (appliedHash s));
        match a with
        | Err e => refresh_failed e
        | Ok _ => set_svc (set_error "")
        end
  end.

Definition ValidateCoreConfig (coreType : string) (coreConfig : object) : proc World unit :=
  s ← gets svc; lift (validate_core (applied s) coreType coreConfig).

(** The value of a counter, cut at the largest [int64] *)
Definition cap (value : Z) : Z := Z.min value Int.max_int64.

Definition usage_of (scope : string) (values : gmap string Counter) (rule : Rule) (protocol : string) : result (list UsageCounter) :=
  let prefix := counterPrefix (ID rule) protocol in
  _ ← fail_if (bool_decide (values !! (prefix +:+ "_up") = None)) (ErrMsg ("forwarding counter " +:+ prefix +:+ "_up is missing"));
  _ ← fail_if (bool_decide (values !! (prefix +:+ "_down") = None)) (ErrMsg ("forwarding counter " +:+ prefix +:+ "_down is missing"));
  let counters := directionCounters values (ID rule) protocol in
  let item direction value := {| uc_RuleID := ID rule; uc_Protocol := protocol; uc_Direction := direction; uc_Scope := scope;
                                 uc_Bytes := cap value |} in
  Ok [item "uplink" (Bytes (Upload counters)); item "downlink" (Bytes (Download counters))].

Definition usage_rows (cfg : Config) (scope : string) (values : gmap string Counter) : result (list UsageCounter) :=
  foldr_result (λ acc (f : Rule * string), l ← usage_of scope values f.1 f.2; Ok (acc ++ l)) []
    (mjoin ((λ r, (λ p, (r, p)) <$> expandedProtocols (Protocol r)) <$> enabled_rules cfg)).

Definition UsageCounters : proc World (list UsageCounter * bool) :=
  s ← gets svc;
  match appliedAt s with
  | None => mret ([], false)
  | Some at_ =>
      if unused (applied s) then mret ([], false) else
      r ← runtimeStateLocked;
      if negb (bool_decide (r.1 = "applied") || bool_decide (r.1 = "degraded")) then mret ([], false) else
      values ← readCounters;
      rows ← lift (usage_rows (applied s) (appliedHash s +:+ ":" +:+ format_rfc3339nano at_) values);
      mret (rows, true)
  end.

Definition fail_restore {A} (what : string) (e : error) : proc World A :=
  let text := what +:+ ": " +:+ Error e in _ ← set_svc (set_error text); throw (ErrMsg text).

Definition or_fail {A} (what : string) (m : proc World A) : proc World A :=
  r ← attempt m; match r with Ok x => mret x | Err e => fail_restore what e end.

Definition load (p : persistedState) (s : service) : service :=
  {| applied := normalizeConfig (ps_Config p); appliedHash := ps_AppliedHash p; appliedAt := Some (ps_AppliedAt p);
     iface := ps_Interface p; resolved := ResolvedTargets p; lastError := lastError s; dnsStale := DNSStale p;
     dnsLastResolvedAt := DNSLastResolvedAt p; dnsFailureCount := DNSFailureCount p |}.

Definition restore_loaded : proc World unit :=
  s ← gets svc;
  if unused (applied s) then or_fail "restore host forwarding rules" (reconcileHostFirewall (applied s) "" ∅) else
  matches ← tableMatches (appliedHash s);
  if negb matches then or_fail "restore forwarding rules" (applyLocked Applied (applied s) [] (appliedHash s)) else
  r ← validateLocked Applied (applied s) [];
  match r.2 with
  | Err e => fail_restore "validate restored forwarding rules" e
  | Ok prepared =>
      if negb (sameStringMap (resolved s) (resolvedTargets prepared)) then
        or_fail "refresh restored forwarding targets" (applyPreparedLocked r.1 prepared true (appliedHash s))
      else
        _ ← or_fail "restore host forwarding rules"
              (reconcileHostFirewall (config prepared) (pc_iface prepared) (routes prepared));
        set_svc (set_targets (pc_iface prepared) (resolvedTargets prepared))
  end.

Definition Restore : proc World unit :=
  failure ← ask (EvFile "read") (λ l, file_reply l "read");
  content ← gets state_file;
  match failure, content with
  | Some e, _ => _ ← set_svc (set_error (Error e)); throw e
  | None, None => mret tt
  | None, Some raw =>
      match unmarshal_state raw with
      | Err e => fail_restore "decode forwarding state" e
      | Ok persisted => _ ← set_svc (load persisted); restore_loaded
      end
  end.

End host.
End Service.
