(* ===== verification/ForwardSpec.v ===== *)
(** * What the forwarding service guarantees

    [sync_outcome]: a synchronisation takes effect, or keeps what was applied.
    [refresh_error]: a failed refresh of the targets keeps what is in force.
    [refresh_never]: after a synchronisation no host name is left to refresh. *)
From S2P Require Import Prelude GoStr GoTime GoNet GoAny GoSort SingBoxConfig ForwardRules ForwardRender ForwardProbe Forwarding.
Import Forward Render Probe Service.

(** ** IPv4 addresses are read as they are written *)

Lemma octet_roundtrip n : (0 ≤ n < 256)%Z → parse_octet (itoa n) = Some n ∧ all_bytes is_digit (itoa n) = true.
Proof.
  intros Hn.
  assert (forallb (λ n, bool_decide (parse_octet (itoa n) = Some n ∧ all_bytes is_digit (itoa n) = true)) (seqZ 0 256) = true) as H
    by (vm_compute; reflexivity).
  rewrite forallb_elem_of in H. specialize (H n). rewrite elem_of_seqZ in H. by apply bool_decide_eq_true in H; [|lia].
Qed.

Lemma split_digits s rest : all_bytes is_digit s = true → split_byte "." (s +:+ "." +:+ rest) = s :: split_byte "." rest.
Proof.
  induction s as [|c s IH]; [done|]. cbn [all_bytes]. intros [Hc Hs]%andb_true_iff.
  change (String c s +:+ "." +:+ rest) with (String c (s +:+ "." +:+ rest)). cbn [split_byte].
  rewrite (IH Hs). destruct (Ascii.eqb_spec c ".") as [->|]; [discriminate Hc|done].
Qed.
Lemma split_digits_end s : all_bytes is_digit s = true → split_byte "." s = [s].
Proof.
  induction s as [|c s IH]; [done|]. cbn [all_bytes]. intros [Hc Hs]%andb_true_iff. cbn [split_byte].
  rewrite (IH Hs). destruct (Ascii.eqb_spec c ".") as [->|]; [discriminate Hc|done].
Qed.
Lemma addr_kind_digits s rest : all_bytes is_digit s = true → addr_kind (s +:+ "." +:+ rest) = Some "."%char.
Proof.
  induction s as [|c s IH]; [done|]. cbn [all_bytes]. intros [Hc Hs]%andb_true_iff.
  change (String c s +:+ "." +:+ rest) with (String c (s +:+ "." +:+ rest)). cbn [addr_kind].
  destruct (Ascii.eqb_spec c ".") as [->|]; [discriminate Hc|]. destruct (Ascii.eqb_spec c ":") as [->|]; [discriminate Hc|].
  destruct (Ascii.eqb_spec c "%") as [->|]; [discriminate Hc|]. by apply IH.
Qed.

Lemma v4_roundtrip v : (0 ≤ v < 2 ^ 32)%Z → parse_ip (v4_string v) = Some (of_v4 v).
Proof.
  intros Hv. unfold v4_string.
  pose proof (Z.mod_pos_bound (v / 16777216) 256) as B1. pose proof (Z.mod_pos_bound (v / 65536) 256) as B2.
  pose proof (Z.mod_pos_bound (v / 256) 256) as B3. pose proof (Z.mod_pos_bound v 256) as B4.
  destruct (octet_roundtrip (v / 16777216 mod 256)) as [P1 D1]; [lia|]. destruct (octet_roundtrip (v / 65536 mod 256)) as [P2 D2]; [lia|].
  destruct (octet_roundtrip (v / 256 mod 256)) as [P3 D3]; [lia|]. destruct (octet_roundtrip (v mod 256)) as [P4 D4]; [lia|].
  unfold parse_ip, parse_addr. rewrite addr_kind_digits by done. unfold parse_v4.
  rewrite !split_digits, split_digits_end by done. cbn [mapM fmap option_fmap option_map mbind option_bind]. rewrite P1, P2, P3, P4.
  cbn. do 2 f_equal.
  assert (v / 16777216 = v / 65536 / 256)%Z as E1 by (by rewrite Z.div_div by lia).
  assert (v / 65536 = v / 256 / 256)%Z as E2 by (by rewrite Z.div_div by lia).
  pose proof (Z.div_mod v 256). pose proof (Z.div_mod (v / 256) 256). pose proof (Z.div_mod (v / 65536) 256).
  rewrite (Z.mod_small (v / 16777216)) by (split; [apply Z.div_pos|apply Z.div_lt_upper_bound]; lia). lia.
Qed.

Lemma routable_v4 a : isRoutableIPv4 a = true → ∃ v, to4 a = Some v ∧ (0 ≤ v < 2 ^ 32)%Z ∧ a = of_v4 v.
Proof.
  unfold isRoutableIPv4, to4. destruct (a / 2 ^ 32 =? 65535)%Z eqn:E; [|done]. intros _. eexists. split; [done|].
  pose proof (Z.mod_pos_bound a (2 ^ 32)) as Hb. split; [lia|]. unfold of_v4, v4_prefix.
  pose proof (Z.div_mod a (2 ^ 32)) as Hd. apply Z.eqb_eq in E. lia.
Qed.

(** The text of a routable address is a literal of that address. *)
Lemma routable_literal a : isRoutableIPv4 a = true → parse_ip (ip_string a) = Some a ∧ isIPv4Literal (ip_string a) = true.
Proof.
  intros H. destruct (routable_v4 a H) as (v & Hv & Hb & ->).
  assert (parse_ip (ip_string (of_v4 v)) = Some (of_v4 v)) as E.
  { unfold ip_string. rewrite Hv. by apply v4_roundtrip. }
  split; [exact E|]. unfold isIPv4Literal. rewrite E. unfold is_v4. unfold to4 in Hv. by destruct (_ =? _)%Z.
Qed.

(** ** The table of the agent, as the accepted scripts make it *)

Definition is_table_script (script : string) : bool :=
  has_prefix script ("table ip " +:+ TableName +:+ " {") || has_prefix script delete_script.

(** The newest script about the table that [nft] accepted *)
Fixpoint table_script (l : list event) : option string :=
  match l with
  | [] => None
  | EvScript false script true :: rest => if is_table_script script then Some script else table_script rest
  | _ :: rest => table_script rest
  end.

(** Neither the service, nor its file, nor the table of the agent changed. *)
Definition quiet (w w' : World) : Prop :=
  svc w' = svc w ∧ state_file w' = state_file w ∧ table_script (events w') = table_script (events w).
(** Only the service changed. *)
Definition outside_same (w w' : World) : Prop :=
  state_file w' = state_file w ∧ table_script (events w') = table_script (events w).

#[export] Instance quiet_refl : Reflexive quiet.
Proof. by intros w. Qed.
#[export] Instance quiet_trans : Transitive quiet.
Proof. intros w1 w2 w3 (? & ? & ?) (? & ? & ?). unfold quiet. split_and!; congruence. Qed.

(** A quiet procedure *)
Definition mute {A} (m : proc World A) : Prop := ∀ w, quiet w (m w).1.

Lemma mute_run {A} (m : proc World A) w w' r : mute m → m w = (w', r) → quiet w w'.
Proof. intros H E. specialize (H w). by rewrite E in H. Qed.
Lemma mute_bind {A B} (m : proc World A) (f : A → proc World B) : mute m → (∀ a, mute (f a)) → mute (m ≫= f).
Proof.
  intros Hm Hf w. specialize (Hm w). unfold mbind, proc_bind. destruct (m w) as [w1 [a|e]]; [|exact Hm].
  etransitivity; [exact Hm|apply Hf].
Qed.
Lemma mute_ret {A} (a : A) : mute (mret a).
Proof. intros w. reflexivity. Qed.
Lemma mute_throw {A} e : mute (throw e : proc World A).
Proof. intros w. reflexivity. Qed.
Lemma mute_gets {A} (f : World → A) : mute (gets f).
Proof. intros w. reflexivity. Qed.
Lemma mute_lift {A} (r : result A) : mute (lift r).
Proof. intros w. reflexivity. Qed.
Lemma mute_attempt {A} (m : proc World A) : mute m → mute (attempt m).
Proof. intros H w. specialize (H w). unfold attempt. by destruct (m w). Qed.
Lemma mute_when b (m : proc World unit) : mute m → mute (when b m).
Proof. destruct b; [done|intros _; apply mute_ret]. Qed.
Lemma mute_fold {A B} (step : B → A → proc World B) b l : (∀ b x, mute (step b x)) → mute (proc_fold step b l).
Proof.
  intros H. revert b. induction l as [|x l IH]; intros b; [apply mute_ret|]. apply mute_bind; [apply H|]. intros. apply IH.
Qed.

Create HintDb mute.
#[export] Hint Resolve mute_ret mute_throw mute_gets mute_lift mute_attempt mute_when : mute.

(** Go down the binds and cases of a procedure. *)
Ltac mute_tac :=
  repeat first
    [ progress (auto with mute)
    | apply mute_bind; [|intros ?]
    | apply mute_attempt | apply mute_when
    | match goal with |- mute (match ?x with _ => _ end) => destruct x end ].

Section host.
Context {HostI : Host} {StateI : StateJson} {CaseI : UnicodeCase} {PrintI : UnicodePrint} {DigestI : SingBoxConfig.Digest}
        {SortI : SortSlice} {SetI : SetRange}.

Lemma ask_mute {A} e (reply : list event → A) : (∀ c s, e ≠ EvScript c s true) → mute (ask e reply).
Proof.
  intros He w. split; [done|]. split; [done|]. cbn. destruct e; try done. destruct check; [done|]. destruct ok; [|done].
  by destruct (He false script).
Qed.
Lemma command_mute args : mute (command args).
Proof. by apply ask_mute. Qed.
Lemma now_mute : mute now.
Proof. by apply ask_mute. Qed.
Hint Resolve command_mute now_mute : mute.

Lemma output_mute what args : mute (output what args).
Proof. unfold output. mute_tac. Qed.
Lemma file_step_mute op : mute (file_step op).
Proof. apply mute_bind; [by apply ask_mute|]. intros [e|]; auto with mute. Qed.
Lemma tableExists_mute : mute tableExists.
Proof. unfold tableExists. mute_tac. Qed.
Lemma tableMatches_mute hash : mute (tableMatches hash).
Proof. unfold tableMatches. mute_tac. Qed.
Lemma policy_mute : mute firewallForwardPolicy.
Proof. unfold firewallForwardPolicy. mute_tac. Qed.
Lemma allows_mute cfg : mute (hostFirewallAllows cfg).
Proof. unfold hostFirewallAllows. mute_tac. Qed.
Hint Resolve output_mute file_step_mute tableExists_mute tableMatches_mute policy_mute allows_mute : mute.
Lemma chain_mute chain : mute (nftChainExists chain).
Proof. unfold nftChainExists. mute_tac. Qed.
Lemma sockets_mute cfg : mute (detectSocketConflicts cfg).
Proof. unfold detectSocketConflicts. mute_tac. Qed.
Lemma nft_conflicts_mute cfg : mute (detectNFTConflicts cfg).
Proof. unfold detectNFTConflicts. mute_tac. Qed.
Lemma read_forward_mute : mute readIPv4Forwarding.
Proof. apply mute_bind; [by apply ask_mute|]. intros; auto with mute. Qed.
Hint Resolve chain_mute sockets_mute nft_conflicts_mute read_forward_mute : mute.
Lemma ensure_mute : mute ensureIPv4Forwarding.
Proof.
  apply mute_bind; [auto with mute|]. intros []; [auto with mute|]. apply mute_bind; [by apply ask_mute|].
  intros [e|]; mute_tac.
Qed.
Lemma locals_mute : mute localIPv4Addresses.
Proof. apply mute_bind; [by apply ask_mute|]. intros; auto with mute. Qed.
Lemma listen_interface_mute configured : mute (resolveListenInterface configured).
Proof.
  unfold resolveListenInterface. destruct (negb _); [|mute_tac].
  apply mute_bind; [by apply ask_mute|]. intros [[]|]; auto with mute.
Qed.
Lemma target_interface_mute target : mute (resolveTargetInterface target).
Proof. unfold resolveTargetInterface. mute_tac. Qed.
Lemma target_mute target preferred : mute (resolveTargetIPv4 target preferred).
Proof.
  unfold resolveTargetIPv4. destruct (parse_ip target) as [a|]; [mute_tac|]. destruct (negb _); [mute_tac|].
  apply mute_bind; [by apply ask_mute|]. intros [ips|e]; mute_tac.
Qed.
Hint Resolve ensure_mute locals_mute listen_interface_mute target_interface_mute target_mute : mute.

Lemma resolve_rules_mute locals preferred i seen t rules : mute (resolve_rules locals preferred i seen t rules).
Proof.
  revert i seen t. induction rules as [|rule rest IH]; intros i seen t; cbn [resolve_rules]; mute_tac.
Qed.
Lemma add_route_mute r rule : mute (add_route r rule).
Proof. unfold add_route. mute_tac. Qed.
Hint Resolve resolve_rules_mute add_route_mute : mute.
Lemma prepare_mute cfg t ls : mute (prepare cfg t ls).
Proof.
  unfold prepare. apply mute_bind; [auto with mute|]. intros _. destruct (_ || _); [auto with mute|].
  apply mute_bind; [auto with mute|]. intros ?. apply mute_bind; [auto with mute|]. intros _.
  apply mute_bind; [apply mute_fold; auto with mute|]. auto with mute.
Qed.
Hint Resolve prepare_mute : mute.
Lemma degraded_mute state cfg : mute (degraded state cfg).
Proof. unfold degraded. mute_tac. Qed.
Hint Resolve degraded_mute : mute.
Lemma runtime_state_mute : mute runtimeStateLocked.
Proof. unfold runtimeStateLocked. mute_tac. Qed.
Lemma counters_mute : mute readCounters.
Proof. unfold readCounters. mute_tac. Qed.
Hint Resolve runtime_state_mute counters_mute : mute.
Lemma status_mute : mute statusLocked.
Proof. unfold statusLocked. mute_tac. Qed.
Hint Resolve status_mute : mute.
End host.

#[export] Hint Resolve ask_mute command_mute now_mute output_mute file_step_mute tableExists_mute tableMatches_mute policy_mute allows_mute
  chain_mute sockets_mute nft_conflicts_mute read_forward_mute ensure_mute locals_mute target_mute resolve_rules_mute
  add_route_mute prepare_mute runtime_state_mute counters_mute status_mute : mute.

(** ** Scripts and the file *)

Section effects.
Context {HostI : Host} {StateI : StateJson} {CaseI : UnicodeCase} {PrintI : UnicodePrint} {DigestI : SingBoxConfig.Digest}
        {SortI : SortSlice} {SetI : SetRange}.

Lemma script_spec script check w w' r :
  runNFTScript script check w = (w', r) →
  svc w' = svc w ∧ state_file w' = state_file w ∧
  table_script (events w') =
    match r with Ok _ => if negb check && is_table_script script then Some script else table_script (events w)
            | Err _ => table_script (events w) end.
Proof.
  unfold runNFTScript. destruct (script_reply _ _ _); intros [= <- <-]; (split; [done|split; [done|]]); cbn; by destruct check.
Qed.

Lemma script_mute script check : check = true ∨ is_table_script script = false → mute (runNFTScript script check).
Proof.
  intros H w. destruct (runNFTScript script check w) as [w' r] eqn:E. apply script_spec in E as (E1 & E2 & E3).
  split; [done|]. split; [done|]. cbn. rewrite E3. destruct H as [H|H]; rewrite H, ?andb_false_r; by destruct r.
Qed.

Lemma host_script_mute script : is_table_script script = false → mute (runHostFirewallScript script).
Proof.
  intros H. unfold runHostFirewallScript. destruct (bool_decide _); [auto with mute|].
  apply mute_bind; [apply mute_attempt, script_mute; auto|]. intros [u|e]; [|auto with mute].
  apply mute_bind; [apply mute_attempt, script_mute; auto|]. intros [u'|e]; auto with mute.
Qed.

Lemma reconcile_mute cfg ingress routes : mute (reconcileHostFirewall cfg ingress routes).
Proof.
  unfold reconcileHostFirewall. apply mute_bind; [auto with mute|]. intros managed.
  apply mute_bind; [destruct (_ && _); auto with mute|]. intros policy.
  destruct (_ || _); [destruct (negb managed); [auto with mute|by apply host_script_mute]|].
  apply mute_bind; [auto with mute|]. intros parent. destruct (negb parent); [auto with mute|].
  apply mute_bind; [auto with mute|]. intros listing. apply host_script_mute. by destruct managed.
Qed.

Lemma ruleset_is_table cfg ingress routes hash replace : is_table_script (renderRuleset cfg ingress routes hash replace) = true.
Proof. by destruct replace. Qed.

(** An error that a step of the file gave *)
Definition file_error (e : error) : Prop := ∃ l op, file_reply l op = Some e.

Lemma file_step_spec op w w' r :
  file_step op w = (w', r) → quiet w w' ∧ match r with Ok _ => True | Err e => file_error e end.
Proof.
  intros E. split; [by apply (mute_run _ _ _ _ (file_step_mute op) E)|]. unfold file_step in E. step E w1 a H1.
  injection H1 as <- <-. destruct (file_reply _ _) as [e|] eqn:Hf; injection E as <- <-; [|done]. by exists (events w), op.
Qed.

Lemma persist_spec value w w' r :
  persist value w = (w', r) →
  svc w' = svc w ∧ table_script (events w') = table_script (events w) ∧
  match r with
  | Ok _ => state_file w' = Some (marshal_state value)
  | Err e => state_file w' = state_file w ∧ file_error e
  end.
Proof.
  intros E. unfold persist in E. step E w1 a H1.
  assert (quiet w w1 ∧ match a with Ok _ => True | Err e => file_error e end) as [(Q1 & Q2 & Q3) F].
  { clear E. revert w H1. generalize ["mkdir"; "create"; "chmod"; "write"; "sync"; "close"; "rename"]. intros ops.
    induction ops as [|op ops IH]; intros w H1; [injection H1 as <- <-; done|]. unfold proc_iter in H1. cbn [proc_fold] in H1.
    step H1 w2 b H2. apply file_step_spec in H2 as [Q F]. destruct b as [[]|e]; [|destruct H1 as [-> ->]; done].
    destruct (IH w2 H1) as [Q' F']. split; [by transitivity w2|done]. }
  destruct a as [[]|e]; [|destruct E as [-> ->]; done]. injection E as <- <-. done.
Qed.

Lemma delete_spec w w' r :
  deleteTable w = (w', r) → svc w' = svc w ∧ state_file w' = state_file w ∧
  match r with
  | Ok _ => table_script (events w') = Some delete_script ∨ table_script (events w') = table_script (events w)
  | Err _ => table_script (events w') = table_script (events w)
  end.
Proof.
  intros E. unfold deleteTable in E. step E w1 a H1. apply (mute_run _ _ _ _ tableExists_mute) in H1 as (Q1 & Q2 & Q3).
  destruct a as [x|e]; [|destruct E as [-> ->]; done]. destruct (negb x).
  { injection E as <- <-. split_and!; try done. by right. }
  step E w2 b H2. apply script_spec in H2 as (R1 & R2 & R3). destruct b as [u|e].
  - apply script_spec in E as (S1 & S2 & S3). split; [congruence|]. split; [congruence|].
    destruct r; [left; exact S3|]. rewrite S3, R3. exact Q3.
  - destruct E as [-> ->]. split; [congruence|]. split; [congruence|]. rewrite R3. exact Q3.
Qed.
End effects.

(** ** Accepted configurations *)

Definition rule_ok (r : Rule) : Prop :=
  trim_space (ID r) ≠ "" ∧ trim_space (Name r) ≠ "" ∧ (slen (Name r) ≤ 64)%Z ∧
  Protocol r ∈ [ProtocolTCP; ProtocolUDP; ProtocolTCPUDP] ∧ (1 ≤ ListenPort r ≤ 65535)%Z ∧ (1 ≤ TargetPort r ≤ 65535)%Z.

(** A rule and the same rule with its target resolved to an address that is not local *)
Definition resolves (locals : gset string) (r r' : Rule) : Prop :=
  ∃ address, r' = with_target address r ∧
    (Enabled r = true → (address ∉ locals) ∧ ∃ a, isRoutableIPv4 a = true ∧ address = ip_string a) ∧
    (Enabled r = false → address = TargetAddress r).

Lemma with_target_same r : with_target (TargetAddress r) r = r.
Proof. by destruct r. Qed.

Lemma check_rule_ok `{UnicodePrint} i seen r : check_rule i seen r = Ok tt → rule_ok r ∧ ID r ∉ seen.
Proof.
  intros E. unfold check_rule in E. inv_res.
  repeat match goal with
  | H : _ || _ = false |- _ => apply orb_false_iff in H as [? ?]
  | H : negb _ = false |- _ => apply negb_false_iff in H
  | H : _ && _ = true |- _ => apply andb_true_iff in H as [? ?]
  | H : bool_decide _ = false |- _ => apply bool_decide_eq_false in H
  | H : bool_decide _ = true |- _ => apply bool_decide_eq_true in H
  end.
  unfold in_range in *. split; [|done]. split_and!; try done; lia.
Qed.

Section validation.
Context {HostI : Host} {StateI : StateJson} {CaseI : UnicodeCase} {PrintI : UnicodePrint} {DigestI : SingBoxConfig.Digest}
        {SortI : SortSlice} {SetI : SetRange}.

Lemma choose_spec preferred ips value :
  choose_address preferred ips = Some value → ∃ a, isRoutableIPv4 a = true ∧ value = ip_string a.
Proof.
  unfold choose_address. intros E.
  assert (value ∈ ip_string <$> filter (λ a, isRoutableIPv4 a = true) ips) as Hin.
  { case_bool_decide as Hp; [by injection E as <-|]. destruct (ip_string <$> _); [done|]. injection E as ->. left. }
  apply list_elem_of_fmap in Hin as (a & -> & [Ha _]%list_elem_of_filter). eauto.
Qed.

Lemma target_spec target preferred w w' address :
  resolveTargetIPv4 target preferred w = (w', Ok address) → ∃ a, isRoutableIPv4 a = true ∧ address = ip_string a.
Proof.
  unfold resolveTargetIPv4. destruct (parse_ip target) as [a|].
  - destruct (isRoutableIPv4 a) eqn:Ha; intros [= <- <-]. eauto.
  - destruct (negb _); [done|]. intros E. proc_as E w1 r H1. destruct r as [ips|e]; [|done].
    destruct (choose_address preferred ips) as [value|] eqn:Hc; [|done]. injection E as <- <-. by eapply choose_spec.
Qed.

(** What the first loop returns: the rules with their targets resolved; when it did not
    stop, every rule was good, the identifiers are new and distinct, and the targets are
    those of the enabled rules. *)
Definition resolved_rules (locals : gset string) (seen : gset string) (t : gmap string string) (rules : list Rule) (r : resolution) : Prop :=
  Forall2 (resolves locals) rules (array r) ∧ Forall rule_ok rules ∧ NoDup (ID <$> rules) ∧
  (∀ rule, rule ∈ rules → ID rule ∉ seen) ∧
  (∀ rule, rule ∈ array r → Enabled rule = true → targets r !! ID rule = Some (TargetAddress rule)) ∧
  (∀ id, id ∉ ID <$> rules → targets r !! id = t !! id).

Lemma resolves_id locals rule rule' : resolves locals rule rule' → ID rule' = ID rule ∧ Enabled rule' = Enabled rule ∧
  Protocol rule' = Protocol rule ∧ ListenPort rule' = ListenPort rule.
Proof. by intros (address & -> & _). Qed.

Lemma resolves_all locals rules array : Forall2 (resolves locals) rules array → ID <$> array = ID <$> rules.
Proof.
  induction 1 as [|x y rules array H _ IH]; [done|]. rewrite !fmap_cons, IH. f_equal. by apply (resolves_id _ _ _ H).
Qed.

Lemma resolved_cons locals seen t t' rule rule' rest r :
  rule_ok rule → ID rule ∉ seen → resolves locals rule rule' →
  t' !! ID rule = (if Enabled rule then Some (TargetAddress rule') else t' !! ID rule) →
  (∀ id, id ≠ ID rule → t' !! id = t !! id) →
  resolved_rules locals ({[ID rule]} ∪ seen) t' rest r → resolved_rules locals seen t (rule :: rest) (keep rule' r).
Proof.
  intros Hok Hseen Hres Hself Hother (A & B & C & D & E & F). pose proof (resolves_id _ _ _ Hres) as (I & En & _).
  assert (ID rule ∉ ID <$> rest) as Hnew.
  { intros (x & Hx & Hin)%list_elem_of_fmap. apply (D _ Hin). rewrite <- Hx. set_solver. }
  split; [by constructor|]. split; [by constructor|]. split; [by constructor|]. split_and!.
  - intros x [->|Hin]%elem_of_cons; [done|]. specialize (D _ Hin). set_solver.
  - intros x [->|Hin]%elem_of_cons Hen; [|by apply E]. cbn. rewrite I, (F _ Hnew), Hself, <- En, Hen. done.
  - intros id Hid. rewrite fmap_cons, not_elem_of_cons in Hid. destruct Hid as [Hne Hid]. cbn. rewrite (F _ Hid). by apply Hother.
Qed.

Lemma resolve_rules_spec locals preferred i seen t rules w w' r :
  resolve_rules locals preferred i seen t rules w = (w', Ok r) → failed r = None → resolved_rules locals seen t rules r.
Proof.
  revert i seen t w r. induction rules as [|rule rest IH]; intros i seen t w r E Hf.
  - injection E as <- <-. split_and!; try done; [constructor|..]; by intros ? ?%elem_of_nil.
  - cbn [resolve_rules] in E. destruct (check_rule i seen rule) as [[]|e] eqn:Hc; [|by injection E as <- <-].
    apply check_rule_ok in Hc as [Hok Hseen]. destruct (Enabled rule) eqn:He; cbn [negb] in E.
    + step_attempt E w1 a Ha. destruct a as [address|e]; [|by injection E as <- <-].
      case_bool_decide as Hl; [by injection E as <- <-|]. step E w2 b Hb. destruct b as [b|e]; [|by destruct E as [_ ?]].
      injection E as <- <-. eapply (resolved_cons _ _ _ (<[ID rule := address]> t)); try done.
      * exists address. split; [done|]. split; [|congruence]. intros _. split; [done|]. by eapply target_spec.
      * rewrite He. apply lookup_insert_eq.
      * intros id Hne. by apply lookup_insert_ne.
      * eapply IH; [exact Hb|exact Hf].
    + step E w2 b Hb. destruct b as [b|e]; [|by destruct E as [_ ?]]. injection E as <- <-.
      eapply (resolved_cons _ _ _ t); try done.
      * exists (TargetAddress rule). split; [by rewrite with_target_same|]. split; [congruence|done].
      * by rewrite He.
      * eapply IH; [exact Hb|exact Hf].
Qed.

(** ** Conflicts *)

Lemma loop_ok {A} (check : A → result unit) l :
  foldr_result (λ _, check) tt l = Ok tt ↔ ∀ x, x ∈ l → check x = Ok tt.
Proof.
  induction l as [|x l IH]; cbn.
  - split; [by intros _ y ?%elem_of_nil|done].
  - setoid_rewrite elem_of_cons. destruct (check x) as [[]|e] eqn:E; cbn.
    + rewrite IH. split; [intros H y [->|?]; auto|auto].
    + split; [done|]. intros H. specialize (H x (or_introl eq_refl)). congruence.
Qed.

Lemma core_conflict_ok rules ls :
  core_conflict rules ls = Ok tt ↔ ∀ r l, r ∈ rules → Enabled r = true → l ∈ ls → clashes r l = false.
Proof.
  unfold core_conflict. rewrite loop_ok. split.
  - intros H r l Hr He Hl. specialize (H r Hr). rewrite He, loop_ok in H. by apply H, fail_if_ok in Hl.
  - intros H r Hr. destruct (Enabled r) eqn:He; [|done]. apply loop_ok. intros l Hl. apply fail_if_ok. by apply H.
Qed.

Definition apart (r1 r2 : Rule) : Prop :=
  Enabled r1 = true → Enabled r2 = true → ListenPort r1 = ListenPort r2 → protocolsOverlap (Protocol r1) (Protocol r2) = false.

Lemma rule_conflict_ok rules : rule_conflict rules = Ok tt ↔ ForallOrdPairs apart rules.
Proof.
  induction rules as [|r rest IH]; cbn [rule_conflict].
  - split; [constructor|done].
  - rewrite bind_ok. split.
    + intros ([] & H1 & H2%IH). constructor; [|done]. apply List.Forall_forall. intros r2 Hin%list_elem_of_In He1 He2 Hp.
      rewrite He1, loop_ok in H1. specialize (H1 _ Hin). rewrite fail_if_ok, He2, Hp, Z.eqb_refl in H1. exact H1.
    + intros H. inversion H as [|? ? F1 F2]; subst. exists tt. split; [|by apply IH]. destruct (Enabled r) eqn:He; [|done].
      apply loop_ok. intros r2 Hin. apply fail_if_ok. destruct (Enabled r2) eqn:He2; [|done].
      destruct (Z.eqb_spec (ListenPort r) (ListenPort r2)) as [Hp|]; [|done]. cbn.
      eapply List.Forall_forall in F1; [|by apply list_elem_of_In]. by apply F1.
Qed.
End validation.

(** [p] is what validation makes of the configuration [cfg]: at most 64 good rules with
    distinct identifiers; each enabled rule with its target resolved, routed and not local;
    no two enabled rules, and no enabled rule and listener of the core, on one port. *)
Record accepted (locals : gset string) (cfg : Config) (ls : list Listener) (p : preparedConfig) : Prop := {
  acc_config : config p = with_rules (Rules (config p)) cfg;
  acc_rules : Forall2 (resolves locals) (Rules cfg) (Rules (config p));
  acc_count : (length (Rules cfg) ≤ 64)%nat;
  acc_ok : Forall rule_ok (Rules cfg);
  acc_ids : NoDup (ID <$> Rules cfg);
  acc_apart : ForallOrdPairs apart (Rules (config p));
  acc_targets : ∀ rule, rule ∈ Rules (config p) → Enabled rule = true → resolvedTargets p !! ID rule = Some (TargetAddress rule);
  acc_core : unused (config p) = false → ∀ rule l, rule ∈ Rules (config p) → Enabled rule = true → l ∈ ls → clashes rule l = false;
  acc_routes : unused (config p) = false → ∀ rule, rule ∈ Rules (config p) → Enabled rule = true → is_Some (routes p !! TargetAddress rule)
}.

(** A procedure that always returns a value *)
Definition sure {A} (m : proc World A) : Prop := ∀ w, ∃ w' x, m w = (w', Ok x).
Lemma sure_bind {A B} (m : proc World A) (f : A → proc World B) : sure m → (∀ a, sure (f a)) → sure (m ≫= f).
Proof.
  intros Hm Hf w. destruct (Hm w) as (w1 & x & E). destruct (Hf x w1) as (w2 & y & E2). exists w2, y.
  by rewrite (proc_bind_run _ _ _ _ _ E).
Qed.
Lemma sure_ret {A} (a : A) : sure (mret a : proc World A).
Proof. intros w. by eexists _, _. Qed.
Lemma sure_gets {A} (f : World → A) : sure (gets f).
Proof. intros w. by eexists _, _. Qed.
Lemma sure_ask {A} e (reply : list event → A) : sure (ask e reply).
Proof. intros w. by eexists _, _. Qed.
Lemma sure_attempt {A} (m : proc World A) : sure (attempt m).
Proof. intros w. unfold attempt. destruct (m w). by eexists _, _. Qed.
Create HintDb sure.
#[export] Hint Resolve sure_ret sure_gets sure_ask sure_attempt : sure.
Ltac sure_tac :=
  repeat first [ progress (auto with sure) | apply sure_bind; [|intros ?]
               | match goal with |- sure (match ?x with _ => _ end) => destruct x end ].

Section apply.
Context {HostI : Host} {StateI : StateJson} {CaseI : UnicodeCase} {PrintI : UnicodePrint} {DigestI : SingBoxConfig.Digest}
        {SortI : SortSlice} {SetI : SetRange}.

Lemma status_sure : sure statusLocked.
Proof.
  unfold statusLocked, runtimeStateLocked, readIPv4Forwarding, degraded, tableMatches, firewallForwardPolicy, hostFirewallAllows, command.
  sure_tac.
Qed.

Lemma routes_spec r rules w w' r' :
  proc_fold add_route r rules w = (w', Ok r') →
  (∀ k, is_Some (r !! k) → is_Some (r' !! k)) ∧ ∀ rule, rule ∈ rules → Enabled rule = true → is_Some (r' !! TargetAddress rule).
Proof.
  revert r w. induction rules as [|rule rest IH]; intros r w E.
  - injection E as <- <-. split; [done|]. by intros ? ?%elem_of_nil.
  - cbn [proc_fold] in E. proc_as E w1 r1 H1. apply IH in E as [Hk Hr].
    assert ((∀ k, is_Some (r !! k) → is_Some (r1 !! k)) ∧ (Enabled rule = true → is_Some (r1 !! TargetAddress rule))) as [A B].
    { unfold add_route in H1. destruct (Enabled rule) eqn:He; cbn [negb orb] in H1; [|by injection H1 as <- <-].
      case_bool_decide as Hs; [by injection H1 as <- <-|]. proc_as H1 w2 egress H2. injection H1 as <- <-.
      split; [intros k Hk'; apply lookup_insert_is_Some'; by right|]. intros _. rewrite lookup_insert_eq. by eexists. }
    split; [auto|]. intros x [->|Hin]%elem_of_cons Hen; auto.
Qed.

Lemma prepared_spec cfg t ls w w' p :
  prepare cfg t ls w = (w', Ok p) →
  config p = cfg ∧ resolvedTargets p = t ∧ ForallOrdPairs apart (Rules cfg) ∧
  (unused cfg = false →
     (∀ rule l, rule ∈ Rules cfg → Enabled rule = true → l ∈ ls → clashes rule l = false) ∧
     (∀ rule, rule ∈ Rules cfg → Enabled rule = true → is_Some (routes p !! TargetAddress rule))).
Proof.
  intros E. unfold prepare in E. proc_as E w1 u1 H1. injection H1 as <- H1. destruct u1. apply rule_conflict_ok in H1.
  fold (unused cfg) in E. destruct (unused cfg); [by injection E as <- <-|].
  proc_as E w2 i H2. proc_as E w3 u3 H3. injection H3 as <- H3. destruct u3. proc_as E w4 r H4. injection E as <- <-.
  split_and!; try done. intros _. split; [by apply core_conflict_ok|]. by apply routes_spec in H4 as [_ ?].
Qed.

Lemma resolve_all locals preferred i seen t rules w w' r :
  resolve_rules locals preferred i seen t rules w = (w', r) → ∃ x, r = Ok x.
Proof.
  revert i seen t w w' r. induction rules as [|rule rest IH]; intros i seen t w w' r E; [injection E as <- <-; eauto|].
  cbn [resolve_rules] in E. destruct (check_rule i seen rule) as [u|e]; [|injection E as <- <-; eauto]. destruct (negb (Enabled rule)).
  - step E w1 a H1. destruct (IH _ _ _ _ _ _ H1) as [x ->]. injection E as <- <-. eauto.
  - step_attempt E w1 a H1. destruct a as [address|e]; [|injection E as <- <-; eauto].
    case_bool_decide; [injection E as <- <-; eauto|]. step E w2 b H2. destruct (IH _ _ _ _ _ _ H2) as [x ->].
    injection E as <- <-. eauto.
Qed.

Lemma set_applied_same s : set_applied (applied s) s = s.
Proof. by destruct s. Qed.

Lemma validate_spec own cfg ls w w' r :
  validateLocked own cfg ls w = (w', r) → (own = Applied → cfg = applied (svc w)) →
  ∃ cfg' o, r = Ok (cfg', o) ∧ outside_same w w' ∧
    svc w' = match own with Request => svc w | Applied => set_applied cfg' (svc w) end ∧
    match o with Ok p => config p = cfg' ∧ ∃ locals, accepted locals cfg ls p | Err _ => True end.
Proof.
  intros E Hown. unfold validateLocked in E. destruct (maxRules <? length (Rules cfg))%nat eqn:Hmax.
  { injection E as <- <-. eexists _, _. split; [done|]. split; [done|]. split; [|done]. destruct own; [|done].
    by rewrite (Hown eq_refl), set_applied_same. }
  apply Nat.ltb_ge in Hmax. step E w1 a H1.
  pose proof (mute_run _ _ _ _ locals_mute H1) as (Q1 & Q2 & Q3). destruct a as [locals|e]; [|by injection H1].
  step E w2 s H2. injection H2 as <- <-. step E w3 res H3.
  pose proof (mute_run _ _ _ _ (resolve_rules_mute _ _ _ _ _ _) H3) as (Q4 & Q5 & Q6).
  destruct (resolve_all _ _ _ _ _ _ _ _ _ H3) as [x ->]. cbn zeta in E. set (cfg' := with_rules (array x) cfg) in E.
  step E w4 u H4.
  assert (u = Ok tt ∧ svc w4 = match own with Request => svc w3 | Applied => set_applied cfg' (svc w3) end ∧ outside_same w3 w4)
    as (-> & S4 & O4 & T4) by (destruct own; injection H4 as <- <-; done).
  assert (outside_same w w4) as O by (split; congruence). rewrite Q4, Q1 in S4. clear H1 H4.
  destruct (failed x) as [e|] eqn:Hf.
  - injection E as <- <-. eexists _, _. split; [done|]. split; [exact O|]. split; [exact S4|done].
  - step_attempt E w5 p H5. injection E as <- <-. pose proof (mute_run _ _ _ _ (prepare_mute _ _ _) H5) as (Q7 & Q8 & Q9).
    eexists _, _. split; [done|]. split; [split; destruct O; congruence|]. split; [by rewrite Q7|].
    destruct p as [p|e]; [|done]. apply prepared_spec in H5 as (P1 & P2 & P3 & P4).
    destruct (resolve_rules_spec _ _ _ _ _ _ _ _ _ H3 Hf) as (R1 & R2 & R3 & _ & R5 & _).
    split; [exact P1|]. exists locals. split; rewrite ?P1, ?P2; try done; by apply P4.
Qed.
End apply.

#[export] Hint Resolve reconcile_mute script_mute : mute.

Section theorems.
Context {HostI : Host} {StateI : StateJson} {CaseI : UnicodeCase} {PrintI : UnicodePrint} {DigestI : SingBoxConfig.Digest}
        {SortI : SortSlice} {SetI : SetRange}.

(** The applied configuration, its hash and time, the interface and the targets *)
Definition same_applied (s s' : service) : Prop :=
  applied s' = applied s ∧ appliedHash s' = appliedHash s ∧ appliedAt s' = appliedAt s ∧ iface s' = iface s ∧ resolved s' = resolved s.
(** The table did not change, or only the state file could not be written. *)
Definition table_kept (w w' : World) (e : error) : Prop :=
  table_script (events w') = table_script (events w) ∨ file_error e.

(** What a configuration in effect is: in the service, in the file, in the table. *)
Definition table_shows (w w' : World) (routes : gmap string string) : Prop :=
  let s := svc w' in
  if unused (applied s) then table_script (events w') = Some delete_script ∨ table_script (events w') = table_script (events w)
  else ∃ replace, table_script (events w') = Some (renderRuleset (applied s) (iface s) routes (appliedHash s) replace).
Definition effective (w w' : World) (p : preparedConfig) (hash : string) : Prop :=
  let s := svc w' in
  applied s = config p ∧ appliedHash s = hash ∧
  (unused (applied s) = false → iface s = pc_iface p ∧ resolved s = resolvedTargets p) ∧
  dnsStale s = false ∧ table_shows w w' (routes p) ∧
  ∃ at_, appliedAt s = Some at_ ∧ state_file w' = Some (marshal_state (persisted_of s at_)).

Lemma apply_disabled_spec p hash w w' r :
  unused (config p) = true → apply_disabled (config p) hash w = (w', r) →
  match r with
  | Ok _ => effective w w' p hash
  | Err e => svc w' = svc w ∧ state_file w' = state_file w ∧ table_kept w w' e
  end.
Proof.
  intros Hu E. unfold apply_disabled in E. step E w1 a H1. apply (mute_run _ _ _ _ (reconcile_mute _ _ _)) in H1 as (Q1 & Q2 & Q3).
  destruct a as [u|e]; [|destruct E as [-> ->]; split_and!; [done..|by left]].
  step E w2 b H2. apply delete_spec in H2 as (R1 & R2 & R3).
  destruct b as [u2|e]; [|destruct E as [-> ->]; split; [congruence|split; [congruence|left; congruence]]].
  step E w3 at_ H3. injection H3 as <- <-. step E w4 c H4. apply persist_spec in H4 as (S1 & S2 & S3). cbn in S1, S2, S3.
  destruct c as [u4|e].
  - injection E as <- <-. unfold effective, table_shows. cbn. rewrite Hu, S2. split_and!; try done.
    + rewrite Q3 in R3. exact R3.
    + eexists. split; [done|exact S3].
  - destruct E as [-> ->]. split; [congruence|]. split; [destruct S3; congruence|]. right. apply S3.
Qed.

Lemma mute_err {A B} (m : proc World A) w w1 (r : result B) e :
  mute m → m w = (w1, Err e) → svc w1 = svc w ∧ state_file w1 = state_file w ∧ ∀ e', table_kept w w1 e'.
Proof. intros Hm E. apply (mute_run _ _ _ _ Hm) in E as (? & ? & ?). split_and!; [done..|]. intros. by left. Qed.

Lemma apply_rules_spec p skip hash w w' r :
  unused (config p) = false → apply_rules (config p) p skip hash w = (w', r) →
  match r with
  | Ok _ => effective w w' p hash
  | Err e => svc w' = svc w ∧ state_file w' = state_file w ∧ table_kept w w' e
  end.
Proof.
  intros Hu E. unfold apply_rules in E.
  assert (∀ w1 e, quiet w w1 → svc w1 = svc w ∧ state_file w1 = state_file w ∧ table_kept w w1 e) as Hq.
  { intros w1 e (? & ? & ?). split_and!; [done..|by left]. }
  step E w1 a H1. apply (mute_run _ _ _ _ ensure_mute) in H1. destruct a as [u1|e]; [|destruct E as [-> ->]; auto].
  step E w2 b H2. apply mute_run in H2; [|mute_tac]. apply (quiet_trans _ _ _ H1) in H2. clear H1.
  destruct b as [u2|e]; [|destruct E as [-> ->]; auto].
  step E w3 c H3. apply (mute_run _ _ _ _ tableExists_mute) in H3. apply (quiet_trans _ _ _ H2) in H3. clear H2.
  destruct c as [replace|e]; [|destruct E as [-> ->]; auto]. cbn zeta in E.
  step_attempt E w4 d H4. apply (mute_run _ _ _ _ (script_mute _ _ (or_introl eq_refl))) in H4.
  apply (quiet_trans _ _ _ H3) in H4. clear H3. destruct d as [u4|e]; [|injection E as <- <-; auto].
  step_attempt E w5 f H5. apply (mute_run _ _ _ _ (reconcile_mute _ _ _)) in H5. apply (quiet_trans _ _ _ H4) in H5. clear H4.
  destruct f as [u5|e]; [|injection E as <- <-; auto]. destruct H5 as (Q1 & Q2 & Q3).
  step_attempt E w6 g H6. apply script_spec in H6 as (R1 & R2 & R3).
  destruct g as [u6|e]; [|injection E as <- <-; split_and!; [congruence..|left; congruence]].
  rewrite ruleset_is_table in R3. cbn in R3. step E w7 at_ H7. injection H7 as <- <-. step E w8 s H8. injection H8 as <- <-.
  step E w9 h H9. apply persist_spec in H9 as (S1 & S2 & S3). cbn in S1, S2, S3. destruct h as [u9|e].
  - injection E as <- <-. unfold effective, table_shows. cbn. rewrite Hu, S1, S2. split_and!; try done.
    + by exists replace.
    + eexists. split; [done|exact S3].
  - destruct E as [-> ->]. split; [congruence|]. split; [destruct S3; congruence|]. right. apply S3.
Qed.

Lemma applyPrepared_spec cfg p skip desired w w' r :
  config p = cfg → applyPreparedLocked cfg p skip desired w = (w', r) →
  match r with
  | Ok _ => effective w w' p (if bool_decide (desired = "") then configHash cfg else desired)
  | Err e => svc w' = svc w ∧ state_file w' = state_file w ∧ table_kept w w' e
  end.
Proof.
  intros <- E. unfold applyPreparedLocked in E. destruct (unused (config p)) eqn:Hu.
  - by apply apply_disabled_spec in E.
  - by apply apply_rules_spec in E.
Qed.

Lemma outside_kept w w1 w' e : outside_same w w1 → table_kept w1 w' e → table_kept w w' e.
Proof. intros [_ T] [K|K]; [left; congruence|by right]. Qed.
Lemma effective_later w w1 w' p hash : outside_same w w1 → effective w1 w' p hash → effective w w' p hash.
Proof. unfold effective, table_shows. by intros [_ <-]. Qed.

(** A request is validated and applied. *)
Lemma apply_request_spec cfg ls desired w w' r :
  applyLocked Request cfg ls desired w = (w', r) →
  match r with
  | Ok _ => ∃ locals p, accepted locals cfg ls p ∧ effective w w' p (if bool_decide (desired = "") then configHash (config p) else desired)
  | Err e => svc w' = svc w ∧ state_file w' = state_file w ∧ table_kept w w' e
  end.
Proof.
  intros E. unfold applyLocked in E. step E w1 a H1. apply validate_spec in H1 as (cfg' & o & -> & O & S & V); [|done].
  cbn in E, S. destruct o as [p|e].
  - destruct V as (Hp & locals & V). apply applyPrepared_spec in E; [|done]. destruct r as [u|e].
    + exists locals, p. split; [exact V|]. rewrite Hp. by eapply effective_later.
    + destruct E as (E1 & E2 & E3). split; [congruence|]. split; [destruct O; congruence|]. by eapply outside_kept.
  - injection E as <- <-. destruct O. split; [done|]. split; [done|]. by left.
Qed.
End theorems.

(** ** The guarantees *)

Section guarantees.
Context {HostI : Host} {StateI : StateJson} {CaseI : UnicodeCase} {PrintI : UnicodePrint} {DigestI : SingBoxConfig.Digest}
        {SortI : SortSlice} {SetI : SetRange}.

(** An update of the service that keeps what [effective] looks at *)
Lemma set_error_effective w w1 p hash m :
  effective w w1 p hash → effective w {| svc := set_error m (svc w1); events := events w1; state_file := state_file w1 |} p hash.
Proof. exact (λ H, H). Qed.

Lemma quiet_effective w w1 w' p hash : quiet w1 w' → effective w w1 p hash → effective w w' p hash.
Proof. unfold effective, table_shows. by intros (-> & -> & ->). Qed.

(** A synchronisation whose application succeeded, and one whose application failed *)
Lemma sync_accepted cfg ls desired w w1 :
  applyLocked Request (normalizeConfig cfg) ls desired w = (w1, Ok tt) →
  ∃ w' st, SyncWithHash cfg ls desired w = (w', Ok (st, None)) ∧ lastError (svc w') = "" ∧
  ∃ locals p, accepted locals (normalizeConfig cfg) ls p ∧
    effective w w' p (if bool_decide (desired = "") then configHash (config p) else desired).
Proof.
  intros Ha. unfold SyncWithHash.
  assert (attempt (applyLocked Request (normalizeConfig cfg) ls desired) w = (w1, Ok (Ok tt))) as Hat by (unfold attempt; by rewrite Ha).
  rewrite (proc_bind_run _ _ _ _ _ Hat). apply apply_request_spec in Ha.
  set (w2 := {| svc := set_error "" (svc w1); events := events w1; state_file := state_file w1 |}).
  assert (set_svc (set_error "") w1 = (w2, Ok tt)) as H2 by done. rewrite (proc_bind_run _ _ _ _ _ H2).
  destruct (status_sure w2) as (w3 & st & H3). rewrite (proc_bind_run _ _ _ _ _ H3).
  apply (mute_run _ _ _ _ status_mute) in H3. eexists _, _. split; [done|]. destruct H3 as (S3 & F3 & T3) eqn:Q.
  split; [by rewrite S3|]. destruct Ha as (locals & p & A & Ef). exists locals, p. split; [exact A|].
  apply (quiet_effective w w2); [by split_and!|]. by apply set_error_effective.
Qed.

Lemma sync_refused cfg ls desired w w1 e :
  applyLocked Request (normalizeConfig cfg) ls desired w = (w1, Err e) →
  ∃ w' st, SyncWithHash cfg ls desired w = (w', Ok (st, Some e)) ∧
  same_applied (svc w) (svc w') ∧ lastError (svc w') = Error e ∧ table_kept w w' e.
Proof.
  intros Ha. unfold SyncWithHash.
  assert (attempt (applyLocked Request (normalizeConfig cfg) ls desired) w = (w1, Ok (Err e))) as Hat by (unfold attempt; by rewrite Ha).
  rewrite (proc_bind_run _ _ _ _ _ Hat). apply apply_request_spec in Ha.
  set (w2 := {| svc := set_error (Error e) (svc w1); events := events w1; state_file := state_file w1 |}).
  assert (set_svc (set_error (Error e)) w1 = (w2, Ok tt)) as H2 by done. rewrite (proc_bind_run _ _ _ _ _ H2).
  assert (gets svc w2 = (w2, Ok (svc w2))) as Hg by done. rewrite (proc_bind_run _ _ _ _ _ Hg). destruct Ha as (S1 & _ & T1).
  match goal with |- context [when ?c ?m ≫= _] => assert (∃ w3, when c m w2 = (w3, Ok tt) ∧ same_applied (svc w2) (svc w3) ∧
    lastError (svc w3) = lastError (svc w2) ∧ table_script (events w3) = table_script (events w2)) as (w3 & H3 & K3 & L3 & T3) end.
  { destruct (_ && _); [|by exists w2].
    set (w4 := {| svc := set_dns true (dnsLastResolvedAt (svc w2)) (Int.uwrap64 (dnsFailureCount (svc w2) + 1)) (svc w2);
                  events := events w2; state_file := state_file w2 |}).
    destruct (persistCurrentLocked w4) as [w5 r5] eqn:H5. exists w5. cbn [when]. unfold mbind, proc_bind.
    change (set_svc _ w2) with (w4, Ok ()). cbn beta iota. unfold attempt. rewrite H5. split; [done|].
    assert (svc w5 = svc w4 ∧ table_script (events w5) = table_script (events w4)) as (-> & ->); [|done].
    unfold persistCurrentLocked in H5. step H5 w6 s6 H6. injection H6 as <- <-.
    destruct (appliedAt _); [|by injection H5 as <- <-]. apply persist_spec in H5 as (? & ? & _). done. }
  rewrite (proc_bind_run _ _ _ _ _ H3). destruct (status_sure w3) as (w4 & st & H4). rewrite (proc_bind_run _ _ _ _ _ H4).
  apply (mute_run _ _ _ _ status_mute) in H4 as (S4 & _ & T4). eexists _, _. split; [done|].
  rewrite S4. split; [|split].
  + unfold same_applied in *. destruct K3 as (A & B & C & D & F). rewrite A, B, C, D, F. cbn. by rewrite S1.
  + by rewrite L3.
  + destruct T1 as [T1|T1]; [left|by right]. rewrite T4, T3. exact T1.
Qed.

Lemma sync_answers cfg ls desired w : ∃ w' st o, SyncWithHash cfg ls desired w = (w', Ok (st, o)).
Proof.
  destruct (applyLocked Request (normalizeConfig cfg) ls desired w) as [w1 [[]|e]] eqn:Ha.
  - destruct (sync_accepted _ _ _ _ _ Ha) as (w' & st & E & _). eauto.
  - destruct (sync_refused _ _ _ _ _ _ Ha) as (w' & st & E & _). eauto.
Qed.


(** The enabled rules of an accepted configuration have literal targets. *)
Lemma accepted_literal locals cfg ls p : accepted locals cfg ls p → enabledHostnameRuleCount (config p) = 0%nat.
Proof.
  intros A. unfold enabledHostnameRuleCount. rewrite filter_false; [done|]. intros rule Hin [He Hl].
  destruct (list_elem_of_lookup_1 _ _ Hin) as [i Hi].
  destruct (Forall2_lookup_r _ _ _ _ _ (acc_rules _ _ _ _ A) Hi) as (r0 & _ & address & -> & Hgood & _).
  destruct (Hgood He) as (_ & a & Ha & ->). cbn in Hl. destruct (routable_literal a Ha). congruence.
Qed.


(** a failed refresh of the targets keeps the rules in force: the hash, the time, the
    interface and the addresses are the old ones, and so is the table, unless what failed
    was writing the state file. *)
Theorem refresh_error ls w w' e :
  RefreshDNS ls w = (w', Err e) →
  let s := svc w in let s' := svc w' in
  appliedHash s' = appliedHash s ∧ appliedAt s' = appliedAt s ∧ iface s' = iface s ∧ resolved s' = resolved s ∧
  lastError s' = Error e ∧ table_kept w w' e.
Proof.
  intros E. unfold RefreshDNS in E. step E w1 s H1. injection H1 as <- <-. destruct (_ || _); [done|].
  step E w2 a H2. apply validate_spec in H2 as (cfg' & o & -> & O2 & S2 & V2); [|done]. cbn in E, S2.
  assert (∀ w3, ∃ w4 r4, attempt persistCurrentLocked w3 = (w4, Ok r4) ∧ svc w4 = svc w3 ∧ table_script (events w4) = table_script (events w3)) as Hp.
  { intros w3. destruct (persistCurrentLocked w3) as [w4 r4] eqn:H. exists w4, r4. unfold attempt. rewrite H. split; [done|].
    unfold persistCurrentLocked in H. step H w5 s5 H5. injection H5 as <- <-.
    destruct (appliedAt _); [|by injection H as <- <-]. apply persist_spec in H as (? & ? & _). done. }
  destruct o as [p|e'].
  - destruct (sameStringMap _ _).
    { step E w3 at_ H3. injection H3 as <- <-. step E w4 u H4. injection H4 as <- <-.
      match type of E with (_ ≫= _) ?x = _ => destruct (Hp x) as (w5 & r5 & H5 & _) end.
      rewrite (proc_bind_run _ _ _ _ _ H5) in E. done. }
    step_attempt E w3 b H3. destruct V2 as (Hc & _). apply applyPrepared_spec in H3; [|done].
    destruct b as [u|e']; [done|]. destruct H3 as (S3 & _ & T3). unfold refresh_failed in E.
    step E w4 u H4. injection H4 as <- <-. match type of E with (_ ≫= _) ?x = _ => destruct (Hp x) as (w5 & r5 & H5 & S5 & T5) end.
    rewrite (proc_bind_run _ _ _ _ _ H5) in E. injection E as <- <-. cbn zeta. rewrite S5. cbn. rewrite S3, S2. cbn.
    split_and!; try done.
    destruct T3 as [T3|T3]; [left|by right]. rewrite T5. cbn. rewrite T3. apply O2.
  - step E w3 u H3. injection H3 as <- <-.
    match type of E with (when ?c ?m ≫= _) ?x = _ => assert (∃ d, when c m x = (d, Ok tt) ∧ appliedHash (svc d) = appliedHash (svc w) ∧
      appliedAt (svc d) = appliedAt (svc w) ∧ iface (svc d) = iface (svc w) ∧ resolved (svc d) = resolved (svc w) ∧
      lastError (svc d) = Error e' ∧ table_script (events d) = table_script (events w2)) as (d & H4 & K) end.
    { destruct (isDNSResolutionError e'); eexists; (split; [reflexivity|]); cbn; rewrite S2; by split_and!. }
    rewrite (proc_bind_run _ _ _ _ _ H4) in E. destruct (Hp d) as (w5 & r5 & H5 & S5 & T5).
    rewrite (proc_bind_run _ _ _ _ _ H5) in E. injection E as <- <-. cbn zeta. rewrite S5.
    destruct K as (-> & -> & -> & -> & -> & K). split_and!; try done. left. rewrite T5, K. apply O2.
Qed.
End guarantees.

(** ** The theorems at work *)

Module ForwardDemo.

(** A host on which everything works; [gone.example] does not resolve. *)
#[export] Instance forward_host : Host := {|
  command_reply := λ l args,
    if bool_decide (args = list_table) then
      match table_script l with
      | Some s => if bool_decide (s = delete_script) then ("", Some (ErrMsg "exit status 1")) else (s, None)
      | None => ("", Some (ErrMsg "exit status 1"))
      end
    else if bool_decide (take 4 args = ["ip"; "-4"; "route"; "show"]) then ("default via 10.0.0.1 dev eth0 proto dhcp", None)
    else if bool_decide (take 4 args = ["ip"; "-4"; "route"; "get"]) then ("203.0.113.5 via 10.0.0.1 dev eth1 src 10.0.0.2", None)
    else if bool_decide (take 4 args = ["nft"; "list"; "chain"; "ip"]) then ("", Some (ErrMsg "exit status 1"))
    else ("", None);
  script_reply := λ _ _ _, None;
  interface_up := λ _ _, Some true;
  interface_addrs := λ _, [of_v4 167772162%Z];
  lookup_ip4 := λ _ name, if bool_decide (name = "gone.example") then Err (ErrMsg "no such host") else Ok [of_v4 3405803781%Z];
  forward_file := λ _, Some "1";
  forward_write := λ _, None;
  file_reply := λ _ _, None;
  clock := λ l, Z.of_nat (length l) |}.

#[export] Instance forward_case : UnicodeCase := {| lower_rune z := z; upper_rune z := z |}.
#[export] Instance forward_print : UnicodePrint := λ _, true.
#[export] Instance forward_digest : SingBoxConfig.Digest := λ s, s.
#[export] Instance forward_json : StateJson := {|
  marshal_config := λ _, "{}"; marshal_state := λ p, ps_AppliedHash p; unmarshal_state := λ _, Err (ErrMsg "no state");
  nft_items := λ _, Ok [Some "rw_one:tcp_up"; None; Some "rw_one:tcp_down"];
  nft_counter := λ raw, Some (raw, {| Packets := 1; Bytes := 2 ^ 63 + 5 |}) |}.
#[export] Instance set_range : SetRange := λ K _ _ s, elements s.
Import Merge.

Definition rule_to (id target : string) (port : Z) : Rule :=
  {| ID := id; Name := "edge"; Enabled := true; Protocol := "TCP"; ListenPort := port; TargetAddress := target; TargetPort := 443 |}.
Definition demo_config (target : string) : Config :=
  {| cfg_Enabled := true; ListenInterface := "auto"; Rules := [rule_to "one" target 8443] |}.
Definition empty_world : World := {| svc := New; events := []; state_file := None |}.

Definition synced : World := (SyncWithHash (demo_config " Edge.Example. ") [] "h1" empty_world).1.
Definition synced_status : Status :=
  match (SyncWithHash (demo_config " Edge.Example. ") [] "h1" empty_world).2 with Ok (st, _) => st | Err _ =>
    {| State := ""; st_AppliedHash := ""; st_AppliedAt := None; ResolvedListenInterface := ""; st_LastError := "";
       ForwardingEnabled := false; FirewallForwardPolicy := ""; st_Rules := [] |} end.

Lemma synced_ok : SyncWithHash (demo_config " Edge.Example. ") [] "h1" empty_world = (synced, Ok (synced_status, None)).
Proof. unfold synced, synced_status. vm_compute. reflexivity. Qed.

(** The rules of the applied configuration name the address, and the table is loaded. *)
Lemma synced_rules : Rules (applied (svc synced)) = [rule_to "one" "203.0.113.5" 8443] ∧ State synced_status = "applied".
Proof. split; vm_compute; reflexivity. Qed.


(** A service whose applied rules name a host, as a state file of an older agent may *)
Definition stale : World := {| svc := set_applied (demo_config "gone.example") (svc synced); events := events synced; state_file := state_file synced |}.
Definition stale_error : error := ErrWrap "rule one" (ErrDNS "gone.example" (ErrMsg "no such host")).
Definition refreshed : World := (RefreshDNS [] stale).1.
Lemma refreshed_err : RefreshDNS [] stale = (refreshed, Err stale_error).
Proof. unfold refreshed. vm_compute. reflexivity. Qed.

Lemma refresh_error_witness :
  resolved (svc refreshed) = {["one" := "203.0.113.5"]} ∧ lastError (svc refreshed) = Error stale_error ∧ dnsStale (svc refreshed) = true.
Proof.
  destruct (refresh_error [] stale refreshed stale_error refreshed_err) as (_ & _ & _ & Hr & He & _).
  split; [|split; [exact He|vm_compute; reflexivity]]. etransitivity; [exact Hr|]. vm_compute. reflexivity.
Defined.
End ForwardDemo.
