(* ===== verification/ForwardManager.v ===== *)
(** * Forwarding inside the manager ([internal/node/manager.go])

    The forwarding service is what usage capture and the activation of a core ask through
    the interfaces [ForwardingUsage] and [CoreGuard]; the instances are given here, with the
    handlers that seal usage before the rules change.  [runtimeStatus] sums the parts up. *)
From S2P Require Import Prelude GoStr GoTime GoNet GoAny GoSort Bolt StatName UsageStore RuntimeState NodeConfig SingBoxConfig Users Activation Lifecycle Stats UsageCapture ForwardRules ForwardRender ForwardProbe Forwarding.
Import Forward Service.

Module FwManager.

(** ** The interfaces *)

Section interfaces.
Context {HostI : Host} {StateI : StateJson} {CaseI : UnicodeCase} {PrintI : UnicodePrint} {DigestI : SingBoxConfig.Digest}.

Definition usage_counter (c : UsageCounter) : UsageCapture.UsageCounter :=
  {| UsageCapture.RuleID := uc_RuleID c; UsageCapture.fw_Protocol := uc_Protocol c; UsageCapture.fw_Scope := uc_Scope c;
     UsageCapture.fw_Direction := uc_Direction c; UsageCapture.Bytes := uc_Bytes c |}.

(** The service in the world [w], as usage capture asks it *)
Definition usage_source (w : World) : UsageCapture.ForwardingUsage := {|
  UsageCapture.UsageCounters := match (UsageCounters w).2 with Ok (rows, active) => Ok (usage_counter <$> rows, active) | Err e => Err e end;
  UsageCapture.summary_State := match (RuntimeSummary_ w).2 with Ok s => sum_State s | Err _ => "" end;
  UsageCapture.summary_EnabledRules := match (RuntimeSummary_ w).2 with Ok s => EnabledRules s | Err _ => 0%Z end |}.

(** The service in the world [w], as [Start] asks it *)
Definition core_guard (w : World) : Lifecycle.CoreGuard := λ coreType config, (ValidateCoreConfig coreType config w).2.

(** ** Handlers *)

Definition currentCoreListeners (r : RuntimeState.Runtime) : list Listener :=
  if bool_decide (RuntimeState.RunningCoreType r = RuntimeState.CoreTypeSingBox)
  then ExtractCoreListeners RuntimeState.CoreTypeSingBox (RuntimeState.SingBoxConfig r) else [].

Record SyncRequest := { req_Config : Config; req_ConfigHash : string }.

Section handlers.
Context {SortI : SortSlice} {RangeI : MapRange} {SetI : SetRange} {ClientI : Stats.StatsClient}.
Context {B : Type} {BucketI : BucketOps B} {CodecI : Codec UsageStore.Snapshot} {TxI : TxOps (UsageStore.DB B)}.
Abbreviation Usage := (UsageCapture.Usage B).

(** The parts of the manager that forwarding touches *)
Record Node := { fw : World; usage : Usage; node_runtime : RuntimeState.Runtime }.

Definition on_fw {A} (m : proc World A) : proc Node A := λ n,
  let '(w, r) := m (fw n) in ({| fw := w; usage := usage n; node_runtime := node_runtime n |}, r).

(** Reading the counters asks the host as much as the forwarding service does. *)
Definition captureUsage (at_ : time) : proc Node unit := λ n,
  let '(u, r) := UsageCapture.captureUsageSnapshot (ForwardingI := usage_source (fw n)) at_ (node_runtime n) (usage n) in
  let w := if UsageCapture.UsageSnapshotActive (usage n) then (UsageCounters (fw n)).1 else fw n in
  ({| fw := w; usage := u; node_runtime := node_runtime n |}, r).

Definition ForwardingValidate (request : SyncRequest) : proc Node unit :=
  r ← gets node_runtime; on_fw (Validate (req_Config request) (currentCoreListeners r)).

Definition ForwardingSync (at_ : time) (request : SyncRequest) : proc Node (Status * option error) :=
  sealed ← attempt (captureUsage at_);
  match sealed with
  | Err e => st ← on_fw Status_; mret (st, Some (ErrWrap "seal forwarding usage before sync" e))
  | Ok _ => r ← gets node_runtime;
            on_fw (SyncWithHash (req_Config request) (currentCoreListeners r) (req_ConfigHash request))
  end.

Definition ForwardingStatus : proc Node Status := on_fw Status_.

(** The forwarding part of [RefreshForwardingDNS]: whether usage could be sealed, without
    which nothing else is refreshed.  Errors are logged. *)
Definition refreshForwardingDNS (at_ : time) : proc Node bool :=
  sealed ← attempt (captureUsage at_);
  match sealed with
  | Err _ => mret false
  | Ok _ => r ← gets node_runtime; _ ← attempt (on_fw (RefreshDNS (currentCoreListeners r))); mret true
  end.

(** ** The runtime status *)

Definition resolveRuntimeMode (runningCore : string) (coreOnline : bool) (forwardingState : string) : string :=
  if bool_decide (forwardingState = "error") || bool_decide (forwardingState = "degraded") then "DEGRADED"
  else if negb (bool_decide (runningCore = "")) then (if coreOnline then "CORE_ACTIVE" else "DEGRADED")
  else if bool_decide (forwardingState = "applied") then "FORWARDING_ONLY"
  else "IDLE".

Record usageSnapshotRuntimeStatus := { Supported : bool; us_Active : bool; us_Enabled : bool; us_Capturing : bool }.
Record agentRuntimeStatus := {
  Mode : string; RunningCore : option string; CoreOnline : bool; Capabilities : list string;
  Forwarding_ : RuntimeSummary; UsageSnapshot : usageSnapshotRuntimeStatus; Plugin_ : RuntimeState.PluginState;
  ConfigHashes : RuntimeState.StartHashes }.

(** [has_audit]: the access audit store could be opened; [sni]: the node checks the server
    name.  The forwarding service and the usage queue are always there. *)
Definition runtimeStatus (has_audit sni : bool) : proc Node agentRuntimeStatus :=
  r ← gets node_runtime;
  let running := RuntimeState.RunningCoreType r in
  let online := bool_decide (running = RuntimeState.CoreTypeSingBox) && RuntimeState.OnlineStatus r in
  summary ← on_fw RuntimeSummary_;
  active ← gets (λ n, UsageCapture.UsageSnapshotActive (usage n));
  mret {|
    Mode := resolveRuntimeMode running online (sum_State summary);
    RunningCore := if bool_decide (running = "") then None else Some running;
    CoreOnline := online;
    Capabilities := ["runtime_mode_v1"; "core_sing_box_v1"; "sync_state_v1"; "plugin_compile_v1"; "plugin_dns_status_v1";
                     "network_inventory_v1"; "node_api_sni_v1"; "geocheck_v1"; "node_benchmarks_v1"] ++
                    (if has_audit then ["user_access_audit_v1"] else []) ++ (if sni then ["node_api_sni_enforced_v1"] else []) ++
                    [Capability; DNSCapability; UsageCapability] ++ ["usage_snapshot_v1"];
    Forwarding_ := summary;
    UsageSnapshot := {| Supported := true; us_Active := active; us_Enabled := active;
                        us_Capturing := active && (online || (bool_decide (sum_State summary = "applied") &&
                                                              (0 <? EnabledRules summary)%Z)) |};
    Plugin_ := RuntimeState.PluginState_ r;
    ConfigHashes := RuntimeState.LastHashes r |}.
End handlers.
End interfaces.
End FwManager.
