(* ===== verification/ForwardManagerSpec.v ===== *)
(** * Forwarding and the rest of the node

    [guard_exact]: which configurations of the core the forwarding rules exclude.
    [sample_distinct]: no two counters of a usage sample are billed against one baseline.
    [sync_sealed]: what a synchronisation seals before it changes the rules, and when it
    changes them with their counters unsealed. *)
From S2P Require Import Prelude GoStr GoTime GoNet GoAny GoSort Bolt StatName UsageStore UsageSpec UsageBilling RuntimeState NodeConfig SingBoxConfig Users Activation Lifecycle Stats StatsSpec UsageCapture CaptureSpec ForwardRules ForwardRender ForwardProbe Forwarding ForwardSpec ForwardManager.
Import Forward Render Service FwManager.

Section guard.
Context {HostI : Host} {StateI : StateJson} {CaseI : UnicodeCase} {PrintI : UnicodePrint} {DigestI : SingBoxConfig.Digest}.

Lemma core_conflict_err rules ls e :
  core_conflict rules ls = Err e → ∃ rule l, rule ∈ rules ∧ Enabled rule = true ∧ l ∈ ls ∧ clashes rule l = true ∧
    e = ErrConflict (overlapProtocol (Protocol rule) (ls_Protocol l)) (ListenPort rule) "CORE_INBOUND" (ls_Source l).
Proof.
  induction rules as [|rule rules IH]; [done|]. unfold core_conflict. cbn [foldr_result].
  destruct (Enabled rule) eqn:He.
  - match goal with |- context [foldr_result ?f tt ls] => destruct (foldr_result f tt ls) as [[]|e'] eqn:Hl end.
    + intros E. destruct (IH E) as (r & l & ? & ? & ?). exists r, l. split; [by right|done].
    + intros [= ->]. clear IH. induction ls as [|l ls IHl]; [done|]. cbn [foldr_result] in Hl.
      destruct (clashes rule l) eqn:Hc; cbn [fail_if mbind result_bind] in Hl.
      * injection Hl as <-. exists rule, l. split_and!; try done; left.
      * destruct (IHl Hl) as (r & l' & ? & ? & ? & ? & ?). exists r, l'. split_and!; try done. by right.
  - intros E. destruct (IH E) as (r & l & ? & ? & ?). exists r, l. split; [by right|done].
Qed.


(** ** The counters of usage *)

Definition flows (cfg : Config) : list (Rule * string) :=
  mjoin ((λ r, (λ p, (r, p)) <$> expandedProtocols (Protocol r)) <$> enabled_rules cfg).

Definition row (scope direction : string) (value : Z) (f : Rule * string) : UsageCounter :=
  {| uc_RuleID := ID f.1; uc_Protocol := f.2; uc_Direction := direction; uc_Scope := scope; uc_Bytes := cap value |}.

(** Both counters of the flow are there, and the rows are cut values of them. *)
Definition rows_of (scope : string) (values : gmap string Counter) (f : Rule * string) (rows : list UsageCounter) : Prop :=
  ∃ up down, values !! (counterPrefix (ID f.1) f.2 +:+ "_up") = Some up ∧ values !! (counterPrefix (ID f.1) f.2 +:+ "_down") = Some down ∧
    rows = [row scope "uplink" (Bytes up) f; row scope "downlink" (Bytes down) f].

Lemma usage_of_ok scope values f rows : usage_of scope values f.1 f.2 = Ok rows → rows_of scope values f rows.
Proof.
  unfold usage_of, directionCounters. intros E. set (prefix := counterPrefix (ID f.1) f.2) in E.
  apply bind_ok in E as (u1 & H1 & E). apply bind_ok in E as (u2 & H2 & E).
  apply fail_if_ok, bool_decide_eq_false in H1. apply fail_if_ok, bool_decide_eq_false in H2.
  apply not_eq_None_Some in H1 as [up Hu]. apply not_eq_None_Some in H2 as [down Hd].
  cbn zeta in E. rewrite Hu, Hd in E. injection E as <-. exists up, down. by split_and!.
Qed.

Lemma usage_rows_ok cfg scope values rows :
  usage_rows cfg scope values = Ok rows → ∃ parts, rows = mjoin parts ∧ Forall2 (rows_of scope values) (flows cfg) parts.
Proof.
  unfold usage_rows. fold (flows cfg). generalize (flows cfg) as fs. intros fs.
  assert (∀ acc, foldr_result (λ acc (f : Rule * string), l ← usage_of scope values f.1 f.2; Ok (acc ++ l)) acc fs = Ok rows →
    ∃ parts, rows = acc ++ mjoin parts ∧ Forall2 (rows_of scope values) fs parts) as H; [|apply (H [])].
  induction fs as [|f fs IH]; intros acc E; cbn [foldr_result] in E.
  - injection E as <-. exists []. split; [by rewrite app_nil_r|constructor].
  - bind_as E s Hs. bind_as Hs l Hl. injection Hs as <-. apply usage_of_ok in Hl. destruct (IH _ E) as (parts & -> & F).
    exists (l :: parts). split; [by rewrite <- app_assoc|by constructor].
Qed.

(** The identity of a row: the scope is one for all of a sample. *)
Definition row_id (c : UsageCounter) : string * string * string := (uc_RuleID c, uc_Protocol c, uc_Direction c).

Lemma expanded_NoDup protocol : NoDup (expandedProtocols protocol).
Proof.
  unfold expandedProtocols. destruct (bool_decide _); [apply NoDup_singleton|]. destruct (bool_decide _); [apply NoDup_singleton|].
  constructor; [by intros ?%list_elem_of_singleton|apply NoDup_singleton].
Qed.

Lemma flows_NoDup cfg : NoDup (ID <$> enabled_rules cfg) → NoDup ((λ f : Rule * string, (ID f.1, f.2)) <$> flows cfg).
Proof.
  unfold flows. induction (enabled_rules cfg) as [|r rules IH]; [constructor|]. rewrite fmap_cons. intros [Hr Hn]%NoDup_cons.
  cbn [fmap list_fmap mjoin list_join]. rewrite fmap_app. apply NoDup_app. split; [|split; [|by apply IH]].
  - rewrite <- list_fmap_compose. apply NoDup_fmap_2; [|apply expanded_NoDup]. by intros p q [= ?].
  - intros x Hx Hx'. apply Hr. apply list_elem_of_fmap in Hx as (f & -> & Hf). apply list_elem_of_fmap in Hf as (p & -> & _).
    apply list_elem_of_fmap in Hx' as ([r' p'] & [= E _] & Hf'). apply list_elem_of_join in Hf' as (l & Hl & Hl').
    apply list_elem_of_fmap in Hl' as (r'' & -> & Hin). apply list_elem_of_fmap in Hl as (q & [= -> _] & _).
    cbn in E. rewrite E. apply list_elem_of_fmap. eauto.
Qed.

Lemma parts_ids scope values fs (parts : list (list UsageCounter)) :
  Forall2 (rows_of scope values) fs parts →
  (row_id <$> mjoin parts) = mjoin ((λ f : Rule * string, [(ID f.1, f.2, "uplink"); (ID f.1, f.2, "downlink")]) <$> fs).
Proof.
  induction 1 as [|f part fs parts (up & down & _ & _ & ->) _ IH]; [done|].
  exact (f_equal (λ l, (ID f.1, f.2, "uplink") :: (ID f.1, f.2, "downlink") :: l) IH).
Qed.

Lemma rows_NoDup cfg scope values (parts : list (list UsageCounter)) :
  NoDup (ID <$> enabled_rules cfg) → Forall2 (rows_of scope values) (flows cfg) parts → NoDup (row_id <$> mjoin parts).
Proof.
  intros Hn%flows_NoDup F. rewrite (parts_ids _ _ _ _ F). clear F. induction (flows cfg) as [|f fs IH]; [constructor|].
  rewrite fmap_cons in Hn. apply NoDup_cons in Hn as [Hf Hn]. cbn [fmap list_fmap mjoin list_join].
  apply NoDup_app. split; [|split; [|by apply IH]].
  - repeat constructor; [|by intros ?%elem_of_nil]. intros ?%list_elem_of_singleton. done.
  - intros x Hx Hx'. apply Hf. apply list_elem_of_join in Hx' as (l & Hl & Hl'). apply list_elem_of_fmap in Hl' as (f' & -> & Hin).
    apply list_elem_of_fmap. exists f'. split; [|done].
    rewrite !elem_of_cons in Hx, Hl. destruct Hx as [->|[->|[]%elem_of_nil]], Hl as [[= -> ->]|[[= -> ->]|[]%elem_of_nil]]; done.
Qed.

(** When the service reports the counters of its rules: some rule is applied, no error is
    recorded, and the table is the one of the configuration. *)
Definition counting (w : World) : bool :=
  bool_decide (is_Some (appliedAt (svc w))) && negb (unused (applied (svc w))) &&
  bool_decide (lastError (svc w) = "") &&
  match (tableMatches (appliedHash (svc w)) w).2 with Ok matches => matches | Err _ => false end.

(** The rows are those of all flows of the enabled rules, with the values of the table. *)
Definition all_rows (w : World) (rows : list UsageCounter) : Prop :=
  ∃ w' scope values parts, quiet w w' ∧ (readCounters w').2 = Ok values ∧ rows = mjoin parts ∧
    Forall2 (rows_of scope values) (flows (applied (svc w))) parts.

Lemma runtime_state_cases w w' r :
  unused (applied (svc w)) = false → runtimeStateLocked w = (w', r) →
  ∃ s, r = Ok s ∧ (bool_decide (s.1 = "applied") || bool_decide (s.1 = "degraded")) =
    bool_decide (lastError (svc w) = "") &&
    match (tableMatches (appliedHash (svc w)) w).2 with Ok matches => matches | Err _ => false end.
Proof.
  intros Hu E. unfold runtimeStateLocked in E. step E w1 s H1. injection H1 as <- <-. rewrite Hu in E.
  step E w2 m H2. rewrite H2. cbn [snd]. destruct m as [matches|e].
  2:{ exfalso. assert (sure (tableMatches (appliedHash (svc w)))) as Hs by (unfold tableMatches, command; sure_tac).
      destruct (Hs w) as (? & ? & Hs'). congruence. }
  step E w3 d H3. assert (∃ b, d = Ok b ∧ (matches = false ∨ lastError (svc w) ≠ "" → b = false)) as (b & -> & Hb).
  { destruct (bool_decide_reflect (lastError (svc w) = "")), matches; unfold degraded in H3; cbn in H3.
    1: { assert (sure (degraded "applied" (applied (svc w)))) as Hs
           by (unfold degraded, firewallForwardPolicy, hostFirewallAllows, command; sure_tac).
         destruct (Hs w2) as (? & x & Hs'). unfold degraded in Hs'. cbn in Hs'. rewrite H3 in Hs'. injection Hs' as _ ->.
         exists x. split; [done|]. by intros [?|?]. }
    all: injection H3 as _ <-; exists false; by split. }
  injection E as _ <-. eexists. split; [reflexivity|].
  destruct (bool_decide_reflect (lastError (svc w) = "")), matches; cbn [andb negb]; destruct b; try done;
    by rewrite Hb in * by auto.
Qed.

(** What [UsageCounters] returns *)
Lemma usage_counters_cases w :
  if counting w
  then match (UsageCounters w).2 with Ok (rows, active) => active = true ∧ all_rows w rows | Err _ => True end
  else (UsageCounters w).2 = Ok ([], false).
Proof.
  destruct (UsageCounters w) as [w' r] eqn:E. cbn [snd]. unfold UsageCounters in E. unfold counting.
  step E w1 s H1. injection H1 as <- <-. destruct (appliedAt (svc w)) as [at_|]; [|by injection E as _ <-].
  rewrite bool_decide_eq_true_2 by eauto. cbn [andb].
  destruct (unused (applied (svc w))) eqn:Hu; cbn [negb andb]; [by injection E as _ <-|].
  step E w2 st H2. apply (runtime_state_cases _ _ _ Hu) in H2 as Hst. destruct Hst as (t & -> & Ht). rewrite <- Ht.
  apply (mute_run _ _ _ _ runtime_state_mute) in H2. destruct (_ || _) eqn:Hc; cbn [negb] in E; [|by injection E as _ <-].
  step E w3 v H3. destruct v as [values|e]; [|by destruct E as [_ ->]].
  step E w4 l H4. injection H4 as <- Hl. destruct l as [l|e]; [|by destruct E as [_ ->]]. injection E as _ <-.
  split; [done|]. apply usage_rows_ok in Hl as (parts & -> & F).
  exists w2, (appliedHash (svc w) +:+ ":" +:+ format_rfc3339nano at_), values, parts. rewrite H3. by split_and!.
Qed.

Lemma usage_counters_spec w w' rows active :
  UsageCounters w = (w', Ok (rows, active)) → rows = [] ∨ ∃ scope values parts, rows = mjoin parts ∧
    Forall2 (rows_of scope values) (flows (applied (svc w))) parts.
Proof.
  intros E. pose proof (usage_counters_cases w) as H. rewrite E in H. cbn [snd] in H. destruct (counting w).
  - destruct H as (_ & _ & scope & values & parts & _ & _ & -> & F). right. eauto.
  - injection H as -> _. by left.
Qed.

(** The counter of a row, in the sample *)
Definition sample_counter (c : UsageCounter) : UsageStore.Counter := UsageCapture.forwarding_counter (usage_counter c).

Lemma row_of_part scope values fs parts c :
  Forall2 (rows_of scope values) fs parts → c ∈ mjoin parts →
  ∃ f value, f ∈ fs ∧ uc_RuleID c = ID f.1 ∧ uc_Protocol c = f.2 ∧ uc_Scope c = scope ∧ uc_Bytes c = cap value.
Proof.
  intros F (part & Hc & Hp)%list_elem_of_join. apply list_elem_of_lookup_1 in Hp as [i Hi].
  destruct (Forall2_lookup_r _ _ _ _ _ F Hi) as (f & Hf & up & down & _ & _ & ->).
  apply list_elem_of_lookup_2 in Hf. rewrite !elem_of_cons in Hc.
  destruct Hc as [->|[->|[]%elem_of_nil]]; eexists _, _; by split_and!.
Qed.

Lemma flow_in cfg f : f ∈ flows cfg → f.1 ∈ enabled_rules cfg ∧ f.2 ∈ ["tcp"; "udp"].
Proof.
  intros (l & Hl & Hin)%list_elem_of_join. apply list_elem_of_fmap in Hin as (r & -> & Hr).
  apply list_elem_of_fmap in Hl as (p & -> & Hp). split; [exact Hr|]. cbn. unfold expandedProtocols in Hp.
  repeat case_bool_decide; set_solver.
Qed.

Definition id_key (scope : string) (i : string * string * string) : string :=
  "forwarding" +:+ UsageStore.nul +:+ i.1.1 +:+ UsageStore.nul +:+ i.1.2 +:+ UsageStore.nul +:+ scope +:+ UsageStore.nul +:+ i.2.

(** Distinct rows have distinct baseline keys, none of them of the core. *)
Lemma forwarding_keys cfg scope values (parts : list (list UsageCounter)) :
  NoDup (ID <$> enabled_rules cfg) → (∀ rule, rule ∈ enabled_rules cfg → no_nul (ID rule)) →
  Forall2 (rows_of scope values) (flows cfg) parts →
  NoDup (UsageStore.counterKey <$> (sample_counter <$> mjoin parts)).
Proof.
  intros Hn Hplain F.
  assert (UsageStore.counterKey <$> (sample_counter <$> mjoin parts) = id_key scope <$> (row_id <$> mjoin parts)) as ->.
  { rewrite <- !list_fmap_compose. apply list_fmap_ext. intros n c Hc. apply list_elem_of_lookup_2 in Hc.
    destruct (row_of_part _ _ _ _ _ F Hc) as (f & v & _ & _ & _ & <- & _). reflexivity. }
  apply NoDup_fmap_2_strong; [|by eapply rows_NoDup].
  assert (∀ i, i ∈ row_id <$> mjoin parts → no_nul i.1.1 ∧ no_nul i.1.2) as Hi.
  { intros i (c & -> & Hc)%list_elem_of_fmap. destruct (row_of_part _ _ _ _ _ F Hc) as (f & v & Hf & E1 & E2 & _).
    destruct (flow_in _ _ Hf) as [Hf1 Hf2]. cbn. rewrite E1, E2. split; [by apply Hplain|].
    rewrite !elem_of_cons in Hf2. by destruct Hf2 as [->|[->|[]%elem_of_nil]]. }
  intros [[id1 p1] d1] [[id2 p2] d2] [H1 H2]%Hi [H3 H4]%Hi E. unfold id_key in E. cbn [fst snd] in *.
  apply nul_app_inj in E as [_ E]; [|done..]. apply nul_app_inj in E as [-> E]; [|done..].
  apply nul_app_inj in E as [-> E]; [|done..]. by apply app_inj_l, app_inj_l in E as ->.
Qed.

Lemma row_bound scope values fs parts c :
  Forall2 (rows_of scope values) fs parts → c ∈ mjoin parts → (uc_Bytes c ≤ Int.max_int64)%Z.
Proof. intros F Hc. destruct (row_of_part _ _ _ _ _ F Hc) as (f & v & _ & _ & _ & _ & ->). unfold cap. lia. Qed.
End guard.

(** ** Samples *)

Section sample.
Context {HostI : Host} {StateI : StateJson} {CaseI : UnicodeCase} {PrintI : UnicodePrint} {DigestI : SingBoxConfig.Digest}.
Context {SortI : SortSlice} {RangeI : MapRange} {ClientI : Stats.StatsClient} {SortL : SortSliceLaws} {RangeL : MapRangeLaws}.

Lemma core_kind r counters c :
  UsageCapture.currentCoreUsageCounters r = Ok counters → c ∈ counters → UsageStore.Kind c ∈ ["user"; "inbound"; "outbound"].
Proof.
  intros E Hc. unfold UsageCapture.currentCoreUsageCounters in E.
  bind_as E users Hu. bind_as E inb Hi. bind_as E out Ho. injection E as <-.
  assert (∀ kind l u d, c ∈ UsageCapture.core_counters kind l u d → UsageStore.Kind c = kind) as Hk.
  { intros kind l u d (x & -> & _)%list_elem_of_fmap. done. }
  rewrite !elem_of_app, !list_elem_of_join in Hc. rewrite !elem_of_cons.
  destruct Hc as [(l & Hl & Hin)|[(l & Hl & Hin)|(l & Hl & Hin)]]; apply list_elem_of_fmap in Hin as (t & -> & _);
    apply Hk in Hl; auto.
Qed.

(** C24: in a sample of usage no two counters are billed against one baseline: neither two
    of the forwarding rules (identifiers without repetition, as validation ensures), nor two
    of the core, nor one of each.  The value of a forwarding counter never exceeds the
    largest [int64]. *)
Theorem sample_distinct w r counters active complete :
  plain_core → NoDup (ID <$> enabled_rules (applied (svc w))) →
  (∀ rule, rule ∈ enabled_rules (applied (svc w)) → no_nul (ID rule)) →
  UsageCapture.currentUsageCounters (ForwardingI := usage_source w) r = Ok (counters, active, complete) →
  NoDup (UsageStore.counterKey <$> counters) ∧
  ∀ c, c ∈ counters → UsageStore.Kind c = "forwarding" → (UsageStore.Value c ≤ Int.max_int64)%Z.
Proof.
  intros Hcore Hn Hplain E. unfold UsageCapture.currentUsageCounters in E. bind_as E [rows act] Hrows.
  cbn [UsageCapture.UsageCounters usage_source] in Hrows. destruct (UsageCounters w) as [w' [[rows0 act0]|e]] eqn:Hu; [|done].
  cbn [snd] in Hrows. injection Hrows as <- <-. set (fwd := UsageCapture.forwarding_counter <$> (usage_counter <$> rows0)) in E.
  assert (NoDup (UsageStore.counterKey <$> fwd) ∧ (∀ c, c ∈ fwd → UsageStore.Kind c = "forwarding" ∧ (UsageStore.Value c ≤ Int.max_int64)%Z))
    as [Hf1 Hf2].
  { assert (fwd = sample_counter <$> rows0) as -> by (unfold fwd; by rewrite <- list_fmap_compose).
    apply usage_counters_spec in Hu as [->|(scope & values & parts & -> & F)].
    - split; [constructor|]. by intros ? ?%elem_of_nil.
    - split; [by eapply forwarding_keys|]. intros c (x & -> & Hx)%list_elem_of_fmap. split; [done|]. by eapply row_bound. }
  assert (∀ l, l = fwd → NoDup (UsageStore.counterKey <$> l) ∧ ∀ c, c ∈ l → UsageStore.Kind c = "forwarding" → (UsageStore.Value c ≤ Int.max_int64)%Z)
    as Halone by (intros l ->; split; [done|]; intros c Hc _; by apply Hf2).
  destruct (_ || _); [injection E as <- _ _; by apply Halone|].
  destruct (UsageCapture.currentCoreUsageCounters r) as [core|e] eqn:Hc; [|injection E as <- _ _; by apply Halone].
  injection E as <- _ _. destruct (core_sample_distinct _ _ Hcore Hc) as [Hc1 Hc2]. split.
  - rewrite fmap_app. apply NoDup_app. split; [done|]. split; [|done]. intros k Hk Hk'.
    apply list_elem_of_fmap in Hk as (x & -> & Hx). apply list_elem_of_fmap in Hk' as (y & E & Hy).
    pose proof (proj1 (Hf2 _ Hx)) as Kx. pose proof (core_kind _ _ _ Hc Hy) as Ky. unfold UsageStore.counterKey in E. rewrite Kx in E.
    rewrite !elem_of_cons in Ky. destruct Ky as [Ky|[Ky|[Ky|[]%elem_of_nil]]]; rewrite Ky in E; discriminate E.
  - intros c [Hx|Hy]%elem_of_app Hk; [by apply Hf2|]. pose proof (core_kind _ _ _ Hc Hy) as Ky. rewrite Hk in Ky.
    rewrite !elem_of_cons in Ky. by destruct Ky as [Ky|[Ky|[Ky|[]%elem_of_nil]]].
Qed.
End sample.

(** ** Sealed before changed *)

Section sealed.
Context {HostI : Host} {StateI : StateJson} {CaseI : UnicodeCase} {PrintI : UnicodePrint} {DigestI : SingBoxConfig.Digest}.
Context {SortI : SortSlice} {RangeI : MapRange} {SetI : SetRange} {ClientI : Stats.StatsClient}.
Context {B : Type} {BucketI : BucketOps B} {BucketL : BucketLaws B} {CodecI : Codec UsageStore.Snapshot} {CodecL : CodecLaws UsageStore.Snapshot}
  {TxI : TxOps (UsageStore.DB B)} {TxL : TxLaws (UsageStore.DB B)}.

Lemma usage_counters_mute : mute UsageCounters.
Proof. unfold UsageCounters. mute_tac. Qed.

Lemma captureUsage_spec at_ (n n1 : Node (B := B)) sealed :
  captureUsage at_ n = (n1, sealed) →
  node_runtime n1 = node_runtime n ∧ quiet (fw n) (fw n1) ∧
  capture_with {| src_client := ClientI; src_forwarding := usage_source (fw n) |} at_ (node_runtime n) (usage n) = (usage n1, sealed).
Proof.
  unfold captureUsage, capture_with. cbn [src_client src_forwarding]. destruct (UsageCapture.captureUsageSnapshot _ _ _) as [u r].
  intros [= <- <-]. split; [done|]. split; [|done]. cbn. destruct (UsageCapture.UsageSnapshotActive _); [apply usage_counters_mute|reflexivity].
Qed.

(** The queue takes a sample: its answer is final when it took it, or when it says that it
    is not active. *)
Definition commits (at_ : time) (n : Node (B := B)) (counters : list UsageStore.Counter) (complete : bool)
    (u' : UsageCapture.Usage B) : Prop :=
  ∃ a, UsageStore.Capture (core_name (node_runtime n)) counters at_ (complete && UsageCapture.marker (usage n))
         (UsageCapture.store (usage n)) = (UsageCapture.store u', a) ∧
       (a = Ok tt ∨ ∃ e, a = Err e ∧ UsageCapture.is_not_active e = true).

Definition core_running (r : RuntimeState.Runtime) : bool :=
  Stats.has_client r && negb (bool_decide (RuntimeState.RunningCoreType r = "")).

(** The counters of the core in a sample: none when no core runs or it does not answer. *)
Definition core_part (r : RuntimeState.Runtime) (core : list UsageStore.Counter) : Prop :=
  core = [] ∨ core_running r = true ∧ UsageCapture.currentCoreUsageCounters r = Ok core.

(** What is in the queue before the rules change.  While the service counts, the counters
    of every flow of the old rules; while it does not, because an error is recorded or the
    table is another one, no counter of the rules. *)
Definition sealing (at_ : time) (n : Node (B := B)) (u' : UsageCapture.Usage B) : Prop :=
  if negb (UsageCapture.UsageSnapshotActive (usage n)) then u' = usage n
  else if counting (fw n) then
    ∃ rows core complete, all_rows (fw n) rows ∧ core_part (node_runtime n) core ∧
      commits at_ n ((sample_counter <$> rows) ++ core) complete u'
  else if core_running (node_runtime n) then
    ∃ core complete, core_part (node_runtime n) core ∧ commits at_ n core complete u'
  else u' = usage n.

Lemma source_counters w : UsageCapture.UsageCounters (ForwardingUsage := usage_source w) =
  match (UsageCounters w).2 with Ok (rows, active) => Ok (usage_counter <$> rows, active) | Err e => Err e end.
Proof. done. Qed.

Lemma capture_seals at_ (n : Node (B := B)) u' :
  capture_with {| src_client := ClientI; src_forwarding := usage_source (fw n) |} at_ (node_runtime n) (usage n) = (u', Ok tt) →
  sealing at_ n u'.
Proof.
  intros E. unfold sealing. pose proof (capture_step _ _ _ _ _ _ E) as (Hoff & _ & Hok).
  destruct (UsageCapture.UsageSnapshotActive (usage n)) eqn:Hact; cbn [negb]; [|by destruct (Hoff eq_refl)].
  set (src := {| src_client := ClientI; src_forwarding := usage_source (fw n) |}) in *.
  assert (∀ counters complete, sampled src (node_runtime n) = Ok (counters, true, complete) → commits at_ n counters complete u') as Hc.
  { intros counters complete Hs. destruct (Hok _ _ eq_refl Hs) as (a & Hcap & Hcase). exists a. split; [exact Hcap|].
    destruct a as [[]|e]; [by left|]. right. exists e. split; [done|]. by destruct Hcase as [[? _]|(_ & [=] & _)]. }
  pose proof (usage_counters_cases (fw n)) as Hrows. pose proof (source_counters (fw n)) as Hsrc.
  assert (sampled src (node_runtime n) = UsageCapture.currentUsageCounters (ForwardingI := usage_source (fw n)) (node_runtime n)) as Hcur by done.
  unfold UsageCapture.currentUsageCounters in Hcur. rewrite Hsrc in Hcur. clear Hsrc.
  assert (negb (Stats.has_client (node_runtime n)) || bool_decide (RuntimeState.RunningCoreType (node_runtime n) = "") =
    negb (core_running (node_runtime n))) as Hrun by (unfold core_running; by destruct (Stats.has_client _), (bool_decide _)).
  destruct (counting (fw n)).
  - destruct (UsageCounters (fw n)).2 as [[rows active]|e]; [destruct Hrows as [-> Hrows]|by pose proof (capture_sample_err _ _ _ _ _ _ _ Hact Hcur E)].
    cbn [mbind result_bind] in Hcur. rewrite Hrun in Hcur.
    assert ((UsageCapture.forwarding_counter <$> (usage_counter <$> rows)) = sample_counter <$> rows) as Hfw by (by rewrite <- list_fmap_compose).
    rewrite Hfw in Hcur. exists rows. unfold core_part. destruct (core_running (node_runtime n)); cbn [negb] in Hcur.
    + destruct (UsageCapture.currentCoreUsageCounters (node_runtime n)) as [core|e].
      * exists core, true. split; [done|]. split; [by right|]. by apply Hc.
      * exists [], false. rewrite app_nil_r. split; [done|]. split; [by left|]. by apply Hc.
    + exists [], true. rewrite app_nil_r. split; [done|]. split; [by left|]. by apply Hc.
  - rewrite Hrows in Hcur. cbn [mbind result_bind fmap list_fmap app] in Hcur. rewrite Hrun in Hcur.
    unfold core_part. destruct (core_running (node_runtime n)) eqn:Hr; cbn [negb] in Hcur.
    + destruct (UsageCapture.currentCoreUsageCounters (node_runtime n)) as [core|e].
      * exists core, true. split; [by right|]. by apply Hc.
      * exists [], false. split; [by left|]. by apply Hc.
    + eapply capture_unsampled; [|exact E]. intros ??. rewrite Hcur. congruence.
Qed.

(** C9: what a synchronisation seals before it changes the rules of forwarding.  It always
    answers.  When sealing fails, the answer is an error and neither the queue nor the
    service, its file and the table change.  When it succeeds the request is carried out
    after it: if the queue is active and the service counts (rules are applied, no error is
    recorded and the table is the configured one), the counters of every flow of the old
    rules, read from the table, are committed first; if the service does not count, the
    rules are replaced all the same and no counter of theirs is committed. *)
Theorem sync_sealed at_ request (n : Node (B := B)) :
  let '(n1, sealed) := captureUsage at_ n in
  quiet (fw n) (fw n1) ∧
  ∃ n' st o, ForwardingSync at_ request n = (n', Ok (st, o)) ∧ usage n' = usage n1 ∧
  match sealed with
  | Err e => usage n' = usage n ∧ o = Some (ErrWrap "seal forwarding usage before sync" e) ∧ quiet (fw n) (fw n')
  | Ok _ => sealing at_ n (usage n') ∧
      SyncWithHash (req_Config request) (currentCoreListeners (node_runtime n)) (req_ConfigHash request) (fw n1) = (fw n', Ok (st, o))
  end.
Proof.
  destruct (captureUsage at_ n) as [n1 sealed] eqn:Hc. apply captureUsage_spec in Hc as Hs. destruct Hs as (Hr & Q & Hw).
  split; [exact Q|]. unfold ForwardingSync.
  assert (attempt (captureUsage at_) n = (n1, Ok sealed)) as Ha by (unfold attempt; by rewrite Hc).
  rewrite (proc_bind_run _ _ _ _ _ Ha). destruct sealed as [[]|e].
  - assert (gets node_runtime n1 = (n1, Ok (node_runtime n))) as Hg by (unfold gets; by rewrite Hr).
    rewrite (proc_bind_run _ _ _ _ _ Hg).
    destruct (sync_answers (req_Config request) (currentCoreListeners (node_runtime n)) (req_ConfigHash request) (fw n1)) as (w' & st & o & E).
    unfold on_fw. rewrite E. eexists _, _, _. split; [reflexivity|]. split; [done|]. split; [|done]. by apply capture_seals.
  - apply capture_step in Hw as (_ & He & _). unfold on_fw. destruct (status_sure (fw n1)) as (w' & st & E). unfold mbind, proc_bind, Status_. rewrite E.
    eexists _, _, _. split; [reflexivity|]. split; [done|]. split; [by rewrite <-(He e eq_refl)|]. split; [done|].
    cbn. etransitivity; [exact Q|]. by apply (mute_run _ _ _ _ status_mute E).
Qed.
End sealed.

(** ** The theorems at work *)

Module ForwardManagerDemo.
Import ForwardDemo Merge CaptureDemo UsageDemo Mem.

Definition sample : list UsageStore.Counter :=
  match UsageCapture.currentUsageCounters (ForwardingI := usage_source synced) core with Ok (c, _, _) => c | Err _ => [] end.

Lemma sample_ok : UsageCapture.currentUsageCounters (ForwardingI := usage_source synced) core = Ok (sample, true, true).
Proof. unfold sample. vm_compute. reflexivity. Qed.

Lemma sample_distinct_witness :
  NoDup (UsageStore.counterKey <$> sample) ∧ length sample = 6 ∧ UsageStore.Value <$> take 1 sample = [Int.max_int64].
Proof.
  split; [|vm_compute; by split].
  refine (proj1 (sample_distinct synced core sample true true core_plain _ _ sample_ok)).
  - change (enabled_rules (applied (svc synced))) with (filter (λ r, Enabled r = true) (Rules (applied (svc synced)))).
    rewrite (proj1 synced_rules). apply NoDup_singleton.
  - intros rule Hr. apply list_elem_of_filter in Hr as [_ Hr]. rewrite (proj1 synced_rules) in Hr.
    apply list_elem_of_singleton in Hr as ->. vm_compute. reflexivity.
Defined.

(** The counters are sealed by a request that then replaces the rules. *)
Definition demo_node : Node (B := Mem.bucket) := {| fw := synced; usage := u0; node_runtime := core |}.
Lemma sync_sealed_demo :
  let '(n1, sealed) := captureUsage 9%Z demo_node in
  sealed = Ok tt ∧ UsageStore.Pending (UsageStore.StatusOf (UsageStore.db (UsageCapture.store (usage n1)))) = 1%Z.
Proof. vm_compute. by split. Qed.

Definition demo_request : SyncRequest := {| req_Config := demo_config "192.0.2.9"; req_ConfigHash := "h2" |}.

(** The counters of forwarding rules in the queue. *)
Definition sealed_rules (n : Node (B := Mem.bucket)) : list UsageStore.Counter :=
  match UsageStore.Pull {| UsageStore.AfterSequence := 0; UsageStore.Limit := 0; UsageStore.MaxBytes := 0 |}
    (UsageCapture.store (usage n)) with
  | Ok resp => filter (λ c, UsageStore.Kind c = "forwarding") (mjoin (UsageStore.Counters <$> UsageStore.Snapshots resp))
  | Err _ => []
  end.

(** A refused request leaves the table and its counters alone, but the service no longer
    counts; the next request replaces the table without sealing what it counted since. *)
Definition bad_request : SyncRequest := {| req_Config := demo_config "gone.example"; req_ConfigHash := "h3" |}.
Definition refused : Node (B := Mem.bucket) := (ForwardingSync 9%Z bad_request demo_node).1.
Definition replaced : Node (B := Mem.bucket) := (ForwardingSync 10%Z demo_request refused).1.
Example unsealed_after_rejection :
  counting (fw demo_node) = true ∧ counting (fw refused) = false ∧ length (sealed_rules refused) = 2 ∧
  table_script (events (fw refused)) = table_script (events (fw demo_node)) ∧
  bool_decide (table_script (events (fw replaced)) = table_script (events (fw refused))) = false ∧
  sealed_rules replaced = sealed_rules refused.
Proof. vm_compute. by split_and!. Qed.

Lemma sync_sealed_witness : (∃ n' st o, ForwardingSync 9%Z demo_request demo_node = (n', Ok (st, o)) ∧
  UsageStore.Pending (UsageStore.StatusOf (UsageStore.db (UsageCapture.store (usage n')))) = 1%Z) ∧
  sealing 10%Z refused (usage replaced).
Proof.
  split.
  - pose proof (sync_sealed 9%Z demo_request demo_node) as H. pose proof sync_sealed_demo as D.
    destruct (captureUsage 9%Z demo_node) as [n1 sealed]. destruct H as (_ & n' & st & o & E & Hu & _).
    exists n', st, o. split; [exact E|]. rewrite Hu. apply D.
  - pose proof (sync_sealed 10%Z demo_request refused) as H.
    assert ((captureUsage 10%Z refused).2 = Ok tt) as Hok by (vm_compute; reflexivity).
    destruct (captureUsage 10%Z refused) as [n1 sealed]. cbn [snd] in Hok. subst sealed.
    destruct H as (_ & n' & st & o & E & _ & Hs & _). unfold replaced. rewrite E. exact Hs.
Defined.
End ForwardManagerDemo.
