(* ===== verification/Benchmark.v ===== *)
(** * Benchmarks ([internal/benchmark])

    The runner of [runner.go]: requests, the jobs and their files, the worker that executes
    one job at a time, cancellation, recovery after a restart, and pruning.  A measurement
    itself is an argument.  Every operation that the mutex protects is one step; the context of the job
    that runs is the [worker]'s ([r.cancel] is set and cleared with it). *)
From S2P Require Import Prelude GoStr GoTime GoAny GoSort.

Module Benchmark.

(** ** Requests *)

Record Target := { t_ID : string; City : string; Provider : string; DownloadURL : string; UploadURL : string; PolicyURL : string }.
Record Request := {
  req_ID : string; Kind : string; Items : list string; Targets : list Target; Family : string; SourceIP : string;
  Interface : string; Seconds : Z; BytesPerDirection : Z; Threads : Z }.
Record Item := { Name : string; item_Status : string; item_Message : string; Metrics : object }.
Record Job := {
  ID : string; JobRequest : Request; Status : string; Phase : string; Progress : Z; CreatedAt : time;
  FinishedAt : option time; Results : list Item; Message : string }.

#[export] Instance Target_eq_dec : EqDecision Target.
Proof. solve_decision. Defined.
#[export] Instance Request_eq_dec : EqDecision Request.
Proof. solve_decision. Defined.

Definition no_request : Request :=
  {| req_ID := ""; Kind := ""; Items := []; Targets := []; Family := ""; SourceIP := ""; Interface := "";
     Seconds := 0; BytesPerDirection := 0; Threads := 0 |}.

Definition is_hex (c : ascii) : bool := in_range 48 57 (byte_of c) || in_range 97 102 (byte_of c).

(** A rune outside ASCII is refused like its first byte. *)
Fixpoint valid_from (i : nat) (id : string) : bool :=
  match id with
  | EmptyString => true
  | String c rest =>
      (if bool_decide (i ∈ [8; 13; 18; 23]) then Ascii.eqb c "-" else is_hex c) && valid_from (S i) rest
  end.
Definition validID (id : string) : bool := (slen id =? 36)%Z && valid_from 0 id.

(** [net/url]: the parts of a URL that the code looks at *)
Record URL := { Scheme : string; Hostname : string; Port : string; has_User : bool; Fragment : string }.
Class UrlParse := parse_url : string → option URL.

Definition parseURL `{UrlParse} (raw : string) : result URL :=
  match parse_url raw with
  | None => Err (ErrMsg "target must be an HTTP(S) URL without credentials")
  | Some u =>
      _ ← fail_if (negb (bool_decide (Scheme u ∈ ["https"; "http"])) || bool_decide (Hostname u = "") || has_User u
                   || negb (bool_decide (Fragment u = "")) || (2048 <? slen raw)%Z)
            (ErrMsg "target must be an HTTP(S) URL without credentials");
      _ ← fail_if (negb (bool_decide (Port u ∈ [""; "443"; "8443"; "80"]))) (ErrMsg "target port is not allowed");
      Ok u
  end.

Definition allowed (kind : string) : list string :=
  if bool_decide (kind = "HARDWARE") then ["cpu"; "memory"; "disk"] else ["latency"; "download"; "upload"].

Definition check_item (kind : string) (seen : list string) (item : string) : result (list string) :=
  _ ← fail_if (negb (bool_decide (item ∈ allowed kind)) || bool_decide (item ∈ seen)) (ErrMsg "invalid or duplicate test item");
  Ok (item :: seen).

Definition check_target `{UrlParse} (seen : list string) (t : Target) : result (list string) :=
  _ ← fail_if (bool_decide (t_ID t = "") || (64 <? slen (t_ID t))%Z || bool_decide (t_ID t ∈ seen) || (64 <? slen (City t))%Z
               || (128 <? slen (Provider t))%Z) (ErrMsg "invalid target");
  _ ← parseURL (DownloadURL t);
  _ ← (if bool_decide (UploadURL t = "") then Ok tt else _ ← parseURL (UploadURL t); Ok tt);
  Ok (t_ID t :: seen).

Definition MiB : Z := 1048576.

Definition validate `{UrlParse} (req : Request) : result unit :=
  _ ← fail_if (negb (validID (req_ID req))) (ErrMsg "invalid task ID");
  _ ← fail_if (negb (bool_decide (Kind req ∈ ["HARDWARE"; "NETWORK"]))) (ErrMsg "invalid test kind");
  _ ← fail_if ((Seconds req <? 1) || (15 <? Seconds req) || (Threads req <? 1) || (8 <? Threads req)
               || (BytesPerDirection req <? MiB) || (256 * MiB <? BytesPerDirection req))%Z (ErrMsg "test exceeds resource limits");
  _ ← fail_if (negb (bool_decide (Family req ∈ ["IPv4"; "IPv6"]))) (ErrMsg "invalid address family");
  _ ← fail_if (negb (bool_decide (SourceIP req = "")) && negb (bool_decide (Interface req = "")))
        (ErrMsg "select either source IP or interface");
  _ ← foldr_result (check_item (Kind req)) [] (Items req);
  _ ← fail_if (bool_decide (Items req = []) || (3 <? length (Items req)))%nat (ErrMsg "select test items");
  if bool_decide (Kind req = "NETWORK") then
    _ ← fail_if (bool_decide (Targets req = []) || (12 <? length (Targets req)))%nat (ErrMsg "select between 1 and 12 targets");
    _ ← foldr_result check_target [] (Targets req);
    Ok tt
  else fail_if (negb (bool_decide (Targets req = []))) (ErrMsg "hardware tests do not accept network targets").

(** ** The directory of the jobs *)

(** [Folder]: the names in it, and whether each is a regular file *)
Inductive node := File (data : string) (mtime : time) | Folder (entries : list (string * bool)).
Abbreviation fs := (gmap string node).

(** [encoding/json] on jobs and requests *)
Class JobJson := {
  marshal_job : Job → result string;
  unmarshal_job : string → option Job;
  marshal_request : Request → string
}.

Definition maxJobSize : Z := 524288.
Definition job_file (id : string) : string := id +:+ ".json".

(** How far [save] comes on the disk *)
Inductive save_outcome := Saved | FailOpen | FailWrite (partial : string) | FailRename | FailSync.

Section runner.
Context {JsonI : JobJson} {UrlI : UrlParse} {RangeI : MapRange}.

Definition save (o : save_outcome) (now : time) (j : Job) (d : fs) : fs * result unit :=
  match marshal_job j with
  | Err e => (d, Err e)
  | Ok data =>
      if (maxJobSize <? slen data)%Z then (d, Err (ErrMsg "benchmark result exceeds limit")) else
      let path := job_file (ID j) in
      let tmp := path +:+ ".tmp" in
      let renamed := <[path := File data now]> (delete tmp d) in
      match o with
      | Saved => (renamed, Ok tt)
      | FailOpen => (d, Err (ErrMsg "open"))
      | FailWrite partial => (<[tmp := File partial now]> d, Err (ErrMsg "write"))
      | FailRename => (<[tmp := File data now]> d, Err (ErrMsg "rename"))
      | FailSync => (renamed, Err (ErrMsg "sync"))
      end
  end.

(** What a caller gets is a copy made through JSON. *)
Definition zero_job : Job :=
  {| ID := ""; JobRequest := no_request; Status := ""; Phase := ""; Progress := 0; CreatedAt := zero_time; FinishedAt := None;
     Results := []; Message := "" |}.
Definition clone (j : Job) : Job :=
  match marshal_job j with Ok data => default zero_job (unmarshal_job data) | Err _ => zero_job end.

(** ** The runner *)

Inductive ctx_error := Canceled | DeadlineExceeded.

(** The goroutine of the active job: where it is in the loop of [run], and the error of its
    context *)
Record Worker := { w_req : Request; w_pos : nat; measuring : bool; w_ctx : option ctx_error }.
Record Runner := { jobs : gmap string Job; active : string; worker : option Worker }.
Record State := { runner : Runner; disk : fs }.

Definition set_job (j : Job) (r : Runner) : Runner :=
  {| jobs := <[ID j := j]> (jobs r); active := active r; worker := worker r |}.
Definition set_worker (w : option Worker) (r : Runner) : Runner := {| jobs := jobs r; active := active r; worker := w |}.
Definition set_runner (f : Runner → Runner) : proc State unit := modify (λ s, {| runner := f (runner s); disk := disk s |}).

(** The first error of a context stays. *)
Definition cancel_worker (e : ctx_error) (w : Worker) : Worker :=
  {| w_req := w_req w; w_pos := w_pos w; measuring := measuring w;
     w_ctx := match w_ctx w with None => Some e | x => x end |}.
Definition cancel (e : ctx_error) (r : Runner) : Runner := set_worker (cancel_worker e <$> worker r) r.

Definition save_job (o : save_outcome) (now : time) (j : Job) : proc State unit := λ s,
  let '(d, r) := save o now j (disk s) in ({| runner := runner s; disk := d |}, r).

(** [rm name]: whether a removal succeeds *)
Definition remove_file (rm : string → bool) (name : string) (d : fs) : fs := if rm name then delete name d else d.
Definition remove_job (rm : string → bool) (d : fs) (id : string) : fs :=
  remove_file rm (job_file id +:+ ".invalid") (remove_file rm (job_file id) d).

Definition older (act : string) (oldest : option Job) (kv : string * Job) : option Job :=
  let j := kv.2 in
  if negb (bool_decide (ID j = act)) && match oldest with None => true | Some o => before (CreatedAt j) (CreatedAt o) end
  then Some j else oldest.
Definition oldest (r : Runner) : option Job := foldl (older (active r)) None (range_map (jobs r)).

Definition drop_job (rm : string → bool) (id : string) (s : State) : State :=
  {| runner := {| jobs := delete id (jobs (runner s)); active := active (runner s); worker := worker (runner s) |};
     disk := remove_job rm (disk s) id |}.

(** The first loop deletes one job at each turn: the number of jobs is enough fuel. *)
Fixpoint prune_count (fuel : nat) (rm : string → bool) (s : State) : State :=
  match fuel with
  | O => s
  | S fuel =>
      if bool_decide (100 < size (jobs (runner s))) then
        match oldest (runner s) with None => s | Some j => prune_count fuel rm (drop_job rm (ID j) s) end
      else s
  end.

Definition retention : Z := 90 * 24 * hour.
Definition is_expired (now : time) (act : string) (kv : string * Job) : bool :=
  negb (bool_decide (kv.1 = act)) && (retention <? now - CreatedAt kv.2)%Z.
Definition prune_age (now : time) (rm : string → bool) (s : State) : State :=
  foldl (λ s kv, drop_job rm kv.1 s) s (filter (λ kv, is_expired now (active (runner s)) kv = true) (range_map (jobs (runner s)))).

Definition prune (now : time) (rm : string → bool) (s : State) : State :=
  prune_age now rm (prune_count (size (jobs (runner s))) rm s).

(** ** Requests to the runner *)

Definition new_job (req : Request) (now : time) : Job :=
  {| ID := req_ID req; JobRequest := req; Status := "RUNNING"; Phase := "starting"; Progress := 0; CreatedAt := now;
     FinishedAt := None; Results := []; Message := "" |}.

Definition Start (req : Request) (now : time) (o : save_outcome) : proc State Job :=
  _ ← lift (validate req);
  r ← gets runner;
  match jobs r !! req_ID req with
  | Some existing =>
      if bool_decide (req_ID (JobRequest existing) = "") && bool_decide (Status existing = "FAILED") then mret (clone existing)
      else if bool_decide (marshal_request (JobRequest existing) = marshal_request req) then mret (clone existing)
      else throw (ErrMsg "task ID already has a different request")
  | None =>
      if negb (bool_decide (active r = "")) then throw ErrBusy else
      let j := new_job req now in
      _ ← save_job o now j;
      _ ← set_runner (λ r, {| jobs := <[ID j := j]> (jobs r); active := ID j;
             worker := Some {| w_req := req; w_pos := 0; measuring := false; w_ctx := None |} |});
      mret (clone j)
  end.

Definition Get (id : string) (r : Runner) : option Job := clone <$> jobs r !! id.

(** [None]: the call of a nil [r.cancel] panics *)
Definition Cancel (id : string) (r : Runner) : Runner * option bool :=
  if negb (bool_decide (active r = id)) then (r, Some false)
  else match worker r with
       | None => (r, None)
       | Some _ => (cancel Canceled r, Some true)
       end.
Definition Close (r : Runner) : Runner := cancel Canceled r.

(** ** The worker *)

Definition nil_dereference : error := ErrMsg "invalid memory address or nil pointer dereference".

Definition with_message (m : string) (j : Job) : Job :=
  {| ID := ID j; JobRequest := JobRequest j; Status := Status j; Phase := Phase j; Progress := Progress j; CreatedAt := CreatedAt j;
     FinishedAt := FinishedAt j; Results := Results j; Message := m |}.
Definition with_phase (phase : string) (progress : Z) (j : Job) : Job :=
  {| ID := ID j; JobRequest := JobRequest j; Status := Status j; Phase := phase; Progress := progress; CreatedAt := CreatedAt j;
     FinishedAt := FinishedAt j; Results := Results j; Message := Message j |}.
Definition with_item (item : Item) (j : Job) : Job :=
  {| ID := ID j; JobRequest := JobRequest j; Status := Status j; Phase := Phase j; Progress := Progress j; CreatedAt := CreatedAt j;
     FinishedAt := FinishedAt j; Results := Results j ++ [item]; Message := Message j |}.

Definition change (id : string) (f : Job → Job) (now : time) (o : save_outcome) : proc State unit :=
  r ← gets runner;
  match jobs r !! id with
  | None => throw nil_dereference
  | Some j =>
      let j := f j in
      _ ← set_runner (set_job j);
      saved ← attempt (save_job o now j);
      match saved with
      | Ok _ => mret tt
      | Err _ =>
          _ ← set_runner (set_job (with_message "Could not persist progress" j));
          set_runner (cancel Canceled)
      end
  end.

(** The tests of a request: the phase that each announces *)
Definition phases (req : Request) : list string :=
  if bool_decide (Kind req = "HARDWARE") then Items req
  else imap (λ i t, City t +:+ " (" +:+ itoa (Z.of_nat i + 1) +:+ "/" +:+ itoa (Z.of_nat (length (Targets req))) +:+ ")") (Targets req).
Definition progress_at (i n : nat) : Z := Z.of_nat i * 100 / Z.of_nat n.

Definition count_status (status : string) (items : list Item) : nat :=
  length (filter (λ i, item_Status i = status) items).

Definition with_end (status message : string) (now : time) (j : Job) : Job :=
  {| ID := ID j; JobRequest := JobRequest j; Status := status; Phase := "finished"; Progress := 100; CreatedAt := CreatedAt j;
     FinishedAt := Some now; Results := Results j; Message := message |}.

Definition final (ctx : option ctx_error) (now : time) (j : Job) : Job :=
  match ctx with
  | Some Canceled => with_end "CANCELLED" (Message j) now j
  | Some DeadlineExceeded => with_end "FAILED" "Task exceeded deadline" now j
  | None =>
      let n := length (Results j) in
      let failed := count_status "FAILED" (Results j) in
      let skipped := count_status "SKIPPED" (Results j) in
      if bool_decide (n = 0) || bool_decide (skipped = n) then with_end "PARTIAL" "No test items could be executed" now j
      else if bool_decide (0 < failed) && bool_decide (failed = n) then with_end "FAILED" (Message j) now j
      else if bool_decide (0 < failed + skipped) then with_end "PARTIAL" (Message j) now j
      else with_end "COMPLETED" (Message j) now j
  end.

Definition finish (w : Worker) (now : time) (o : save_outcome) (rm : string → bool) : proc State unit :=
  r ← gets runner;
  match jobs r !! req_ID (w_req w) with
  | None => throw nil_dereference
  | Some j =>
      let j := final (w_ctx w) now j in
      saved ← attempt (save_job o now j);
      let j := match saved with Ok _ => j | Err _ => with_end "FAILED" "Could not persist result" now j end in
      _ ← set_runner (λ r, {| jobs := <[ID j := j]> (jobs r); active := ""; worker := None |});
      modify (prune now rm)
  end.

(** The next step of the worker: announce a test, report its result [item], or finish. *)
Definition work (item : Item) (now : time) (o : save_outcome) (rm : string → bool) : proc State unit :=
  r ← gets runner;
  match worker r with
  | None => mret tt
  | Some w =>
      if measuring w then
        _ ← set_runner (set_worker (Some {| w_req := w_req w; w_pos := S (w_pos w); measuring := false; w_ctx := w_ctx w |}));
        change (req_ID (w_req w)) (with_item item) now o
      else match phases (w_req w) !! w_pos w, w_ctx w with
           | Some phase, None =>
               _ ← set_runner (set_worker (Some {| w_req := w_req w; w_pos := w_pos w; measuring := true; w_ctx := w_ctx w |}));
               change (req_ID (w_req w)) (with_phase phase (progress_at (w_pos w) (length (phases (w_req w))))) now o
           | _, _ => finish w now o rm
           end
  end.

(** ** The start of the program *)

(** What the disk does while it is read, and the clock *)
Record BootEnv := {
  boot_now : time; can_list : bool; can_open : string → bool; can_read : string → bool; can_rename : string → bool;
  can_info : string → bool; can_remove : string → bool; saves : string → save_outcome }.

Definition damagedJob (env : BootEnv) (name id : string) (n : node) : Job :=
  {| ID := id; JobRequest := no_request; Status := "FAILED"; Phase := "finished"; Progress := 100;
     CreatedAt := match n with File _ mtime => if can_info env name then mtime else boot_now env | Folder _ => boot_now env end;
     FinishedAt := Some (boot_now env); Results := []; Message := "Previous benchmark record is damaged; test was not restarted" |}.

Definition interrupted (now : time) (j : Job) : Job :=
  if bool_decide (Status j = "RUNNING") then
    {| ID := ID j; JobRequest := JobRequest j; Status := "INTERRUPTED"; Phase := Phase j; Progress := Progress j;
       CreatedAt := CreatedAt j; FinishedAt := Some now; Results := Results j; Message := "Agent restarted during test" |}
  else j.

(** The job of a file, when it is one *)
Definition read_job (env : BootEnv) (name : string) (n : node) : option Job :=
  match n with
  | Folder _ => None
  | File data _ =>
      if can_read env name && (slen data <=? maxJobSize)%Z then
        j ← unmarshal_job data;
        if validID (ID j) && bool_decide (name = job_file (ID j)) then Some j else None
      else None
  end.

Definition set_jobs (f : gmap string Job → gmap string Job) : proc State unit :=
  set_runner (λ r, {| jobs := f (jobs r); active := active r; worker := worker r |}).
Definition set_disk (f : fs → fs) : proc State unit := modify (λ s, {| runner := runner s; disk := f (disk s) |}).

(** The [case]s of a name *)
Inductive entry_kind := Tombstone (id : string) | Scratch | Temporary | Record_ (id : string) | Other.
Definition classify (name : string) (n : node) : entry_kind :=
  if has_suffix name ".json.invalid" then
    let id := trim_suffix name ".json.invalid" in if validID id then Tombstone id else Other
  else if match n with Folder _ => has_prefix name "disk-benchmark-" | File _ _ => false end then Scratch
  else if has_suffix name ".json.tmp" && validID (trim_suffix name ".json.tmp") then Temporary
  else if has_suffix name ".json" && validID (trim_suffix name ".json") then Record_ (trim_suffix name ".json")
  else Other.

Definition disposable (n : node) : bool :=
  match n with Folder l => bool_decide (l = []) || bool_decide (l = [("test.bin", true)]) | File _ _ => false end.

Definition load_entry (env : BootEnv) (name : string) : proc State unit :=
  s ← get;
  match disk s !! name with
  | None => mret tt
  | Some n =>
      match classify name n with
      | Tombstone id =>
          when (bool_decide (jobs (runner s) !! id = None)) (set_jobs <[id := damagedJob env name id n]>)
      | Scratch => when (can_read env name && disposable n) (set_disk (remove_file (can_remove env) name))
      | Temporary => set_disk (remove_file (can_remove env) name)
      | Other => mret tt
      | Record_ id =>
          if negb (can_open env name) then throw (ErrMsg "open") else
          match read_job env name n with
          | None =>
              if negb (can_rename env name) then throw (ErrMsg "rename") else
              _ ← set_disk (λ d, <[name +:+ ".invalid" := n]> (delete name d));
              set_jobs <[id := damagedJob env name id n]>
          | Some j =>
              let j := interrupted (boot_now env) j in
              _ ← set_jobs <[ID j := j]>;
              save_job (saves env name) (boot_now env) j
          end
      end
  end.

Definition entries (d : fs) : list string := sort_strings (map_to_list d).*1.

Definition idle : Runner := {| jobs := ∅; active := ""; worker := None |}.

(** [New]: from the directory to a runner, or an error; [load] is its loop. *)
Definition load (env : BootEnv) : proc State unit :=
  _ ← set_runner (λ _, idle);
  if negb (can_list env) then throw (ErrMsg "list") else
  d ← gets disk;
  proc_iter (load_entry env) (entries d).
Definition New (env : BootEnv) : proc State unit := _ ← load env; modify (prune (boot_now env) (can_remove env)).

End runner.
End Benchmark.
