(* ===== verification/BenchmarkSpec.v ===== *)
(** * The runner of benchmarks over its whole life

    A [System] is the runner with its directory, up or down; its steps are those of the
    requests, of the worker, and of the start and the end of the process.

    [runner_sound]: what holds of a runner at every moment.
    [runner_budget]: a test is executed once, whatever crashes come between.
    [worker_finishes]: the worker ends after two steps for each test.
    [prune_exact]: which jobs pruning forgets. *)
From S2P Require Import Prelude GoStr GoTime GoAny GoSort Benchmark.
Import Benchmark.

(** ** Names of files *)

Lemma job_file_inj a b : job_file a = job_file b → a = b.
Proof. unfold job_file. intros H. by rewrite <- (trim_suffix_app a ".json"), H, trim_suffix_app. Qed.

(** Two names whose ends differ are different. *)
Ltac other_end :=
  let E := fresh in intros E; apply (f_equal srev) in E; unfold job_file in E; rewrite !srev_app in E; cbn in E; discriminate E.

Lemma json_not_tmp a b : job_file a ≠ job_file b +:+ ".tmp".
Proof. other_end. Qed.
Lemma json_not_invalid a b : job_file a ≠ job_file b +:+ ".invalid".
Proof. other_end. Qed.
Lemma invalid_not_tmp a b : job_file a +:+ ".invalid" ≠ job_file b +:+ ".tmp".
Proof. other_end. Qed.
Lemma app_inj_r (a b x : string) : a +:+ x = b +:+ x → a = b.
Proof. intros H. by rewrite <- (trim_suffix_app a x), H, trim_suffix_app. Qed.
Lemma invalid_inj a b : job_file a +:+ ".invalid" = job_file b +:+ ".invalid" → a = b.
Proof. intros H%app_inj_r. by apply job_file_inj. Qed.
#[local] Hint Resolve json_not_tmp json_not_invalid invalid_not_tmp job_file_inj invalid_inj : node.

(** The two names of the record of a job *)
Definition record_name (id name : string) : Prop := name = job_file id ∨ name = job_file id +:+ ".invalid".
Definition kept (d : fs) (id : string) : Prop := ∃ name, record_name id name ∧ is_Some (d !! name).

Lemma record_inj a b name : record_name a name → record_name b name → a = b.
Proof.
  intros [->| ->] [E|E]; eauto with node.
  - by apply json_not_invalid in E.
  - symmetry in E. by apply json_not_invalid in E.
Qed.
Lemma record_not_tmp a b : ¬ record_name a (job_file b +:+ ".tmp").
Proof. intros [E|E]; symmetry in E; [by apply json_not_tmp in E|by apply invalid_not_tmp in E]. Qed.

(** No record is taken for a scratch directory. *)
Lemma record_not_scratch id name : validID id = true → record_name id name → has_prefix name "disk-benchmark-" = false.
Proof.
  unfold validID, record_name, job_file. intros [Hl Hv]%andb_true_iff Hn.
  destruct id as [|c1 [|c2 rest]]; [cbv in Hl; discriminate Hl..|]. cbn [valid_from] in Hv.
  rewrite (bool_decide_eq_false_2 (0 ∈ _)), (bool_decide_eq_false_2 (1 ∈ _)) in Hv by (intros H; repeat (apply elem_of_cons in H as [H|H]; [done|]); by apply elem_of_nil in H).
  apply andb_true_iff in Hv as [_ [H2 _]%andb_true_iff].
  assert (∃ t, name = String c1 (String c2 t)) as [t ->] by (destruct Hn as [->| ->]; cbn; eauto).
  destruct (has_prefix _ _) eqn:E; [|done]. apply has_prefix_spec in E as [r E]. cbn in E. injection E as _ -> _.
  vm_compute in H2. discriminate H2.
Qed.

Section runner.
Context {JsonI : JobJson} {UrlI : UrlParse} {RangeI : MapRange} {RangeL : MapRangeLaws}.

(** ** Saving and removing *)

Definition rewrites (id : string) (d d' : fs) : Prop :=
  ∀ name, name ≠ job_file id → name ≠ job_file id +:+ ".tmp" → d' !! name = d !! name.

Lemma save_spec o now j d d' r :
  save o now j d = (d', r) →
  rewrites (ID j) d d' ∧ (is_Some (d !! job_file (ID j)) → is_Some (d' !! job_file (ID j))) ∧
  (r = Ok tt → is_Some (d' !! job_file (ID j))).
Proof.
  unfold save, rewrites. destruct (marshal_job j) as [data|e]; [|by intros [= <- <-]].
  destruct (_ <? _)%Z; [by intros [= <- <-]|]. cbn zeta.
  pose proof (json_not_tmp (ID j) (ID j)) as Hn.
  destruct o; intros [= <- <-]; (split; [|split]); intros; try done;
    repeat first [rewrite lookup_insert_eq|rewrite lookup_insert_ne by congruence|rewrite lookup_delete_ne by congruence]; eauto.
Qed.

Lemma save_keeps o now j d d' r id : save o now j d = (d', r) → kept d id → kept d' id.
Proof.
  intros (Hr & Hs & _)%save_spec (name & Hn & Hk). destruct (decide (name = job_file (ID j))) as [->|Hne].
  - exists (job_file (ID j)). auto.
  - exists name. split; [done|]. rewrite Hr; [done..|]. intros ->. by apply record_not_tmp in Hn.
Qed.

Lemma remove_job_keeps rm d id id' : id ≠ id' → kept d id' → kept (remove_job rm d id) id'.
Proof.
  intros Hne (name & Hn & Hk). exists name. split; [done|]. unfold remove_job, remove_file.
  assert (name ≠ job_file id ∧ name ≠ job_file id +:+ ".invalid") as [H1 H2].
  { split; intros ->; apply Hne; eapply record_inj; try exact Hn; [by left|by right]. }
  repeat case_match; by rewrite ?lookup_delete_ne by congruence.
Qed.

(** ** Pruning *)

Definition keyed (m : gmap string Job) : Prop := ∀ id j, m !! id = Some j → ID j = id ∧ validID id = true.

Lemma foldl_older act l acc j :
  foldl (older act) acc l = Some j →
  (acc = Some j ∨ ∃ id, (id, j) ∈ l ∧ ID j ≠ act) ∧
  (∀ k, (acc = Some k ∨ (∃ id, (id, k) ∈ l ∧ ID k ≠ act)) → (CreatedAt j ≤ CreatedAt k)%Z).
Proof.
  revert acc. induction l as [|[id x] l IH]; intros acc E.
  { cbn in E. subst. split; [by left|]. intros k [[= ->]|(? & []%elem_of_nil & _)]. lia. }
  cbn [foldl] in E. apply IH in E as [H1 H2]. unfold older in H1, H2. cbn [snd] in *.
  destruct (bool_decide (ID x = act)) eqn:Hx; cbn in H1, H2.
  - apply bool_decide_eq_true in Hx. split.
    + destruct H1 as [?|(i & ? & ?)]; [by left|]. right. exists i. by split; [right|].
    + intros k [->|(i & [[= -> ->]|Hi]%elem_of_cons & Hk)]; [apply H2; by left|done|]. apply H2. right. eauto.
  - apply bool_decide_eq_false in Hx. destruct acc as [o|].
    + destruct (before (CreatedAt x) (CreatedAt o)) eqn:B; unfold before in B.
      * split.
        { right. destruct H1 as [[= ->]|(i & ? & ?)]; [exists id|exists i]; (split; [|done]); [left|by right]. }
        pose proof (H2 x (or_introl eq_refl)). intros k [[= ->]|(i & [[= -> ->]|Hi]%elem_of_cons & Hk)]; [lia|lia|].
        apply H2. right. eauto.
      * split.
        { destruct H1 as [?|(i & ? & ?)]; [by left|]. right. exists i. by split; [right|]. }
        pose proof (H2 o (or_introl eq_refl)). intros k [[= ->]|(i & [[= -> ->]|Hi]%elem_of_cons & Hk)]; [lia|lia|].
        apply H2. right. eauto.
    + split.
      { right. destruct H1 as [[= ->]|(i & ? & ?)]; [exists id|exists i]; (split; [|done]); [left|by right]. }
      pose proof (H2 x (or_introl eq_refl)). intros k [[=]|(i & [[= -> ->]|Hi]%elem_of_cons & Hk)]; [lia|].
      apply H2. right. eauto.
Qed.

Lemma foldl_older_none act l acc : foldl (older act) acc l = None → acc = None ∧ ∀ id j, (id, j) ∈ l → ID j = act.
Proof.
  revert acc. induction l as [|[id x] l IH]; intros acc E; [split; [done|]; by intros ? ? []%elem_of_nil|].
  cbn [foldl] in E. apply IH in E as [H1 H2]. unfold older in H1. cbn [snd] in H1.
  destruct (bool_decide (ID x = act)) eqn:Hx; cbn in H1; [|destruct acc; [by destruct (before _ _)|done]].
  apply bool_decide_eq_true in Hx. split; [done|]. intros i j [[= -> ->]|Hi]%elem_of_cons; [done|eauto].
Qed.

Lemma range_lookup (m : gmap string Job) id j : (id, j) ∈ range_map m ↔ m !! id = Some j.
Proof. rewrite (law_range _ m). apply elem_of_map_to_list. Qed.

(** The oldest of the jobs that do not run *)
Lemma oldest_spec r : keyed (jobs r) →
  match oldest r with
  | Some j => jobs r !! ID j = Some j ∧ ID j ≠ active r ∧
      ∀ id k, jobs r !! id = Some k → id ≠ active r → (CreatedAt j ≤ CreatedAt k)%Z
  | None => ∀ id k, jobs r !! id = Some k → id = active r
  end.
Proof.
  intros Hk. unfold oldest. destruct (foldl _ _ _) as [j|] eqn:E.
  - apply foldl_older in E as [[?|(id & Hid & Hact)] H2]; [done|]. apply range_lookup in Hid.
    destruct (Hk _ _ Hid) as [<- _]. split_and!; [done..|]. intros id k Hl Hne. apply H2. right. exists id.
    destruct (Hk _ _ Hl) as [<- _]. by rewrite range_lookup.
  - apply foldl_older_none in E as [_ H]. intros id k Hl. destruct (Hk _ _ Hl) as [<- _]. eapply H. by apply range_lookup.
Qed.

(** What a deletion of jobs leaves: [id] is deleted only when [gone id] allows it. *)
Definition shrinks (gone : string → Job → Prop) (s s' : State) : Prop :=
  active (runner s') = active (runner s) ∧ worker (runner s') = worker (runner s) ∧
  jobs (runner s') ⊆ jobs (runner s) ∧
  (∀ id j, jobs (runner s) !! id = Some j → jobs (runner s') !! id = None → gone id j) ∧
  (∀ id, is_Some (jobs (runner s') !! id) → kept (disk s) id → kept (disk s') id).

Lemma shrinks_refl gone s : shrinks gone s s.
Proof. split_and!; try done. intros. congruence. Qed.

Lemma shrinks_trans gone s1 s2 s3 : shrinks gone s1 s2 → shrinks gone s2 s3 → shrinks gone s1 s3.
Proof.
  intros (A1 & W1 & J1 & G1 & D1) (A2 & W2 & J2 & G2 & D2). split_and!; [congruence|congruence|by etrans|..].
  - intros id j Hj Hn. destruct (jobs (runner s2) !! id) as [k|] eqn:Hk; [|by eapply G1].
    apply (lookup_weaken _ _ _ _ Hk) in J1. rewrite Hj in J1. injection J1 as ->. by eapply G2.
  - intros id Hs Hk. apply D2; [done|]. apply D1; [|done]. destruct Hs as [j Hj]. exists j. by eapply lookup_weaken.
Qed.

Lemma shrinks_drop (gone : string → Job → Prop) rm id s :
  (∀ j, jobs (runner s) !! id = Some j → gone id j) → shrinks gone s (drop_job rm id s).
Proof.
  intros Hg. split_and!; try done; cbn.
  - apply delete_subseteq.
  - intros id' j Hj [<-|?]%lookup_delete_None; [by apply Hg|congruence].
  - intros id' [j Hj] Hk. apply lookup_delete_Some in Hj as [Hne _]. by apply remove_job_keeps.
Qed.

Lemma keyed_subseteq m m' : m' ⊆ m → keyed m → keyed m'.
Proof. intros Hs Hk id j Hj. apply Hk. by eapply lookup_weaken. Qed.

(** Deleted for their number: older than every job that is left *)
Definition crowded_out (s' : State) (id : string) (j : Job) : Prop :=
  id ≠ active (runner s') ∧
  ∀ k x, jobs (runner s') !! k = Some x → k ≠ active (runner s') → (CreatedAt j ≤ CreatedAt x)%Z.

Lemma prune_count_spec fuel rm s :
  keyed (jobs (runner s)) → size (jobs (runner s)) ≤ fuel →
  let s' := prune_count fuel rm s in
  shrinks (crowded_out s') s s' ∧ size (jobs (runner s')) ≤ 100 ∧ (size (jobs (runner s)) ≤ 100 → s' = s).
Proof.
  revert s. induction fuel as [|fuel IH]; intros s Hk Hf; cbn zeta.
  { split_and!; [apply shrinks_refl|cbn; lia|done]. }
  cbn [prune_count]. destruct (bool_decide _) eqn:Hb.
  2:{ apply bool_decide_eq_false in Hb. split_and!; [apply shrinks_refl|lia|done]. }
  apply bool_decide_eq_true in Hb. pose proof (oldest_spec _ Hk) as Ho. destruct (oldest (runner s)) as [j|].
  - destruct Ho as (Hj & Hact & Hmin). set (s1 := drop_job rm (ID j) s).
    assert (jobs (runner s1) = delete (ID j) (jobs (runner s))) as E1 by done.
    assert (size (jobs (runner s1)) = pred (size (jobs (runner s)))) as Hsz by (rewrite E1; by apply map_size_delete_Some; eauto).
    destruct (IH s1) as (H1 & H2 & _); [eapply keyed_subseteq; [|exact Hk]; rewrite E1; apply delete_subseteq|lia|].
    split_and!; [|done|lia]. eapply shrinks_trans; [|exact H1]. apply shrinks_drop. intros x Hx.
    rewrite Hj in Hx. injection Hx as <-. destruct H1 as (A & _ & J & _). split; [by rewrite A|].
    intros k x Hx Hne. apply (Hmin k); [|by rewrite A in Hne].
    apply (lookup_weaken _ _ _ _ Hx) in J. rewrite E1 in J. by apply lookup_delete_Some in J as [_ ?].
  - exfalso. assert (size (jobs (runner s)) ≤ 1); [|lia]. rewrite <- size_dom.
    etrans; [apply (subseteq_size _ {[active (runner s)]})|by rewrite size_singleton].
    intros id [x Hx]%elem_of_dom. apply elem_of_singleton. eauto.
Qed.

Lemma prune_age_spec now rm s :
  shrinks (λ id j, id ≠ active (runner s) ∧ (CreatedAt j + retention < now)%Z) s (prune_age now rm s) ∧
  (∀ id j, jobs (runner (prune_age now rm s)) !! id = Some j → id = active (runner s) ∨ (now ≤ CreatedAt j + retention)%Z).
Proof.
  unfold prune_age. set (l := filter _ _).
  assert (∀ kv, kv ∈ l ↔ jobs (runner s) !! kv.1 = Some kv.2 ∧ kv.1 ≠ active (runner s) ∧ (CreatedAt kv.2 + retention < now)%Z) as Hl.
  { intros [id j]. unfold l, is_expired. rewrite list_elem_of_filter, range_lookup. cbn.
    rewrite andb_true_iff, negb_true_iff, bool_decide_eq_false, Z.ltb_lt. intuition lia. }
  assert (∀ gone : string → Job → Prop, (∀ id j, jobs (runner s) !! id = Some j → id ≠ active (runner s) ∧ (CreatedAt j + retention < now)%Z → gone id j) →
    ∀ l' s1, (∀ kv, kv ∈ l' → kv ∈ l) → jobs (runner s1) ⊆ jobs (runner s) →
    shrinks gone s1 (foldl (λ s kv, drop_job rm kv.1 s) s1 l') ∧
    ∀ kv, kv ∈ l' → jobs (runner (foldl (λ s kv, drop_job rm kv.1 s) s1 l')) !! kv.1 = None) as Hfold.
  { intros gone Hg. induction l' as [|kv l' IH]; intros s1 Hin Hs1; cbn [foldl].
    { split; [apply shrinks_refl|]. by intros ? []%elem_of_nil. }
    assert (shrinks gone s1 (drop_job rm kv.1 s1)) as Hd.
    { apply shrinks_drop. intros j Hj. apply (lookup_weaken _ _ _ _ Hj) in Hs1.
      eapply Hg; [exact Hs1|]. destruct (proj1 (Hl kv) (Hin kv ltac:(left))) as (E & ? & ?). rewrite Hs1 in E. injection E as ->. done. }
    destruct (IH (drop_job rm kv.1 s1)) as [H1 H2]; [intros; apply Hin; by right|by etrans; [apply Hd|]|].
    split; [by eapply shrinks_trans|]. intros kv' [->|?]%elem_of_cons; [|by apply H2].
    destruct H1 as (_ & _ & J & _). eapply lookup_weaken_None; [|exact J]. cbn. apply lookup_delete_eq. }
  destruct (Hfold (λ id j, id ≠ active (runner s) ∧ (CreatedAt j + retention < now)%Z) ltac:(done) l s) as [H1 H2]; [done..|].
  split; [exact H1|]. intros id j Hj. destruct (decide (id = active (runner s))); [by left|right].
  destruct H1 as (_ & _ & J & _). pose proof (lookup_weaken _ _ _ _ Hj J) as Hj0.
  destruct (decide (CreatedAt j + retention < now)%Z); [|lia]. specialize (H2 (id, j)). cbn in H2. rewrite H2 in Hj; [done|]. by apply Hl.
Qed.

Lemma prune_spec now rm s :
  keyed (jobs (runner s)) →
  let s' := prune now rm s in
  shrinks (λ id j, id ≠ active (runner s) ∧ ((CreatedAt j + retention < now)%Z ∨
    (100 < size (jobs (runner s)) ∧
     ∀ k x, jobs (runner s') !! k = Some x → k ≠ active (runner s) → (CreatedAt j ≤ CreatedAt x)%Z))) s s' ∧
  size (jobs (runner s')) ≤ 100 ∧
  (∀ id j, jobs (runner s') !! id = Some j → id = active (runner s) ∨ (now ≤ CreatedAt j + retention)%Z).
Proof.
  intros Hk. cbn zeta. unfold prune. destruct (prune_count_spec _ rm s Hk (le_n _)) as (H1 & H2 & H3).
  set (s1 := prune_count _ _ _) in *. destruct (prune_age_spec now rm s1) as [G1 G2]. set (s2 := prune_age _ _ _) in *.
  destruct H1 as (A1 & W1 & J1 & R1 & D1). destruct G1 as (A2 & W2 & J2 & R2 & D2). rewrite A1 in *. unfold shrinks. split_and!.
  - congruence.
  - congruence.
  - by etrans.
  - intros id j Hj Hn. destruct (jobs (runner s1) !! id) as [x|] eqn:Hx.
    + pose proof (lookup_weaken _ _ _ _ Hx J1) as E. rewrite Hj in E. injection E as <-.
      destruct (R2 _ _ Hx Hn). auto.
    + destruct (R1 _ _ Hj Hx) as [Ha Hmin]. rewrite A1 in *. split; [done|]. right. split.
      * destruct (decide (size (jobs (runner s)) ≤ 100)) as [Hle|]; [|lia]. rewrite (H3 Hle) in Hx. congruence.
      * intros k x Hk' Hne. eapply Hmin; [|done]. by eapply lookup_weaken.
  - intros id Hs Hk'. apply D2; [done|]. apply D1; [|done]. destruct Hs as [x Hx]. exists x. by eapply lookup_weaken.
  - etrans; [|exact H2]. rewrite <- !size_dom. apply subseteq_size. by apply subseteq_dom.
  - exact G2.
Qed.

(** ** Loading the directory *)

Definition at_rest (r : Runner) : Prop :=
  active r = "" ∧ worker r = None ∧ keyed (jobs r) ∧ ∀ id j, jobs r !! id = Some j → Status j ≠ "RUNNING".

Lemma keyed_insert m j : validID (ID j) = true → keyed m → keyed (<[ID j := j]> m).
Proof. intros Hv Hk id x [[<- <-]|[_ ?]]%lookup_insert_Some; [done|eauto]. Qed.

Lemma rest_insert r j : at_rest r → validID (ID j) = true → Status j ≠ "RUNNING" →
  at_rest {| jobs := <[ID j := j]> (jobs r); active := active r; worker := worker r |}.
Proof.
  intros (A & W & K & N) Hv Hs. split_and!; try done; cbn; [by apply keyed_insert|].
  intros id x [[<- <-]|[_ ?]]%lookup_insert_Some; [done|eauto].
Qed.

Lemma classify_spec name n :
  match classify name n with
  | Tombstone id => validID id = true ∧ name = job_file id +:+ ".invalid"
  | Scratch => has_prefix name "disk-benchmark-" = true
  | Temporary => ∃ id, name = job_file id +:+ ".tmp"
  | Record_ id => validID id = true ∧ name = job_file id
  | Other => ∀ id, validID id = true → ¬ record_name id name
  end.
Proof.
  assert (∀ x y, has_suffix x y = true → x = trim_suffix x y +:+ y) as Hsuf.
  { intros x y. unfold has_suffix, trim_suffix. destruct (strip_suffix y x) as [r|] eqn:E; [|done]. intros _.
    by apply strip_suffix_spec in E. }
  assert (∀ a y, has_suffix (a +:+ y) y = true) as Hself.
  { intros a y. unfold has_suffix. destruct (strip_suffix y (a +:+ y)) eqn:E; [done|].
    rewrite (proj2 (strip_suffix_spec y (a +:+ y) a) eq_refl) in E. done. }
  unfold classify. destruct (has_suffix name ".json.invalid") eqn:E1.
  { apply Hsuf in E1. destruct (validID _) eqn:Hv; [split; [done|]|].
    - rewrite E1 at 1. unfold job_file. by rewrite <- app_assoc_str.
    - intros id Hi Hn. assert (id = trim_suffix name ".json.invalid") as ->; [|congruence].
      destruct Hn as [Hn|Hn]; rewrite Hn in E1 |- *; unfold job_file.
      + exfalso. unfold job_file in E1. revert E1. set (x := trim_suffix _ _). intros E. revert E. clear. other_end.
      + rewrite <- app_assoc_str. symmetry. apply (trim_suffix_app id ".json.invalid"). }
  destruct (match n with File _ _ => false | Folder _ => has_prefix name "disk-benchmark-" end) eqn:E2; [by destruct n|].
  destruct (has_suffix name ".json.tmp" && _) eqn:E3.
  { apply andb_true_iff in E3 as [E3 _]. apply Hsuf in E3. exists (trim_suffix name ".json.tmp"). rewrite E3 at 1.
    unfold job_file. by rewrite <- app_assoc_str. }
  destruct (has_suffix name ".json" && _) eqn:E4.
  { apply andb_true_iff in E4 as [E4 ?]. split; [done|]. by apply Hsuf in E4. }
  intros id Hi [->| ->].
  - unfold job_file in E4. rewrite Hself, trim_suffix_app, Hi in E4. done.
  - unfold job_file in E1. rewrite <- app_assoc_str in E1. by rewrite Hself in E1.
Qed.

(** What a step of the loop over the directory does: jobs are only added, records stay. *)
Definition loads (name : string) (s s' : State) : Prop :=
  at_rest (runner s') ∧ (∀ id, is_Some (jobs (runner s) !! id) → is_Some (jobs (runner s') !! id)) ∧
  (∀ id, validID id = true → kept (disk s) id → kept (disk s') id) ∧
  (∀ id n, validID id = true → record_name id n → n ≠ name → is_Some (disk s !! n) → is_Some (disk s' !! n)).

Lemma loads_disk name s d :
  at_rest (runner s) → (∀ id n, validID id = true → record_name id n → is_Some (disk s !! n) → is_Some (d !! n)) →
  loads name s {| runner := runner s; disk := d |}.
Proof. intros Hr Hd. split_and!; try done; cbn; [intros id Hv (n & Hn & Hs); exists n; eauto|eauto]. Qed.

Lemma loads_insert name s j : at_rest (runner s) → validID (ID j) = true → Status j ≠ "RUNNING" →
  loads name s {| runner := {| jobs := <[ID j := j]> (jobs (runner s)); active := active (runner s); worker := worker (runner s) |}; disk := disk s |}.
Proof.
  intros Hr Hv Hs. split_and!; try done; cbn; [by apply rest_insert|].
  intros id Hi. destruct (decide (id = ID j)) as [->|]; [by rewrite lookup_insert_eq|by rewrite lookup_insert_ne].
Qed.

Lemma loads_trans name s1 s2 s3 : loads name s1 s2 → loads name s2 s3 → loads name s1 s3.
Proof. intros (A1 & B1 & C1 & D1) (A2 & B2 & C2 & D2). split_and!; eauto. Qed.

Lemma remove_keeps rm name n (d : fs) : name ≠ n → is_Some (d !! n) → is_Some (remove_file rm name d !! n).
Proof. intros Hne Hs. unfold remove_file. case_match; [by rewrite lookup_delete_ne|done]. Qed.

Lemma interrupted_spec now j : ID (interrupted now j) = ID j ∧ Status (interrupted now j) ≠ "RUNNING".
Proof. unfold interrupted. case_bool_decide; by split. Qed.

Lemma load_entry_spec env name s s' r :
  load_entry env name s = (s', r) → at_rest (runner s) →
  loads name s s' ∧
  (r = Ok tt → ∀ id, validID id = true → record_name id name → is_Some (disk s !! name) → is_Some (jobs (runner s') !! id)).
Proof.
  intros E Hr. unfold load_entry in E. step E s0 x Hx. injection Hx as <- <-.
  assert (loads name s s) as Hid by (by destruct s; apply loads_disk).
  destruct (disk s !! name) as [n|] eqn:Hn; [|injection E as <- <-; split; [done|]; by intros _ id _ _ []].
  pose proof (classify_spec name n) as Hc. destruct (classify name n) as [id| | |id|].
  - destruct Hc as [Hv ->]. unfold when in E. case_bool_decide as Hj.
    + injection E as <- <-. split; [by apply (loads_insert _ s (damagedJob env _ id n))|].
      intros _ i _ Hi _. rewrite (record_inj i id _ Hi) by (by right). cbn. rewrite lookup_insert_eq. eauto.
    + injection E as <- <-. split; [done|]. intros _ i _ Hi _. rewrite (record_inj i id _ Hi) by (by right).
      destruct (jobs (runner s) !! id); [eauto|done].
  - assert (∀ id, validID id = true → ¬ record_name id name) as Hno.
    { intros id Hv Hi. by rewrite (record_not_scratch id name Hv Hi) in Hc. }
    unfold when in E. destruct (_ && _); injection E as <- <-; (split; [|by intros _ id Hv Hi; destruct (Hno id Hv Hi)]); [|done].
    apply loads_disk; [done|]. intros id n' Hv Hi. apply remove_keeps. intros ->. by apply (Hno id).
  - destruct Hc as [id ->]. injection E as <- <-. split; [|by intros _ i _ Hi; apply record_not_tmp in Hi].
    apply loads_disk; [done|]. intros i n' Hv Hi. apply remove_keeps. intros <-. by apply record_not_tmp in Hi.
  - destruct Hc as [Hv ->]. destruct (negb _); [by injection E as <- <-|].
    assert (∀ i, record_name i (job_file id) → i = id) as Hi by (intros i Hi; apply (record_inj i id _ Hi); by left).
    destruct (read_job env _ n) as [j|] eqn:Hj.
    + assert (ID j = id) as <-.
      { unfold read_job in Hj. destruct n; [|done]. destruct (_ && _); [|done]. destruct (unmarshal_job _) as [j'|]; [|done].
        cbn in Hj. destruct (_ && _) eqn:Hb; [|done]. injection Hj as <-. apply andb_true_iff in Hb as [_ Hb%bool_decide_eq_true].
        symmetry. by apply job_file_inj. }
      destruct (interrupted_spec (boot_now env) j) as [Hij His]. set (k := interrupted _ j) in *.
      step E s1 u H1. injection H1 as <- <-. unfold save_job in E. cbn [disk runner] in E.
      destruct (save _ _ k (disk s)) as [d r'] eqn:Hsave. injection E as <- <-.
      assert (loads (job_file (ID j)) s {| runner := {| jobs := <[ID k := k]> (jobs (runner s)); active := active (runner s); worker := worker (runner s) |}; disk := d |}).
      { eapply loads_trans; [apply (loads_insert _ s k); [done|by rewrite Hij|done]|]. apply loads_disk.
        - apply rest_insert; [done|by rewrite Hij|done].
        - cbn. intros i n' Hvi Hin Hs. destruct (save_spec _ _ _ _ _ _ Hsave) as (Hrw & Hk & _). rewrite Hij in *.
          destruct (decide (n' = job_file (ID j))) as [->|Hne]; [by apply Hk|]. rewrite Hrw; [done..|].
          intros ->. by apply record_not_tmp in Hin. }
      split; [done|]. intros _ i _ ->%Hi _. cbn. rewrite Hij, lookup_insert_eq. eauto.
    + destruct (negb _); [by injection E as <- <-|]. step E s1 u H1. injection H1 as <- <-. injection E as <- <-. cbn. split.
      * pose proof (loads_insert (job_file id) s (damagedJob env (job_file id) id n) Hr Hv ltac:(done)) as (A & B & _ & _).
        split_and!; [done..| |]; cbn.
        -- intros i Hvi (n' & Hin & Hs). destruct (decide (n' = job_file id)) as [->|Hne].
           { rewrite (Hi i Hin). exists (job_file id +:+ ".invalid"). split; [by right|]. rewrite lookup_insert_eq. eauto. }
           exists n'. split; [done|]. destruct (decide (n' = job_file id +:+ ".invalid")) as [->|]; [rewrite lookup_insert_eq; eauto|].
           by rewrite lookup_insert_ne, lookup_delete_ne by congruence.
        -- intros i n' _ _ Hne Hs. destruct (decide (n' = job_file id +:+ ".invalid")) as [->|]; [rewrite lookup_insert_eq; eauto|].
           by rewrite lookup_insert_ne, lookup_delete_ne by congruence.
      * intros _ i _ ->%Hi _. rewrite lookup_insert_eq. eauto.
  - injection E as <- <-. split; [done|]. intros _ id Hv Hi. by destruct (Hc id Hv Hi).
Qed.

(** After the loop every job with a record is known. *)
Lemma load_loop env l s s' r :
  proc_iter (load_entry env) l s = (s', r) → at_rest (runner s) →
  at_rest (runner s') ∧ (∀ id, validID id = true → kept (disk s) id → kept (disk s') id) ∧
  (r = Ok tt → ∀ id, validID id = true →
    (is_Some (jobs (runner s) !! id) ∨ ∃ n, n ∈ l ∧ record_name id n ∧ is_Some (disk s !! n)) → is_Some (jobs (runner s') !! id)).
Proof.
  unfold proc_iter. revert s. induction l as [|name l IH]; intros s E Hr; cbn [proc_fold] in E.
  { injection E as <- <-. split_and!; [done..|]. intros _ id _ [?|(n & []%elem_of_nil & _)]. done. }
  step E s1 u H1. apply load_entry_spec in H1 as ((A & B & C & D) & K); [|done]. destruct u as [[]|e].
  - apply IH in E as (A2 & C2 & K2); [|done]. split_and!; [done|eauto|]. intros Hok id Hv Hi. apply K2; [done..|].
    destruct Hi as [Hi|(n & Hin & Hn & Hs)]; [left; eauto|]. destruct (decide (n = name)) as [->|Hne]; [left; eauto|].
    apply elem_of_cons in Hin as [->|Hin]; [done|]. right. exists n. eauto.
  - destruct E as [-> ->]. split_and!; [done..|]. done.
Qed.

Lemma load_spec env s s' r :
  load env s = (s', r) →
  at_rest (runner s') ∧ (∀ id, validID id = true → kept (disk s) id → kept (disk s') id) ∧
  (r = Ok tt → ∀ id, validID id = true → kept (disk s) id → is_Some (jobs (runner s') !! id)).
Proof.
  intros E. unfold load in E. step E s1 u H1. injection H1 as <- <-.
  assert (at_rest idle) as Hidle by (split_and!; try done; intros ? ? H; by rewrite lookup_empty in H).
  destruct (negb _); [injection E as <- <-; by split_and!|]. step E s2 d H2. injection H2 as <- <-. cbn [disk] in E.
  apply load_loop in E as (A & C & K); [|done]. split_and!; [done|exact C|]. intros Hok id Hv (n & Hn & Hs). apply K; [done..|].
  right. exists n. split_and!; [|done..]. unfold entries. rewrite sort_strings_perm. destruct Hs as [x Hx].
  apply list_elem_of_fmap. exists (n, x). split; [done|]. by apply elem_of_map_to_list.
Qed.

(** ** The runner at work *)

(** What holds of a runner at every moment: no job runs without a worker and one with it,
    whose request is a valid one and whose results are those of the tests so far. *)
Definition sound (r : Runner) : Prop :=
  keyed (jobs r) ∧
  match worker r with
  | None => active r = "" ∧ (∀ id j, jobs r !! id = Some j → Status j ≠ "RUNNING") ∧ size (jobs r) ≤ 100
  | Some w =>
      active r = req_ID (w_req w) ∧ validate (w_req w) = Ok tt ∧
      w_pos w + (if measuring w then 1 else 0) ≤ length (phases (w_req w)) ∧ size (jobs r) ≤ 101 ∧
      (∃ j, jobs r !! active r = Some j ∧ Status j = "RUNNING" ∧ JobRequest j = w_req w ∧ length (Results j) = w_pos w) ∧
      (∀ id j, jobs r !! id = Some j → id ≠ active r → Status j ≠ "RUNNING")
  end.

Definition remaining (r : Runner) : nat :=
  match worker r with
  | None => 0
  | Some w => S (2 * (length (phases (w_req w)) - w_pos w)) - (if measuring w then 1 else 0)
  end.

Lemma validate_id req : validate req = Ok tt → validID (req_ID req) = true.
Proof. unfold validate. intros E. bind_as E u H. apply fail_if_ok in H. by apply negb_false_iff in H. Qed.

Lemma sound_cancel e r : sound r → sound (cancel e r) ∧ remaining (cancel e r) = remaining r.
Proof. unfold sound, cancel, set_worker, remaining. cbn. by destruct (worker r). Qed.

Lemma start_spec req now o s s' r :
  Start req now o s = (s', r) → sound (runner s) →
  sound (runner s') ∧ (∀ id, kept (disk s) id → kept (disk s') id) ∧
  (runner s' = runner s ∨
   validID (req_ID req) = true ∧ worker (runner s) = None ∧ is_Some (worker (runner s')) ∧
   jobs (runner s) !! req_ID req = None ∧ jobs (runner s') = <[req_ID req := new_job req now]> (jobs (runner s)) ∧ kept (disk s') (req_ID req)).
Proof.
  intros E Hs. unfold Start in E. step E s0 v Hv. unfold lift in Hv. injection Hv as <- <-.
  destruct (validate req) as [[]|e] eqn:Hval; [|destruct E as [-> ->]; by split_and!; [..|left]].
  step E s1 r0 H1. injection H1 as <- <-. destruct (jobs (runner s) !! req_ID req) as [j|] eqn:Hj.
  { repeat case_bool_decide; injection E as <- _; split_and!; auto. }
  destruct (negb _) eqn:Ha; [injection E as <- <-; split_and!; auto|]. apply negb_false_iff, bool_decide_eq_true in Ha.
  step E s2 u H2. unfold save_job in H2. destruct (save _ _ _ _) as [d r2] eqn:Hsave. injection H2 as <- <-.
  assert (∀ id, kept (disk s) id → kept d id) as Hkeep by (intros id; by eapply save_keeps).
  destruct r2 as [[]|e]; [|destruct E as [-> ->]; split_and!; auto]. step E s3 u3 H3. injection H3 as <- <-. injection E as <- <-. cbn.
  apply validate_id in Hval as Hid. destruct Hs as [Hk Hw]. destruct (worker (runner s)) as [w|] eqn:Ew.
  { destruct Hw as (Hact & Hv' & _). rewrite Ha in Hact. apply validate_id in Hv'. by rewrite <- Hact in Hv'. }
  destruct Hw as (_ & Hrun & Hsz). split_and!; [|exact Hkeep|].
  - split; cbn; [by apply (keyed_insert _ (new_job req now))|]. split_and!; try done; [lia| | |].
    + rewrite map_size_insert_None by done. lia.
    + eexists. by rewrite lookup_insert_eq.
    + intros id x [[<- <-]|[_ Hx]]%lookup_insert_Some Hne; [done|eauto].
  - right. split_and!; try done. exists (job_file (req_ID req)). split; [by left|]. apply save_spec in Hsave as (_ & _ & Hsv). by apply Hsv.
Qed.

Lemma change_spec id f now o s j :
  jobs (runner s) !! id = Some j → ID (f j) = id →
  ∃ s' k e, change id f now o s = (s', Ok tt) ∧ (∀ i, kept (disk s) i → kept (disk s') i) ∧
  jobs (runner s') = <[id := k]> (jobs (runner s)) ∧ ID k = id ∧ Status k = Status (f j) ∧ JobRequest k = JobRequest (f j) ∧
  Results k = Results (f j) ∧ active (runner s') = active (runner s) ∧
  (worker (runner s') = worker (runner s) ∨ worker (runner s') = cancel_worker e <$> worker (runner s)).
Proof.
  intros Hj Hid. unfold change, mbind, proc_bind, gets. rewrite Hj. unfold set_runner, modify, attempt, save_job. cbn [runner disk].
  destruct (save o now (f j) (disk s)) as [d r] eqn:Hsave. assert (∀ i, kept (disk s) i → kept d i) by (intros i; by eapply save_keeps).
  destruct r as [[]|e]; cbn.
  - eexists _, (f j), Canceled. split; [reflexivity|]. cbn. rewrite Hid. split_and!; auto.
  - eexists _, (with_message "Could not persist progress" (f j)), Canceled. split; [reflexivity|]. cbn. rewrite Hid. split_and!; auto.
    by rewrite insert_insert_eq.
Qed.

Lemma final_spec ctx now j : ID (final ctx now j) = ID j ∧ Status (final ctx now j) ≠ "RUNNING".
Proof. unfold final. repeat case_match; by split. Qed.

(** What a step of the worker does *)
Definition advances (s s' : State) : Prop :=
  sound (runner s') ∧ (is_Some (worker (runner s)) → remaining (runner s') < remaining (runner s)) ∧
  (∀ id, is_Some (jobs (runner s') !! id) → is_Some (jobs (runner s) !! id)) ∧
  (∀ id, is_Some (jobs (runner s') !! id) → kept (disk s) id → kept (disk s') id).

Section busy.
Context (s : State) (w : Worker) (j : Job).
Hypothesis Hs : sound (runner s).
Hypothesis Hworker : worker (runner s) = Some w.
Hypothesis Hj : jobs (runner s) !! req_ID (w_req w) = Some j.

(** The worker moves on and changes the job. *)
Lemma report_spec w' f now o :
  Status (f j) = Status j → ID (f j) = ID j → JobRequest (f j) = JobRequest j → length (Results (f j)) = w_pos w' →
  w_req w' = w_req w → w_pos w' + (if measuring w' then 1 else 0) ≤ length (phases (w_req w)) →
  remaining (set_worker (Some w') (runner s)) < remaining (runner s) →
  ∃ s', (set_runner (set_worker (Some w')) ≫= λ _, change (req_ID (w_req w)) f now o) s = (s', Ok tt) ∧ advances s s'.
Proof.
  intros F2 F1 F3 F4 Hrw Hpw Hrem. set (s1 := {| runner := set_worker (Some w') (runner s); disk := disk s |}).
  destruct Hs as [Hk Hw]. rewrite Hworker in Hw. destruct Hw as (Hact & Hval & Hpos & Hsz & (j0 & Hj0 & Hst & Hreq & Hres) & Hoth).
  rewrite Hact, Hj in Hj0. injection Hj0 as <-. destruct (Hk _ _ Hj) as [Hidj Hvid].
  rewrite (proc_bind_run (set_runner (set_worker (Some w'))) _ s s1 (Ok tt) eq_refl).
  destruct (change_spec (req_ID (w_req w)) f now o s1 j Hj) as (s' & k & e & -> & Hkept & Hjobs & Hidk & K1 & K2 & K3 & Ha & Hwk); [congruence|].
  cbn [runner s1 set_worker jobs active worker] in Hjobs, Ha, Hwk.
  assert (∃ w2, worker (runner s') = Some w2 ∧ w_req w2 = w_req w' ∧ w_pos w2 = w_pos w' ∧ measuring w2 = measuring w') as (w2 & Hw2 & Q1 & Q2 & Q3).
  { destruct Hwk as [->| ->]; cbn; eauto 10. }
  exists s'. split; [done|]. split_and!.
  - split; rewrite Hjobs.
    + rewrite <- Hidk. apply keyed_insert; [by rewrite Hidk|done].
    + rewrite Hw2. unfold s1. rewrite Ha, Q1, Q2, Q3, Hrw. split_and!; try done.
      * rewrite map_size_insert_Some by eauto. exact Hsz.
      * exists k. rewrite Hact, lookup_insert_eq. split_and!; congruence.
      * intros id x [[<- <-]|[_ Hx]]%lookup_insert_Some Hne; [by rewrite Hact in Hne|eauto].
  - intros _. unfold remaining in *. rewrite Hw2, Q1, Q2, Q3. exact Hrem.
  - intros id. rewrite Hjobs. intros [x [[<- _]|[_ ?]]%lookup_insert_Some]; eauto.
  - auto.
Qed.

Lemma finished_job_spec now o rm : measuring w = false → ∃ s', finish w now o rm s = (s', Ok tt) ∧ advances s s'.
Proof.
  intros Em. destruct Hs as [Hk Hw]. rewrite Hworker in Hw. destruct Hw as (Hact & _ & _ & _ & _ & Hoth).
  unfold finish. rewrite (proc_bind_run _ _ s s (Ok (runner s)) eq_refl). rewrite Hj.
  destruct (save o now (final (w_ctx w) now j) (disk s)) as [d r] eqn:Hsave. unfold mbind, proc_bind, attempt, save_job, set_runner, modify.
  rewrite Hsave. cbn [runner disk]. destruct (Hk _ _ Hj) as [Hidj Hvid]. destruct (final_spec (w_ctx w) now j) as [Hif Hsf].
  set (k := match r with Ok _ => final (w_ctx w) now j | Err _ => _ end).
  assert (ID k = req_ID (w_req w) ∧ Status k ≠ "RUNNING") as [Hidk Hstk].
  { unfold k. destruct r; [by rewrite Hif|]. cbn. by rewrite Hif. }
  set (s1 := {| runner := {| jobs := <[ID k := k]> (jobs (runner s)); active := ""; worker := None |}; disk := d |}).
  assert (keyed (jobs (runner s1))) as Hk1 by (apply keyed_insert; [by rewrite Hidk|done]).
  destruct (prune_spec now rm s1 Hk1) as ((A & W & J & _ & D) & Hs100 & _). set (s2 := prune now rm s1) in *.
  exists s2. split; [done|]. split_and!.
  - split; [by eapply keyed_subseteq|]. rewrite W. cbn. split_and!; [done| |done].
    intros id x Hx. apply (lookup_weaken _ _ _ _ Hx) in J. cbn in J. apply lookup_insert_Some in J as [[_ <-]|[Hne Hx0]]; [done|].
    eapply Hoth; [done|congruence].
  - intros _. unfold remaining. rewrite W, Hworker, Em. cbn. lia.
  - intros id [x Hx]. apply (lookup_weaken _ _ _ _ Hx) in J. cbn in J. apply lookup_insert_Some in J as [[<- _]|[_ ?]]; [|eauto].
    rewrite Hidk. eauto.
  - intros id Hx Hkp. apply D; [done|]. cbn. by eapply save_keeps.
Qed.
End busy.

(** A step of the worker never fails, and brings it nearer to its end. *)
Lemma work_spec item now o rm s : sound (runner s) → ∃ s', work item now o rm s = (s', Ok tt) ∧ advances s s'.
Proof.
  intros Hs. unfold work. rewrite (proc_bind_run _ _ s s (Ok (runner s)) eq_refl).
  destruct (worker (runner s)) as [w|] eqn:Ew; [|exists s; split; [done|]; split_and!; [done|intros [? ?]; congruence|done..]].
  pose proof Hs as [Hk Hw]. rewrite Ew in Hw. destruct Hw as (Hact & Hval & Hpos & Hsz & (j & Hj & Hst & Hreq & Hres) & Hoth).
  rewrite Hact in Hj. destruct (measuring w) eqn:Em.
  - eapply report_spec; try done; cbn; [rewrite length_app; cbn; lia|lia|]. unfold remaining. rewrite Ew, Em. cbn. lia.
  - destruct (phases (w_req w) !! w_pos w) as [phase|] eqn:Hph; [|by eapply finished_job_spec]. destruct (w_ctx w) eqn:Ec; [by eapply finished_job_spec|].
    apply lookup_lt_Some in Hph. eapply report_spec; try done; cbn; [lia|]. unfold remaining. rewrite Ew, Em. cbn. lia.
Qed.

(** ** The life of the process *)

Inductive event := Executed (id : string) | Forgot (id : string).

(** The log is the history, newest first; it is not part of the program. *)
Record System := { state : State; up : bool; log : list event }.

(** The jobs that pruning deleted between two states *)
Definition forgotten (before after : gmap string Job) : list event := (λ kv, Forgot kv.1) <$> map_to_list (before ∖ after).
(** The test that a request started, if it did: there was no worker and now there is one. *)
Definition started (id : string) (before after : Runner) : list event :=
  match worker before, worker after with None, Some _ => [Executed id] | _, _ => [] end.

Inductive step : System → System → Prop :=
| step_start y req now o s' r :
    up y = true → Start req now o (state y) = (s', r) →
    step y {| state := s'; up := true; log := started (req_ID req) (runner (state y)) (runner s') ++ log y |}
| step_work y item now o rm s' r :
    up y = true → work item now o rm (state y) = (s', r) →
    step y {| state := s'; up := true; log := forgotten (jobs (runner (state y))) (jobs (runner s')) ++ log y |}
| step_cancel y id r' b :
    up y = true → Cancel id (runner (state y)) = (r', Some b) →
    step y {| state := {| runner := r'; disk := disk (state y) |}; up := true; log := log y |}
| step_deadline y :
    up y = true →
    step y {| state := {| runner := cancel DeadlineExceeded (runner (state y)); disk := disk (state y) |}; up := true; log := log y |}
| step_close y :
    up y = true →
    step y {| state := {| runner := Close (runner (state y)); disk := disk (state y) |}; up := true; log := log y |}
| step_down y :
    step y {| state := {| runner := idle; disk := disk (state y) |}; up := false; log := log y |}
| step_boot y env s1 :
    up y = false → load env (state y) = (s1, Ok tt) →
    let s' := prune (boot_now env) (can_remove env) s1 in
    step y {| state := s'; up := true; log := forgotten (jobs (runner s1)) (jobs (runner s')) ++ log y |}
| step_boot_failed y env s1 e :
    up y = false → load env (state y) = (s1, Err e) →
    step y {| state := {| runner := idle; disk := disk s1 |}; up := false; log := log y |}.

(** Any directory may be found at first; no test of it was executed by this history. *)
Inductive reachable : System → Prop :=
| reachable_start d : reachable {| state := {| runner := idle; disk := d |}; up := false; log := [] |}
| reachable_step y y' : reachable y → step y y' → reachable y'.

(** A test is live from its execution until its record is pruned. *)
Fixpoint live (id : string) (l : list event) : Prop :=
  match l with
  | [] => False
  | Executed i :: l => i = id ∨ live id l
  | Forgot i :: l => i ≠ id ∧ live id l
  end.
(** No live test is executed again. *)
Fixpoint budgeted (l : list event) : Prop :=
  match l with
  | [] => True
  | Executed i :: l => ¬ live i l ∧ budgeted l
  | Forgot _ :: l => budgeted l
  end.

Lemma live_forgotten id m m' l :
  live id (forgotten m m' ++ l) → live id l ∧ (is_Some (m !! id) → is_Some (m' !! id)).
Proof.
  unfold forgotten. set (d := map_to_list (m ∖ m')). intros H.
  assert (live id l ∧ ∀ x, (id, x) ∉ d) as [Hl Hd].
  { induction d as [|[i x] d IH]; [split; [done|]; intros; apply not_elem_of_nil|]. cbn in H. destruct H as [Hne H].
    destruct (IH H) as [Hl Hd]. split; [done|]. intros y [[= -> _]|Hy]%elem_of_cons; [done|by eapply Hd]. }
  split; [done|]. intros [j Hj]. destruct (m' !! id) as [k|] eqn:E; [eauto|]. exfalso. apply (Hd j). unfold d.
  apply elem_of_map_to_list. by rewrite lookup_difference, E.
Qed.

Lemma budgeted_forgotten m m' l : budgeted l → budgeted (forgotten m m' ++ l).
Proof. unfold forgotten. intros H. by induction (map_to_list _). Qed.

(** The records behind the history *)
Definition recorded (y : System) : Prop :=
  budgeted (log y) ∧
  ∀ id, live id (log y) → validID id = true ∧ kept (disk (state y)) id ∧ (up y = true → is_Some (jobs (runner (state y)) !! id)).

Lemma step_preserves y y' : (up y = true → sound (runner (state y))) ∧ recorded y → step y y' →
  (up y' = true → sound (runner (state y'))) ∧ recorded y'.
Proof.
  intros [Hs [Hb Hr]] Hstep. destruct Hstep as [y req now o s' r Hup E|y item now o rm s' r Hup E|y id r' b Hup E|y Hup|y Hup|y|y env s1 Hup E s'|y env s1 e Hup E];
    unfold recorded; cbn [up state log].
  - apply start_spec in E as (Hs' & Hk & [Er|(Hv & Hw & [w Hw'] & Hn & Hj & Hkd)]); [|auto|auto].
    + split; [done|]. assert (started (req_ID req) (runner (state y)) (runner s') = []) as -> by (rewrite Er; unfold started; by destruct (worker _)).
      split; [done|]. intros id Hl. destruct (Hr id Hl) as (? & ? & ?). rewrite Er. auto.
    + split; [done|]. assert (started (req_ID req) (runner (state y)) (runner s') = [Executed (req_ID req)]) as -> by (unfold started; by rewrite Hw, Hw').
      cbn. split.
      * split; [|done]. intros Hl. destruct (Hr _ Hl) as (_ & _ & H). destruct (H Hup) as [? H']. congruence.
      * intros id [<-|Hl]; [split_and!; [done..|]; intros _; rewrite Hj, lookup_insert_eq; eauto|].
        destruct (Hr id Hl) as (? & ? & H). split_and!; auto. intros _. rewrite Hj. destruct (H Hup) as [x Hx].
        destruct (decide (id = req_ID req)) as [->|]; [rewrite lookup_insert_eq; eauto|rewrite lookup_insert_ne by done; eauto].
  - destruct (work_spec item now o rm (state y) (Hs Hup)) as (s1 & E1 & Hs1 & _ & _ & Hk). rewrite E in E1. injection E1 as -> ->.
    split; [done|]. split; [by apply budgeted_forgotten|]. intros id [Hl Hi]%live_forgotten. destruct (Hr id Hl) as (? & ? & H). split_and!; auto.
  - assert (sound r' ∧ jobs r' = jobs (runner (state y))) as [Hs' Hj].
    { unfold Cancel in E. destruct (negb _); [injection E as <- _; by split; [apply Hs|]|]. destruct (worker _) eqn:Ew; [|done]. injection E as <- _.
      split; [apply sound_cancel, Hs, Hup|done]. }
    split; [done|]. split; [done|]. cbn. rewrite Hj. intros id' Hl. destruct (Hr id' Hl) as (? & ? & ?). split_and!; auto.
  - split; [intros _; apply sound_cancel, Hs, Hup|]. split; [done|]. cbn. intros id Hl. destruct (Hr id Hl) as (? & ? & ?). split_and!; auto.
  - split; [intros _; apply sound_cancel, Hs, Hup|]. split; [done|]. cbn. intros id Hl. destruct (Hr id Hl) as (? & ? & ?). split_and!; auto.
  - split; [done|]. split; [done|]. intros id Hl. destruct (Hr id Hl) as (? & ? & _). by split_and!.
  - apply load_spec in E as ((A & W & K & N) & Hk & Hkn).
    destruct (prune_spec (boot_now env) (can_remove env) s1 K) as ((A2 & W2 & J & _ & D) & H100 & _). fold s' in A2, W2, J, D, H100.
    split; [intros _; split; [by eapply keyed_subseteq|]; rewrite W2, W, A2, A; split_and!; [done| |done]; intros id j Hj; eapply N; by eapply lookup_weaken|].
    split; [by apply budgeted_forgotten|]. intros id [Hl Hi]%live_forgotten. destruct (Hr id Hl) as (Hv & Hd & _).
    assert (is_Some (jobs (runner s') !! id)) by auto. split_and!; auto.
  - apply load_spec in E as (_ & Hk & _). split; [done|]. split; [done|]. intros id Hl. destruct (Hr id Hl) as (? & ? & _). split_and!; [done|by apply Hk|done].
Qed.

Lemma reachable_spec y : reachable y → (up y = true → sound (runner (state y))) ∧ recorded y.
Proof. induction 1 as [d|y y' _ IH Hstep]; [by split_and!|]. by eapply step_preserves. Qed.

(** C17: while the process is up, whatever requests, cancellations and crashes came before:
    every job is kept under its own, valid identifier; at most one job runs, it is the active
    one, its request passes the limits and its results are those of the tests done; there
    are at most 100 other jobs; and the next step of the worker does not fail. *)
Theorem runner_sound y :
  reachable y → up y = true →
  sound (runner (state y)) ∧ ∀ item now o rm, ∃ s', work item now o rm (state y) = (s', Ok tt).
Proof.
  intros [H _]%reachable_spec Hup. split; [auto|]. intros item now o rm. destruct (work_spec item now o rm _ (H Hup)) as (s' & E & _). eauto.
Qed.

(** C10: a test is executed once: between two executions of one identifier, across any
    crashes, failures of the disk and restarts, its record was pruned. *)
Theorem runner_budget y : reachable y → budgeted (log y).
Proof. by intros [_ [Hb _]]%reachable_spec. Qed.

(** C34: the worker ends: after two steps for each of its tests and one more it is gone and
    another test can start, whatever the measurements, the clock and the disk. *)
Theorem worker_finishes s l :
  sound (runner s) → remaining (runner s) ≤ length l →
  ∃ s', proc_iter (λ '(item, now, o, rm), work item now o rm) l s = (s', Ok tt) ∧ worker (runner s') = None ∧ active (runner s') = "" ∧
  ∀ id j, jobs (runner s') !! id = Some j → Status j ≠ "RUNNING".
Proof.
  unfold proc_iter. revert s. induction l as [|[[[item now] o] rm] l IH]; intros s Hs Hl; cbn [proc_fold length] in *.
  - exists s. split; [done|]. destruct Hs as [_ Hw]. unfold remaining in Hl. destruct (worker (runner s)) as [w|] eqn:Ew; [|by destruct Hw as (? & ? & _)].
    destruct Hw as (_ & _ & Hp & _). destruct (measuring w); lia.
  - destruct (work_spec item now o rm s Hs) as (s1 & E1 & Hs1 & Hrem & _). rewrite (proc_bind_run _ _ _ _ _ E1). apply IH; [done|].
    destruct (worker (runner s)) as [w|] eqn:Ew; [pose proof (Hrem ltac:(eauto)); lia|].
    unfold work in E1. rewrite (proc_bind_run _ _ s s (Ok (runner s)) eq_refl), Ew in E1. injection E1 as <-. unfold remaining. rewrite Ew. lia.
Qed.

(** pruning deletes, besides the active job, exactly the jobs older than 90 days and, as
    long as there are more than 100, the oldest; at most 100 jobs are left. *)
Theorem prune_exact now rm s :
  keyed (jobs (runner s)) →
  let s' := prune now rm s in
  jobs (runner s') ⊆ jobs (runner s) ∧ size (jobs (runner s')) ≤ 100 ∧
  (∀ id j, jobs (runner s') !! id = Some j → id = active (runner s) ∨ (now ≤ CreatedAt j + retention)%Z) ∧
  (∀ id j, jobs (runner s) !! id = Some j → jobs (runner s') !! id = None → id ≠ active (runner s) ∧
    ((CreatedAt j + retention < now)%Z ∨ 100 < size (jobs (runner s)) ∧
     ∀ k x, jobs (runner s') !! k = Some x → k ≠ active (runner s) → (CreatedAt j ≤ CreatedAt x)%Z)).
Proof. intros Hk. destruct (prune_spec now rm s Hk) as ((_ & _ & J & G & _) & Hsz & Hold). by split_and!. Qed.

(** C35: a cancellation answers, except that the empty identifier panics while no test runs:
    it is then equal to the active one, and there is nothing to cancel. *)
Theorem cancel_panics r id :
  sound r →
  match (Cancel id r).2 with
  | None => id = "" ∧ worker r = None
  | Some true => ∃ w, worker r = Some w ∧ req_ID (w_req w) = id ∧ worker (Cancel id r).1 = Some (cancel_worker Canceled w)
  | Some false => active r ≠ id ∧ (Cancel id r).1 = r
  end.
Proof.
  intros [_ Hw]. unfold Cancel. destruct (bool_decide (active r = id)) eqn:Ha; cbn [negb].
  - apply bool_decide_eq_true in Ha as <-. destruct (worker r) as [w|] eqn:Ew; cbn; [|by destruct Hw as (-> & _)].
    exists w. destruct Hw as (-> & _). split_and!; [done..|]. by rewrite Ew.
  - by apply bool_decide_eq_false in Ha.
Qed.
End runner.

(** ** The theorems at work *)

Module BenchmarkDemo.
Import Merge.

Definition hardware (id : string) : Request :=
  {| req_ID := id; Kind := "HARDWARE"; Items := ["cpu"; "memory"]; Targets := []; Family := "IPv4"; SourceIP := ""; Interface := "";
     Seconds := 5; BytesPerDirection := 1048576; Threads := 2 |}.
Definition task : string := "01234567-89ab-cdef-0123-456789abcdef".

(** A stand-in for JSON that keeps the identifier and the status *)
#[local] Instance json : JobJson := {
  marshal_job j := Ok (ID j +:+ Status j);
  unmarshal_job s :=
    let id := String.substring 0 36 s in
    Some {| ID := id; JobRequest := hardware id; Status := String.substring 36 20 s; Phase := ""; Progress := 0; CreatedAt := 0%Z;
            FinishedAt := None; Results := []; Message := "" |};
  marshal_request r := req_ID r +:+ Kind r }.
#[local] Instance urls : UrlParse := λ _, None.

Definition env (now : time) : BootEnv :=
  {| boot_now := now; can_list := true; can_open := λ _, true; can_read := λ _, true; can_rename := λ _, true; can_info := λ _, true;
     can_remove := λ _, true; saves := λ _, Saved |}.
Definition result_of (name : string) : Item := {| Name := name; item_Status := "COMPLETED"; item_Message := ""; Metrics := ∅ |}.

(** Started, executed up to the first result, killed, started again, asked for the same test *)
Definition s0 : State := {| runner := idle; disk := {[ "notes.txt" := File "" 0%Z ]} |}.
Definition s1 : State := (New (env 1%Z) s0).1.
Definition s2 : State := (Start (hardware task) 2%Z Saved s1).1.
Definition s3 : State := (work (result_of "cpu") 3%Z Saved (λ _, true) s2).1.
Definition s4 : State := (work (result_of "cpu") 4%Z FailSync (λ _, true) s3).1.
Definition s5 : State := (New (env 5%Z) {| runner := idle; disk := disk s4 |}).1.
Definition s6 : State := (Start (hardware task) 6%Z Saved s5).1.

Definition at_ (s : State) (u : bool) (l : list event) : System := {| state := s; up := u; log := l |}.
Definition executed : list event := [Executed task].

Lemma boot_step s now l s' :
  prune now (λ _, true) (load (env now) s).1 = s' → (load (env now) s).2 = Ok tt →
  forgotten (jobs (runner (load (env now) s).1)) (jobs (runner s')) = [] → step (at_ s false l) (at_ s' true l).
Proof.
  intros <- Hok Hf. destruct (load (env now) s) as [s2 r] eqn:E. cbn in *. subst r.
  pose proof (step_boot (at_ s false l) (env now) s2 eq_refl E) as H. cbn in H. rewrite Hf in H. exact H.
Qed.
Lemma work_step s item now o l s' :
  (work item now o (λ _, true) s).1 = s' → forgotten (jobs (runner s)) (jobs (runner s')) = [] → step (at_ s true l) (at_ s' true l).
Proof.
  intros <- Hf. pose proof (step_work (at_ s true l) item now o (λ _, true) _ _ eq_refl (surjective_pairing _)) as H.
  cbn [state log at_] in H. by rewrite Hf in H.
Qed.
Lemma start_step s req now o l s' :
  (Start req now o s).1 = s' → step (at_ s true l) (at_ s' true (started (req_ID req) (runner s) (runner s') ++ l)).
Proof. intros <-. exact (step_start (at_ s true l) req now o _ _ eq_refl (surjective_pairing _)). Qed.

Lemma demo_started : reachable (at_ s2 true executed).
Proof.
  apply (reachable_step (at_ s1 true [])).
  - apply (reachable_step (at_ s0 false [])); [apply reachable_start|]. apply (boot_step s0 1%Z); vm_compute; reflexivity.
  - assert (started task (runner s1) (runner s2) ++ [] = executed) as <- by (vm_compute; reflexivity). by apply (start_step s1 (hardware task) 2%Z Saved).
Qed.

Lemma demo_running : reachable (at_ s4 true executed).
Proof.
  apply (reachable_step (at_ s3 true executed)).
  - apply (reachable_step (at_ s2 true executed)); [exact demo_started|].
    apply (work_step s2 (result_of "cpu") 3%Z Saved); [done|vm_compute; reflexivity].
  - apply (work_step s3 (result_of "cpu") 4%Z FailSync); [done|vm_compute; reflexivity].
Qed.

Lemma demo_restarted : reachable (at_ s6 true executed).
Proof.
  apply (reachable_step (at_ s5 true executed)).
  - apply (reachable_step (at_ {| runner := idle; disk := disk s4 |} false executed)).
    + apply (reachable_step (at_ s4 true executed)); [exact demo_running|]. exact (step_down (at_ s4 true executed)).
    + apply (boot_step _ 5%Z); vm_compute; reflexivity.
  - assert (started task (runner s5) (runner s6) ++ executed = executed) as <- by (vm_compute; reflexivity).
    by apply (start_step s5 (hardware task) 6%Z Saved).
Qed.

Lemma sound_at s l : reachable (at_ s true l) → sound (runner s).
Proof. intros H. by apply (reachable_spec _ H). Qed.

Lemma runner_sound_witness : sound (runner s4) ∧ cancel_worker Canceled <$> worker (runner s4) = worker (runner s4) ∧ active (runner s4) = task.
Proof. split; [apply (runner_sound (at_ s4 true executed) demo_running eq_refl)|vm_compute; by split]. Defined.

(** The test was executed once; the second request got the interrupted job. *)
Lemma runner_budget_witness : budgeted executed ∧ (Status <$> jobs (runner s6) !! task) = Some "INTERRUPTED".
Proof. split; [exact (runner_budget (at_ s6 true executed) demo_restarted)|vm_compute; reflexivity]. Defined.

Lemma s2_sound : sound (runner s2) ∧ remaining (runner s2) = 5.
Proof.
  split; [|vm_compute; reflexivity]. exact (sound_at s2 executed demo_started).
Qed.

Definition turns : list (Item * time * save_outcome * (string → bool)) :=
  (λ n, (result_of n, 9%Z, Saved, λ _, true)) <$> ["-"; "cpu"; "-"; "memory"; "-"].
Lemma worker_finishes_witness :
  ∃ s', proc_iter (λ '(item, now, o, rm), work item now o rm) turns s2 = (s', Ok tt) ∧ worker (runner s') = None.
Proof.
  destruct (worker_finishes s2 turns (proj1 s2_sound)) as (s' & E & H & _); [vm_compute; repeat constructor|]. exists s'. exact (conj E H).
Defined.

Lemma prune_exact_witness : size (jobs (runner (prune 10%Z (λ _, true) s6))) ≤ 100.
Proof. exact (proj1 (proj2 (prune_exact 10%Z (λ _, true) s6 (proj1 (sound_at s6 executed demo_restarted))))). Defined.

(** An idle runner panics at a cancellation without an identifier. *)
Lemma cancel_panics_witness : (Cancel "" (runner s6)).2 = None ∧ worker (runner s6) = None.
Proof.
  split; [vm_compute; reflexivity|]. pose proof (cancel_panics (runner s6) "" (sound_at s6 executed demo_restarted)) as H.
  assert ((Cancel "" (runner s6)).2 = None) as E by (vm_compute; reflexivity). rewrite E in H. apply H.
Defined.
End BenchmarkDemo.
