(* ===== verification/BenchmarkNet.v ===== *)
(** * The targets of network benchmarks ([internal/benchmark/network.go])

    A network test dials an address that was checked: [publicIP] excludes every range that
    is not public, [sourceAddress] chooses the local address, and [pinnedClient] resolves
    the target once and dials nothing else.  DNS and the interfaces are [NetEnv].
    [publicIP_exact] and [pinned_public] (used by the tests of BenchmarkTest.v) state what is dialled. *)
From S2P Require Import Prelude GoStr GoNet GoAny Benchmark.
Import Benchmark.

Module BenchmarkNet.

Local Open Scope Z_scope.

(** ** [net/netip] on unmapped addresses *)

(** [netip.MustParsePrefix(s).Contains(a)] *)
Definition prefix_contains (s : string) (a : ip) : bool :=
  match parse_cidr s with
  | Some (_, network, lit4, n) =>
      let size := 2 ^ ((if (lit4 : bool) then 32 else 128) - n) in
      Bool.eqb lit4 (is_v4 a) && (a / size * size =? network)
  | None => false
  end.

Definition is_loopback (a : ip) : bool := match to4 a with Some v => v / 2 ^ 24 =? 127 | None => a =? 1 end.
Definition is_multicast (a : ip) : bool := match to4 a with Some v => v / 2 ^ 28 =? 14 | None => a / 2 ^ 120 =? 255 end.
Definition is_link_local (a : ip) : bool := match to4 a with Some v => v / 2 ^ 16 =? 43518 | None => a / 2 ^ 118 =? 1018 end.
Definition is_private (a : ip) : bool :=
  match to4 a with
  | Some v => (v / 2 ^ 24 =? 10) || (v / 2 ^ 20 =? 2753) || (v / 2 ^ 16 =? 49320)
  | None => a / 2 ^ 121 =? 126
  end.
Definition is_unspecified (a : ip) : bool := match to4 a with Some v => (v =? 0) || (v =? 2 ^ 32 - 1) | None => a =? 0 end.
Definition is_global_unicast (a : ip) : bool :=
  negb (is_unspecified a) && negb (is_loopback a) && negb (is_multicast a) && negb (is_link_local a).

Definition reserved : list string :=
  ["0.0.0.0/8"; "100.64.0.0/10"; "192.0.0.0/24"; "192.0.2.0/24"; "192.88.99.0/24"; "198.18.0.0/15"; "198.51.100.0/24"; "203.0.113.0/24";
   "240.0.0.0/4"; "2001:db8::/32"; "2001::/23"; "2002::/16"; "3fff::/20"; "64:ff9b::/96"; "64:ff9b:1::/48"; "::/96"].

Definition publicIP (a : ip) : bool :=
  if negb (is_global_unicast a) || is_private a || is_loopback a || is_link_local a then false
  else if negb (is_v4 a) && negb (prefix_contains "2000::/3" a) then false
  else negb (existsb (λ s, prefix_contains s a) reserved).

(** ** The source and the target of a test *)

(** The interfaces with the text of their addresses, and [LookupNetIP] *)
Class NetEnv := {
  interface_by_name : string → result unit;
  addresses_of : string → result (list string);
  all_addresses : result (list string);
  lookup_target : string → result (list ip)
}.

Section net.
Context {UrlI : UrlParse} {EnvI : NetEnv}.

Definition family_is (req : Request) (a : ip) : bool := Bool.eqb (bool_decide (Family req = "IPv4")) (is_v4 a).

Definition usable (req : Request) (text : string) : option ip :=
  match parse_cidr text with
  | Some (a, _, _, _) => if family_is req a && negb (is_loopback a) && negb (is_link_local a) then Some a else None
  | None => None
  end.

Definition source_text (req : Request) : result string :=
  if bool_decide (Interface req = "") then Ok (SourceIP req) else
  _ ← interface_by_name (Interface req);
  texts ← addresses_of (Interface req);
  let raw := match head (omap (usable req) texts) with Some a => ip_string a | None => SourceIP req end in
  _ ← fail_if (bool_decide (raw = "")) (ErrMsg "interface has no address of selected family");
  Ok raw.

Definition is_local (a : ip) (text : string) : bool :=
  match parse_cidr text with Some (b, _, _, _) => b =? a | None => false end.

Definition sourceAddress (req : Request) : result (option ip) :=
  raw ← source_text req;
  if bool_decide (raw = "") then Ok None else
  match parse_ip raw with
  | None => Err (ErrMsg "source IP family does not match")
  | Some a =>
      _ ← fail_if (negb (family_is req a)) (ErrMsg "source IP family does not match");
      locals ← all_addresses;
      if existsb (is_local a) locals then Ok (Some a) else Err (ErrMsg "source IP is not assigned to node")
  end.

(** The first address of the family; every address must be public. *)
Definition select (req : Request) (selected : option ip) (a : ip) : result (option ip) :=
  _ ← fail_if (negb (publicIP a)) (ErrMsg "target DNS contains a non-public address");
  Ok (match selected with None => if family_is req a then Some a else None | Some _ => selected end).

Definition port_of (u : URL) : string :=
  if bool_decide (Port u = "") then (if bool_decide (Scheme u = "http") then "80" else "443") else Port u.

(** What the client may dial: the address, from where and on which device *)
Record Pinned := { p_host : string; p_addr : string; p_local : option ip; p_device : option string }.

Definition pinnedClient (req : Request) (raw : string) : result Pinned :=
  u ← parseURL raw;
  local ← sourceAddress req;
  ips ← (match lookup_target (Hostname u) with Ok l => Ok l | Err _ => Err (ErrMsg "target DNS lookup failed") end);
  selected ← foldr_result (select req) None ips;
  match selected with
  | None => Err (ErrMsg "target does not support selected address family")
  | Some a =>
      Ok {| p_host := join_host_port (Hostname u) (port_of u); p_addr := join_host_port (ip_string a) (port_of u);
            p_local := local; p_device := if bool_decide (Interface req = "") then None else Some (Interface req) |}
  end.

(** [DialContext]: the address that is dialled *)
Definition dial (p : Pinned) (address : string) : result string :=
  if bool_decide (address = p_host p) then Ok (p_addr p) else Err (ErrMsg "cross-host request denied").

(** ** What is public *)

Definition v4 (a b c d : Z) : Z := ((a * 256 + b) * 256 + c) * 256 + d.
Definition within (v : Z) (range : Z * Z) : Prop := range.1 ≤ v < range.2.

(** From the first address of a range to the first after it *)
Definition reserved_v4 : list (Z * Z) :=
  [(v4 0 0 0 0, v4 1 0 0 0); (v4 10 0 0 0, v4 11 0 0 0); (v4 100 64 0 0, v4 100 128 0 0); (v4 127 0 0 0, v4 128 0 0 0);
   (v4 169 254 0 0, v4 169 255 0 0); (v4 172 16 0 0, v4 172 32 0 0); (v4 192 0 0 0, v4 192 0 1 0); (v4 192 0 2 0, v4 192 0 3 0);
   (v4 192 88 99 0, v4 192 88 100 0); (v4 192 168 0 0, v4 192 169 0 0); (v4 198 18 0 0, v4 198 20 0 0);
   (v4 198 51 100 0, v4 198 51 101 0); (v4 203 0 113 0, v4 203 0 114 0); (v4 224 0 0 0, v4 256 0 0 0)].
(** The first 32 bits of an address *)
Definition hi32 (a b : Z) : Z := (a * 65536 + b) * 2 ^ 96.
Definition global_v6 : Z * Z := (hi32 8192 0, hi32 16384 0).
Definition reserved_v6 : list (Z * Z) :=
  [(hi32 8193 3512, hi32 8193 3513); (hi32 8193 0, hi32 8193 512); (hi32 8194 0, hi32 8195 0); (hi32 16383 0, hi32 16383 4096)].

Definition is_public (a : ip) : Prop :=
  match to4 a with
  | Some v => ∀ range, range ∈ reserved_v4 → ¬ within v range
  | None => within a global_v6 ∧ ∀ range, range ∈ reserved_v6 → ¬ within a range
  end.

Lemma div_is (a k c : Z) : 0 < k → (a / k =? c) = true ↔ c * k ≤ a < (c + 1) * k.
Proof.
  intros Hk. rewrite Z.eqb_eq. pose proof (Z.div_mod a k ltac:(lia)). pose proof (Z.mod_pos_bound a k Hk). split; [intros <-; nia|].
  intros [H1 H2]. symmetry. apply (Z.div_unique a k c (a - c * k)); [left; nia|lia].
Qed.

Lemma prefix_v6 s net n a : parse_cidr s = Some (net, net, false, n) → 0 ≤ n ≤ 128 → is_v4 a = false → net mod 2 ^ (128 - n) = 0 →
  prefix_contains s a = true ↔ net ≤ a < net + 2 ^ (128 - n).
Proof.
  intros E Hn Ha Hm. unfold prefix_contains. rewrite E, Ha. cbn [Bool.eqb andb].
  set (k := 2 ^ (128 - n)) in *. assert (0 < k) as Hk by (apply Z.pow_pos_nonneg; lia).
  assert (net = net / k * k) as E1 by (pose proof (Z.div_mod net k ltac:(lia)); lia).
  assert ((a / k * k =? net) = true ↔ (a / k =? net / k) = true) as -> by (rewrite !Z.eqb_eq; nia).
  rewrite div_is by done. lia.
Qed.

Lemma prefix_v4 s v n w : parse_cidr s = Some (of_v4 v, of_v4 v, true, n) → 0 ≤ n ≤ 32 → 0 ≤ v < 2 ^ 32 → 0 ≤ w < 2 ^ 32 →
  v mod 2 ^ (32 - n) = 0 → prefix_contains s (of_v4 w) = true ↔ v ≤ w < v + 2 ^ (32 - n).
Proof.
  intros E Hn Hv Hw Hm. unfold prefix_contains. rewrite E. assert (is_v4 (of_v4 w) = true) as ->.
  { apply Z.eqb_eq. unfold of_v4, v4_prefix. symmetry. apply (Z.div_unique _ _ _ w); lia. }
  cbn [Bool.eqb andb]. set (k := 2 ^ (32 - n)) in *. assert (0 < k) as Hk by (apply Z.pow_pos_nonneg; lia).
  assert (v4_prefix mod k = 0) as Hp.
  { unfold v4_prefix, k. assert (281470681743360 = 65535 * 2 ^ n * 2 ^ (32 - n)) as -> by (rewrite <- Z.mul_assoc, <- Z.pow_add_r by lia; by replace (n + (32 - n)) with 32 by lia).
    apply Z.mod_mul. fold k. lia. }
  unfold of_v4. pose proof (Z.div_mod v4_prefix k ltac:(lia)). pose proof (Z.div_mod v k ltac:(lia)).
  assert ((v4_prefix + w) / k = v4_prefix / k + w / k) as ->.
  { rewrite <- (Z.div_add_l (v4_prefix / k) k w) by lia. f_equal. lia. }
  assert (((v4_prefix / k + w / k) * k =? v4_prefix + v) = true ↔ (w / k =? v / k) = true) as -> by (rewrite !Z.eqb_eq; nia).
  rewrite div_is by done. lia.
Qed.

Lemma if_false (c d : bool) : (if c then false else d) = true ↔ ¬ c = true ∧ d = true.
Proof. by destruct c, d; intuition. Qed.
Lemma negb_iff b : negb b = true ↔ ¬ b = true.
Proof. by destruct b; intuition. Qed.
Lemma existsb_iff {A} (p : A → bool) x l : existsb p (x :: l) = true ↔ p x = true ∨ existsb p l = true.
Proof. cbn. by rewrite orb_true_iff. Qed.
Lemma existsb_none {A} (p : A → bool) : existsb p [] = true ↔ False.
Proof. done. Qed.

Lemma forall_ranges (x : Z * Z) l v : (∀ r, r ∈ x :: l → ¬ within v r) ↔ ¬ within v x ∧ ∀ r, r ∈ l → ¬ within v r.
Proof.
  split.
  - intros H. split; [apply H; left|]. intros. apply H. by right.
  - intros [H1 H2] r [->|?]%elem_of_cons; auto.
Qed.
Lemma no_ranges v : (∀ r, r ∈ ([] : list (Z * Z)) → ¬ within v r) ↔ True.
Proof. split; [done|]. by intros _ r ?%elem_of_nil. Qed.

(** The family of a prefix *)
Definition family (s : string) : option bool := (λ '(_, _, lit4, _), lit4) <$> parse_cidr s.
Lemma other_family s lit4 a : family s = Some lit4 → is_v4 a = negb lit4 → prefix_contains s a = true ↔ False.
Proof.
  unfold family, prefix_contains. destruct (parse_cidr s) as [[[[x net] l] n]|]; [|done]. cbn. intros [= ->] ->. by destruct lit4.
Qed.

(** The side conditions of a closed prefix *)
Ltac side := first [assumption|vm_compute; reflexivity|unfold v4, hi32; split; [vm_compute; discriminate|vm_compute; reflexivity]|split; vm_compute; discriminate].

(** [publicIP] is what the ranges say. *)
Lemma publicIP_exact a : 0 ≤ a < 2 ^ 128 → publicIP a = true ↔ is_public a.
Proof.
  intros Ha. unfold publicIP, is_public, is_global_unicast, is_private, is_loopback, is_link_local, is_multicast, is_unspecified, reserved.
  rewrite !if_false, !orb_true_iff, !andb_true_iff, !negb_iff, !existsb_iff, existsb_none.
  destruct (to4 a) as [v|] eqn:E4; unfold to4 in E4; destruct (a / 2 ^ 32 =? 65535) eqn:E5; try done.
  - injection E4 as <-. set (v := a mod 2 ^ 32) in *. assert (0 ≤ v < 2 ^ 32) as Hv by (apply Z.mod_pos_bound; lia).
    assert (is_v4 a = true) as H4 by done. assert (a = of_v4 v) as Hav.
    { apply Z.eqb_eq in E5. unfold of_v4, v4_prefix, v. rewrite (Z.div_mod a (2 ^ 32)) at 1 by lia. rewrite E5. lia. }
    unfold reserved_v4. rewrite !forall_ranges, no_ranges. unfold within, v4. cbn [fst snd].
    rewrite H4, Hav. cbv iota beta. rewrite !andb_true_iff, !negb_iff, !orb_true_iff, !div_is, !Z.eqb_eq by lia.
    rewrite (prefix_v4 "0.0.0.0/8" (v4 0 0 0 0) 8 v), (prefix_v4 "100.64.0.0/10" (v4 100 64 0 0) 10 v),
      (prefix_v4 "192.0.0.0/24" (v4 192 0 0 0) 24 v), (prefix_v4 "192.0.2.0/24" (v4 192 0 2 0) 24 v),
      (prefix_v4 "192.88.99.0/24" (v4 192 88 99 0) 24 v), (prefix_v4 "198.18.0.0/15" (v4 198 18 0 0) 15 v),
      (prefix_v4 "198.51.100.0/24" (v4 198 51 100 0) 24 v), (prefix_v4 "203.0.113.0/24" (v4 203 0 113 0) 24 v),
      (prefix_v4 "240.0.0.0/4" (v4 240 0 0 0) 4 v) by side.
    rewrite <- Hav. rewrite (other_family "2001:db8::/32" false a), (other_family "2001::/23" false a), (other_family "2002::/16" false a),
      (other_family "3fff::/20" false a), (other_family "64:ff9b::/96" false a), (other_family "64:ff9b:1::/48" false a), (other_family "::/96" false a) by side.
    unfold v4. lia.
  - assert (is_v4 a = false) as H4 by done. unfold reserved_v6. rewrite !forall_ranges, no_ranges. unfold within, hi32, global_v6, hi32. cbn [fst snd].
    rewrite H4. cbv iota beta. rewrite !andb_true_iff, !negb_iff, !div_is, !Z.eqb_eq by lia.
    rewrite (prefix_v6 "2000::/3" (hi32 8192 0) 3 a), (prefix_v6 "2001:db8::/32" (hi32 8193 3512) 32 a), (prefix_v6 "2001::/23" (hi32 8193 0) 23 a),
      (prefix_v6 "2002::/16" (hi32 8194 0) 16 a), (prefix_v6 "3fff::/20" (hi32 16383 0) 20 a), (prefix_v6 "64:ff9b::/96" (hi32 100 65435) 96 a),
      (prefix_v6 "64:ff9b:1::/48" (hi32 100 65435 + 2 ^ 80) 48 a), (prefix_v6 "::/96" 0 96 a) by side.
    rewrite (other_family "0.0.0.0/8" true a), (other_family "100.64.0.0/10" true a), (other_family "192.0.0.0/24" true a),
      (other_family "192.0.2.0/24" true a), (other_family "192.88.99.0/24" true a), (other_family "198.18.0.0/15" true a),
      (other_family "198.51.100.0/24" true a), (other_family "203.0.113.0/24" true a), (other_family "240.0.0.0/4" true a) by side.
    unfold hi32. lia.
Qed.

(** ** What is dialled *)

Lemma select_spec req l acc r :
  foldr_result (select req) acc l = Ok r →
  (∀ a, a ∈ l → publicIP a = true) ∧
  r = match acc with Some _ => acc | None => head (filter (λ a, family_is req a = true) l) end.
Proof.
  revert acc. induction l as [|a l IH]; intros acc E.
  { injection E as <-. split; [by intros ? ?%elem_of_nil|]. by destruct acc. }
  cbn [foldr_result] in E. bind_as E s H. unfold select in H. bind_as H u Hp. apply fail_if_ok, negb_false_iff in Hp.
  injection H as <-. apply IH in E as [Hl ->]. split; [by intros b [->|?]%elem_of_cons; auto|].
  destruct acc; [done|]. rewrite filter_cons. by destruct (family_is req a).
Qed.

Lemma parseURL_spec raw u : parseURL raw = Ok u →
  parse_url raw = Some u ∧ (Scheme u = "https" ∨ Scheme u = "http") ∧ Hostname u ≠ "" ∧ has_User u = false ∧ port_of u ∈ ["80"; "443"; "8443"].
Proof.
  unfold parseURL. destruct (parse_url raw) as [u'|]; [|done]. intros E. bind_as E x H1. bind_as E y H2. injection E as ->.
  apply fail_if_ok in H1, H2. apply orb_false_iff in H1 as [[[[Hs Hh]%orb_false_iff Hus]%orb_false_iff Hf]%orb_false_iff _].
  apply negb_false_iff, bool_decide_eq_true in Hs, H2. apply bool_decide_eq_false in Hh.
  assert (Scheme u = "https" ∨ Scheme u = "http") as Hsch by (revert Hs; rewrite !elem_of_cons, elem_of_nil; tauto).
  split_and!; [done|exact Hsch|done|done|]. unfold port_of.
  destruct (bool_decide (Port u = "")) eqn:Hp; [destruct (bool_decide (Scheme u = "http")); rewrite !elem_of_cons; auto|].
  apply bool_decide_eq_false in Hp. revert H2. rewrite !elem_of_cons, !elem_of_nil. tauto.
Qed.

(** what a network test can dial.  Every address that DNS gave for the host of the
    target is public; the address dialled is the first of them in the family asked for, at
    port 80, 443 or 8443, and nothing else can be dialled, whatever the server answers. *)
Theorem pinned_public req raw p :
  (∀ host l a, lookup_target host = Ok l → a ∈ l → 0 ≤ a < 2 ^ 128) →
  pinnedClient req raw = Ok p →
  ∃ u l a, parse_url raw = Some u ∧ lookup_target (Hostname u) = Ok l ∧ (∀ b, b ∈ l → is_public b) ∧
  head (filter (λ b, family_is req b = true) l) = Some a ∧ p_addr p = join_host_port (ip_string a) (port_of u) ∧
  port_of u ∈ ["80"; "443"; "8443"] ∧ ∀ address dialled, dial p address = Ok dialled → dialled = p_addr p ∧ address = p_host p.
Proof.
  intros Hrange E. unfold pinnedClient in E. bind_as E u Hu. bind_as E local Hl. bind_as E l Hlook. bind_as E sel Hsel.
  apply parseURL_spec in Hu as (Hu & _ & _ & _ & Hport). destruct (lookup_target (Hostname u)) as [l'|] eqn:Hd; [|done]. injection Hlook as ->.
  apply select_spec in Hsel as [Hall ->]. destruct (head _) as [a|] eqn:Ha; [|done]. injection E as <-.
  exists u, l, a. split_and!; [done..| |done|done|done|].
  - intros b Hb. apply publicIP_exact; [by eapply Hrange|by apply Hall].
  - intros address dialled. unfold dial. case_bool_decide as Hh; [|done]. by intros [= <-].
Qed.
End net.

Module NetDemo.
#[local] Instance urls : UrlParse := λ raw,
  Some {| Scheme := "https"; Hostname := "speed.example"; Port := ""; has_User := false; Fragment := "" |}.
#[local] Instance net_env : NetEnv := {
  interface_by_name _ := Ok tt; addresses_of _ := Ok ["192.0.2.9/24"]; all_addresses := Ok ["192.0.2.9/24"; "::1/128"];
  lookup_target _ := Ok [hi32 9728 100; of_v4 (v4 93 184 216 34)] }.

Definition request : Request :=
  {| req_ID := ""; Kind := "NETWORK"; Items := ["latency"]; Targets := []; Family := "IPv4"; SourceIP := ""; Interface := "eth0";
     Seconds := 5; BytesPerDirection := 1048576; Threads := 1 |}.
Definition pinned : Pinned :=
  {| p_host := "speed.example:443"; p_addr := "93.184.216.34:443"; p_local := Some (of_v4 (v4 192 0 2 9)); p_device := Some "eth0" |}.

Lemma pinned_public_witness : pinnedClient request "https://speed.example/file" = Ok pinned ∧ is_public (of_v4 (v4 93 184 216 34)).
Proof.
  assert (pinnedClient request "https://speed.example/file" = Ok pinned) as E by (vm_compute; reflexivity). split; [exact E|].
  destruct (pinned_public request "https://speed.example/file" pinned) as (u & l & a & _ & Hl & Hp & _); [|exact E|].
  - intros host l a [= <-]. rewrite !elem_of_cons, elem_of_nil. intros [Ha|[Ha|[]]]; rewrite Ha; unfold hi32, of_v4, v4, v4_prefix; lia.
  - apply Hp. cbn in Hl. injection Hl as <-. right. left.
Defined.

(** A host with a private address is refused. *)
Example private_refused : publicIP (of_v4 (v4 10 1 2 3)) = false ∧ publicIP (hi32 64768 1) = false ∧ publicIP 1 = false.
Proof. vm_compute. done. Qed.
End NetDemo.
End BenchmarkNet.
