(* ===== verification/BenchmarkTest.v ===== *)
(** * Network benchmarks ([internal/benchmark/network.go])

    The samples of latency, the transfers, and the test of a target.  DNS, connections, HTTP,
    the clock and the context answer through [TestEnv], where an answer may depend on
    everything done before (newest first).  Figures are floating point ([GoFloat]).

    [network_test_sound]: a network test only talks to public addresses at the allowed ports,
    within a budget of connections, exchanges and bytes, and reports what it tried. *)
From S2P Require Import Prelude GoStr GoTime GoNet GoAny GoFloat GoSort Benchmark BenchmarkNet.
Import Benchmark BenchmarkNet.

Module BenchmarkTest.

Inductive action :=
| Look                                                     (* a look at the context *)
| Resolve (raw : string)                                   (* the client for a URL is made *)
| Connect (address : string)                               (* a TCP connection *)
| Exchange (method raw address : string) (limit : Z).      (* an HTTP request; what it may move *)
Abbreviation log := (list action).

(** A response: its status, its content type, how many bytes its body would give, and the
    error, if any, that then ends it *)
Record Response := { code : Z; content_type : string; available : Z; body_error : option error }.

(** What [client.Do] returned (both, when a redirect was refused), how many bytes of the body
    of the request were read, how long it all took (more than nothing), and whether the deadline had
    passed *)
Record Reply := { response : option Response; do_error : option error; sent : Z; elapsed : Z; deadline : bool }.

Class TestEnv := {
  net_at : log → NetEnv;
  context_done : log → bool;
  connect : log → result Z;                                (* the microseconds it took *)
  reply : log → Reply
}.

Section test.
Context {UrlI : UrlParse} {EnvI : TestEnv}.

Definition note (a : action) : proc log unit := modify (cons a).
Definition look : proc log bool := _ ← note Look; gets context_done.
Definition makeClient (req : Request) (raw : string) : proc log Pinned :=
  _ ← note (Resolve raw); l ← gets id; lift (pinnedClient (EnvI := net_at l) req raw).

(** Both results of a function that returns a value and an error *)
Abbreviation outcome := (option object * option error)%type.

(** ** Transfers *)

(** [io.Copy] of [io.LimitReader(body, limit)]: the bytes, and the error *)
Definition copy_limited (limit : Z) (r : Response) : Z * option error :=
  if (limit <=? available r)%Z then (limit, None) else (available r, body_error r).

(** [mbps]: bits per second, in millions *)
Definition mbps (n ns : Z) : float64 :=
  fdiv (fdiv (fmul (float_of_int n) (float_of_int 8)) (seconds ns)) (float_of_int 1000000).

(** What is left of [transfer] when the response has been read *)
Definition conclude (upload : bool) (limit n : Z) (err : option error) (address : string) (rep : Reply) : outcome :=
  let metrics : object :=
    <["bytes" := AInt n]> (<["durationSeconds" := AFloat (seconds (elapsed rep))]>
    (<["mbps" := AFloat (mbps n (elapsed rep))]> (<["remoteAddress" := AStr address]>
    {["sample" := AStr "bounded HTTP throughput including connection setup"]}))) in
  match err with
  | Some _ =>
      if deadline rep && (0 <? n)%Z then (Some (<["timeLimited" := ABool true]> metrics), None)
      else (Some metrics, Some (ErrMsg "network transfer failed or was cancelled"))
  | None =>
      if upload && negb (n =? limit)%Z then
        (Some metrics, Some (ErrMsg "upload endpoint did not consume the complete request"))
      else if (n =? 0)%Z then (Some metrics, Some (ErrMsg "endpoint returned no test data"))
      else (Some metrics, None)
  end.

Definition transferred (upload : bool) (limit : Z) (address : string) (rep : Reply) : outcome :=
  let uploaded := Z.min limit (Z.max 0 (sent rep)) in
  match response rep with
  | None => conclude upload limit (if upload then uploaded else 0%Z) (do_error rep) address rep
  | Some r =>
      if (code r <? 200)%Z || (300 <=? code r)%Z then (None, Some (ErrMsg ("test endpoint HTTP " +:+ itoa (code r))))
      else if upload then conclude true limit uploaded (snd (copy_limited 4096 r)) address rep
      else if contains (content_type r) "text/html" then
        (None, Some (ErrMsg "endpoint returned HTML instead of test data"))
      else let '(n, err) := copy_limited limit r in conclude false limit n err address rep
  end.

Definition transfer (req : Request) (raw : string) (upload : bool) : proc log outcome :=
  client ← attempt (makeClient req raw);
  match client with
  | Err e => mret (None, Some e)
  | Ok p =>
      _ ← note (Exchange (if upload then "POST" else "GET") raw (p_addr p) (BytesPerDirection req));
      rep ← gets reply;
      mret (transferred upload (BytesPerDirection req) (p_addr p) rep)
  end.

(** ** Latency *)

(** At most five connections, while the phase lasts: the samples and how many failed *)
Fixpoint sample (attempts : nat) (address : string) (samples : list Z) (failed : Z) : proc log (list Z * Z) :=
  match attempts with
  | O => mret (samples, failed)
  | S attempts =>
      over ← look;
      if over : bool then mret (samples, failed) else
      _ ← note (Connect address);
      r ← gets connect;
      match r with
      | Err _ => sample attempts address samples (failed + 1)
      | Ok us => sample attempts address (samples ++ [us]) failed
      end
  end.

(** [float64(us) / 1000] *)
Definition milliseconds (us : Z) : float64 := fdiv (float_of_int us) (float_of_int 1000).

(** The figures of the samples, sorted; dividing keeps their order. *)
Definition latency_metrics (address : string) (samples : list Z) (failed : Z) : outcome :=
  let count := Z.of_nat (length samples) in
  let attempted := (count + failed)%Z in
  let samples := milliseconds <$> sort_ints samples in
  let metrics : object :=
    <["samples" := AInt count]> (<["attempts" := AInt attempted]> (<["failures" := AInt failed]>
      {["remoteAddress" := AStr address]})) in
  let metrics := if (0 <? attempted)%Z then
      <["tcpFailurePercent" := AFloat (fdiv (fmul (float_of_int failed) (float_of_int 100)) (float_of_int attempted))]> metrics
    else metrics in
  match head samples, last samples, samples !! Nat.div (length samples - 1) 2 with
  | Some least, Some greatest, Some median =>
      (Some (<["p50Ms" := AFloat median]> (<["p95Ms" := AFloat greatest]>
        (<["spreadMs" := AFloat (fsub greatest least)]> metrics))), None)
  | _, _, _ => (Some metrics, Some (ErrMsg "all TCP latency samples failed"))
  end.

Definition latency (req : Request) (t : Target) : proc log outcome :=
  client ← attempt (makeClient req (DownloadURL t));
  match client with
  | Err e => mret (None, Some e)
  | Ok p =>
      r ← sample 5 (p_addr p) [] 0;
      mret (latency_metrics (p_addr p) (fst r) (snd r))
  end.

(** ** The test of a target *)

(** A target in the metrics, with the names of its JSON *)
Definition target_value (t : Target) : any :=
  let m : object := <["id" := AStr (t_ID t)]> (<["city" := AStr (City t)]> (<["provider" := AStr (Provider t)]>
    (<["downloadUrl" := AStr (DownloadURL t)]> {["policyUrl" := AStr (PolicyURL t)]}))) in
  AObj (if bool_decide (UploadURL t = "") then m else <["uploadUrl" := AStr (UploadURL t)]> m).

Definition new_result (req : Request) (t : Target) : Item :=
  {| Name := City t; item_Status := "COMPLETED"; item_Message := "";
     Metrics := <["target" := target_value t]> {["family" := AStr (Family req)]} |}.

Definition with_metric (item : string) (v : any) (r : Item) : Item :=
  {| Name := Name r; item_Status := item_Status r; item_Message := item_Message r; Metrics := <[item := v]> (Metrics r) |}.
Definition with_outcome (item : string) (o : outcome) (r : Item) : Item :=
  match snd o with
  | Some e =>
      let metrics := default ∅ (fst o) in
      with_metric item (AObj (<["status" := AStr "FAILED"]> (<["message" := AStr (error_text e)]> metrics)))
        {| Name := Name r; item_Status := "FAILED"; item_Message := item_Message r; Metrics := Metrics r |}
  | None => with_metric item (match fst o with Some m => AObj m | None => ANil end) r
  end.

Definition unsupported : any :=
  AObj (<["status" := AStr "UNSUPPORTED"]> {["message" := AStr "Endpoint does not offer upload testing"]}).

(** One turn of the loop *)
Definition test_item (req : Request) (t : Target) (r : Item) (item : string) : proc log Item :=
  if bool_decide (item = "latency") then o ← latency req t; mret (with_outcome item o r)
  else if bool_decide (item = "download") then o ← transfer req (DownloadURL t) false; mret (with_outcome item o r)
  else if bool_decide (item = "upload") then
    if bool_decide (UploadURL t = "") then mret (with_metric item unsupported r)
    else o ← transfer req (UploadURL t) true; mret (with_outcome item o r)
  else mret (with_outcome item (None, None) r).

Fixpoint test_items (req : Request) (t : Target) (r : Item) (items : list string) : proc log Item :=
  match items with
  | [] => mret r
  | item :: rest =>
      over ← look;
      if over : bool then mret r else r ← test_item req t r item; test_items req t r rest
  end.
Definition networkTest (req : Request) (t : Target) : proc log Item := test_items req t (new_result req t) (Items req).

(** ** What a test does *)

(** An address that a test may connect to *)
Definition dialable (req : Request) (address : string) : Prop :=
  ∃ a port, is_public a ∧ family_is req a = true ∧ port ∈ ["80"; "443"; "8443"] ∧ address = join_host_port (ip_string a) port.
Definition proper (req : Request) (a : action) : Prop :=
  match a with
  | Connect address => dialable req address
  | Exchange _ _ address limit => dialable req address ∧ limit = BytesPerDirection req
  | _ => True
  end.
Definition is_connect (a : action) : bool := match a with Connect _ => true | _ => false end.
Definition is_exchange (a : action) : bool := match a with Exchange _ _ _ _ => true | _ => false end.
Definition count (p : action → bool) (l : log) : nat := length (filter (λ a, p a = true) l).

(** The run added proper actions to its log: at most [c] connections and [x] exchanges. *)
Definition does (req : Request) (c x : nat) (l l' : log) : Prop :=
  ∃ new, l' = new ++ l ∧ Forall (proper req) new ∧ count is_connect new ≤ c ∧ count is_exchange new ≤ x.

Lemma does_refl req l : does req 0 0 l l.
Proof. by exists []. Qed.
Lemma does_one req a l : proper req a → does req (count is_connect [a]) (count is_exchange [a]) l (a :: l).
Proof. intros H. exists [a]. split_and!; [done|by constructor|lia|lia]. Qed.
Lemma does_connect req address l : dialable req address → does req 1 0 l (Connect address :: l).
Proof. intros H. by apply (does_one req (Connect address)). Qed.
Lemma does_exchange req method raw address l :
  dialable req address → does req 0 1 l (Exchange method raw address (BytesPerDirection req) :: l).
Proof. intros H. by apply (does_one req (Exchange method raw address (BytesPerDirection req))). Qed.
Lemma does_trans req c1 x1 c2 x2 c x l l1 l2 :
  does req c1 x1 l l1 → does req c2 x2 l1 l2 → c1 + c2 ≤ c → x1 + x2 ≤ x → does req c x l l2.
Proof.
  intros (n1 & -> & F1 & C1 & X1) (n2 & -> & F2 & C2 & X2) Hc Hx. exists (n2 ++ n1).
  unfold count in *. rewrite app_assoc, !filter_app, !length_app. split_and!; [done|by apply Forall_app|lia|lia].
Qed.

(** The addresses of DNS are addresses. *)
Definition dns_ok : Prop :=
  ∀ l host ips a, lookup_target (NetEnv := net_at l) host = Ok ips → a ∈ ips → (0 ≤ a < 2 ^ 128)%Z.

Lemma makeClient_does req raw l l' r : dns_ok → makeClient req raw l = (l', r) →
  does req 0 0 l l' ∧ ∀ p, r = Ok p → dialable req (p_addr p).
Proof.
  intros Hdns E. unfold makeClient, note, lift in E. step E l1 u H1. injection H1 as <- <-. step E l2 l3 H2.
  injection H2 as <- <-. injection E as <- <-. split; [by apply (does_one req (Resolve raw))|]. intros p Hp.
  apply (pinned_public (EnvI := net_at (Resolve raw :: l))) in Hp as (u & ips & a & _ & _ & Hpub & Ha & Haddr & Hport & _); [|by apply Hdns].
  apply head_Some_elem_of, list_elem_of_filter in Ha as [Hf Hin]. exists a, (port_of u). by auto.
Qed.

Lemma look_does req l l' r : look l = (l', r) → does req 0 0 l l'.
Proof. unfold look, note. intros E. step E l1 u H. injection H as <- <-. injection E as <- <-. by apply (does_one req Look). Qed.

Lemma sample_does req address n samples failed l l' r : dialable req address →
  sample n address samples failed l = (l', r) → does req n 0 l l'.
Proof.
  intros Ha. revert samples failed l. induction n as [|n IH]; intros samples failed l E; cbn [sample] in E.
  { injection E as <- <-. apply does_refl. }
  step E l1 over H1. apply (look_does req) in H1. destruct over as [[]|e]; [injection E as <- <-| |destruct E as [-> _]].
  1,3: eapply does_trans; [exact H1|apply does_refl|lia|lia].
  step E l2 u H2. injection H2 as <- <-. step E l3 x H3. injection H3 as <- <-.
  eapply does_trans; [exact H1| |exact (le_n _)|exact (le_n _)].
  eapply does_trans; [by apply does_connect|destruct (connect _); by eapply IH|lia|lia].
Qed.

Lemma latency_does req t l l' r : dns_ok → latency req t l = (l', r) → does req 5 0 l l'.
Proof.
  intros Hdns E. unfold latency in E. step_attempt E l1 c H1. apply makeClient_does in H1 as [D Hp]; [|done].
  destruct c as [p|e]; [|injection E as <- <-; eapply does_trans; [exact D|apply does_refl|lia|lia]].
  step E l2 x H2. apply (sample_does req) in H2; [|by apply Hp].
  assert (l' = l2) as -> by (destruct x; [by injection E|by destruct E]). by eapply does_trans; [exact D|exact H2|lia|lia].
Qed.

Lemma transfer_does req raw upload l l' r : dns_ok → transfer req raw upload l = (l', r) → does req 0 1 l l'.
Proof.
  intros Hdns E. unfold transfer in E. step_attempt E l1 c H1. apply makeClient_does in H1 as [D Hp]; [|done].
  destruct c as [p|e]; [|injection E as <- <-; eapply does_trans; [exact D|apply does_refl|lia|lia]].
  step E l2 u H2. injection H2 as <- <-. step E l3 x H3. injection H3 as <- <-. injection E as <- <-.
  eapply does_trans; [exact D|apply does_exchange; by apply Hp|lia|lia].
Qed.

(** How many connections and exchanges an item may take *)
Definition connect_budget (item : string) : nat := if bool_decide (item = "latency") then 5 else 0.
Definition exchange_budget (item : string) : nat := if bool_decide (item ∈ ["download"; "upload"]) then 1 else 0.

Fixpoint total (budget : string → nat) (items : list string) : nat :=
  match items with [] => 0 | item :: rest => budget item + total budget rest end.

Lemma test_item_does req t r item l l' x : dns_ok → test_item req t r item l = (l', x) →
  does req (connect_budget item) (exchange_budget item) l l'.
Proof.
  intros Hdns E. unfold test_item in E. unfold connect_budget, exchange_budget. case_bool_decide as H1; [subst|].
  - step E l1 o H. apply latency_does in H; [|done].
    assert (l' = l1) as -> by (destruct o; [by injection E|by destruct E]). by eapply does_trans; [exact H|apply does_refl|lia|lia].
  - case_bool_decide as H2; [subst|].
    + step E l1 o H. apply transfer_does in H; [|done]. assert (l' = l1) as -> by (destruct o; [by injection E|by destruct E]).
      rewrite bool_decide_eq_true_2 by left. exact H.
    + case_bool_decide as H3; [subst|injection E as <- <-; eapply does_trans; [apply does_refl|apply does_refl|lia|lia]].
      rewrite bool_decide_eq_true_2 by (right; left).
      case_bool_decide; [injection E as <- <-; eapply does_trans; [apply does_refl|apply does_refl|lia|lia]|].
      step E l1 o H'. apply transfer_does in H'; [|done]. by assert (l' = l1) as -> by (destruct o; [by injection E|by destruct E]).
Qed.

Lemma test_items_does req t items r l l' x : dns_ok → test_items req t r items l = (l', x) →
  does req (total connect_budget items) (total exchange_budget items) l l'.
Proof.
  intros Hdns. revert r l. induction items as [|item items IH]; intros r l E; cbn [test_items] in E.
  { injection E as <- <-. apply does_refl. }
  cbn [total]. step E l1 over H1. apply (look_does req) in H1.
  destruct over as [[]|e]; [injection E as <- <-| |destruct E as [-> _]];
    try (eapply does_trans; [exact H1|apply does_refl|lia|lia]).
  step E l2 r' H2. apply test_item_does in H2; [|done]. eapply does_trans; [exact H1| |exact (le_n _)|exact (le_n _)].
  destruct r' as [r'|e]; [|destruct E as [-> _]; eapply does_trans; [exact H2|apply does_refl|lia|lia]].
  apply IH in E. eapply does_trans; [exact H2|exact E|cbn; lia|cbn; lia].
Qed.

(** ** What a test reports *)

Definition replies_ok (limit : Z) : Prop := (0 < limit)%Z ∧ ∀ l r, response (reply l) = Some r → (0 ≤ available r)%Z.

(** The metrics of a part, before its status is added *)
Definition tidy (limit : Z) (o : outcome) : Prop := ∀ m, fst o = Some m →
  m !! "status" = None ∧ ∀ n, m !! "bytes" = Some (AInt n) → (0 ≤ n ≤ limit)%Z ∧ (snd o = None → (0 < n)%Z).

Ltac other_key := repeat (rewrite lookup_insert_ne by done); try (by rewrite lookup_singleton_ne).

Lemma conclude_tidy upload limit n err address rep : (0 ≤ n ≤ limit)%Z → tidy limit (conclude upload limit n err address rep).
Proof.
  intros Hn m E. unfold conclude in E |- *. cbv zeta in *.
  set (mm := <["bytes" := AInt n]> _ : object) in *. assert (mm !! "status" = None) as S by (unfold mm; other_key).
  assert (mm !! "bytes" = Some (AInt n)) as B by (unfold mm; apply lookup_insert_eq).
  assert (∀ x, mm !! "bytes" = Some (AInt x) → x = n) as U by (intros x; rewrite B; congruence).
  destruct err as [e|]; [destruct (deadline rep && (0 <? n)%Z) eqn:D|].
  - injection E as <-. split; [by rewrite lookup_insert_ne|]. intros x. rewrite lookup_insert_ne by done. intros ->%U. cbn.
    apply andb_true_iff in D as [_ D%Z.ltb_lt]. lia.
  - injection E as <-. split; [done|]. intros x ->%U. by split.
  - destruct (upload && negb (n =? limit)%Z); [injection E as <-; split; [done|]; intros x ->%U; by split|].
    destruct (Z.eqb_spec n 0); injection E as <-; (split; [done|]; intros x ->%U; cbn; split; [lia|intros ?; (done || lia)]).
Qed.

Lemma transferred_tidy upload limit address l : replies_ok limit → tidy limit (transferred upload limit address (reply l)).
Proof.
  intros [Hl Hr]. unfold transferred. cbv zeta. destruct (response (reply l)) as [r|] eqn:E.
  - apply Hr in E. destruct (_ || _); [by intros m|]. destruct upload; [apply conclude_tidy; lia|].
    destruct (contains _ _); [by intros m|]. unfold copy_limited. destruct (Z.leb_spec limit (available r)); apply conclude_tidy; lia.
  - apply conclude_tidy. destruct upload; lia.
Qed.

Lemma latency_tidy limit address samples failed : tidy limit (latency_metrics address samples failed).
Proof.
  intros m E. unfold latency_metrics in *. cbv zeta in *.
  set (mm := if (_ <? _)%Z then _ else _ : object) in *.
  assert (mm !! "status" = None ∧ mm !! "bytes" = None) as [S B] by (unfold mm; destruct (0 <? _)%Z; split; other_key).
  assert (m !! "status" = None ∧ m !! "bytes" = None) as [S' B']; [|split; [done|intros n; by rewrite B']].
  repeat case_match; injection E as <-; split; other_key; done.
Qed.

Lemma transfer_ok req raw upload l l' x : replies_ok (BytesPerDirection req) → transfer req raw upload l = (l', x) →
  ∃ o, x = Ok o ∧ tidy (BytesPerDirection req) o.
Proof.
  intros Hr E. unfold transfer in E. step_attempt E l1 c H1. destruct c as [p|e]; [|injection E as _ <-; eexists; split; [done|by intros m]].
  step E l2 u H2. injection H2 as _ <-. step E l3 y H3. injection H3 as _ <-. injection E as _ <-.
  eexists. split; [done|]. by apply transferred_tidy.
Qed.

Lemma sample_answers n address samples failed l : ∃ y, snd (sample n address samples failed l) = Ok y.
Proof.
  revert samples failed l. induction n as [|n IH]; intros samples failed l; cbn [sample]; [by eexists|].
  unfold look, note, mbind, proc_bind. cbn. destruct (context_done _); [by eexists|]. destruct (connect _); apply IH.
Qed.

Lemma latency_ok limit req t l l' x : latency req t l = (l', x) → ∃ o, x = Ok o ∧ tidy limit o.
Proof.
  intros E. unfold latency in E. step_attempt E l1 c H1. destruct c as [p|e]; [|injection E as _ <-; eexists; split; [done|by intros m]].
  step E l2 y H2. destruct (sample_answers 5 (p_addr p) [] 0 l1) as [z Hz]. rewrite H2 in Hz. cbn in Hz. subst y. injection E as _ <-.
  eexists. split; [done|]. apply latency_tidy.
Qed.

(** What an item adds to the result *)
Lemma test_item_ok req t r item l l' x : replies_ok (BytesPerDirection req) → test_item req t r item l = (l', x) →
  (∃ o, x = Ok (with_outcome item o r) ∧ tidy (BytesPerDirection req) o) ∨ x = Ok (with_metric item unsupported r).
Proof.
  intros Hr E. unfold test_item in E. destruct (bool_decide (item = "latency")).
  { step E l1 o H1. apply (latency_ok (BytesPerDirection req)) in H1 as (o' & -> & Ho). injection E as _ <-. eauto. }
  destruct (bool_decide (item = "download")); [|destruct (bool_decide (item = "upload")); [destruct (bool_decide (UploadURL t = ""))|]].
  - step E l1 o H1. apply transfer_ok in H1 as (o' & -> & Ho); [|done]. injection E as _ <-. eauto.
  - injection E as _ <-. by right.
  - step E l1 o H1. apply transfer_ok in H1 as (o' & -> & Ho); [|done]. injection E as _ <-. eauto.
  - injection E as _ <-. left. eexists. split; [done|by intros m].
Qed.

Definition failed_part (v : any) : Prop := ∃ m, v = AObj m ∧ m !! "status" = Some (AStr "FAILED").

(** The result is failed exactly when the part of an item that was tested is, and no part
    moved more than its bytes. *)
Definition reports (limit : Z) (tested : list string) (r : Item) : Prop :=
  (item_Status r = "FAILED" ↔ ∃ item v, item ∈ tested ∧ Metrics r !! item = Some v ∧ failed_part v) ∧
  ∀ item m n, item ∈ tested → Metrics r !! item = Some (AObj m) → m !! "bytes" = Some (AInt n) → (0 ≤ n ≤ limit)%Z.

Lemma reports_part limit tested r item v status : reports limit tested r → item ∉ tested →
  (∀ m n, v = AObj m → m !! "bytes" = Some (AInt n) → (0 ≤ n ≤ limit)%Z) →
  (status = "FAILED" ↔ item_Status r = "FAILED" ∨ failed_part v) →
  reports limit (tested ++ [item]) (with_metric item v
    {| Name := Name r; item_Status := status; item_Message := item_Message r; Metrics := Metrics r |}).
Proof.
  intros [Hs Hb] Hi Hv Hst. unfold reports, with_metric. cbn [item_Status Metrics]. split.
  - rewrite Hst, Hs. split.
    + intros [(i & x & Hin & Hx & Hf)|Hf].
      * exists i, x. rewrite elem_of_app, lookup_insert_ne by (by intros ->). auto.
      * exists item, v. rewrite elem_of_app, list_elem_of_singleton, lookup_insert_eq. auto.
    + intros (i & x & Hin & Hx & Hf). destruct (decide (item = i)) as [->|Hne].
      * rewrite lookup_insert_eq in Hx. injection Hx as ->. by right.
      * left. exists i, x. rewrite lookup_insert_ne in Hx by done. rewrite elem_of_app, list_elem_of_singleton in Hin. naive_solver.
  - intros i m n Hin Hm Hn. destruct (decide (item = i)) as [->|Hne].
    + rewrite lookup_insert_eq in Hm. injection Hm as ->. by eapply Hv.
    + rewrite lookup_insert_ne in Hm by done. rewrite elem_of_app, list_elem_of_singleton in Hin.
      eapply Hb; [|exact Hm|exact Hn]. naive_solver.
Qed.

Lemma with_outcome_reports limit tested r item o : reports limit tested r → item ∉ tested → tidy limit o →
  reports limit (tested ++ [item]) (with_outcome item o r).
Proof.
  intros Hr Hi Ho. unfold with_outcome. destruct o as [[m|] [e|]]; cbn [fst snd default from_option].
  - apply reports_part; [done|done| |].
    + intros m' n [= <-]. rewrite !lookup_insert_ne by done. intros Hn. by eapply Ho.
    + split; [|done]. intros _. right. eexists. split; [done|]. by rewrite lookup_insert_eq.
  - destruct r as [name st msg ms]. apply (reports_part limit tested {| Name := name; item_Status := st; item_Message := msg; Metrics := ms |} item (AObj m) st);
      [done|done| |].
    + intros m' n [= <-] Hn. by eapply Ho.
    + split; [by left|]. intros [?|(m' & [= <-] & Hf)]; [done|]. destruct (Ho m eq_refl) as [Hs _]. by rewrite Hs in Hf.
  - apply reports_part; [done|done| |].
    + intros m' n [= <-]. rewrite !lookup_insert_ne by done. by rewrite lookup_empty.
    + split; [|done]. intros _. right. eexists. split; [done|]. by rewrite lookup_insert_eq.
  - destruct r as [name st msg ms]. apply (reports_part limit tested {| Name := name; item_Status := st; item_Message := msg; Metrics := ms |} item ANil st);
      [done|done|done|]. split; [by left|]. by intros [?|(m' & ? & _)].
Qed.

Lemma unsupported_reports limit tested r item : reports limit tested r → item ∉ tested →
  reports limit (tested ++ [item]) (with_metric item unsupported r).
Proof.
  intros Hr Hi. destruct r as [name st msg ms].
  apply (reports_part limit tested {| Name := name; item_Status := st; item_Message := msg; Metrics := ms |} item unsupported st); [done|done| |].
  - intros m n [= <-]. rewrite lookup_insert_ne by done. by rewrite lookup_singleton_ne.
  - split; [by left|]. intros [?|(m & [= <-] & Hf)]; [done|]. by rewrite lookup_insert_eq in Hf.
Qed.

Lemma test_items_reports req t items tested r l l' x :
  replies_ok (BytesPerDirection req) → NoDup (tested ++ items) → reports (BytesPerDirection req) tested r →
  test_items req t r items l = (l', x) → ∃ r' k, x = Ok r' ∧ reports (BytesPerDirection req) (tested ++ take k items) r'.
Proof.
  intros Hr. revert tested r l. induction items as [|item items IH]; intros tested r l Hnd Hrep E; cbn [test_items] in E.
  { injection E as _ <-. exists r, 0. by rewrite app_nil_r. }
  step E l1 over H1. unfold look, note, mbind, proc_bind in H1. injection H1 as _ <-.
  destruct (context_done _); [injection E as _ <-; exists r, 0; by rewrite app_nil_r|].
  assert (item ∉ tested) as Hi by (apply NoDup_app in Hnd as (_ & Hd & _); intros H; apply (Hd item H); left).
  rewrite (app_assoc tested [item] items : tested ++ item :: items = _) in Hnd.
  step E l2 x' H2. apply test_item_ok in H2 as [(o & -> & Ho)| ->]; [| |done].
  - destruct (IH _ _ _ Hnd (with_outcome_reports _ _ _ _ _ Hrep Hi Ho) E) as (r' & k & -> & Hr').
    exists r', (S k). split; [done|]. by rewrite <- app_assoc in Hr'.
  - destruct (IH _ _ _ Hnd (unsupported_reports _ _ _ _ Hrep Hi) E) as (r' & k & -> & Hr').
    exists r', (S k). split; [done|]. by rewrite <- app_assoc in Hr'.
Qed.

Lemma valid_items kind items seen seen' : foldr_result (check_item kind) seen items = Ok seen' →
  NoDup items ∧ (∀ i, i ∈ items → i ∈ allowed kind ∧ i ∉ seen).
Proof.
  revert seen. induction items as [|i items IH]; intros seen E; [split; [constructor|by intros ? ?%elem_of_nil]|].
  cbn [foldr_result] in E. bind_as E s H. unfold check_item in H. bind_as H u Hf. injection H as <-.
  apply fail_if_ok, orb_false_iff in Hf as [Ha%negb_false_iff%bool_decide_eq_true Hn%bool_decide_eq_false].
  apply IH in E as [Hnd Hall]. split.
  - constructor; [|done]. intros Hin. apply Hall in Hin as [_ Hin]. apply Hin. left.
  - intros j [->|Hj]%elem_of_cons; [done|]. apply Hall in Hj as [? Hj]. split; [done|]. intros ?. apply Hj. by right.
Qed.

Lemma budgets items : NoDup items → total connect_budget items ≤ 5 ∧ total exchange_budget items ≤ 2.
Proof.
  intros Hnd.
  assert (∀ l, NoDup l → "latency" ∉ l → total connect_budget l = 0) as C0.
  { induction 1 as [|i l Hi _ IH]; [done|]. intros [H1 H2]%not_elem_of_cons. cbn [total]. rewrite IH by done.
    unfold connect_budget. by rewrite bool_decide_eq_false_2. }
  assert (∀ l, NoDup l → "download" ∉ l → "upload" ∉ l → total exchange_budget l = 0) as X0.
  { induction 1 as [|i l Hi _ IH]; [done|]. intros [H1 H2]%not_elem_of_cons [H3 H4]%not_elem_of_cons. cbn [total]. rewrite IH by done.
    unfold exchange_budget. rewrite bool_decide_eq_false_2; [done|]. rewrite !elem_of_cons, elem_of_nil. naive_solver. }
  assert (∀ l a b, (a = "download" ∧ b = "upload") ∨ (a = "upload" ∧ b = "download") → NoDup l → a ∉ l → total exchange_budget l ≤ 1) as X1.
  { intros l a b Hab. induction 1 as [|i l Hi Hl IH]; [cbn; lia|]. intros [H1 H2]%not_elem_of_cons. cbn [total]. specialize (IH H2).
    unfold exchange_budget at 1. case_bool_decide as Hin; [|lia]. rewrite !elem_of_cons, elem_of_nil in Hin.
    rewrite X0; [lia|done| |]; destruct Hab as [[-> ->]|[-> ->]]; naive_solver. }
  split.
  - induction Hnd as [|i l Hi Hl IH]; [cbn; lia|]. cbn [total]. unfold connect_budget at 1. case_bool_decide; [subst|lia]. rewrite C0 by done. lia.
  - induction Hnd as [|i l Hi Hl IH]; [cbn; lia|]. cbn [total]. unfold exchange_budget at 1. case_bool_decide as Hin; [|lia].
    rewrite !elem_of_cons, elem_of_nil in Hin. destruct_or! Hin; try done; subst.
    + specialize (X1 l "download" "upload" ltac:(by left) Hl Hi). lia.
    + specialize (X1 l "upload" "download" ltac:(by right) Hl Hi). lia.
Qed.

(** C18: a network test always reports.  Whatever DNS, the servers and the context answer, it
    connects only to addresses that are public, of the family asked for, at port 80, 443 or
    8443: at most five connections to measure latency, and one exchange for each direction,
    bounded by the bytes asked for.  Its result is failed exactly when a part of it is, and no
    part moved more than those bytes. *)
Theorem network_test_sound req t l :
  dns_ok → (∀ l r, response (reply l) = Some r → (0 ≤ available r)%Z) → validate req = Ok tt → Kind req = "NETWORK" →
  ∃ l' r k, networkTest req t l = (l', Ok r) ∧ reports (BytesPerDirection req) (take k (Items req)) r ∧ does req 5 2 l l'.
Proof.
  intros Hdns Hav V Hk. unfold validate in V. bind_as V u1 V1. bind_as V u2 V2. bind_as V u3 V3. apply fail_if_ok in V3.
  bind_as V u4 V4. bind_as V u5 V5. bind_as V seen V6. clear V. rewrite Hk in V6. apply valid_items in V6 as [Hnd Hall].
  assert (replies_ok (BytesPerDirection req)) as Hr.
  { split; [|done]. unfold MiB in V3. lia. }
  destruct (networkTest req t l) as [l' x] eqn:E. unfold networkTest in E.
  destruct (test_items_reports req t (Items req) [] (new_result req t) l l' x Hr Hnd) as (r & k & -> & Hrep); [|exact E|].
  - split; [|by intros ? ? ? ?%elem_of_nil]. split; [done|]. by intros (? & ? & ?%elem_of_nil & _).
  - exists l', r, k. split; [done|]. split; [exact Hrep|]. apply test_items_does in E; [|done].
    destruct (budgets _ Hnd). eapply does_trans; [exact E|apply does_refl|lia|lia].
Qed.
End test.

Module TestDemo.
#[local] Instance urls : UrlParse := λ raw,
  if bool_decide (raw = "https://speed.example/file") then
    Some {| Scheme := "https"; Hostname := "speed.example"; Port := ""; has_User := false; Fragment := "" |}
  else None.
#[local] Instance net : NetEnv :=
  {| interface_by_name := λ _, Ok tt; addresses_of := λ _, Ok []; all_addresses := Ok [];
     lookup_target := λ _, Ok [of_v4 (v4 93 184 216 34)] |}.
Definition answer : Reply :=
  {| response := Some {| code := 200; content_type := "application/octet-stream"; available := 3000000; body_error := None |};
     do_error := None; sent := 0; elapsed := 2000000000; deadline := false |}.
#[local] Instance env : TestEnv :=
  {| net_at := λ _, net; context_done := λ _, false;
     connect := λ l, if bool_decide (length l < 6) then Err (ErrMsg "timeout") else Ok 1500%Z; reply := λ _, answer |}.

Definition target : Target :=
  {| t_ID := "t1"; City := "Paris"; Provider := "example"; DownloadURL := "https://speed.example/file"; UploadURL := ""; PolicyURL := "" |}.
Definition request : Request :=
  {| req_ID := "01234567-89ab-cdef-0123-456789abcdef"; Kind := "NETWORK"; Items := ["latency"; "download"; "upload"];
     Targets := [target]; Family := "IPv4"; SourceIP := ""; Interface := ""; Seconds := 5; BytesPerDirection := 2097152; Threads := 1 |}.
Definition result : Item := match snd (networkTest request target []) with Ok r => r | Err _ => new_result request target end.
Definition part (item : string) : object := match Metrics result !! item with Some (AObj m) => m | _ => ∅ end.

(** One connection fails and four succeed; the download stops at its limit after two seconds;
    nothing is uploaded. *)
Lemma network_test_sound_witness :
  part "latency" !! "failures" = Some (AInt 1) ∧ part "latency" !! "p50Ms" = Some (AFloat {| mant := 3; exp := -1 |}) ∧
  part "download" !! "bytes" = Some (AInt 2097152) ∧ part "upload" !! "status" = Some (AStr "UNSUPPORTED") ∧
  item_Status result = "COMPLETED" ∧
  ∃ l' r k, networkTest request target [] = (l', Ok r) ∧ reports 2097152 (take k ["latency"; "download"; "upload"]) r ∧ does request 5 2 [] l'.
Proof.
  split_and!; [vm_compute; reflexivity..|].
  apply (network_test_sound request target []).
  - intros l host ips a [= <-] ->%list_elem_of_singleton. vm_compute. by split.
  - intros l r [= <-]. vm_compute. discriminate.
  - vm_compute. reflexivity.
  - reflexivity.
Defined.
End TestDemo.
End BenchmarkTest.
