(* ===== verification/BenchmarkHardware.v ===== *)
(** * Hardware benchmarks ([internal/benchmark/hardware.go])

    The tests of processor, memory and disk run sysbench and fio and read their output.
    Commands, files and the context answer through [HardwareEnv], where an answer may depend
    on everything done before (newest first).  Decoding of JSON and of floating-point texts are
    parameters.

    [hardware_sound]: which commands run under pressure (none), what they write and where,
    read off their arguments, and that nothing is left on the disk. *)
From S2P Require Import Prelude GoStr GoAny GoFloat Benchmark.
Import Benchmark.

Module BenchmarkHardware.

(** The longest output that is kept of a command *)
Definition output_limit : Z := 262144.

Inductive action :=
| ReadFile (path : string)
| Run (name : string) (args : list string)        (* under [nice] *)
| Statfs (path : string)
| MkdirTemp (dir : string)
| Truncate (path : string) (size : Z)             (* a new sparse file *)
| RemoveAll (path : string)
| Look.
Abbreviation log := (list action).

(** What a command printed, in chunks, and how it ended *)
Record Process := { chunks : list string; ended : option error }.

(** A job in the output of fio: its error, and its reading and writing sections *)
Record FioJob := { job_error : Z; job_read : object; job_write : object }.

Class HardwareEnv := {
  read_file : log → option string;
  process : log → Process;
  available_bytes : log → option Z;                (* [Bavail * Bsize], in a uint64 *)
  temporary : log → result string;
  truncated : log → option error;
  context_done : log → bool;
  arch : string; cpus : Z;
  parse_float : string → float64 * option error;
  parse_uint : string → option Z;
  fio_output : string → option (list FioJob)
}.

(** [limitedOutput.Write], for each chunk: a write that would exceed the limit fails. *)
Fixpoint collect (out : string) (chunks : list string) : result string :=
  match chunks with
  | [] => Ok out
  | c :: rest =>
      if (output_limit <? slen out + slen c)%Z then Err (ErrMsg "tool output exceeds limit") else collect (out +:+ c) rest
  end.

Section hardware.
Context {EnvI : HardwareEnv}.

Definition note (a : action) : proc log unit := modify (cons a).
Definition ask {A} (a : action) (answer : log → A) : proc log A := _ ← note a; gets answer.
Definition readFile (path : string) : proc log (option string) := ask (ReadFile path) read_file.
Definition look : proc log bool := ask Look context_done.

Definition command (name : string) (args : list string) : proc log string :=
  p ← ask (Run name args) process;
  match ended p, collect "" (chunks p) with
  | None, Ok out => mret out
  | Some e, _ => throw (ErrWrap (name +:+ " failed") e)
  | None, Err e => throw (ErrWrap (name +:+ " failed") e)
  end.

(** ** Pressure *)

(** The first field [avg10=] of a line *)
Fixpoint avg10 (fields : list string) : option string :=
  match fields with
  | [] => None
  | f :: rest => match strip_prefix "avg10=" f with Some v => Some v | None => avg10 rest end
  end.

Fixpoint pressure_lines (limit : float64) (lines : list string) : bool :=
  match lines with
  | [] => false
  | line :: rest =>
      if negb (has_prefix line "some ") then pressure_lines limit rest
      else match avg10 (fields line) with
           | Some v => let '(value, err) := parse_float v in
                       match err with None => flt limit value | Some _ => false end
           | None => pressure_lines limit rest
           end
  end.
Definition pressureExceeded (data : string) (limit : float64) : bool := pressure_lines limit (split_byte (chr 10) data).

Definition resource (item : string) : string :=
  if bool_decide (item = "cpu") then "cpu" else if bool_decide (item = "memory") then "memory"
  else if bool_decide (item = "disk") then "io" else "".

Definition resourcePressure (item : string) (threads : Z) : proc log string :=
  data ← readFile ("/sys/fs/cgroup/" +:+ resource item +:+ ".pressure");
  if match data with
     | Some data => pressureExceeded data (float_of_int (if bool_decide (item = "memory") then 5 else 25)%Z)
     | None => false
     end
  then mret "Container resource pressure is high; retry when the node is less busy"
  else if bool_decide (item = "memory") then
    limitBytes ← readFile "/sys/fs/cgroup/memory.max";
    currentBytes ← readFile "/sys/fs/cgroup/memory.current";
    let reserve := Int.uwrap64 (Int.uwrap64 (16 + threads) * 2 ^ 20) in
    mret (match limitBytes ≫= (parse_uint ∘ trim_space), currentBytes ≫= (parse_uint ∘ trim_space) with
          | Some limit, Some current =>
              if (limit <=? current)%Z || (limit - current <? reserve)%Z
              then "Container has insufficient memory headroom for the bounded test" else ""
          | _, _ => ""
          end)
  else mret "".

(** The order in which a map of the code is ranged over is open; the files are read in the
    order of the source. *)
Definition environment_files : list (string * string) :=
  [("loadAverage", "/proc/loadavg"); ("memoryInfo", "/proc/meminfo"); ("cpuQuotaV2", "/sys/fs/cgroup/cpu.max");
   ("memoryLimitV2", "/sys/fs/cgroup/memory.max"); ("memoryCurrentV2", "/sys/fs/cgroup/memory.current");
   ("cpuPressureV2", "/sys/fs/cgroup/cpu.pressure"); ("memoryPressureV2", "/sys/fs/cgroup/memory.pressure");
   ("ioPressureV2", "/sys/fs/cgroup/io.pressure"); ("cpuQuotaV1", "/sys/fs/cgroup/cpu/cpu.cfs_quota_us");
   ("cpuPeriodV1", "/sys/fs/cgroup/cpu/cpu.cfs_period_us"); ("memoryLimitV1", "/sys/fs/cgroup/memory/memory.limit_in_bytes")].
Definition environment : proc log object :=
  proc_fold (λ info p,
    data ← readFile (snd p);
    mret (match data with
          | Some data => if (slen data <? 16384)%Z then <[fst p := AStr (trim_space data)]> info else info
          | None => info
          end)) ∅ environment_files.

(** ** The output of sysbench *)

Definition is_figure (c : ascii) : bool := is_digit c || Ascii.eqb c ".".
Definition is_blank (c : ascii) : bool := bool_decide (byte_of c ∈ [32; 9; 10; 12; 13]%Z).
Fixpoint span (p : ascii → bool) (s : string) : string * string :=
  match s with
  | EmptyString => ("", "")
  | String c rest => if p c then let '(a, b) := span p rest in (String c a, b) else ("", s)
  end.

(** [events per second:\s*([0-9.]+)] at the start of a text *)
Definition cpu_here (s : string) : option string :=
  rest ← strip_prefix "events per second:" s;
  let '(figure, _) := span is_figure (snd (span is_blank rest)) in
  if bool_decide (figure = "") then None else Some figure.
(** [\(([0-9.]+) MiB/sec\)] at the start of a text *)
Definition memory_here (s : string) : option string :=
  rest ← strip_prefix "(" s;
  let '(figure, rest) := span is_figure rest in
  if bool_decide (figure = "") then None else if has_prefix rest " MiB/sec)" then Some figure else None.
(** [FindSubmatch]: the leftmost match *)
Fixpoint find_match (here : string → option string) (s : string) : option string :=
  match here s with
  | Some figure => Some figure
  | None => match s with EmptyString => None | String _ rest => find_match here rest end
  end.

(** ** The tests *)

Definition with_status (status message : string) (r : Item) : Item :=
  {| Name := Name r; item_Status := status; item_Message := message; Metrics := Metrics r |}.
Definition with_metric (key : string) (v : any) (r : Item) : Item :=
  {| Name := Name r; item_Status := item_Status r; item_Message := item_Message r; Metrics := <[key := v]> (Metrics r) |}.

Definition sysbench_args (item : string) (req : Request) : list string :=
  [item; "--time=" +:+ itoa (Seconds req); "--threads=" +:+ itoa (Threads req)] ++
  (if bool_decide (item = "cpu") then ["--cpu-max-prime=20000"]
   else ["--memory-block-size=1M"; "--memory-total-size=4G"; "--memory-oper=write"; "--memory-scope=local"]) ++ ["run"].

Definition sysbench (item : string) (req : Request) (r : Item) : proc log Item :=
  let memory := bool_decide (item = "memory") in
  let r := if memory then with_metric "bufferBytesPerThread" (AInt 1048576) r else r in
  data ← attempt (command "sysbench" (sysbench_args item req));
  match data with
  | Err e => mret (with_status "FAILED" (error_text e) r)
  | Ok data =>
      match find_match (if memory then memory_here else cpu_here) data with
      | None => mret (with_status "FAILED" "Unexpected sysbench output" r)
      | Some figure =>
          let r := with_metric (if memory then "mibPerSecond" else "eventsPerSecond") (AFloat (fst (parse_float figure))) r in
          mret (with_metric "algorithm" (AStr (if memory then "sysbench sequential 1 MiB writes; maximum 4 GiB total"
                                               else "sysbench prime search, max prime 20000")) r)
      end
  end.

Definition block (rw : string) : string := if has_prefix rw "rand" then "4k" else "1m".
Definition fio_args (rw filename : string) (req : Request) : list string :=
  ["--name=" +:+ rw; "--filename=" +:+ filename; "--rw=" +:+ rw; "--bs=" +:+ block rw; "--size=64m"; "--io_size=64m";
   "--direct=1"; "--ioengine=psync"; "--iodepth=1"; "--numjobs=1"; "--allow_file_create=0"; "--fallocate=none";
   "--runtime=" +:+ itoa (Seconds req); "--output-format=json"; "--group_reporting=1"; "--unlink=0"].

Definition lookup_any (m : object) (key : string) : any := default ANil (m !! key).
Definition disk_metrics (rw : string) (m : object) : any :=
  AObj (<["bytesPerSecond" := lookup_any m "bw_bytes"]> (<["iops" := lookup_any m "iops"]>
    (<["latencyNs" := lookup_any m "lat_ns"]> (<["bytes" := lookup_any m "io_bytes"]>
    (<["runtimeMs" := lookup_any m "runtime"]> (<["blockSize" := AStr (block rw)]>
    (<["directIO" := ABool true]> {["queueDepth" := AInt 1]}))))))).

(** [io_bytes] is a number, and not below 64 MiB. *)
Definition complete_write (m : object) : bool :=
  match lookup_any m "io_bytes" with AFloat n => negb (flt n (float_of_int 67108864)) | _ => false end.

(** One turn of the loop: the result, and whether the loop goes on *)
Definition fio (req : Request) (filename rw : string) (r : Item) : proc log (Item * bool) :=
  over ← look;
  if over : bool then mret (with_status "FAILED" "Disk test cancelled" r, false) else
  data ← attempt (command "fio" (fio_args rw filename req));
  match data with
  | Err e => mret (with_status "FAILED" (error_text e) r, false)
  | Ok data =>
      match fio_output data with
      | Some [job] =>
          if negb (job_error job =? 0)%Z then mret (with_status "FAILED" "fio failed; direct I/O may be unsupported" r, false) else
          let metrics := if contains rw "write" then job_write job else job_read job in
          let r := with_metric rw (disk_metrics rw metrics) r in
          if bool_decide (rw = "write") && negb (complete_write metrics) then
            mret (with_status "FAILED" "Initial write timed out; remaining tests skipped to avoid measuring sparse-file reads. Increase phase duration." r, false)
          else mret (r, true)
      | _ => mret (with_status "FAILED" "fio failed; direct I/O may be unsupported" r, false)
      end
  end.

Fixpoint fio_all (req : Request) (filename : string) (r : Item) (modes : list string) : proc log Item :=
  match modes with
  | [] => mret r
  | rw :: rest =>
      x ← fio req filename rw r;
      if snd x : bool then fio_all req filename (fst x) rest else mret (fst x)
  end.

Definition modes : list string := ["write"; "read"; "randwrite"; "randread"].

(** The body of the test in its directory *)
Definition disk_in (req : Request) (base dir : string) (r : Item) : proc log Item :=
  let filename := dir +:+ "/test.bin" in
  err ← ask (Truncate filename 67108864) truncated;
  match err with
  | Some _ => mret (with_status "FAILED" "Could not create isolated test file" r)
  | None =>
      version ← attempt (command "fio" ["--version"]);
      let r := with_metric "toolVersion" (AStr (match version with Ok v => trim_space v | Err _ => "" end)) r in
      let r := with_metric "directory" (AStr base) r in
      let r := with_metric "fileBytes" (AInt 67108864) r in
      let r := with_metric "writeBudgetBytes" (AInt 134217728) r in
      fio_all req filename r modes
  end.

Definition disk (req : Request) (base : string) (r : Item) : proc log Item :=
  free ← ask (Statfs base) available_bytes;
  if match free with Some n => (n <? 2 ^ 30)%Z | None => true end
  then mret (with_status "SKIPPED" "Disk test requires at least 1 GiB available" r)
  else
    dir ← ask (MkdirTemp base) temporary;
    match dir with
    | Err e => mret (with_status "FAILED" (error_text e) r)
    | Ok dir =>
        r ← disk_in req base dir r;
        _ ← note (RemoveAll dir);
        mret r
    end.

Definition new_result (req : Request) (item : string) (env : object) : Item :=
  {| Name := item; item_Status := "COMPLETED"; item_Message := "";
     Metrics := <["architecture" := AStr arch]> (<["threads" := AInt (Threads req)]>
       (<["durationLimitSeconds" := AInt (Seconds req)]> (<["logicalCPUs" := AInt cpus]> {["environment" := AObj env]}))) |}.

Definition hardware (req : Request) (base item : string) : proc log Item :=
  env ← environment;
  let r := new_result req item env in
  reason ← resourcePressure item (Threads req);
  if negb (bool_decide (reason = "")) then mret (with_status "SKIPPED" reason r) else
  version ← attempt (command "sysbench" ["--version"]);
  let r := with_metric "toolVersion" (AStr (match version with Ok v => trim_space v | Err _ => "" end)) r in
  if bool_decide (item ∈ ["cpu"; "memory"]) then sysbench item req r
  else if bool_decide (item = "disk") then disk req base r
  else mret r.

(** ** What a test does *)

(** A step that always answers: what it adds to the log, and what it answers *)
Definition adds {A} (m : proc log A) (P : log → log → A → Prop) : Prop :=
  ∀ l, ∃ new x, m l = (new ++ l, Ok x) ∧ P l new x.

Lemma adds_ret {A} (a : A) : adds (mret a) (λ _ new x, new = [] ∧ x = a).
Proof. intros l. by exists [], a. Qed.
Lemma adds_bind {A B} (m : proc log A) (f : A → proc log B) P Q :
  adds m P → (∀ a, adds (f a) (Q a)) →
  adds (m ≫= f) (λ l new y, ∃ new1 a new2, new = new2 ++ new1 ∧ P l new1 a ∧ Q a (new1 ++ l) new2 y).
Proof.
  intros Hm Hf l. destruct (Hm l) as (new1 & a & E1 & HP). destruct (Hf a (new1 ++ l)) as (new2 & y & E2 & HQ).
  exists (new2 ++ new1), y. rewrite (proc_bind_run _ _ _ _ _ E1), E2, app_assoc. split; [done|]. by exists new1, a, new2.
Qed.
Lemma adds_weaken {A} (m : proc log A) P Q : adds m P → (∀ l new x, P l new x → Q l new x) → adds m Q.
Proof. intros H HPQ l. destruct (H l) as (new & x & E & HP). exists new, x. auto. Qed.

Lemma adds_done {A} (a : A) : adds (mret a) (λ _ new _, new = []).
Proof. intros l. by exists [], a. Qed.
Lemma adds_ask {A} a (f : log → A) : adds (ask a f) (λ l new x, new = [a] ∧ x = f (a :: l)).
Proof. intros l. by exists [a], (f (a :: l)). Qed.
Lemma adds_command name args : adds (attempt (command name args)) (λ _ new _, new = [Run name args]).
Proof.
  intros l. destruct (command name args l) as [l' x] eqn:E. exists [Run name args], x. unfold attempt. rewrite E.
  split; [|done]. unfold command in E. step E l1 p H1. injection H1 as <- <-.
  destruct (ended _); [|destruct (collect _ _)]; by injection E as <- _.
Qed.

Definition is_read (a : action) : Prop := match a with ReadFile _ => True | _ => False end.

Lemma environment_reads : adds environment (λ _ new _, Forall is_read new).
Proof.
  unfold environment. generalize (∅ : object) as info. induction environment_files as [|[k path] files IH]; intros info; cbn [proc_fold].
  { eapply adds_weaken; [apply adds_ret|]. by intros l new x [-> _]. }
  eapply adds_weaken; [apply adds_bind; [apply adds_bind; [apply adds_ask|intros; apply adds_ret]|intros; apply IH]|].
  intros l new x (n1 & a & n2 & -> & (n3 & d & n4 & -> & [-> _] & [-> _]) & H). apply Forall_app. split; [done|by repeat constructor].
Qed.

(** *** Pressure *)

(** The answers of the files that show no pressure: no line [some] over the limit in the
    file of the resource, and for the memory what the test takes left under the limit. *)
Definition pressure_path (item : string) : string :=
  if decide (item = "cpu") then "/sys/fs/cgroup/cpu.pressure" else if decide (item = "memory") then "/sys/fs/cgroup/memory.pressure"
  else if decide (item = "disk") then "/sys/fs/cgroup/io.pressure" else "/sys/fs/cgroup/.pressure".
Definition figure_of (data : option string) : option Z := data ≫= (parse_uint ∘ trim_space).
Definition calm (item : string) (threads : Z) (l : log) : Prop :=
  let l1 := ReadFile (pressure_path item) :: l in
  let l2 := ReadFile "/sys/fs/cgroup/memory.max" :: l1 in
  let l3 := ReadFile "/sys/fs/cgroup/memory.current" :: l2 in
  (∀ data, read_file l1 = Some data → pressureExceeded data (float_of_int (if decide (item = "memory") then 5 else 25)%Z) = false) ∧
  (item = "memory" → ∀ limit current, figure_of (read_file l2) = Some limit → figure_of (read_file l3) = Some current →
     (current < limit)%Z ∧ (Int.uwrap64 (Int.uwrap64 (16 + threads) * 1048576) ≤ limit - current)%Z).

Lemma pressure_path_spec item : "/sys/fs/cgroup/" +:+ resource item +:+ ".pressure" = pressure_path item.
Proof. unfold resource, pressure_path. by repeat case_decide || case_bool_decide; subst. Qed.

Lemma pressure_reads item threads :
  adds (resourcePressure item threads) (λ l new reason, Forall is_read new ∧ (reason = "" ↔ calm item threads l)).
Proof.
  intros l. unfold resourcePressure, readFile, ask, note, gets. rewrite pressure_path_spec.
  unfold calm. set (l1 := ReadFile (pressure_path item) :: l).
  rewrite (proc_bind_run _ _ l l1 (Ok (read_file l1))) by done.
  assert ((if bool_decide (item = "memory") then 5 else 25) = (if decide (item = "memory") then 5 else 25))%Z as ->
    by (by case_bool_decide; case_decide).
  set (lim := float_of_int _).
  destruct (match read_file l1 with Some data => pressureExceeded data lim | None => false end) eqn:Hp.
  { eexists [_], _. split; [reflexivity|]. split; [by repeat constructor|]. split; [done|]. intros [H _].
    destruct (read_file l1) as [data|]; [|done]. by rewrite (H data eq_refl) in Hp. }
  assert (∀ data, read_file l1 = Some data → pressureExceeded data lim = false) as Hq by (intros data E; by rewrite E in Hp).
  case_bool_decide as Hm.
  - set (l2 := ReadFile "/sys/fs/cgroup/memory.max" :: l1). rewrite (proc_bind_run _ _ l1 l2 (Ok (read_file l2))) by done.
    set (l3 := ReadFile "/sys/fs/cgroup/memory.current" :: l2). rewrite (proc_bind_run _ _ l2 l3 (Ok (read_file l3))) by done.
    cbv zeta. fold (figure_of (read_file l2)). fold (figure_of (read_file l3)).
    eexists [_; _; _], _. split; [reflexivity|]. split; [by repeat constructor|].
    destruct (figure_of (read_file l2)) as [limit|], (figure_of (read_file l3)) as [current|];
      [|split; [by split|done]..]. change (2 ^ 20)%Z with 1048576%Z.
    destruct (Z.leb_spec limit current); cbn [orb];
      [split; [done|]; intros [_ H1]; destruct (H1 Hm limit current eq_refl eq_refl); lia|].
    destruct (Z.ltb_spec (limit - current) (Int.uwrap64 (Int.uwrap64 (16 + threads) * 1048576))).
    + split; [done|]. intros [_ H1]; destruct (H1 Hm limit current eq_refl eq_refl); lia.
    + split; [|done]. intros _. split; [done|]. intros _ ? ? [= <-] [= <-]. lia.
  - eexists [_], _. split; [reflexivity|]. split; [by repeat constructor|]. by split.
Qed.

Lemma sysbench_runs item req r :
  adds (sysbench item req r) (λ _ new _, new = [Run "sysbench" (sysbench_args item req)]).
Proof.
  unfold sysbench. cbv zeta. eapply adds_weaken; [eapply (adds_bind _ _ _ (λ _ _ new _, new = [])); [apply adds_command|intros data]|].
  - destruct data as [data|e]; [destruct (find_match _ data)|]; apply adds_done.
  - by intros l new x (n1 & a & n2 & -> & -> & ->).
Qed.

(** *** The disk *)

(** The values of an option of a command, [--option=value] *)
Definition values (option : string) (args : list string) : list string :=
  omap (strip_prefix ("--" +:+ option +:+ "=")) args.

(** The sizes of fio: a number, with [k], [m] or [g] for the powers of 1024 *)
Definition size_of (s : string) : option Z :=
  match strip_suffix "k" s, strip_suffix "m" s, strip_suffix "g" s with
  | Some n, _, _ => (λ n, n * 2 ^ 10)%Z <$> atoi n
  | _, Some n, _ => (λ n, n * 2 ^ 20)%Z <$> atoi n
  | _, _, Some n => (λ n, n * 2 ^ 30)%Z <$> atoi n
  | _, _, _ => atoi s
  end.

(** What a step may write: a run of fio that does not only read, as much as its one
    [io_size] says; [None] is no limit. *)
Definition written_by (a : action) : option Z :=
  match a with
  | Run name args =>
      if decide (name = "fio") then
        if decide (args = ["--version"]) then Some 0%Z
        else if decide (values "rw" args ∈ [["read"]; ["randread"]]) then Some 0%Z
        else match values "io_size" args, values "numjobs" args with
             | [size], ["1"] => size_of size
             | _, _ => None
             end
      else None
  | _ => Some 0%Z
  end.
Fixpoint written (l : log) : option Z :=
  match l with
  | [] => Some 0%Z
  | a :: rest => n ← written_by a; m ← written rest; Some (n + m)%Z
  end.

(** What may happen between the creation of the directory and its removal: the one file is
    made, without content, and fio works on that file alone, for the time of the request,
    and may neither create another nor allocate more. *)
Definition inside (req : Request) (filename : string) (a : action) : Prop :=
  match a with
  | Truncate path size => path = filename ∧ size = 67108864%Z
  | Run name args =>
      name = "fio" ∧ (args = ["--version"] ∨
        values "filename" args = [filename] ∧ values "size" args = ["64m"] ∧ values "runtime" args = [pretty (Seconds req)] ∧
        values "allow_file_create" args = ["0"] ∧ values "fallocate" args = ["none"] ∧ values "direct" args = ["1"])
  | Look => True
  | _ => False
  end.

(** The passes of fio, by what they ask for, in the order in which they ran *)
Definition pass (a : action) : option string :=
  match a with Run "fio" args => head (values "rw" args) | _ => None end.
Definition passes (l : log) : list string := omap pass (reverse l).

(** The steps that the code takes there *)
Definition takes (req : Request) (filename : string) (a : action) : Prop :=
  match a with
  | Truncate path size => path = filename ∧ size = 67108864%Z
  | Run name args => name = "fio" ∧ (args = ["--version"] ∨ ∃ rw, rw ∈ modes ∧ args = fio_args rw filename req)
  | Look => True
  | _ => False
  end.

Lemma modes_cases rw : rw ∈ modes → rw = "write" ∨ rw = "read" ∨ rw = "randwrite" ∨ rw = "randread".
Proof. unfold modes. rewrite !elem_of_cons, elem_of_nil. tauto. Qed.

Lemma takes_inside req filename a : takes req filename a → inside req filename a.
Proof.
  destruct a as [| name args| | | | |]; try done. intros [-> [->|(rw & Hrw & ->)]]; (split; [done|]); [by left|right].
  by destruct (modes_cases rw Hrw) as [->|[->|[->| ->]]].
Qed.

Lemma pass_run req filename rw : rw ∈ modes → pass (Run "fio" (fio_args rw filename req)) = Some rw.
Proof. intros Hrw. by destruct (modes_cases rw Hrw) as [->|[->|[->| ->]]]. Qed.
Lemma passes_app l1 l2 : passes (l2 ++ l1) = passes l1 ++ passes l2.
Proof. unfold passes. by rewrite reverse_app, omap_app. Qed.
Lemma passes_one a : passes [a] = match pass a with Some rw => [rw] | None => [] end.
Proof. done. Qed.

Definition mode_bytes (rw : string) : Z := if contains rw "write" then 67108864 else 0.
Lemma takes_written req filename a : takes req filename a →
  written_by a = Some (match pass a with Some rw => mode_bytes rw | None => 0%Z end).
Proof.
  destruct a as [| name args| | | | |]; try done. intros [-> [->|(rw & Hrw & ->)]]; [done|]. rewrite pass_run by done.
  by destruct (modes_cases rw Hrw) as [->|[->|[->| ->]]].
Qed.

Definition pass_bytes (l : list string) : Z := foldr (λ rw n, mode_bytes rw + n)%Z 0%Z l.
Lemma pass_bytes_app l1 l2 : pass_bytes (l1 ++ l2) = (pass_bytes l1 + pass_bytes l2)%Z.
Proof. induction l1 as [|rw l1 IH]; [done|]. cbn [pass_bytes foldr app]. fold (pass_bytes (l1 ++ l2)) (pass_bytes l1). lia. Qed.
Lemma all_written req filename l : Forall (takes req filename) l → written l = Some (pass_bytes (passes l)).
Proof.
  induction 1 as [|a l Ha _ IH]; [done|]. cbn [written]. rewrite (takes_written _ _ _ Ha), IH.
  change (a :: l) with ([a] ++ l). rewrite passes_app, pass_bytes_app, passes_one. cbn [mbind option_bind].
  destruct (pass a); cbn [pass_bytes foldr]; f_equal; lia.
Qed.
Lemma pass_bytes_modes k : (pass_bytes (take k modes) ≤ 134217728)%Z.
Proof. do 4 (destruct k as [|k]; [vm_compute; discriminate|]). destruct k; vm_compute; discriminate. Qed.

Lemma fio_adds req filename rw r : rw ∈ modes → adds (fio req filename rw r) (λ _ new x,
  Forall (takes req filename) new ∧
  ((snd x = true ∧ passes new = [rw] ∧ item_Status (fst x) = item_Status r) ∨
   (snd x = false ∧ (∃ k, passes new = take k [rw]) ∧ item_Status (fst x) = "FAILED"))).
Proof.
  intros Hrw.
  assert (takes req filename (Run "fio" (fio_args rw filename req))) as Hin by (split; [done|right; eauto]).
  assert (passes ([Run "fio" (fio_args rw filename req)] ++ [Look]) = [rw]) as Hp.
  { rewrite passes_app, !passes_one, pass_run by done. done. }
  eapply adds_weaken.
  { eapply (adds_bind look _ (λ l new x, new = [Look] ∧ x = context_done (Look :: l)) (λ over _ new x,
      if over : bool then new = [] ∧ x = (with_status "FAILED" "Disk test cancelled" r, false)
      else new = [Run "fio" (fio_args rw filename req)] ∧
           ((snd x = true ∧ item_Status (fst x) = item_Status r) ∨ (snd x = false ∧ item_Status (fst x) = "FAILED")))).
    - apply adds_ask.
    - intros [|]; [apply adds_ret|]. eapply adds_weaken; [eapply (adds_bind _ _ _ (λ _ _ new x, new = [] ∧
        ((snd x = true ∧ item_Status (fst x) = item_Status r) ∨ (snd x = false ∧ item_Status (fst x) = "FAILED")))); [apply adds_command|]|].
      + intros [data|e]; [|eapply adds_weaken; [apply adds_ret|]; intros l new x [-> ->]; auto].
        destruct (fio_output data) as [[|job [|j2 jobs]]|]; try (eapply adds_weaken; [apply adds_ret|]; intros l new x [-> ->]; auto).
        cbv zeta. destruct (negb (job_error job =? 0)%Z); [eapply adds_weaken; [apply adds_ret|]; intros l new x [-> ->]; auto|].
        destruct (bool_decide (rw = "write") && _); (eapply adds_weaken; [apply adds_ret|]; intros l new x [-> ->]; auto).
      + intros l new x (n1 & a & n2 & -> & -> & -> & H). by split. }
  intros l new x (n1 & over & n2 & -> & [-> _] & H). destruct over.
  - destruct H as [-> ->]. cbn [app]. split; [by apply Forall_singleton|]. right. split; [done|]. split; [by exists 0|done].
  - destruct H as [-> H]. split; [by rewrite Forall_app, !Forall_singleton|]. rewrite Hp.
    destruct H as [[H1 H2]|[H1 H2]]; [left|right]; split_and!; try done. by exists 1.
Qed.

Lemma fio_all_adds req filename r ms : (∀ rw, rw ∈ ms → rw ∈ modes) → adds (fio_all req filename r ms) (λ _ new x,
  Forall (takes req filename) new ∧ ∃ k, passes new = take k ms ∧
  (item_Status x = "FAILED" ∨ item_Status x = item_Status r ∧ k = length ms)).
Proof.
  revert r. induction ms as [|rw ms IH]; intros r Hms l; cbn [fio_all].
  { exists [], r. split; [done|]. split; [done|]. exists 0. auto. }
  destruct (fio_adds req filename rw r (Hms rw ltac:(left)) l) as (n1 & x & E1 & F1 & H1).
  rewrite (proc_bind_run _ _ _ _ _ E1). destruct H1 as [(Hx & Hp & Hs)|(Hx & [k Hp] & Hs)]; rewrite Hx.
  - destruct (IH (fst x) ltac:(intros; apply Hms; by right) (n1 ++ l)) as (n2 & y & -> & F2 & k & Hk & Hy).
    exists (n2 ++ n1), y. rewrite app_assoc, passes_app, Hp, Hk. split; [done|]. split; [by apply Forall_app|].
    exists (S k). split; [done|]. rewrite <- Hs. destruct Hy as [?|[? ->]]; auto.
  - exists n1, (fst x). split; [done|]. split; [done|]. exists (Nat.min k 1). split; [by destruct k as [|[|k]]|by left].
Qed.

Lemma disk_in_adds req base dir r : item_Status r = "COMPLETED" → adds (disk_in req base dir r) (λ _ new x,
  Forall (takes req (dir +:+ "/test.bin")) new ∧ ∃ k, passes new = take k modes ∧
  (item_Status x = "FAILED" ∨ item_Status x = "COMPLETED" ∧ k = 4)).
Proof.
  intros Hr. unfold disk_in. cbv zeta. set (file := dir +:+ "/test.bin").
  eapply adds_weaken.
  { eapply (adds_bind _ _ _ (λ err _ new x, match err : option error with
        | Some _ => new = [] ∧ item_Status x = "FAILED"
        | None => ∃ new2, new = new2 ++ [Run "fio" ["--version"]] ∧ Forall (takes req file) new2 ∧ ∃ k, passes new2 = take k modes ∧
            (item_Status x = "FAILED" ∨ item_Status x = "COMPLETED" ∧ k = 4)
        end)); [apply adds_ask|].
    intros [e|]; [eapply adds_weaken; [apply adds_ret|]; by intros l new x [-> ->]|].
    eapply adds_weaken; [eapply adds_bind; [apply adds_command|intros v; by apply fio_all_adds]|].
    intros l new x (n1 & v & n2 & -> & -> & F & k & Hk & Hs). exists n2. split; [done|]. split; [done|]. exists k. split; [done|].
    cbn [item_Status] in Hs. by rewrite <- Hr. }
  intros l new x (n1 & err & n2 & -> & [-> _] & H). destruct err as [e|].
  - destruct H as [-> H]. cbn [app]. split; [by apply Forall_singleton|]. exists 0. auto.
  - destruct H as (n3 & -> & F & k & Hk & Hs). split.
    + rewrite !Forall_app, !Forall_singleton. split_and!; [done|split; [done|by left]|done].
    + exists k. rewrite !passes_app, !passes_one. by split.
Qed.

(** What the test of the disk at [base] may do after [l], and with what status it ends *)
Inductive disk_trace (req : Request) (base : string) (l : log) : log → string → Prop :=
| disk_small :
    (∀ n, available_bytes (Statfs base :: l) = Some n → (n < 1073741824)%Z) →
    disk_trace req base l [Statfs base] "SKIPPED"
| disk_no_directory n e :
    available_bytes (Statfs base :: l) = Some n → (1073741824 ≤ n)%Z →
    temporary (MkdirTemp base :: Statfs base :: l) = Err e →
    disk_trace req base l [MkdirTemp base; Statfs base] "FAILED"
| disk_ran n dir mid k bytes status :
    available_bytes (Statfs base :: l) = Some n → (1073741824 ≤ n)%Z →
    temporary (MkdirTemp base :: Statfs base :: l) = Ok dir →
    Forall (inside req (dir +:+ "/test.bin")) mid →
    passes mid = take k ["write"; "read"; "randwrite"; "randread"] →
    written mid = Some bytes → (bytes ≤ 134217728)%Z →
    status = "FAILED" ∨ status = "COMPLETED" ∧ k = 4 →
    disk_trace req base l (RemoveAll dir :: mid ++ [MkdirTemp base; Statfs base]) status.

Lemma disk_adds req base r : item_Status r = "COMPLETED" →
  adds (disk req base r) (λ l new x, disk_trace req base l new (item_Status x)).
Proof.
  intros Hr l. unfold disk, ask, note, gets. rewrite (proc_bind_run _ _ l (Statfs base :: l) (Ok (available_bytes (Statfs base :: l)))) by done.
  destruct (match available_bytes _ with Some _ => _ | None => _ end) eqn:Efree.
  { exists [Statfs base], (with_status "SKIPPED" "Disk test requires at least 1 GiB available" r). split; [done|].
    apply disk_small. intros n E. rewrite E in Efree. by apply Z.ltb_lt. }
  destruct (available_bytes (Statfs base :: l)) as [n|] eqn:En; [apply Z.ltb_ge in Efree; change (2 ^ 30)%Z with 1073741824%Z in Efree|done].
  rewrite (proc_bind_run _ _ _ (MkdirTemp base :: Statfs base :: l) (Ok (temporary (MkdirTemp base :: Statfs base :: l)))) by done.
  destruct (temporary _) as [dir|e] eqn:Edir.
  2: { exists [MkdirTemp base; Statfs base], (with_status "FAILED" (error_text e) r). split; [done|]. by apply (disk_no_directory _ _ _ n e). }
  destruct (disk_in_adds req base dir r Hr (MkdirTemp base :: Statfs base :: l)) as (mid & x & E & F & k & Hk & Hs).
  rewrite (proc_bind_run _ _ _ _ _ E). exists (RemoveAll dir :: mid ++ [MkdirTemp base; Statfs base]), x. split.
  { cbn [app]. by rewrite <- app_assoc. }
  apply (disk_ran _ _ _ n dir mid k (pass_bytes (passes mid))); try done.
  - eapply Forall_impl; [exact F|]. apply takes_inside.
  - by eapply all_written.
  - rewrite Hk. apply pass_bytes_modes.
Qed.

(** The one run of sysbench: the time and the threads of the request, and for the memory at
    most 4 GiB written *)
Definition bounded_run (item : string) (req : Request) : list string :=
  let time := "--time=" +:+ pretty (Seconds req) in
  let threads := "--threads=" +:+ pretty (Threads req) in
  if decide (item = "cpu") then ["cpu"; time; threads; "--cpu-max-prime=20000"; "run"]
  else ["memory"; time; threads; "--memory-block-size=1M"; "--memory-total-size=4G"; "--memory-oper=write"; "--memory-scope=local"; "run"].

Lemma bounded_run_spec item req : item ∈ ["cpu"; "memory"] → sysbench_args item req = bounded_run item req.
Proof. rewrite !elem_of_cons, elem_of_nil. by intros [->|[->|[]]]. Qed.

(** What a test of [item] may do after the readings, given the reason not to run that they
    gave, and its result *)
Inductive hardware_trace (req : Request) (base item : string) (l : log) : string → log → Item → Prop :=
| hardware_pressure reason r :
    reason ≠ "" → item_Status r = "SKIPPED" → item_Message r = reason →
    hardware_trace req base item l reason [] r
| hardware_sysbench r :
    item ∈ ["cpu"; "memory"] →
    hardware_trace req base item l "" [Run "sysbench" (bounded_run item req); Run "sysbench" ["--version"]] r
| hardware_disk new r :
    item = "disk" → disk_trace req base (Run "sysbench" ["--version"] :: l) new (item_Status r) →
    hardware_trace req base item l "" (new ++ [Run "sysbench" ["--version"]]) r
| hardware_other r :
    item ∉ ["cpu"; "memory"; "disk"] → item_Status r = "COMPLETED" →
    hardware_trace req base item l "" [Run "sysbench" ["--version"]] r.

(** C40: a hardware test answers in every case.  It reads the files of the machine and of its
    control group, and then: if they show resource pressure it starts nothing and answers
    SKIPPED with the reason; otherwise it asks sysbench for its version, and a test of the
    processor or of the memory runs sysbench exactly once, for the time and with the threads
    of the request.  The test of the disk does nothing unless 1 GiB is free; its directory is
    removed as the last thing it does, whatever failed before; between the two it makes one
    sparse file of 64 MiB in that directory, and every run of fio names that file and no
    other; the passes are a prefix of write, read, randwrite, randread, and by their
    [io_size] they write at most 128 MiB together; it ends COMPLETED only after all four. *)
Theorem hardware_sound req base item l :
  ∃ files reads reason new r,
    Forall is_read (reads ++ files) ∧ (reason = "" ↔ calm item (Threads req) (files ++ l)) ∧
    hardware req base item l = (new ++ reads ++ files ++ l, Ok r) ∧
    hardware_trace req base item (reads ++ files ++ l) reason new r.
Proof.
  destruct (environment_reads l) as (n1 & env & E1 & F1).
  destruct (pressure_reads item (Threads req) (n1 ++ l)) as (n2 & reason & E2 & F2 & Hcalm).
  unfold hardware. rewrite (proc_bind_run _ _ _ _ _ E1), (proc_bind_run _ _ _ _ _ E2).
  exists n1, n2, reason. set (l2 := n2 ++ n1 ++ l).
  destruct (decide (reason = "")) as [->|Hr]; cycle 1.
  { rewrite bool_decide_false by done. eexists [], _. split; [by apply Forall_app|]. split; [done|]. split; [done|]. by constructor. }
  cbn [negb bool_decide]. destruct (adds_command "sysbench" ["--version"] l2) as (n3 & v & E3 & ->).
  cbv zeta. rewrite bool_decide_true by done. cbn [negb]. rewrite (proc_bind_run _ _ _ _ _ E3).
  set (r := with_metric "toolVersion" _ _).
  destruct (decide (item ∈ ["cpu"; "memory"])) as [Hi|Hi]; [rewrite bool_decide_true by done|rewrite bool_decide_false by done].
  { destruct (sysbench_runs item req r ([Run "sysbench" ["--version"]] ++ l2)) as (n4 & x & E4 & ->).
    rewrite (bounded_run_spec _ _ Hi) in E4. rewrite E4.
    eexists [Run "sysbench" (bounded_run item req); Run "sysbench" ["--version"]], x. split; [by apply Forall_app|]. split; [done|].
    split; [done|by constructor]. }
  destruct (decide (item = "disk")) as [Hd|Hd]; [rewrite bool_decide_true by done|rewrite bool_decide_false by done].
  { destruct (disk_adds req base r eq_refl ([Run "sysbench" ["--version"]] ++ l2)) as (n4 & x & E4 & H4).
    exists (n4 ++ [Run "sysbench" ["--version"]]), x. split; [by apply Forall_app|]. split; [done|].
    split; [by rewrite E4, <- app_assoc|by constructor]. }
  exists [Run "sysbench" ["--version"]], r. split; [by apply Forall_app|]. split; [done|]. split; [done|].
  apply hardware_other; [|done]. rewrite !elem_of_cons. rewrite !elem_of_cons in Hi. tauto.
Qed.
End hardware.
End BenchmarkHardware.
