(* ===== verification/Connections.v ===== *)
(** * The connections of users ([internal/node/user_connection_provider.go])

    Whom the core serves and from which addresses, the closing of the connections of a
    user, and the requests of [manager.go] that use them.  The API of the core is [ConnApi],
    which [http_api] implements over HTTP.

    [ip_lists_agree]: the list of one user and the list of all users say the same.
    [drop_users_closes]: what a request to drop users does. *)
From S2P Require Import Prelude GoStr GoTime GoSort StatName RuntimeState.

Module Connections.

Record Connection := { conn_ID : string; SourceIP : string; User : string }.

Inductive event := EvList | EvDelete (id : string) | EvDrop (ip : string).

(** The answers of the core: its connections, and to a deletion; they may change with
    every request. *)
Class ConnApi := {
  connections_reply : list event → result (list Connection);
  delete_reply : list event → string → option error
}.

(** A provider without a port cannot use the API; [seen] is the clock. *)
Record Provider := { port : Z; clock : list event → time }.

(** ** The HTTP client of the API *)

Record HttpRequest := { method : string; url : string; headers : list (string * string) }.
Record HttpResponse := { StatusCode : Z; body : result string }.

(** Whether a URL can be requested, what the core answers, and the decoder of its JSON *)
Class Http := {
  url_ok : string → result unit;
  do_request : list event → HttpRequest → result HttpResponse;
  decode_connections : string → result (list Connection)
}.

Record singBoxUserConnectionProvider := { apiBaseURL : string; apiSecret : string }.
Definition newSingBoxUserConnectionProvider (apiPort : Z) (secret : string) : singBoxUserConnectionProvider :=
  {| apiBaseURL := if (0 <? apiPort)%Z then "http://127.0.0.1:" +:+ itoa apiPort else ""; apiSecret := secret |}.

Section http.
Context {HttpI : Http} (c : singBoxUserConnectionProvider).

Definition the_request (meth path : string) : HttpRequest :=
  {| method := meth; url := apiBaseURL c +:+ path;
     headers := ("Accept", "application/json") ::
                (if bool_decide (apiSecret c = "") then [] else [("Authorization", "Bearer " +:+ apiSecret c)]) |}.

(** The context and the client give up after five seconds, which is an error of [do_request]. *)
Definition doJSONRequest (log : list event) (meth path : string) : result string :=
  _ ← url_ok (apiBaseURL c +:+ path);
  match do_request log (the_request meth path) with
  | Err e => Err (ErrWrap ("request sing-box " +:+ meth +:+ " " +:+ path) e)
  | Ok response =>
      text ← body response;
      if (StatusCode response <? 200)%Z || (300 <=? StatusCode response)%Z
      then Err (ErrMsg ("request sing-box " +:+ meth +:+ " " +:+ path +:+ " failed: " +:+ trim_space text))
      else Ok text
  end.

Definition list_connections (log : list event) : result (list Connection) :=
  text ← doJSONRequest log "GET" "/connections";
  match decode_connections text with
  | Err e => Err (ErrWrap "decode sing-box connections" e)
  | Ok l => Ok l
  end.
Definition delete_connection (log : list event) (id : string) : option error :=
  match doJSONRequest log "DELETE" ("/connections/" +:+ id) with Ok _ => None | Err e => Some e end.

(** The provider is proved against [ConnApi]; this is the one that the agent uses. *)
#[export] Instance http_api : ConnApi := {| connections_reply := list_connections; delete_reply := delete_connection |}.

(** A request stays on the node, and shows the secret when there is one. *)
Lemma request_local apiPort secret meth path : (0 < apiPort)%Z → c = newSingBoxUserConnectionProvider apiPort secret →
  has_prefix (url (the_request meth path)) "http://127.0.0.1:" = true ∧
  (secret ≠ "" → ("Authorization", "Bearer " +:+ secret) ∈ headers (the_request meth path)).
Proof.
  intros Hp Hc. assert (apiBaseURL c = "http://127.0.0.1:" +:+ itoa apiPort) as Hu.
  { rewrite Hc. cbn [apiBaseURL newSingBoxUserConnectionProvider]. by rewrite (proj2 (Z.ltb_lt _ _) Hp). }
  split; [cbn [url the_request]; rewrite Hu, <-app_assoc_str; apply has_prefix_spec; by eexists|].
  intros Hs. cbn [headers the_request]. rewrite Hc. cbn [apiSecret newSingBoxUserConnectionProvider]. rewrite bool_decide_eq_false_2 by done. right. left.
Qed.
(** Only an answer that says success counts. *)
Lemma answered_ok log meth path text : doJSONRequest log meth path = Ok text →
  ∃ response, do_request log (the_request meth path) = Ok response ∧ (200 ≤ StatusCode response < 300)%Z ∧ body response = Ok text.
Proof.
  unfold doJSONRequest. intros E. bind_as E u Hu. destruct (do_request _ _) as [response|]; [|done]. bind_as E t Ht.
  destruct (_ || _) eqn:Hc; [done|]. injection E as <-. apply orb_false_iff in Hc as [H1 H2]. exists response. split_and!; [done|lia..|done].
Qed.
End http.

Definition ErrUserConnectionStatsUnsupported : error := ErrMsg "user connection stats are unsupported for the running core".

Section provider.
Context {SortI : SortSlice} {RangeI : MapRange} {ApiI : ConnApi} (p : Provider).

(** The state is the list of requests made, newest first. *)
Abbreviation World := (list event).

Definition canUseAPI : bool := (0 <? port p)%Z.

Definition connections : proc World (list Connection) := λ w, (EvList :: w, connections_reply (EvList :: w)).
Definition deleteConnection (id : string) : proc World unit := λ w,
  (EvDelete id :: w, match delete_reply (EvDelete id :: w) id with None => Ok tt | Some e => Err e end).

Definition serves (userID : string) (c : Connection) : bool :=
  bool_decide (StatName.UserID (User c) = userID) && negb (bool_decide (SourceIP c = "")).
Definition filterSingBoxConnectionsByUser (l : list Connection) (userID : string) : list Connection :=
  filter (λ c, serves userID c = true) l.

Definition group_connection (grouped : gmap string (list Connection)) (c : Connection) : gmap string (list Connection) :=
  let userID := StatName.UserID (User c) in
  if bool_decide (User c = "") || bool_decide (SourceIP c = "") || bool_decide (userID = "") then grouped
  else <[userID := default [] (grouped !! userID) ++ [c]]> grouped.
Definition groupSingBoxConnectionsByUser (l : list Connection) : gmap string (list Connection) := foldl group_connection ∅ l.

(** [sortSeenIPs]: the latest first, then by address *)
Definition seen_less (x y : RuntimeState.SeenIP) : bool :=
  if bool_decide (RuntimeState.LastSeen x = RuntimeState.LastSeen y) then str_ltb (RuntimeState.IP x) (RuntimeState.IP y)
  else after (RuntimeState.LastSeen x) (RuntimeState.LastSeen y).

Definition formatSingBoxSeenIPs (now : time) (l : list Connection) : list RuntimeState.SeenIP :=
  let byIP : gmap string RuntimeState.SeenIP :=
    foldl (λ m c, <[SourceIP c := {| RuntimeState.IP := SourceIP c; RuntimeState.LastSeen := now |}]> m) ∅ l in
  sort_slice seen_less (range_map byIP).*2.

Definition UserIPList (userID : string) : proc World (list RuntimeState.SeenIP) :=
  if negb canUseAPI then throw ErrUserConnectionStatsUnsupported else
  l ← connections;
  now ← gets (clock p);
  mret (formatSingBoxSeenIPs now (filterSingBoxConnectionsByUser l userID)).

Definition UsersIPList : proc World (gmap string (list RuntimeState.SeenIP)) :=
  if negb canUseAPI then throw ErrUserConnectionStatsUnsupported else
  l ← connections;
  now ← gets (clock p);
  mret (formatSingBoxSeenIPs now <$> groupSingBoxConnectionsByUser l).

Definition UserOnlineStatus (userID : string) : proc World bool :=
  items ← UserIPList userID;
  mret (negb (bool_decide (length items = 0))).

Definition close (c : Connection) : proc World unit := if bool_decide (conn_ID c = "") then mret tt else deleteConnection (conn_ID c).
Definition CloseUserConnections (userID : string) : proc World unit :=
  if negb canUseAPI then throw ErrUserConnectionStatsUnsupported else
  l ← connections;
  proc_iter close (filterSingBoxConnectionsByUser l userID).

(** ** The requests: a failure reads as nothing *)

Definition GetUserOnlineStatus (username : string) : proc World bool :=
  r ← attempt (UserOnlineStatus username);
  mret (match r with Ok b => b | Err _ => false end).

Definition formatSeenIPs (items : list RuntimeState.SeenIP) : list (string * string) :=
  (λ i, (RuntimeState.IP i, format_rfc3339 (RuntimeState.LastSeen i))) <$> items.
Definition formatUserIPLists (items : gmap string (list RuntimeState.SeenIP)) : list (string * list (string * string)) :=
  sort_slice (λ x y, str_ltb x.1 y.1) ((λ '(u, l), (u, formatSeenIPs l)) <$> range_map items).

Definition GetUserIPList (userID : string) : proc World (list (string * string)) :=
  r ← attempt (UserIPList userID);
  mret (match r with Ok items => formatSeenIPs items | Err _ => [] end).
Definition GetUsersIPList : proc World (list (string * list (string * string))) :=
  r ← attempt UsersIPList;
  mret (match r with Ok items => formatUserIPLists items | Err _ => [] end).

(** A user whose connections the core does not close loses those of its addresses. *)
Definition drop_user (userID : string) : proc World unit :=
  closed ← attempt (CloseUserConnections userID);
  match closed with
  | Ok _ => mret tt
  | Err _ =>
      items ← attempt (UserIPList userID);
      match items with
      | Ok items => proc_iter (λ i, modify (cons (EvDrop (RuntimeState.IP i)))) items
      | Err _ => mret tt
      end
  end.
Definition DropUsersConnections (userIDs : list string) : proc World unit := proc_iter drop_user userIDs.

(** ** What the lists contain *)

Context {SortL : SortSliceLaws} {RangeL : MapRangeLaws}.

Definition seen_at (now : time) (ip : string) : RuntimeState.SeenIP := {| RuntimeState.IP := ip; RuntimeState.LastSeen := now |}.

Definition same_time (now : time) (l : list RuntimeState.SeenIP) : Prop := ∀ i, i ∈ l → RuntimeState.LastSeen i = now.

#[local] Instance seen_trans : Transitive (not_less seen_less).
Proof.
  intros [i1 t1] [i2 t2] [i3 t3]. unfold not_less, seen_less, after. cbn.
  repeat case_bool_decide; try congruence; rewrite ?Z.ltb_ge; try lia.
  pose proof (str_le_trans i1 i2 i3) as H3. unfold str_le in H3. auto.
Qed.
#[local] Instance seen_total : Total (not_less seen_less).
Proof.
  intros [i1 t1] [i2 t2]. unfold not_less, seen_less, after. cbn.
  repeat case_bool_decide; try congruence; rewrite ?Z.ltb_ge; [|lia]. destruct (str_le_total i1 i2) as [H1|H1]; unfold str_le in H1; auto.
Qed.

(** The addresses of some connections, once each and sorted *)
Lemma format_spec now l :
  formatSingBoxSeenIPs now l = seen_at now <$> sort_strings (remove_dups (SourceIP <$> l)).
Proof.
  unfold formatSingBoxSeenIPs. cbn zeta. set (m := foldl _ _ _).
  assert (∀ (acc : gmap string RuntimeState.SeenIP) ip x,
    (foldl (λ m c, <[SourceIP c := seen_at now (SourceIP c)]> m) acc l) !! ip = Some x ↔
      ((ip ∈ (SourceIP <$> l)) ∧ x = seen_at now ip) ∨ ((ip ∉ (SourceIP <$> l)) ∧ acc !! ip = Some x)) as Hfold.
  { induction l as [|c l IH]; intros acc ip x; cbn [foldl fmap list_fmap].
    - split; [right; split; [apply not_elem_of_nil|done]|]. intros [[[]%elem_of_nil _]|[_ ?]]. done.
    - rewrite IH, elem_of_cons. destruct (decide (ip = SourceIP c)) as [->|Hne].
      + rewrite lookup_insert_eq. destruct (decide (SourceIP c ∈ SourceIP <$> l)); split.
        * intros [[? ->]|[? _]]; [auto|done].
        * intros [[_ ->]|[Hn _]]; [auto|by destruct Hn; left].
        * intros [[? _]|[_ [= <-]]]; [done|auto].
        * intros [[_ ->]|[Hn _]]; [auto|by destruct Hn; left].
      + rewrite lookup_insert_ne by done. split; [intros [[? ->]|[? ?]]; [left; auto|right; split; [|done]; intros [?|?]; done]|].
        intros [[[?|?] ->]|[Hn ?]]; [done|auto|right; split; [|done]; intros ?; apply Hn; by right]. }
  assert (∀ ip x, m !! ip = Some x ↔ ip ∈ SourceIP <$> l ∧ x = seen_at now ip) as Hm.
  { intros ip x. etrans; [apply (Hfold ∅ ip x)|]. rewrite lookup_empty. split; [intros [?|[_ ?]]; done|auto]. }
  assert (same_time now (sort_slice seen_less (range_map m).*2)) as Htime.
  { intros i. rewrite (law_sort_perm seen_less), list_elem_of_fmap. intros ([ip x] & -> & Hin). rewrite (law_range _ m) in Hin.
    apply elem_of_map_to_list, Hm in Hin as [_ ->]. done. }
  assert (sort_slice seen_less (range_map m).*2 = seen_at now <$> (RuntimeState.IP <$> sort_slice seen_less (range_map m).*2)) as ->.
  { rewrite <- list_fmap_compose. rewrite <- (list_fmap_id (sort_slice _ _)) at 1. apply list_fmap_ext. intros k [ip t] Hk. cbn. unfold seen_at.
    f_equal. exact (Htime _ (list_elem_of_lookup_2 _ _ _ Hk)). }
  f_equal. apply (StronglySorted_unique str_le); [|apply sort_strings_sorted|].
  - pose proof (law_sort_sorted seen_less (range_map m).*2 _ _) as Hs. revert Hs Htime. induction 1 as [|i l' Hl' IH F]; intros Ht; cbn; [constructor|].
    constructor; [apply IH; intros j Hj; apply Ht; by right|]. apply Forall_forall. intros ip (j & -> & Hj)%list_elem_of_fmap.
    rewrite Forall_forall in F. specialize (F j Hj). unfold not_less, seen_less in F.
    rewrite (Ht i), (Ht j) in F by (by left || by right). by rewrite bool_decide_eq_true_2 in F.
  - rewrite sort_strings_perm. assert (RuntimeState.IP <$> sort_slice seen_less (range_map m).*2 ≡ₚ (map_to_list m).*1) as ->.
    { rewrite (law_sort_perm seen_less), (law_range _ m). rewrite <- list_fmap_compose. erewrite list_fmap_ext; [reflexivity|].
      intros k [ip x] Hk. apply list_elem_of_lookup_2, elem_of_map_to_list, Hm in Hk as [_ ->]. done. }
    apply NoDup_Permutation; [apply NoDup_fst_map_to_list|apply NoDup_remove_dups|]. intros ip. rewrite elem_of_remove_dups, list_elem_of_fmap. split.
    + intros ([ip' x] & -> & Hk). by apply elem_of_map_to_list, Hm in Hk as [? _].
    + intros Hip. exists (ip, seen_at now ip). split; [done|]. by apply elem_of_map_to_list, Hm.
Qed.

Lemma UserID_empty : StatName.UserID "" = "".
Proof. vm_compute. reflexivity. Qed.

(** Grouping is filtering, user by user. *)
Lemma group_spec l userID :
  groupSingBoxConnectionsByUser l !! userID =
    if bool_decide (userID = "") || bool_decide (filterSingBoxConnectionsByUser l userID = []) then None
    else Some (filterSingBoxConnectionsByUser l userID).
Proof.
  unfold groupSingBoxConnectionsByUser. induction l as [|c l IH] using rev_ind.
  { cbn [foldl]. rewrite lookup_empty. unfold filterSingBoxConnectionsByUser. cbn. by rewrite orb_true_r. }
  rewrite foldl_app. cbn [foldl]. unfold group_connection, filterSingBoxConnectionsByUser in *. rewrite filter_app, filter_cons, filter_nil.
  set (m := foldl _ _ l) in *. set (fl := filter _ l) in *. unfold serves.
  destruct (decide (User c = "")) as [Hu|Hu].
  { rewrite (bool_decide_eq_true_2 (User c = "")) by done. cbn [orb]. rewrite IH, Hu, UserID_empty.
    destruct (bool_decide (userID = "")) eqn:Hid; [done|]. apply bool_decide_eq_false in Hid.
    rewrite (bool_decide_eq_false_2 ("" = userID)) by congruence. cbn. by rewrite app_nil_r. }
  rewrite (bool_decide_eq_false_2 (User c = "")) by done. destruct (decide (SourceIP c = "")) as [Hs|Hs].
  { rewrite (bool_decide_eq_true_2 (SourceIP c = "")) by done. cbn [orb negb]. rewrite andb_false_r. cbn. by rewrite app_nil_r, IH. }
  rewrite (bool_decide_eq_false_2 (SourceIP c = "")) by done. cbn [orb negb]. rewrite andb_true_r.
  destruct (decide (StatName.UserID (User c) = "")) as [He|He].
  { rewrite (bool_decide_eq_true_2 _ He). rewrite IH, He. destruct (bool_decide (userID = "")) eqn:Hid; [done|].
    apply bool_decide_eq_false in Hid. rewrite (bool_decide_eq_false_2 ("" = userID)) by congruence. cbn. by rewrite app_nil_r. }
  rewrite (bool_decide_eq_false_2 _ He). destruct (decide (StatName.UserID (User c) = userID)) as [<-|Hne].
  - rewrite lookup_insert_eq, IH. rewrite (bool_decide_eq_false_2 _ He), (bool_decide_eq_true_2 (StatName.UserID _ = _)) by done. cbn [orb].
    rewrite decide_True by done. rewrite (bool_decide_eq_false_2 (fl ++ [c] = [])) by (by destruct fl). f_equal. f_equal. destruct (decide (fl = [])) as [Hf|Hf]; [rewrite (bool_decide_eq_true_2 _ Hf)|rewrite (bool_decide_eq_false_2 _ Hf)]; cbn; congruence.
  - rewrite lookup_insert_ne by done. rewrite IH, (bool_decide_eq_false_2 (StatName.UserID _ = userID)) by done. cbn. by rewrite app_nil_r.
Qed.

(** the list of all users has exactly the users with a live connection and an address,
    each with the list that its own request gives; a list has every address of a live
    connection of the user once, in order, and no other. *)
Theorem ip_lists_agree w l grouped userID :
  (port p > 0)%Z → connections_reply (EvList :: w) = Ok l →
  UsersIPList w = (EvList :: w, Ok grouped) → userID ≠ "" →
  ∃ items, UserIPList userID w = (EvList :: w, Ok items) ∧
  (grouped !! userID = if bool_decide (items = []) then None else Some items) ∧
  StronglySorted str_le (RuntimeState.IP <$> items) ∧ NoDup (RuntimeState.IP <$> items) ∧
  ∀ ip, ip ∈ (RuntimeState.IP <$> items) ↔ ∃ c, c ∈ l ∧ SourceIP c = ip ∧ ip ≠ "" ∧ StatName.UserID (User c) = userID.
Proof.
  intros Hp Hl E Hid. unfold UserIPList, UsersIPList, connections, mbind, proc_bind, gets in *. 
  assert (canUseAPI = true) as Hc by (unfold canUseAPI; lia). rewrite Hc in *. cbn [negb] in *. rewrite Hl in *. injection E as <-.
  set (now := clock p _). set (fl := filterSingBoxConnectionsByUser l userID). eexists. split; [reflexivity|].
  rewrite lookup_fmap, group_spec. fold fl. rewrite (bool_decide_eq_false_2 _ Hid). cbn [orb].
  assert (RuntimeState.IP <$> formatSingBoxSeenIPs now fl = sort_strings (remove_dups (SourceIP <$> fl))) as Hip.
  { rewrite format_spec, <- list_fmap_compose. apply list_fmap_id. }
  split_and!.
  - assert (formatSingBoxSeenIPs now fl = [] ↔ fl = []) as Hnil.
    { rewrite format_spec. split; [|intros ->; done]. destruct fl as [|c fl']; [done|]. intros Hn. apply fmap_nil_inv in Hn.
      assert (SourceIP c ∈ sort_strings (remove_dups (SourceIP <$> c :: fl'))) as Hc'; [|rewrite Hn in Hc'; by apply elem_of_nil in Hc'].
      rewrite sort_strings_perm, elem_of_remove_dups. left. }
    case_bool_decide as H1; case_bool_decide as H2; try done; tauto.
  - rewrite Hip. apply sort_strings_sorted.
  - rewrite Hip. rewrite sort_strings_perm. apply NoDup_remove_dups.
  - intros ip. rewrite Hip, sort_strings_perm, elem_of_remove_dups, list_elem_of_fmap. unfold fl, filterSingBoxConnectionsByUser, serves. split.
    + intros (c & -> & [Hb Hin]%list_elem_of_filter). apply andb_true_iff in Hb as [H1%bool_decide_eq_true H2%negb_true_iff%bool_decide_eq_false]. eauto.
    + intros (c & Hin & <- & Hne & Hu). exists c. split; [done|]. apply list_elem_of_filter. split; [|done].
      by rewrite (bool_decide_eq_true_2 _ Hu), (bool_decide_eq_false_2 _ Hne).
Qed.

(** The closing of a user's connections, up to the first that the core refuses *)
Lemma close_loop l w w' r :
  proc_iter close l w = (w', r) →
  ∃ done_ rest, filter (λ c, conn_ID c ≠ "") l = done_ ++ rest ∧ w' = rev (EvDelete ∘ conn_ID <$> done_) ++ w ∧ (r = Ok tt → rest = []).
Proof.
  unfold proc_iter. revert w. induction l as [|c l IH]; intros w E; cbn [proc_fold] in E; [injection E as <- <-; by exists [], []|].
  step E w1 u H. unfold close in H. rewrite filter_cons. case_bool_decide as Hc.
  - injection H as <- <-. rewrite decide_False by (intros ?; done). by apply IH.
  - rewrite decide_True by done. unfold deleteConnection in H. destruct (delete_reply _ _); injection H as <- <-.
    + destruct E as [-> ->]. exists [c], (filter (λ c, conn_ID c ≠ "") l). by split_and!.
    + apply IH in E as (d & rest & -> & -> & Hr). exists (c :: d), rest. split_and!; [done| |done].
      cbn. by rewrite <- app_assoc.
Qed.

(** A request to drop a user whose connections the core closes asks it to close exactly
    the live connections of the user that have an identifier, in their order; no address is
    cut off. *)
Theorem drop_users_closes w l userID :
  (port p > 0)%Z → connections_reply (EvList :: w) = Ok l → (∀ w' id, delete_reply w' id = None) →
  DropUsersConnections [userID] w =
    (rev (EvDelete ∘ conn_ID <$> filter (λ c, conn_ID c ≠ "") (filterSingBoxConnectionsByUser l userID)) ++ EvList :: w, Ok tt).
Proof.
  intros Hp Hl Hd. unfold DropUsersConnections, proc_iter. cbn [proc_fold]. unfold drop_user, CloseUserConnections.
  assert (canUseAPI = true) as -> by (unfold canUseAPI; lia). cbn [negb].
  set (fl := filterSingBoxConnectionsByUser l userID).
  assert (proc_iter close fl (EvList :: w) = (rev (EvDelete ∘ conn_ID <$> filter (λ c, conn_ID c ≠ "") fl) ++ EvList :: w, Ok tt)) as Hloop.
  { destruct (proc_iter close fl (EvList :: w)) as [w' r] eqn:E. assert (r = Ok tt) as ->.
    { clear - E Hd. unfold proc_iter in E. revert E. generalize (EvList :: w). induction fl as [|c fl IH]; intros w0 E; cbn [proc_fold] in E; [by injection E|].
      step E w1 u H. unfold close, deleteConnection in H. case_bool_decide; [injection H as <- <-; by eapply IH|]. rewrite Hd in H. injection H as <- <-. by eapply IH. }
    apply close_loop in E as (d & rest & -> & -> & Hr). by rewrite (Hr eq_refl), app_nil_r. }
  unfold attempt, connections, mbind, proc_bind. rewrite Hl. fold fl. by rewrite Hloop.
Qed.
End provider.

Module ConnectionsDemo.
Import Merge.

Definition live : list Connection :=
  [{| conn_ID := "a"; SourceIP := "192.0.2.7"; User := StatName.UserInbound "alice" "in" |}; {| conn_ID := ""; SourceIP := "192.0.2.5"; User := "alice" |};
   {| conn_ID := "b"; SourceIP := "192.0.2.5"; User := "alice" |}; {| conn_ID := "c"; SourceIP := "192.0.2.5"; User := "bob" |};
   {| conn_ID := "d"; SourceIP := ""; User := "alice" |}].
#[local] Instance api : ConnApi := { connections_reply _ := Ok live; delete_reply _ _ := None }.
Definition provider : Provider := {| port := 9090; clock := λ _, unix 1 |}.
Definition users : gmap string (list RuntimeState.SeenIP) := match (UsersIPList provider []).2 with Ok g => g | Err _ => ∅ end.

Lemma ip_lists_agree_witness :
  ∃ items, (UserIPList provider "alice" []).2 = Ok items ∧ users !! "alice" = Some items ∧ (RuntimeState.IP <$> items) = ["192.0.2.5"; "192.0.2.7"].
Proof.
  assert (UsersIPList provider [] = ([EvList], Ok users)) as Hu by (vm_compute; reflexivity).
  destruct (ip_lists_agree provider [] live users "alice" ltac:(done) eq_refl Hu ltac:(done)) as (items & E & Hg & _).
  exists items. rewrite E. split; [done|]. assert (UserIPList provider "alice" [] = ([EvList], Ok [seen_at (unix 1) "192.0.2.5"; seen_at (unix 1) "192.0.2.7"])) as E' by (vm_compute; reflexivity).
  rewrite E' in E. injection E as <-. split; [exact Hg|done].
Defined.

Lemma drop_users_closes_witness : (DropUsersConnections provider ["alice"] []).1 = [EvDelete "b"; EvDelete "a"; EvList].
Proof. rewrite (drop_users_closes provider [] live "alice" ltac:(done) eq_refl ltac:(done)). vm_compute. reflexivity. Defined.
End ConnectionsDemo.
End Connections.
