(* ===== verification/Geocheck.v ===== *)
(** * Geolocation reports ([internal/geocheck])

    The validation of a request, the bounded buffers of the output, and the run of the
    binary, one at a time.  The binary, the interfaces and JSON are [GeoEnv].

    [run_exact]: a run that answers did run, within its bounds. *)
From S2P Require Import Prelude GoStr GoNet GoAny.

Module Geocheck.

Definition DefaultBinaryPath : string := "/usr/local/bin/geocheck".
Definition MaxOutputBytes : Z := 33554432.
Definition maxErrorBytes : Z := 65536.

Definition ErrAlreadyRunning : error := ErrBusy.

Record Request := { req_IP : string; req_Interface : string }.

(** What the binary did: the chunks that it wrote, and whether it ended well, was refused by
    a buffer or ran out of time *)
Record Process := { out_chunks : list string; err_chunks : list string; exit_error : option error; timed_out : bool }.

Class GeoEnv := {
  interface_state : string → option bool;
  local_addresses : result (list ip);
  executable : string → result bool;
  execute : string → list string → Process;
  report_of : string → result object
}.

Section geocheck.
Context {EnvI : GeoEnv}.

Definition New (binary : string) : string := if bool_decide (trim_space binary = "") then DefaultBinaryPath else binary.

Definition isLocalIP (target : ip) : result bool :=
  addresses ← local_addresses; Ok (bool_decide (target ∈ addresses)).

(** The address or interface to bind to, or nothing *)
Definition validateRequest (request : Request) : result string :=
  let address := trim_space (req_IP request) in
  let iface := trim_space (req_Interface request) in
  if negb (bool_decide (address = "")) && negb (bool_decide (iface = "")) then
    Err (ErrMsg "geocheck accepts either ip or interface, not both")
  else if negb (bool_decide (address = "")) then
    match parse_ip address with
    | None => Err (ErrMsg "geocheck IP is invalid")
    | Some parsed =>
        match isLocalIP parsed with
        | Err e => Err (ErrWrap "inspect local addresses" e)
        | Ok false => Err (ErrMsg "geocheck IP is not assigned to this node")
        | Ok true => Ok address
        end
    end
  else if negb (bool_decide (iface = "")) then
    match interface_state iface with
    | None => Err (ErrMsg "geocheck interface does not exist")
    | Some false => Err (ErrMsg "geocheck interface is down")
    | Some true => Ok iface
    end
  else Ok "".

(** ** Bounded buffers *)

(** [Write]: the contents, the number of bytes reported as written, and whether it failed *)
Definition write (max : Z) (b p : string) : string * Z * bool :=
  if (max <? slen b + slen p)%Z then
    let left_ := (max - slen b)%Z in
    (if (0 <? left_)%Z then b +:+ String.substring 0 (Z.to_nat left_) p else b, slen p, true)
  else (b +:+ p, slen p, false).

(** The writes of a process: the copying stops at the first that fails. *)
Fixpoint write_all (max : Z) (b : string) (chunks : list string) : string * bool :=
  match chunks with
  | [] => (b, false)
  | p :: rest =>
      let '(b, _, failed) := write max b p in
      if failed then (b, true) else write_all max b rest
  end.

(** ** A run *)

Definition arguments (bindTo : string) : list string :=
  (if bool_decide (bindTo = "") then [] else ["--interface"; bindTo]) ++ ["--json"; "--svg-base64"; "--quiet"].

Definition check_image (report : object) : result unit :=
  match field report "image" with
  | AObj image =>
      _ ← fail_if (negb (bool_decide (field image "format" = AStr "svg") && bool_decide (field image "media_type" = AStr "image/svg+xml")
                         && bool_decide (field image "encoding" = AStr "base64")))
            (ErrMsg "geocheck report carries an invalid SVG image descriptor");
      match field image "data" with
      | AStr data => fail_if (bool_decide (data = "")) (ErrMsg "geocheck report carries no image")
      | _ => Err (ErrMsg "geocheck report carries no image")
      end
  | _ => Err (ErrMsg "geocheck report carries an invalid SVG image descriptor")
  end.

(** The result of the process with its buffers: a failed copy is an error of [cmd.Run]. *)
Definition outcome (p : Process) : result string :=
  let '(stdout, out_failed) := write_all MaxOutputBytes "" (out_chunks p) in
  let '(stderr, err_failed) := write_all maxErrorBytes "" (err_chunks p) in
  let failure := match exit_error p with
                 | Some e => Some e
                 | None => if out_failed || err_failed then Some (ErrMsg "geocheck output exceeds limit") else None
                 end in
  match failure with
  | None => Ok stdout
  | Some e =>
      if timed_out p then Err (ErrMsg "geocheck exceeded 45s")
      else let message := trim_space stderr in
           if bool_decide (message = "") then Err (ErrWrap "geocheck failed" e) else Err (ErrWrap ("geocheck failed: " +:+ message) e)
  end.

(** [running] is the atomic flag: false again when the run ends. *)
Definition Run (binary : string) (running : bool) (request : Request) : result object :=
  bindTo ← validateRequest request;
  _ ← fail_if running ErrAlreadyRunning;
  _ ← match executable binary with
      | Ok true => Ok tt
      | Ok false => Err (ErrWrap "geocheck binary is unavailable" (ErrMsg "binary is not executable"))
      | Err e => Err (ErrWrap "geocheck binary is unavailable" e)
      end;
  stdout ← outcome (execute binary (arguments bindTo));
  match report_of stdout with
  | Err e => Err (ErrWrap "decode geocheck report" e)
  | Ok report => _ ← check_image report; Ok report
  end.

(** ** Bounds *)

Lemma substring_slen n s : (slen (String.substring 0 n s) ≤ Z.of_nat n)%Z.
Proof.
  unfold slen. revert s. induction n as [|n IH]; intros [|c s]; cbn; [lia..|]. specialize (IH s). cbn in IH. lia.
Qed.

Lemma write_bound max b p : (slen b ≤ max)%Z → (slen (write max b p).1.1 ≤ max)%Z.
Proof.
  intros Hb. unfold write. destruct (_ <? _)%Z eqn:E; cbn [fst]; [|rewrite slen_app; lia].
  destruct (0 <? max - slen b)%Z eqn:E'; [|done]. rewrite slen_app. pose proof (substring_slen (Z.to_nat (max - slen b)) p). lia.
Qed.

(** What a buffer holds is within its bound, and is the whole output unless a write failed. *)
Lemma write_all_spec max b l : (slen b ≤ max)%Z →
  (slen (write_all max b l).1 ≤ max)%Z ∧ ((write_all max b l).2 = false → (write_all max b l).1 = b +:+ foldr String.append "" l).
Proof.
  revert b. induction l as [|p l IH]; intros b Hb; cbn [write_all foldr].
  { split; [done|]. intros _. by rewrite app_nil_r_str. }
  pose proof (write_bound max b p Hb) as H. destruct (write max b p) as [[b' n] f] eqn:E. cbn in H. destruct f; [by split|].
  assert (b' = b +:+ p) as ->. { unfold write in E. destruct (_ <? _)%Z; by injection E as <-. }
  destruct (IH _ H) as [H1 H2]. split; [done|]. intros Hf. rewrite (H2 Hf). by rewrite app_assoc_str.
Qed.

(** A run answers with a report only when nothing else ran, the place to bind to is one
    of this node, and the binary ended well; the report is the whole output, at most 32 MiB
    of it, and carries an SVG image. *)
Theorem run_exact binary running request report :
  Run binary running request = Ok report ↔
  running = false ∧ ∃ bindTo, validateRequest request = Ok bindTo ∧ executable binary = Ok true ∧
  let p := execute binary (arguments bindTo) in
  exit_error p = None ∧ (slen (foldr String.append "" (out_chunks p)) ≤ MaxOutputBytes)%Z ∧
  (slen (foldr String.append "" (err_chunks p)) ≤ maxErrorBytes)%Z ∧
  report_of (foldr String.append "" (out_chunks p)) = Ok report ∧ check_image report = Ok tt.
Proof.
  assert (∀ p out, outcome p = Ok out ↔ exit_error p = None ∧ (slen (foldr String.append "" (out_chunks p)) ≤ MaxOutputBytes)%Z ∧
    (slen (foldr String.append "" (err_chunks p)) ≤ maxErrorBytes)%Z ∧ out = foldr String.append "" (out_chunks p)) as Hout.
  { assert (∀ max l b, (slen b ≤ max)%Z → (slen (b +:+ foldr String.append "" l) ≤ max)%Z → (write_all max b l).2 = false) as Hfits.
    { intros max l. induction l as [|p l IH]; intros b Hb Hl; [done|]. cbn [write_all foldr] in *. rewrite app_assoc_str in Hl.
      unfold write. rewrite <- slen_app. pose proof (slen_nonneg (foldr String.append "" l)).
      destruct (Z.ltb_spec max (slen (b +:+ p))); [rewrite slen_app in Hl; lia|]. cbn. by apply IH. }
    intros p out. unfold outcome. destruct (write_all_spec MaxOutputBytes "" (out_chunks p) ltac:(done)) as [Ho1 Ho2].
    destruct (write_all_spec maxErrorBytes "" (err_chunks p) ltac:(done)) as [He1 He2].
    pose proof (Hfits MaxOutputBytes (out_chunks p) "" ltac:(done)) as Fo. pose proof (Hfits maxErrorBytes (err_chunks p) "" ltac:(done)) as Fe.
    destruct (write_all MaxOutputBytes "" (out_chunks p)) as [so fo], (write_all maxErrorBytes "" (err_chunks p)) as [se fe]. cbn [fst snd] in *.
    cbn [String.append] in *. destruct (exit_error p) as [e|]; [split; [by repeat case_match|by intros (? & _)]|].
    destruct fo; cbn [orb]; [split; [by repeat case_match|intros (_ & H & _); by specialize (Fo H)]|].
    destruct fe; [split; [by repeat case_match|intros (_ & _ & H & _); by specialize (Fe H)]|].
    rewrite (Ho2 eq_refl), (He2 eq_refl) in *. split; [intros [= <-]; by split_and!|by intros (_ & _ & _ & ->)]. }
  unfold Run. rewrite bind_ok. split.
  - intros (bindTo & Hv & E). bind_as E u Hr. apply fail_if_ok in Hr. bind_as E u2 He. bind_as E out Ho. apply Hout in Ho as (H1 & H2 & H3 & ->).
    split; [done|]. exists bindTo. split; [done|]. destruct (executable binary) as [[]|]; try done. destruct (report_of _) as [r|] eqn:Hrep; [|done].
    bind_as E u3 Hc. injection E as <-. destruct u3. by split_and!.
  - intros (-> & bindTo & Hv & He & H1 & H2 & H3 & H4 & H5). exists bindTo. split; [done|]. rewrite He. cbn [fail_if mbind result_bind].
    assert (outcome (execute binary (arguments bindTo)) = Ok (foldr String.append "" (out_chunks (execute binary (arguments bindTo))))) as -> by (by apply Hout).
    unfold mbind, result_bind. cbv beta iota. rewrite H4. by rewrite H5.
Qed.
End geocheck.
End Geocheck.
