(* ===== verification/SystemStats.v ===== *)
(** * System statistics ([internal/system/stats.go])

    The parsers of the files under [/proc], the monitor of the network interfaces with its
    rates, and the default routes, as functions of the texts read; [None] is a file that
    cannot be opened.  A rate is the quotient that the code computes in floating point, kept
    as its two parts.

    [sort_strings_spec]: the sorting loop sorts.  [tick_rates]: what a tick measures.
    [default_routes_spec]: the interfaces with a default route, once each. *)
From S2P Require Import Prelude GoStr GoTime GoNet GoSort.

Module SystemStats.

Local Open Scope Z_scope.

(** ** Lines and numbers *)

Definition newline : ascii := "010"%char.
Definition cr : string := String "013" "".

(** [bufio.Scanner]: no empty last line, no carriage return at the end of a line *)
Definition scan_lines (text : string) : list string :=
  let pieces := split_byte newline text in
  let pieces := if bool_decide (last pieces = Some "") then removelast pieces else pieces in
  (λ l, trim_suffix l cr) <$> pieces.

(** The value that [strconv.ParseUint(s, 10, 64)] returns, whatever its error *)
Definition uint_value (s : string) : Z :=
  if bool_decide (s = "") || negb (all_bytes is_digit s) then 0
  else Z.min (digits_value 0 s) (2 ^ 64 - 1).

Definition lines_of (file : option string) : list string := from_option scan_lines [] file.

(** ** Memory, processor, kernel *)

Definition memory_line (key line : string) : option Z :=
  match fields line with
  | name :: value :: _ => if bool_decide (trim_suffix name ":" = key) then Some (Int.uwrap64 (uint_value value * 1024)) else None
  | _ => None
  end.
Definition memInfoValue (meminfo : option string) (key : string) : Z := default 0 (head (omap (memory_line key) (lines_of meminfo))).
Definition memoryTotal (meminfo : option string) : Z := memInfoValue meminfo "MemTotal".
Definition memoryFree (meminfo : option string) : Z := memInfoValue meminfo "MemAvailable".

(** The used memory of [SystemSnapshot] *)
Definition memory_used (meminfo : option string) : Z :=
  if memoryFree meminfo <? memoryTotal meminfo then memoryTotal meminfo - memoryFree meminfo else 0.

Definition model_line `{UnicodeCase} (line : string) : option string :=
  if has_prefix (to_lower line) "model name" then '(_, value) ← cut line ":"; Some (trim_space value) else None.
Definition cpuModelFromCPUInfo `{UnicodeCase} (cpuinfo : option string) : string :=
  default "" (head (omap model_line (lines_of cpuinfo))).
Definition cpu_model `{UnicodeCase} (cpuinfo : option string) : string :=
  let model := cpuModelFromCPUInfo cpuinfo in if bool_decide (model = "") then "unknown" else model.
Definition kernelRelease (osrelease : option string) : string := from_option trim_space "" osrelease.

(** ** Default routes *)

Definition zeros32 : string := "00000000000000000000000000000000".

(** The interface of a line that is a default route *)
Definition default_route (ipv6 : bool) (line : string) : option string :=
  let l := fields line in
  if ipv6 then
    if bool_decide (l !! 0%nat = Some zeros32) && bool_decide (l !! 1%nat = Some "00") then l !! 9%nat else None
  else if bool_decide (l !! 1%nat = Some "00000000") && bool_decide (l !! 7%nat = Some "00000000") then l !! 0%nat else None.

Definition append_unique (out : list string) (name : string) : list string :=
  if bool_decide (name ∈ out) then out else out ++ [name].
Definition parseDefaultRouteInterfaces (text : string) (ipv6 : bool) : list string :=
  let lines := scan_lines text in
  foldl append_unique [] (omap (default_route ipv6) (if ipv6 then lines else tail lines)).

Definition routes_of (file : option string) (ipv6 : bool) : list string :=
  from_option (λ text, parseDefaultRouteInterfaces text ipv6) [] file.
Definition resolveDefaultInterface (route route6 : option string) : string :=
  default "" (head (routes_of route false ++ routes_of route6 true)).
Definition resolveDefaultInterfaces (route route6 : option string) : gset string :=
  list_to_set (routes_of route false ++ routes_of route6 true).

(** ** The monitor *)

Record rawInterfaceStat := { rx : Z; tx : Z; timestamp : time }.
(** The bytes of an interval over its length in nanoseconds *)
Record InterfaceRate := { Interface : string; RXBytes : Z; TXBytes : Z; Elapsed : Z; RXTotal : Z; TXTotal : Z }.
Record NetworkMonitor := { lastRead : gmap string rawInterfaceStat; currentRates : gmap string InterfaceRate; defaultIface : string }.

(** [now name]: the clock when the line of the interface is read *)
Definition read_line (now : string → time) (out : gmap string rawInterfaceStat) (line : string) : gmap string rawInterfaceStat :=
  let l := fields line in
  match l !! 0%nat, l !! 1%nat, l !! 9%nat with
  | Some name, Some r, Some t =>
      let iface := trim_suffix name ":" in
      <[iface := {| rx := uint_value r; tx := uint_value t; timestamp := now iface |}]> out
  | _, _, _ => out
  end.
Definition readProcNetDev (now : string → time) (file : option string) : gmap string rawInterfaceStat :=
  foldl (read_line now) ∅ (drop 2 (lines_of file)).

(** Counters are [uint64]: the difference wraps. *)
Definition rate (iface : string) (previous stat : rawInterfaceStat) : InterfaceRate :=
  {| Interface := iface; RXBytes := Int.uwrap64 (rx stat - rx previous); TXBytes := Int.uwrap64 (tx stat - tx previous);
     Elapsed := timestamp stat - timestamp previous; RXTotal := rx stat; TXTotal := tx stat |}.

Definition measure (last : gmap string rawInterfaceStat) (rates : gmap string InterfaceRate) (kv : string * rawInterfaceStat)
    : gmap string InterfaceRate :=
  match last !! kv.1 with
  | Some previous => if 0 <? timestamp kv.2 - timestamp previous then <[kv.1 := rate kv.1 previous kv.2]> rates else rates
  | None => rates
  end.

Definition tick `{MapRange} (current : gmap string rawInterfaceStat) (resolved : string) (m : NetworkMonitor) : NetworkMonitor :=
  let iface := if bool_decide (defaultIface m = "") then resolved else defaultIface m in
  {| lastRead := current;
     currentRates := foldl (measure (lastRead m)) (currentRates m) (range_map current);
     defaultIface := match current !! iface with
                     | Some _ => iface
                     | None => match range_map current with (first, _) :: _ => first | [] => iface end
                     end |}.

Definition Default (m : NetworkMonitor) : option InterfaceRate :=
  if bool_decide (defaultIface m = "") then None else currentRates m !! defaultIface m.
Definition NewNetworkMonitor `{MapRange} (current : gmap string rawInterfaceStat) (resolved resolved' : string) : NetworkMonitor :=
  tick current resolved' {| lastRead := ∅; currentRates := ∅; defaultIface := resolved |}.
Definition Uptime (startedAt now : time) : Z := (now - startedAt) / second.

(** ** Interfaces *)

Record NetworkAddress := { Address : string; PrefixLength : Z; Family : string }.

(** [net.ParseCIDR] and the size of its mask *)
Definition network_address (text : string) : option NetworkAddress :=
  '(a, _, _, n) ← parse_cidr text;
  Some {| Address := ip_string a; PrefixLength := n; Family := if is_v4 a then "IPv4" else "IPv6" |}.
Definition address_less (x y : NetworkAddress) : bool :=
  if bool_decide (Family x = Family y) then str_ltb (Address x) (Address y) else str_ltb (Family x) (Family y).
Definition addresses `{SortSlice} (texts : list string) : list NetworkAddress := sort_slice address_less (omap network_address texts).

(** [net.FlagUp], ... are the bits of the flags. *)
Definition flag_names : list (Z * string) :=
  [(1, "up"); (2, "broadcast"); (4, "loopback"); (8, "point-to-point"); (16, "multicast"); (32, "running")].
Definition interfaceFlags (flags : Z) : list string :=
  omap (λ '(bit, name), if Z.land flags bit =? 0 then None else Some name) flag_names.

(** [sortStrings]: [exchange x rest] is the inner loop, with [x] at [values[i]] and the
    elements after it; the outer loop goes on with what it leaves. *)
Fixpoint exchange (x : string) (rest : list string) : string * list string :=
  match rest with
  | [] => (x, [])
  | y :: rest =>
      if str_ltb y x then let '(least, rest) := exchange y rest in (least, x :: rest)
      else let '(least, rest) := exchange x rest in (least, y :: rest)
  end.
Fixpoint sort_from (fuel : nat) (values : list string) : list string :=
  match fuel, values with
  | S fuel, x :: rest => let '(least, rest) := exchange x rest in least :: sort_from fuel rest
  | _, _ => values
  end.
Definition sortStrings (values : list string) : list string := sort_from (length values) values.

(** ** What they do *)

Lemma exchange_spec x rest least rest' :
  exchange x rest = (least, rest') → least :: rest' ≡ₚ x :: rest ∧ length rest' = length rest ∧ ∀ y, y ∈ x :: rest → str_le least y.
Proof.
  revert x least rest'. induction rest as [|y rest IH]; intros x least rest' E; cbn [exchange] in E.
  { injection E as <- <-. split_and!; [done..|]. intros y ->%list_elem_of_singleton. apply str_ltb_irrefl. }
  destruct (str_ltb y x) eqn:Hyx.
  - destruct (exchange y rest) as [l r] eqn:Ee. injection E as <- <-. destruct (IH _ _ _ Ee) as (Hp & Hl & Hmin). split_and!.
    + rewrite Permutation_swap, Hp. done.
    + cbn. by rewrite Hl.
    + intros z [->|Hz]%elem_of_cons; [|by apply Hmin].
      etrans; [apply Hmin; left|]. unfold str_le. destruct (str_ltb x y) eqn:E; [|done].
      pose proof (str_ltb_trans _ _ _ Hyx E) as H. by rewrite str_ltb_irrefl in H.
  - destruct (exchange x rest) as [l r] eqn:Ee. injection E as <- <-. destruct (IH _ _ _ Ee) as (Hp & Hl & Hmin). split_and!.
    + rewrite Permutation_swap, Hp. apply Permutation_swap.
    + cbn. by rewrite Hl.
    + intros z [->|[->|Hz]%elem_of_cons]%elem_of_cons; [apply Hmin; left| |apply Hmin; by right].
      etrans; [apply Hmin; left|]. exact Hyx.
Qed.

(** The loop of the code is a sort. *)
Lemma sort_strings_spec values : sortStrings values = sort_strings values.
Proof.
  unfold sortStrings. assert (∀ fuel l, length l = fuel → sort_from fuel l ≡ₚ l ∧ StronglySorted str_le (sort_from fuel l)) as H.
  { induction fuel as [|fuel IH]; intros [|x l] Hl; cbn [sort_from]; try done; [split; [done|constructor]..|].
    injection Hl as Hl. destruct (exchange x l) as [least rest] eqn:E. destruct (exchange_spec _ _ _ _ E) as (Hp & Hn & Hmin).
    destruct (IH rest ltac:(congruence)) as [H1 H2]. split; [by rewrite H1|]. constructor; [done|]. apply Forall_forall.
    intros y Hy. apply Hmin. rewrite <- Hp. right. by rewrite <- H1. }
  destruct (H (length values) values eq_refl) as [Hp Hs].
  apply (StronglySorted_unique str_le); [exact Hs|apply sort_strings_sorted|]. by rewrite Hp, sort_strings_perm.
Qed.

Lemma append_unique_spec l acc : NoDup acc →
  NoDup (foldl append_unique acc l) ∧ ∀ x, x ∈ foldl append_unique acc l ↔ x ∈ acc ∨ x ∈ l.
Proof.
  revert acc. induction l as [|y l IH]; intros acc Ha; cbn [foldl].
  { split; [done|]. intros x. rewrite elem_of_nil. tauto. }
  unfold append_unique at 2 4. case_bool_decide as Hy.
  - destruct (IH acc Ha) as [H1 H2]. split; [done|]. intros x. rewrite H2, elem_of_cons. naive_solver.
  - destruct (IH (acc ++ [y])) as [H1 H2].
    { apply NoDup_app. split; [done|]. split; [|apply NoDup_singleton]. intros x Hx ->%list_elem_of_singleton. done. }
    split; [done|]. intros x. rewrite H2, elem_of_app, list_elem_of_singleton, elem_of_cons. tauto.
Qed.

Lemma default_routes_spec text ipv6 :
  NoDup (parseDefaultRouteInterfaces text ipv6) ∧
  ∀ name, name ∈ parseDefaultRouteInterfaces text ipv6 ↔
    ∃ line, line ∈ (if ipv6 then scan_lines text else tail (scan_lines text)) ∧ default_route ipv6 line = Some name.
Proof.
  unfold parseDefaultRouteInterfaces. cbn zeta. set (l := if ipv6 then _ else _).
  destruct (append_unique_spec (omap (default_route ipv6) l) [] NoDup_nil_2) as [H1 H2].
  split; [exact H1|]. intros name. rewrite H2, elem_of_nil, list_elem_of_omap. tauto.
Qed.

(** A tick measures every interface that was there before, over the time since, and keeps
    the older rates of the others. *)
Lemma tick_rates `{MapRangeLaws} current resolved m iface stat :
  current !! iface = Some stat →
  currentRates (tick current resolved m) !! iface =
    match lastRead m !! iface with
    | Some previous => if 0 <? timestamp stat - timestamp previous then Some (rate iface previous stat) else currentRates m !! iface
    | None => currentRates m !! iface
    end.
Proof.
  intros Hs. cbn [tick currentRates]. set (l := range_map current).
  assert (NoDup l.*1) as Hn by (unfold l; rewrite (law_range _ current); apply NoDup_fst_map_to_list).
  assert ((iface, stat) ∈ l) as Hin by (unfold l; rewrite (law_range _ current); by apply elem_of_map_to_list).
  assert (∀ l acc, iface ∉ l.*1 → foldl (measure (lastRead m)) acc l !! iface = acc !! iface) as Hother.
  { clear. induction l as [|[k x] l IH]; intros acc Hl; cbn [foldl]; [done|]. cbn in Hl. apply not_elem_of_cons in Hl as [Hk Hl].
    rewrite IH by done. unfold measure. cbn [fst]. repeat case_match; by rewrite ?lookup_insert_ne by done. }
  revert Hn Hin. generalize (currentRates m). induction l as [|[k x] l IH]; intros acc Hn Hin; [by apply elem_of_nil in Hin|].
  cbn in Hn. apply NoDup_cons in Hn as [Hk Hn]. cbn [foldl]. apply elem_of_cons in Hin as [[= <- <-]|Hin].
  - rewrite Hother by done. unfold measure. cbn [fst snd]. repeat case_match; by rewrite ?lookup_insert_eq.
  - assert (k ≠ iface) as Hne by (intros ->; apply Hk; apply list_elem_of_fmap; by exists (iface, stat)).
    rewrite IH by done. unfold measure at 1 2. cbn [fst]. destruct (lastRead m !! k) as [p|]; [|done]. destruct (0 <? _); [|done].
    by rewrite lookup_insert_ne.
Qed.

Example route_examples :
  let nl := String newline "" in
  parseDefaultRouteInterfaces ("Iface Destination" +:+ nl +:+ "eth0 00000000 0100A8C0 0003 0 0 0 00000000 0 0" +:+ nl +:+
    "eth1 0000A8C0 00000000 0001 0 0 0 00FFFFFF 0 0" +:+ nl) false = ["eth0"] ∧
  memoryTotal (Some ("MemTotal:       1024 kB" +:+ nl +:+ "MemFree: 1 kB" +:+ nl)) = 1048576 ∧ interfaceFlags 19 = ["up"; "broadcast"; "multicast"].
Proof. vm_compute. done. Qed.
End SystemStats.
