(* ===== verification/Auth.v ===== *)
(** * Authentication of the panel ([internal/auth])

    The verification of a bearer token (a JWT signed with RS256 by the key of the secret
    payload) and the server name that a node with SNI checks.  Keys, RSA, X.509 and PEM are
    the interface [Keys]; base64 is executable; JSON is [TokenJson]. *)
From S2P Require Import Prelude GoStr GoTime GoAny Base64 SingBoxConfig.

Module Auth.

(** [pem_decode]: the bytes of the first block; [cert_key]: the key of a certificate, when
    the bytes are one ([None] inside when it is not an RSA key); [rsa_ok key message
    signature]: [VerifyPKCS1v15] of the SHA-256 of the message. *)
Class Keys (K : Type) := {
  pem_decode : string → option string;
  cert_key : string → option (option K);
  pkcs1_key : string → option K;
  pkix_key : string → result (option K);
  marshal_pkix : string → result string;
  parse_cert : string → result string;
  rsa_ok : K → string → string → bool
}.

(** [encoding/json]: the ["alg"] of a header, the claims of a payload *)
Class TokenJson := {
  header_alg : string → result string;
  token_claims : string → result object
}.

Section auth.
Context {K : Type} {KeysI : Keys K} {TokenI : TokenJson} {CaseI : UnicodeCase} {DigestI : SingBoxConfig.Digest}.

Definition NewVerifier (publicKeyPEM : string) : result K :=
  match pem_decode publicKeyPEM with
  | None => Err (ErrMsg "jwt public key PEM is invalid")
  | Some block =>
      match cert_key block with
      | Some (Some key) => Ok key
      | Some None => Err (ErrMsg "jwt certificate public key is not RSA")
      | None =>
          match pkcs1_key block with
          | Some key => Ok key
          | None =>
              match pkix_key block with
              | Err e => Err (ErrWrap "jwt public key is invalid" e)
              | Ok None => Err (ErrMsg "jwt public key is not RSA")
              | Ok (Some key) => Ok key
              end
          end
      end
  end.

Definition numericClaim (value : any) : option Z :=
  match value with
  | AFloat f => Some (int_of_float f)
  | AInt n => Some n
  | _ => None
  end.

Definition decode_part (part what : string) : result string :=
  match b64_decode part with Some raw => Ok raw | None => Err (ErrMsg ("jwt " +:+ what +:+ " is invalid base64url")) end.
Definition or_msg {A} (r : result A) (msg : string) : result A :=
  match r with Ok x => Ok x | Err _ => Err (ErrMsg msg) end.

(** [now]: seconds since the epoch *)
Definition check_times (claims : object) (now : Z) : result unit :=
  _ ← match numericClaim (field claims "exp") with
      | Some exp => fail_if (exp <=? now)%Z (ErrMsg "jwt expired")
      | None => Ok tt
      end;
  match numericClaim (field claims "nbf") with
  | Some nbf => fail_if (now <? nbf)%Z (ErrMsg "jwt not active yet")
  | None => Ok tt
  end.

Definition Verify (key : K) (now : Z) (token : string) : result object :=
  match split_byte "." token with
  | [p0; p1; p2] =>
      headerRaw ← decode_part p0 "header";
      alg ← or_msg (header_alg headerRaw) "jwt header is invalid JSON";
      _ ← fail_if (negb (bool_decide (alg = "RS256"))) (ErrMsg ("unsupported jwt algorithm: " +:+ alg));
      signature ← decode_part p2 "signature";
      _ ← fail_if (negb (rsa_ok key (p0 +:+ "." +:+ p1) signature)) (ErrMsg "jwt signature verification failed");
      payloadRaw ← decode_part p1 "payload";
      claims ← or_msg (token_claims payloadRaw) "jwt payload is invalid JSON";
      _ ← check_times claims now;
      Ok claims
  | _ => Err (ErrMsg "jwt must have three parts")
  end.

(** ** The server name *)

Definition nodeAPISNIPrefix : string := "rw-".
Definition nodeAPISNISuffix : string := ".node.invalid".

Definition normalizeServerName (value : string) : string := trim_suffix (to_lower (trim_space value)) ".".

(** [marshal_pkix] parses the key, PKIX before PKCS #1, and encodes it again. *)
Definition DeriveNodeAPIServerName (caCertPEM jwtPublicKeyPEM : string) : result string :=
  match pem_decode caCertPEM with
  | None => Err (ErrMsg "CA certificate is not valid PEM")
  | Some ca =>
      match parse_cert ca with
      | Err e => Err (ErrWrap "parse CA certificate" e)
      | Ok raw =>
          match pem_decode jwtPublicKeyPEM with
          | None => Err (ErrMsg "JWT public key is not valid PEM")
          | Some block =>
              match marshal_pkix block with
              | Err e => Err (ErrWrap "parse JWT public key" e)
              | Ok der => Ok (nodeAPISNIPrefix +:+ SingBoxConfig.sha256_hex (raw +:+ der) +:+ nodeAPISNISuffix)
              end
          end
      end
  end.

(** Digests are compared, in constant time. *)
Definition NodeAPIServerNameMatches (expected actual : string) : bool :=
  bool_decide (SingBoxConfig.sha256_hex (normalizeServerName expected) = SingBoxConfig.sha256_hex (normalizeServerName actual)).

(** [GetConfigForClient] of a node that checks the server name *)
Definition client_hello (enabled : bool) (expected serverName : string) : result unit :=
  fail_if (enabled && negb (NodeAPIServerNameMatches expected serverName)) (ErrMsg "invalid Node API server name").

End auth.
End Auth.
