(* ===== verification/HttpApi.v ===== *)
(** * The HTTP API ([internal/httpapi])

    The routes, and what happens to a request before a method of the manager is called:
    the bearer token, the decoding of the body into the type of the request, its validation,
    the refusal of statistics resets.  Calls of the manager are named by [endpoint]; the
    components model what they do.  Decompression and JSON are the interface [Bodies]. *)
From S2P Require Import Prelude GoStr GoTime GoNet GoAny UsageStore AccessAudit SingBoxConfig Users Lifecycle Plugin ForwardRules ForwardRender Forwarding ForwardManager Benchmark Geocheck Auth.
Import Auth.

Module HttpApi.

Definition maxRequestBodySize : Z := 1073741824.

Inductive endpoint :=
| AuditConfig | AuditPull | AuditAck | AuditStatus
| BenchmarkStart | BenchmarkCancel | BenchmarkGet
| CoreStart | CoreStop | CoreHealthcheck
| ForwardingValidate | ForwardingSync | ForwardingStatus
| AddUser | GetInboundUsers | RemoveUser | GetInboundUsersCount | AddUsers | RemoveUsers
| DropUsersConnections | DropIPs
| GetUserOnlineStatus | GetSystemStats | GetGeocheck
| GetUsersStats | GetUsersInboundStats | GetInboundStats | GetOutboundStats
| GetAllInboundStats | GetAllOutboundStats | GetCombinedStats
| SnapshotsActivate | SnapshotsPull | SnapshotsAck | SnapshotsStatus
| GetUserIPList | GetUsersIPList
| PluginSync | PluginCompile | BlockIPs | UnblockIPs | RecreateTables.

#[export] Instance endpoint_eq_dec : EqDecision endpoint.
Proof. solve_decision. Defined.

(** A route: method, path, what it calls, whether it reads a body *)
Record Route := { method : string; path : string; calls : endpoint; reads_body : bool }.
Definition POST (p : string) (e : endpoint) : Route := {| method := "POST"; path := p; calls := e; reads_body := true |}.
Definition bare (m p : string) (e : endpoint) : Route := {| method := m; path := p; calls := e; reads_body := false |}.

Definition registerAccessAudit : list Route :=
  [POST "/node/access-audit/config" AuditConfig; POST "/node/access-audit/pull" AuditPull;
   POST "/node/access-audit/ack" AuditAck; bare "GET" "/node/access-audit/status" AuditStatus].

(** The path [{id}] is one segment. *)
Definition benchmark_routes : list Route :=
  [POST "/node/benchmarks/start" BenchmarkStart; POST "/node/benchmarks/cancel" BenchmarkCancel; bare "GET" "/node/benchmarks/{id}" BenchmarkGet].
Definition core_routes : list Route :=
  [POST "/node/core/start" CoreStart; bare "GET" "/node/core/stop" CoreStop; bare "GET" "/node/core/healthcheck" CoreHealthcheck].
Definition forwarding_routes : list Route :=
  [POST "/node/forwarding/validate" ForwardingValidate; POST "/node/forwarding/sync" ForwardingSync;
   bare "GET" "/node/forwarding/status" ForwardingStatus].
Definition handler_routes : list Route :=
  [POST "/node/handler/add-user" AddUser; POST "/node/handler/get-inbound-users" GetInboundUsers;
   POST "/node/handler/remove-user" RemoveUser; POST "/node/handler/get-inbound-users-count" GetInboundUsersCount;
   POST "/node/handler/add-users" AddUsers; POST "/node/handler/remove-users" RemoveUsers;
   POST "/node/handler/drop-users-connections" DropUsersConnections; POST "/node/handler/drop-ips" DropIPs].
Definition stats_routes : list Route :=
  [POST "/node/stats/get-user-online-status" GetUserOnlineStatus; bare "GET" "/node/stats/get-system-stats" GetSystemStats;
   POST "/node/stats/get-geocheck" GetGeocheck; POST "/node/stats/get-users-stats" GetUsersStats;
   POST "/node/stats/get-users-inbound-stats" GetUsersInboundStats; POST "/node/stats/get-inbound-stats" GetInboundStats;
   POST "/node/stats/get-outbound-stats" GetOutboundStats; POST "/node/stats/get-all-inbounds-stats" GetAllInboundStats;
   POST "/node/stats/get-all-outbounds-stats" GetAllOutboundStats; POST "/node/stats/get-combined-stats" GetCombinedStats].
Definition snapshot_routes : list Route :=
  [bare "POST" "/node/stats/usage-snapshots/activate" SnapshotsActivate; POST "/node/stats/usage-snapshots/pull" SnapshotsPull;
   POST "/node/stats/usage-snapshots/ack" SnapshotsAck; bare "GET" "/node/stats/usage-snapshots/status" SnapshotsStatus].
Definition ip_routes : list Route :=
  [POST "/node/stats/get-user-ip-list" GetUserIPList; bare "GET" "/node/stats/get-users-ip-list" GetUsersIPList].
Definition plugin_routes : list Route :=
  [POST "/node/plugin/sync" PluginSync; POST "/node/plugin/compile" PluginCompile;
   POST "/node/plugin/nftables/block-ips" BlockIPs; POST "/node/plugin/nftables/unblock-ips" UnblockIPs;
   bare "POST" "/node/plugin/nftables/recreate-tables" RecreateTables].
Definition registerPublic : list Route :=
  registerAccessAudit ++ benchmark_routes ++ core_routes ++ forwarding_routes ++ handler_routes ++ stats_routes ++ snapshot_routes ++
  ip_routes ++ plugin_routes.

(** [http.ServeMux]: a segment in braces matches any non-empty one; [GET] also serves [HEAD]. *)
Definition segment_matches (pattern s : string) : bool :=
  if has_prefix pattern "{" then negb (bool_decide (s = "")) else bool_decide (pattern = s).
Fixpoint segments_match (patterns segments : list string) : bool :=
  match patterns, segments with
  | [], [] => true
  | p :: ps, s :: ss => segment_matches p s && segments_match ps ss
  | _, _ => false
  end.
Definition method_matches (registered m : string) : bool :=
  bool_decide (registered = m) || (bool_decide (registered = "GET") && bool_decide (m = "HEAD")).
Definition route_matches (m p : string) (r : Route) : bool :=
  method_matches (method r) m && segments_match (split_byte "/" (path r)) (split_byte "/" p).
Definition find_route (m p : string) : option Route := head (filter (λ r, route_matches m p r = true) registerPublic).

Record Request := {
  req_method : string; req_path : string; Authorization : string; Content_Encoding : string;
  body : string; RemoteAddr : string }.

(** The body that an endpoint reads *)
Definition body_type (e : endpoint) : Type :=
  match e with
  | AuditConfig => AccessAudit.Config
  | AuditPull => Z
  | AuditAck => string * Z
  | BenchmarkStart => Benchmark.Request
  | BenchmarkCancel => string
  | CoreStart => Lifecycle.StartRequest
  | ForwardingValidate | ForwardingSync => FwManager.SyncRequest
  | AddUser => Users.AddUserRequest
  | GetInboundUsers | GetInboundUsersCount => string
  | RemoveUser => Users.RemoveUserRequest
  | AddUsers => Users.AddUsersRequest
  | RemoveUsers => Users.RemoveUsersRequest
  | DropUsersConnections | DropIPs | UnblockIPs => list string
  | GetUserOnlineStatus | GetUserIPList => string
  | GetGeocheck => Geocheck.Request
  | GetUsersStats | GetUsersInboundStats | GetAllInboundStats | GetAllOutboundStats | GetCombinedStats => bool
  | GetInboundStats | GetOutboundStats => string * bool
  | SnapshotsPull => UsageStore.PullRequest
  | SnapshotsAck => UsageStore.AckRequest
  | PluginSync | PluginCompile => Plugin.PluginSyncRequest
  | BlockIPs => list Users.BlockIP
  | _ => unit
  end.

Definition require (value msg : string) : result unit := fail_if (bool_decide (value = "")) (ErrMsg msg).

(** The method [Validate] of a request that has one *)
Definition validate (e : endpoint) : body_type e → result unit :=
  match e with
  | CoreStart => λ r, Users.validate_start (Lifecycle.CoreType r) (Lifecycle.req_SingBoxConfig r)
  | AddUser => Users.validate_add_user
  | RemoveUser => Users.validate_remove_user
  | AddUsers => Users.validate_add_users
  | RemoveUsers => Users.validate_remove_users
  | GetInboundUsers | GetInboundUsersCount => λ tag, require tag "tag is required"
  | DropUsersConnections => Users.validate_drop_users
  | DropIPs | UnblockIPs => Users.validateIPs
  | GetUserOnlineStatus => λ username, require username "username is required"
  | GetInboundStats | GetOutboundStats => λ r, require r.1 "tag is required"
  | GetUserIPList => λ userID, require userID "userId is required"
  | BlockIPs => Users.validate_block_ips
  | _ => λ _, Ok tt
  end.

(** The field [Reset] of a query of statistics *)
Definition is_reset (e : endpoint) : body_type e → bool :=
  match e with
  | GetUsersStats | GetUsersInboundStats | GetAllInboundStats | GetAllOutboundStats | GetCombinedStats => λ r, r
  | GetInboundStats | GetOutboundStats => λ r, r.2
  | _ => λ _, false
  end.

(** What comes back: the answer of a middleware, or a call of the manager with the decoded
    body. *)
Inductive outcome :=
| NoRoute
| Reply (status : Z) (message : string)
| Call (e : endpoint) (b : option (body_type e)).

(** [zstd] and [json.Unmarshal] into the type of the endpoint *)
Class Bodies := {
  zstd_decode : string → result string;
  unmarshal : ∀ e, string → result (body_type e)
}.

(** [http.MaxBytesReader] *)
Definition body_limit (e : endpoint) : option Z :=
  match e with
  | BenchmarkStart => Some 32768%Z
  | AuditConfig | AuditPull | AuditAck => Some 2097152%Z
  | _ => None
  end.

Section api.
Context {K : Type} {KeysI : Keys K} {TokenI : TokenJson} {CaseI : UnicodeCase} {PrintI : UnicodePrint} {BodiesI : Bodies}.

Definition requireJWT (key : K) (now : Z) (header : string) : result unit :=
  let token := trim_prefix header "Bearer " in
  if bool_decide (token = header) || bool_decide (token = "") then Err (ErrMsg "missing bearer token")
  else _ ← Verify key now token; Ok tt.

Definition decodeRequestBody (limit : option Z) (encoding raw : string) : result string :=
  _ ← fail_if (match limit with Some n => (n <? slen raw)%Z | None => false end) (ErrMsg "http: request body too large");
  let encoding := trim_space (to_lower encoding) in
  payload ← (if bool_decide (encoding = "") || bool_decide (encoding = "identity") then Ok raw
             else if bool_decide (encoding = "zstd") then zstd_decode raw
             else Err (ErrMsg ("unsupported content encoding: " +:+ encoding)));
  _ ← fail_if (maxRequestBodySize <? slen payload)%Z (ErrMsg "request body exceeds 1073741824 bytes");
  _ ← fail_if (bool_decide (trim_space payload = "")) ErrEOF;
  Ok payload.

(** The decoded body, or the message of the refusal *)
Definition decodeJSON (e : endpoint) (r : Request) : body_type e + string :=
  match (payload ← decodeRequestBody (body_limit e) (Content_Encoding r) (body r); unmarshal e payload) with
  | Err _ => inr "invalid JSON body"
  | Ok b => match validate e b with Ok _ => inl b | Err err => inr (Service.Error err) end
  end.

Definition is_audit (e : endpoint) : bool := bool_decide (e ∈ [AuditConfig; AuditPull; AuditAck; AuditStatus]).

(** A handler up to its call of the manager *)
Definition handler (has_audit snapshots_active : bool) (route : Route) (r : Request) : outcome :=
  let e := calls route in
  if is_audit e && negb has_audit then Reply 501 "Access audit is unavailable"
  else if negb (reads_body route) then Call e None
  else match decodeJSON e r with
       | inr msg => Reply 400 msg
       | inl b =>
           if is_reset e b && snapshots_active
           then Reply 409 "reset-based statistics are disabled while usage_snapshot_v1 is active"
           else Call e (Some b)
       end.

Definition serve (key : K) (now : Z) (has_audit snapshots_active : bool) (r : Request) : outcome :=
  match find_route (req_method r) (req_path r) with
  | None => NoRoute
  | Some route =>
      match requireJWT key now (Authorization r) with
      | Err e => Reply 401 (Service.Error e)
      | Ok _ => handler has_audit snapshots_active route r
      end
  end.

(** [requireInternalToken]: the connection is closed, or the configuration is sent. *)
Definition requireInternalToken (configured token : string) : bool :=
  negb (bool_decide (token = "")) && bool_decide (token = configured).

Definition clientIP (r : Request) : string :=
  match split_host_port (RemoteAddr r) with Some (host, _) => host | None => RemoteAddr r end.

(** [writeForwardingError]: status and code *)
Definition writeForwardingError (e : error) : Z * string :=
  if error_chain (λ e, match e with ErrConflict _ _ _ _ => true | _ => false end) e
  then (409%Z, "FORWARDING_PORT_CONFLICT") else (422%Z, "FORWARDING_APPLY_FAILED").

Definition is_busy : error → bool := error_chain (λ e, match e with ErrBusy => true | _ => false end).

(** The status of the answer when the call fails; the calls that are missing do not fail. *)
Definition error_status (e : endpoint) (err : error) : Z :=
  match e with
  | AuditConfig => 422
  | AuditPull | AuditStatus => 500
  | AuditAck => 409
  | BenchmarkStart | GetGeocheck => if is_busy err then 409 else 422
  | BenchmarkGet => 404
  | ForwardingValidate | ForwardingSync => (writeForwardingError err).1
  | GetSystemStats | SnapshotsActivate | SnapshotsStatus => 503
  | SnapshotsPull | SnapshotsAck => 409
  | _ => 200
  end.

End api.
End HttpApi.
