(* ===== verification/Sockets.v ===== *)
(** * The sockets of a configuration

    What a configuration of the core listens on: the pairs of protocol and port among
    [ExtractCoreListeners].  The changes that the agent itself makes to a document leave them
    alone: the JSON round trip ([sockets_clone]), its API sections and user names, and the
    users that it adds and removes ([sockets_like]). *)
From S2P Require Import Prelude GoStr GoAny GoSort StatName RuntimeState NodeConfig SingBoxConfig ConfigSpec Users Activation ActivationSpec Lifecycle LifecycleSpec ForwardRules.
Import NodeConfig SingBoxConfig Users Forward.

Section sockets.
Context {CaseI : UnicodeCase}.

Definition socket_of (l : Listener) : string * Z := (ls_Protocol l, ls_Port l).
Definition sockets (config : object) : list (string * Z) :=
  socket_of <$> ExtractCoreListeners RuntimeState.CoreTypeSingBox config.

(** The sockets of one inbound: its place in the list only shows in the names of listeners. *)
Definition socks_of (v : any) : list (string * Z) := socket_of <$> inbound_listeners RuntimeState.CoreTypeSingBox 0 v.

Lemma socks_index v i : socket_of <$> inbound_listeners RuntimeState.CoreTypeSingBox i v = socks_of v.
Proof.
  unfold socks_of, inbound_listeners. destruct v as [| | | | | |m]; try done. destruct (_ || _); [done|].
  rewrite <-!list_fmap_compose. by apply list_fmap_ext.
Qed.

Lemma join_imap {A B C} (f : nat → A → list B) (g : A → list C) (h : B → C) l :
  (∀ i x, h <$> f i x = g x) → h <$> mjoin (imap f l) = mjoin (g <$> l).
Proof.
  revert f. induction l as [|x l IH]; intros f Hf; [done|]. cbn. rewrite fmap_app, Hf. f_equal. apply (IH (f ∘ S)). intros i y. apply Hf.
Qed.

Lemma sockets_inbounds config : sockets config = mjoin (socks_of <$> asAnySlice (field config "inbounds")).
Proof. apply join_imap. intros i v. apply socks_index. Qed.

(** ** What decides them *)

Definition socket_fields : list string := ["network"; "type"; "protocol"; "listen"; "listen_port"; "listenPort"; "port"].

Lemma socks_fields i i' : (∀ k, k ∈ socket_fields → field i' k = field i k) → socks_of (AObj i') = socks_of (AObj i).
Proof.
  intros H. unfold socks_of, inbound_listeners, listen_port, inferProtocols.
  rewrite (H "network"), (H "type"), (H "protocol"), (H "listen"), (H "listen_port"), (H "listenPort"), (H "port")
    by (unfold socket_fields; set_solver).
  destruct (_ || _); [done|]. rewrite <-!list_fmap_compose. by apply list_fmap_ext.
Qed.

(** Documents on which a JSON round trip does not touch what decides the sockets *)
Definition tidy_inbound (v : any) : Prop :=
  match v with AObj i => clean_keys i ∧ ∀ k, k ∈ socket_fields → clean_any (field i k) = true | _ => True end.
Definition tidy (config : object) : Prop :=
  clean_keys config ∧ ∀ v, v ∈ asAnySlice (field config "inbounds") → tidy_inbound v.

Lemma clean_clean_keys m : clean_object m → clean_keys m.
Proof. intros Hm k x Hx. by apply (Hm k x). Qed.
Lemma clean_tidy config : clean_object config → tidy config.
Proof.
  intros Hc. split; [by apply clean_clean_keys|]. intros v Hv. pose proof (clean_field _ "inbounds" Hc) as Hl.
  destruct (field config "inbounds") as [| | | | |l|]; try by apply not_elem_of_nil in Hv.
  cbn [clean_any asAnySlice] in Hl, Hv. rewrite forallb_elem_of in Hl. specialize (Hl v Hv). destruct v as [| | | | | |i]; try done.
  apply clean_obj in Hl. split; [by apply clean_clean_keys|]. intros k _. by apply clean_field.
Qed.

Lemma json_clone_obj m : json_clone (AObj m) = AObj (cloneMap m).
Proof. done. Qed.

Lemma socks_clone v : tidy_inbound v → socks_of (json_clone v) = socks_of v.
Proof.
  destruct v as [| | | | | |i]; try done. intros [Hk Hf]. rewrite json_clone_obj. apply socks_fields. intros k Hin.
  rewrite field_clone by exact Hk. by apply json_clone_id, Hf.
Qed.

Lemma sockets_clone config : tidy config → sockets (cloneMap config) = sockets config.
Proof.
  intros [Hk Hv]. rewrite !sockets_inbounds, field_clone by exact Hk.
  destruct (field config "inbounds") as [| | | | |l|]; try done. cbn [json_clone asAnySlice] in *. f_equal.
  rewrite <-list_fmap_compose. apply list_fmap_ext. intros n v Hn.
  apply list_elem_of_lookup_2 in Hn. by apply socks_clone, Hv.
Qed.

(** ** Changes that leave them alone *)

Definition like_inbound (v v' : any) : Prop :=
  v' = v ∨ ∃ i i', v = AObj i ∧ v' = AObj i' ∧ (clean_keys i → clean_keys i') ∧ ∀ k, k ∈ socket_fields → field i' k = field i k.
Definition like (c c' : object) : Prop :=
  (clean_keys c → clean_keys c') ∧
  Forall2 like_inbound (asAnySlice (field c "inbounds")) (asAnySlice (field c' "inbounds")).

Lemma like_sockets c c' : like c c' → sockets c' = sockets c ∧ (tidy c → tidy c').
Proof.
  intros [Hk F]. split.
  - rewrite !sockets_inbounds. clear Hk. induction F as [|v v' l l' Hv F IH]; [done|]. cbn [fmap list_fmap mjoin list_join]. f_equal; [|exact IH].
    destruct Hv as [->|(i & i' & -> & -> & _ & Hf)]; [done|by apply socks_fields].
  - intros [H1 H2]. split; [by apply Hk|]. intros v' Hv'. apply list_elem_of_lookup_1 in Hv' as [n Hn].
    destruct (Forall2_lookup_r _ _ _ _ _ F Hn) as (v & Hv & Hl). apply list_elem_of_lookup_2 in Hv. specialize (H2 v Hv).
    destruct Hl as [->|(i & i' & -> & -> & Hki & Hf)]; [done|]. destruct H2 as [Hc Hs].
    split; [by apply Hki|]. intros k Hin. rewrite Hf by done. by apply Hs.
Qed.

Lemma like_same c c' : (clean_keys c → clean_keys c') → field c' "inbounds" = field c "inbounds" → like c c'.
Proof. intros Hk Hf. split; [done|]. rewrite Hf. apply Forall2_same_length_lookup_2; [done|]. intros n x y Hx Hy. left. congruence. Qed.

Lemma like_insert_inbound k v i : k ∉ socket_fields → utf8_clean k = k → like_inbound (AObj i) (AObj (<[k := v]> i)).
Proof.
  intros Hk Hc. right. exists i, (<[k := v]> i). split_and!; try done; [by intros; apply clean_keys_insert|].
  intros k' Hin. apply field_insert_ne. by intros ->.
Qed.
Lemma users_free : "users" ∉ socket_fields.
Proof. unfold socket_fields. rewrite !elem_of_cons, elem_of_nil. intros H. repeat (destruct H as [H|H]; [done|]). done. Qed.
Hint Resolve users_free : core.

Lemma like_update f config : (∀ i, like_inbound (AObj i) (AObj (f i))) → like config (update_field "inbounds" f config).
Proof.
  intros Hf. split.
  - intros Hk. unfold update_field. destruct (config !! "inbounds") as [v|] eqn:E; [|done]. by apply clean_keys_insert.
  - rewrite field_update_field. destruct (field config "inbounds") as [| | | | |l|]; try constructor. cbn [update_objects asAnySlice].
    apply Forall2_fmap_r. apply Forall2_same_length_lookup_2; [done|]. intros n x y Hx Hy. assert (y = x) as -> by congruence.
    destruct x; try (by left). apply Hf.
Qed.

Lemma like_encode config : like config (encodeSingBoxConfigUsers config).
Proof. apply like_update. intros i. unfold encode_inbound. case_bool_decide; [by left|by apply like_insert_inbound]. Qed.
Lemma like_remove username config : like config (removeSingBoxUser username config).
Proof. apply like_update. intros i. by apply like_insert_inbound. Qed.

Lemma like_add config item config' : addSingBoxUser config item = Ok config' → like config config'.
Proof.
  intros E. unfold addSingBoxUser in E. bind_as E l Hl. injection E as <-. split; [by intros; apply clean_keys_insert|].
  rewrite field_insert_eq. cbn [asAnySlice]. revert l Hl. induction (asAnySlice (field config "inbounds")) as [|v l0 IH]; intros l Hl; [done|].
  assert (∀ v0, (rest ← add_to_inbounds item l0; Ok (v0 :: rest)) = Ok l → Forall2 like_inbound (v0 :: l0) l) as Hrest.
  { intros v0 E0. bind_as E0 rest Hr. injection E0 as <-. constructor; [by left|by apply IH]. }
  destruct v as [| | | | | |i]; try (by apply Hrest). cbn [add_to_inbounds] in Hl. case_bool_decide; [|by apply Hrest].
  bind_as Hl i' Hi. injection Hl as <-. unfold add_to_inbound in Hi. bind_as Hi user Hu. injection Hi as <-.
  constructor; [by apply like_insert_inbound|]. apply Forall2_same_length_lookup_2; [done|]. intros n x y Hx Hy. left. congruence.
Qed.

Lemma like_apply `{Digest} cfg config : like config (applySingBoxAPIConfig cfg config).
Proof.
  unfold applySingBoxAPIConfig. destruct (_ || _); [by apply like_same|]. destruct (like_encode config) as [Hk F].
  split.
  - intros Hc. unfold with_audit_service. destruct (_ <? _)%Z; repeat (apply clean_keys_insert; [|done]); by apply Hk.
  - rewrite with_audit_service_field, field_insert_ne by done. exact F.
Qed.

(** Renaming keys and values to their canonical names keeps a document clean. *)
Lemma mapped_key_clean k : utf8_clean k = k → utf8_clean (mapped_key k) = mapped_key k.
Proof. intros Hk. unfold mapped_key, singBoxKeyAliases. repeat case_bool_decide; done. Qed.

Lemma normalize_clean `{MapRangeLaws} v : clean_any v = true → clean_any (normalizeSingBoxValue v) = true.
Proof.
  induction v as [| | | | |l IH|m IH] using any_ind_nested; try done.
  - cbn [normalizeSingBoxValue clean_any]. rewrite !forallb_elem_of. intros Hl x (y & -> & Hy)%list_elem_of_fmap. by apply IH, Hl.
  - cbn [normalizeSingBoxValue]. rewrite !clean_obj. intros Hm k x (k0 & Hin & <-)%rekey_inv.
    rewrite (law_range _ _) in Hin. apply elem_of_map_to_list in Hin. rewrite lookup_fmap in Hin.
    destruct (m !! k0) as [y|] eqn:E; [|done]. injection Hin as <-. destruct (Hm _ _ E) as [H1 H2].
    split; [by apply mapped_key_clean|by eapply IH].
Qed.

Lemma normalize_keys_clean `{MapRangeLaws} config : clean_object config → clean_object (normalizeSingBoxKeys (AObj config)).
Proof. intros Hc%clean_obj%normalize_clean. unfold normalizeSingBoxKeys. cbn [normalizeSingBoxValue] in *. by apply clean_obj. Qed.

(** The document that [Start] checks against the forwarding rules is tidy, and what it puts
    in place has its sockets. *)
Lemma start_document `{Digest} `{MapRangeLaws} cfg config :
  tidy (applySingBoxAPIConfig cfg (normalizeSingBoxKeys (AObj (cloneMap config)))).
Proof. apply (like_sockets _ _ (like_apply cfg _)), clean_tidy, normalize_keys_clean, cloneMap_clean. Qed.

Lemma built_sockets `{Digest} cfg config : tidy config → tidy (built cfg config) ∧ sockets (built cfg config) = sockets config.
Proof.
  intros Ht. destruct (like_sockets _ _ (like_apply cfg (cloneMap config))) as [E1 E2]. unfold built. split.
  - apply E2, clean_tidy, cloneMap_clean.
  - rewrite E1. by apply sockets_clone.
Qed.

(** A document read back over an older one with the same sockets *)
Lemma sockets_over c old : tidy c → sockets old = sockets c → sockets (cloneMap c ∪ old) = sockets c.
Proof.
  intros Ht Ho. assert (∀ m m' : object, field m "inbounds" = field m' "inbounds" → sockets m = sockets m') as Hf.
  { intros m m' E. by rewrite !sockets_inbounds, E. }
  destruct (cloneMap c !! "inbounds") as [v|] eqn:E.
  - rewrite <-(sockets_clone c Ht). apply Hf. unfold field. by rewrite (lookup_union_Some_l _ _ _ _ E), E.
  - rewrite <-Ho. apply Hf. unfold field. by rewrite lookup_union_r.
Qed.
End sockets.
