(* ===== verification/CorePorts.v ===== *)
(** * What the core listens on, through every operation on it

    [safe F w]: while the agent takes the core to be running, the last start was that of a
    document in the configuration file, and what it listens on satisfies [F].  An activation
    keeps it when the new document satisfies [F] too ([restart_safe]), and so do the handlers
    of the core and of its users ([start_safe], [users_safe]) — unless a configuration file
    could not be put back ([unrestored]), which the agent reports. *)
From S2P Require Import Prelude GoStr GoTime GoAny GoSort StatName RuntimeState RuntimeSpec NodeConfig SingBoxConfig ConfigSpec Users UsersSpec Activation ActivationSpec Lifecycle LifecycleSpec ForwardRules Sockets.
Import NodeConfig SingBoxConfig Users Activation Lifecycle.

Section core.
Context {EnvI : Env} {JsonI : Json} {DigestI : Digest} {RangeI : MapRange} {RangeL : MapRangeLaws} {CaseI : UnicodeCase} (cfg : Config).
Context (Hpaths : paths_ok cfg).

(** [cloneMap] is what decoding an encoded document gives, if it can be decoded. *)
Definition json_reads_back : Prop := ∀ c v, unmarshal_json (marshal_indent c) = Ok v → v = AObj (cloneMap c).
Context (Hjson : json_reads_back).

Abbreviation P := (configPath cfg).

Definition runs (w : World) : Prop := RuntimeState.running (runtime w) = RuntimeState.CoreTypeSingBox.

(** The core was started on [c], which is also what the file and the stored document say. *)
Definition runs_on (c : object) (w : World) : Prop :=
  files w !! P = Some (marshal_indent c) ∧ core_on (Some (marshal_indent c)) w ∧ tidy c ∧
  sockets (RuntimeState.SingBoxConfig (runtime w)) = sockets c.
Definition safe (F : list (string * Z) → Prop) (w : World) : Prop := runs w → ∃ c, runs_on c w ∧ F (sockets c).

(** The core runs on, but the file of a candidate could not be put back. *)
Definition unrestored (w : World) : Prop := runs w ∧ ∃ hash, verdict w = Some ("FAILED", "FAILED", hash).

(** ** Steps that ask nothing of the core *)

(** The stored document keeps its sockets. *)
Definition kept (w w' : World) : Prop :=
  untouched w w' ∧ files w' !! P = files w !! P ∧ RuntimeState.running (runtime w') = RuntimeState.running (runtime w) ∧
  sockets (RuntimeState.SingBoxConfig (runtime w')) = sockets (RuntimeState.SingBoxConfig (runtime w)).

#[local] Instance kept_refl : Reflexive kept.
Proof. by intros w. Qed.
#[local] Instance kept_trans : Transitive kept.
Proof. intros w1 w2 w3 (? & ? & ? & ?) (? & ? & ? & ?). split_and!; try congruence. by transitivity w2. Qed.

Lemma kept_safe F w w' : kept w w' → safe F w → safe F w'.
Proof.
  intros (Ht & Hf & Hr & Hs) H Hw. unfold runs in Hw. rewrite Hr in Hw. destruct (H Hw) as (c & (H1 & H2 & H3 & H4) & HF).
  exists c. split; [|done]. split_and!; [congruence|by eapply core_on_untouched|done|congruence].
Qed.

Lemma looked_kept w w' : looked w w' → RuntimeState.running (runtime w') = RuntimeState.running (runtime w) →
  RuntimeState.singBoxConfig (runtime w') = RuntimeState.singBoxConfig (runtime w) → kept w w'.
Proof. intros (Hf & _ & _ & Ht) Hr Hs. split_and!; [done|by rewrite Hf|done|]. unfold RuntimeState.SingBoxConfig. by rewrite Hs. Qed.

Lemma refresh_kept w w' r : refreshOnlineStatus w = (w', r) → kept w w' ∧ singBoxApplyResult w' = singBoxApplyResult w.
Proof.
  intros (_ & Hl & o & Hr)%refreshOnlineStatus_spec. split; [|apply Hl]. apply looked_kept; [done|by rewrite Hr..].
Qed.

(** ** An activation *)

Lemma stored_of_set stored r : RuntimeState.singBoxConfig (RuntimeState.SetSingBoxConfig stored r) = cloneMap stored ∧
  RuntimeState.running (RuntimeState.SetSingBoxConfig stored r) = RuntimeState.running r.
Proof. unfold RuntimeState.SetSingBoxConfig. by case_bool_decide. Qed.

(** What a rollback stores has the sockets of the file. *)
Lemma stored_before_sockets c w stored :
  runs w → runs_on c w → stored_before cfg w stored → sockets (cloneMap (cloneMap stored)) = sockets c.
Proof.
  intros Hw (Hf & _ & Ht & Hs) Hst. unfold stored_before in Hst. rewrite Hf, bool_decide_eq_true_2 in Hst by done.
  unfold unmarshal_into in Hst. bind_as Hst v Hv. apply Hjson in Hv as ->. injection Hst as <-.
  rewrite sockets_clone by (apply clean_tidy, cloneMap_clean).
  rewrite <- (sockets_over c (RuntimeState.SingBoxConfig (runtime w))) by done.
  apply sockets_clone, clean_tidy. intros k x [Hx|[_ Hx]]%lookup_union_Some_raw; [by apply (cloneMap_clean c)|].
  by apply (cloneMap_clean (RuntimeState.singBoxConfig (runtime w))).
Qed.

Lemma restart_safe F config w w' r :
  tidy config → F (sockets config) → safe F w → restartSingBox cfg config w = (w', r) → ¬ unrestored w' → safe F w'.
Proof.
  intros Ht HF Hsafe E Hun. destruct (built_sockets cfg config Ht) as [Hbt Hbs].
  apply restart_spec in E as [_ [(p & w1 & (Ht1 & Hr1 & _ & Hp) & _ & Ha)|(e & -> & Hu & Hf & Hr)]]; [..|exact Hpaths].
  - destruct Hp as (Hcore & Hfile & _ & _ & Hst).
    destruct Ha as [H1 _ H2 H3 H4 _|e (Hres & Hrun & Hon) _|e _ Hs _|e Hs _|e Hu Hr Hf _|e Hu Hr Hv]; intros Hw.
    + exists (built cfg config). split; [|by rewrite Hbs]. split_and!; [done..|]. unfold RuntimeState.SingBoxConfig. rewrite H4.
      rewrite sockets_clone by (apply clean_tidy, cloneMap_clean). by apply sockets_clone.
    + unfold runs in Hw. rewrite Hrun, Hcore in Hw. destruct (Hsafe Hw) as (c & Hc & HFc). exists c. split; [|done].
      assert (from_singbox p = true) as Hsb by (unfold from_singbox; rewrite Hcore; by apply bool_decide_eq_true_2).
      destruct (Hon Hsb) as [Hco Hcfg]. pose proof Hc as (Hf & _ & Htc & _). rewrite Hf in Hfile.
      destruct (Hres _ Hfile) as [Hfw _]. rewrite Hfw in Hco. split_and!; try done.
      unfold RuntimeState.SingBoxConfig. rewrite Hcfg. by eapply stored_before_sockets.
    + unfold runs in Hw. by rewrite Hs in Hw.
    + unfold runs in Hw. by rewrite Hs in Hw.
    + revert Hw. apply (kept_safe F w); [|done]. split_and!; [by transitivity w1|congruence|congruence|congruence].
    + destruct Hun. split; [done|]. eauto.
  - assert (runtime w' = runtime w ∨ ∃ stored, stored_before cfg w stored ∧ runtime w' = RuntimeState.SetSingBoxConfig stored (runtime w)) as Hrt.
    { destruct Hr as [[[_ Hr]|[_ Hr]]|[Hr _]]; auto. }
    destruct Hrt as [Hrt|(stored & Hst & Hrt)].
    + apply (kept_safe F w); [|done]. split_and!; congruence || done.
    + intros Hw. destruct (stored_of_set stored (runtime w)) as [H1 H2]. unfold runs in Hw. rewrite Hrt, H2 in Hw.
      destruct (Hsafe Hw) as (c & Hc & HFc). exists c. split; [|done]. pose proof Hc as (H3 & H4 & H5 & H6).
      split_and!; [congruence|by eapply core_on_untouched|done|]. unfold RuntimeState.SingBoxConfig. rewrite Hrt, H1.
      by eapply stored_before_sockets.
Qed.
(** ** Handlers *)

(** Steps that leave the report alone, too *)
Definition calm (w w' : World) : Prop := kept w w' ∧ singBoxApplyResult w' = singBoxApplyResult w.
#[local] Instance calm_refl : Reflexive calm.
Proof. by intros w. Qed.
#[local] Instance calm_trans : Transitive calm.
Proof. intros w1 w2 w3 [? ?] [? ?]. split; [by transitivity w2|congruence]. Qed.

Lemma refresh_calm w w' r : refreshOnlineStatus w = (w', r) → calm w w'.
Proof. apply refresh_kept. Qed.
Lemma set_runtime_calm w r : RuntimeState.running r = RuntimeState.running (runtime w) →
  sockets (RuntimeState.SingBoxConfig r) = sockets (RuntimeState.SingBoxConfig (runtime w)) → calm w (set_runtime r w).
Proof. intros. split; [|done]. unfold kept. split_and!; try done. by exists []. Qed.
Lemma set_restarted_calm w b : calm w (set_restarted b w).
Proof. split; [|done]. unfold kept. split_and!; try done. by exists []. Qed.

Lemma record_calm e w : is_quiet e = true → calm w (record e w).
Proof. intros He. split; [|done]. unfold kept. split_and!; try done. exists [e]. split; [done|]. cbn. by rewrite He. Qed.

Lemma restart_then F config w w1 w' r :
  tidy config → F (sockets config) → safe F w → restartSingBox cfg config w = (w1, r) → calm w1 w' → ¬ unrestored w' → safe F w'.
Proof.
  intros Ht HF Hs E [Hk Ha] Hun. eapply kept_safe; [exact Hk|]. eapply restart_safe; [done..|]. intros [Hr Hv]. apply Hun.
  destruct Hk as (_ & _ & Hrun & _). split; [unfold runs in *; congruence|]. unfold verdict in *. by rewrite Ha.
Qed.

Lemma failure_calm e apply_ w w' r : failureResponse e apply_ w = (w', r) → calm w w'.
Proof. intros E. unfold failureResponse in E. step E w1 a H1.
  pose proof H1 as (-> & _)%refreshOnlineStatus_spec. apply refresh_calm in H1. by injection E as <- _.
Qed.

Lemma sync_environment_calm w w' r : SyncEnvironment w = (w', r) → calm w w' ∧ r = Ok tt.
Proof.
  intros E. unfold SyncEnvironment in E. step E w1 v H1. injection H1 as <- <-. step E w2 u H2. injection H2 as <- <-.
  pose proof E as (-> & _)%refreshOnlineStatus_spec. apply refresh_calm in E. split; [|done]. etrans; [|exact E].
  etrans; [by apply (record_calm EvVersion)|]. by apply set_runtime_calm.
Qed.

(** Setting the document that is stored already *)
Lemma set_same_config config r : RuntimeState.SingBoxConfig r = config →
  RuntimeState.SingBoxConfig (RuntimeState.SetSingBoxConfig config r) = config.
Proof.
  intros E. unfold RuntimeState.SingBoxConfig at 1. destruct (stored_of_set config r) as [-> _].
  rewrite cloneMap_idem, <-E. apply cloneMap_idem.
Qed.

Lemma start_safe {GuardI : CoreGuard} F usage_active request w w' r :
  (∀ config, ValidateCoreConfig RuntimeState.CoreTypeSingBox config = Ok tt → F (sockets config)) →
  safe F w → Start cfg usage_active request w = (w', r) → ¬ unrestored w' → safe F w'.
Proof.
  intros Hguard Hs E Hun. unfold Start in E. step E w1 u H1. apply sync_environment_calm in H1 as [[Hk1 _] ->].
  apply (kept_safe F) in Hk1; [|done]. clear Hs. step E w2 should H2. injection H2 as <- <-.
  set (config := applySingBoxAPIConfig cfg _) in E.
  assert (tidy config) as Ht by apply start_document. clearbody config.
  case_bool_decide as Hempty; [by injection E as <- _|].
  destruct (ValidateCoreConfig _ config) as [[]|e] eqn:Hg.
  2:{ apply failure_calm in E as [E _]. by eapply kept_safe. }
  step E w3 stored H3. injection H3 as <- <-. step_attempt E w4 applied H4.
  assert (calm w4 w') as Hc.
  { destruct applied as [u4|e4]; [|by apply failure_calm in E].
    step E w5 a5 H5. injection H5 as <- <-. step E w6 a6 H6. pose proof H6 as (-> & _)%refreshOnlineStatus_spec. apply refresh_calm in H6.
    assert (calm w4 w6) as H46 by (etrans; [|exact H6]; by apply set_runtime_calm). clear H6.
    step E w7 a7 H7. assert (calm w6 w7 ∧ a7 = Ok tt) as [H67 ->].
    { unfold when in H7. destruct (_ && _); injection H7 as <- <-; [split; [apply set_restarted_calm|done]|done]. }
    injection E as <- _. by transitivity w6. }
  clear E. destruct (shouldRestartCore _ _ _ _ _ || _) eqn:Hshould; [by eapply restart_then; eauto|].
  apply orb_false_iff in Hshould as [_ Hsame%negb_false_iff%bool_decide_eq_true].
  unfold recordUnchangedSingBoxConfig in H4. step H4 w5 a5 H5. injection H5 as <- <-. step H4 w6 a6 H6. injection H6 as <- <-.
  injection H4 as <- _. eapply kept_safe; [exact (proj1 Hc)|]. eapply kept_safe; [|exact Hk1].
  destruct (stored_of_set config (runtime w1)) as [_ Hrun]. unfold kept. split_and!; [by exists []|done|exact Hrun|].
  cbn [set_result set_runtime runtime]. by rewrite (set_same_config _ _ Hsame), Hsame.
Qed.

Lemma stop_safe F w w' r : Stop w = (w', r) → safe F w'.
Proof.
  intros E. unfold Stop in E. step_attempt E w1 a H1. step E w2 u2 H2. injection H2 as <- <-. step E w3 u3 H3. injection H3 as <- <-.
  injection E as <- _. by intros H.
Qed.

(** The changes of users leave the core and the sockets of the stored document alone. *)
Definition same_sockets (r0 r : RuntimeState.Runtime) : Prop :=
  RuntimeState.running r = RuntimeState.running r0 ∧ sockets (RuntimeState.SingBoxConfig r) = sockets (RuntimeState.SingBoxConfig r0).

Lemma set_like_same r0 r config : same_sockets r0 r → like (RuntimeState.SingBoxConfig r) config →
  same_sockets r0 (RuntimeState.SetSingBoxConfig config r).
Proof.
  intros [H1 H2] [Hs Ht]%like_sockets. destruct (stored_of_set config r) as [Hc Hr]. split; [congruence|].
  unfold RuntimeState.SingBoxConfig at 1. rewrite Hc, cloneMap_idem, sockets_clone; [congruence|].
  apply Ht, clean_tidy, cloneMap_clean.
Qed.

Lemma preserves_now {S A} (Q : S → Prop) (f : S → proc S A) : (∀ s, Q s → Q (f s s).1) → preserves Q (λ s, f s s).
Proof. done. Qed.

Lemma add_user_same r0 item : preserves (same_sockets r0) (addUserToTag item).
Proof.
  intros r Hr. unfold addUserToTag, mbind, proc_bind, gets. cbv beta iota. case_bool_decide as Hc; [|case_bool_decide; exact Hr].
  cbv beta iota. unfold lift. destruct (addSingBoxUser _ item) as [config|e] eqn:E; [|exact Hr]. cbn [modify fst].
  apply set_like_same; [done|]. by apply like_add in E.
Qed.
Lemma remove_user_same r0 username : preserves (same_sockets r0) (removeUserEverywhere username).
Proof.
  intros r Hr. unfold removeUserEverywhere, mbind, proc_bind, gets. cbv beta iota. case_bool_decide as Hc; [|case_bool_decide; exact Hr].
  cbv beta iota. cbn [modify fst]. apply set_like_same; [done|]. apply like_remove.
Qed.

Lemma add_request_same r0 request : preserves (same_sockets r0) (applyAddUserRequest request).
Proof.
  apply preserves_bind; [|auto with node]. apply preserves_fold. intros seen item _. unfold add_item.
  apply preserves_bind; [case_bool_decide; [auto with node|apply preserves_bind; [apply remove_user_same|auto with node]]|]. intros seen'.
  apply preserves_bind; [apply add_user_same|auto with node].
Qed.
Lemma add_users_same r0 request : preserves (same_sockets r0) (applyAddUsersRequest request).
Proof.
  apply preserves_fold. intros [] user _. apply preserves_bind; [apply remove_user_same|]. intros _.
  apply preserves_fold. intros [] inbound _. apply add_user_same.
Qed.
Lemma remove_users_same r0 request : preserves (same_sockets r0) (remove_users request).
Proof. apply preserves_fold. intros [] user _. apply remove_user_same. Qed.

Lemma restart_current_safe F w w' r : safe F w → restartCurrentCore cfg w = (w', r) → ¬ unrestored w' → safe F w'.
Proof.
  intros Hs E Hun. unfold restartCurrentCore in E. step E w1 u1 H1. injection H1 as <- <-. step E w2 core H2. injection H2 as <- <-.
  set (w1 := set_runtime _ w) in E. assert (calm w w1) as [Hk _] by by apply set_runtime_calm.
  apply (kept_safe F) in Hk; [|done]. case_bool_decide as Hrun; [|by injection E as <- _].
  step E w3 config H3. injection H3 as <- <-. destruct (Hk Hrun) as (c & (_ & _ & _ & Hc) & HF).
  eapply restart_safe; [| |exact Hk|exact E|exact Hun]; [apply clean_tidy, cloneMap_clean|]. change (F (sockets (RuntimeState.SingBoxConfig (runtime w1)))). by rewrite Hc.
Qed.

Lemma users_safe F m w w' r : (∀ r0, preserves (same_sockets r0) m) →
  safe F w → then_restart cfg m w = (w', r) → ¬ unrestored w' → safe F w'.
Proof.
  intros Hm Hs E Hun. unfold then_restart in E. step E w1 u H1.
  assert (calm w w1) as [Hk _].
  { unfold on_runtime in H1. specialize (Hm (runtime w) (runtime w)). destruct (m (runtime w)) as [r1 a]. injection H1 as <- _.
    destruct Hm as [E1 E2]; [done|]. by apply set_runtime_calm. }
  apply (kept_safe F) in Hk; [|done]. destruct u; [by eapply restart_current_safe|by destruct E as [-> _]].
Qed.
End core.
