(* ===== verification/RulePorts.v ===== *)
(** * The ports of the forwarding rules, through every operation on them

    [free cfg S]: no enabled rule of [cfg] takes a socket of [S].  A configuration of the core
    that the forwarding service accepts is free ([guard_free]), and so is the configuration in
    force after any synchronisation that was given the listeners of the core ([sync_free]),
    any refresh ([refresh_free]) and any question. *)
From S2P Require Import Prelude GoStr GoTime GoNet GoAny GoSort SingBoxConfig RuntimeState Activation Sockets ForwardRules ForwardRender ForwardProbe Forwarding ForwardSpec.
Import Forward Service.

Definition takes (rule : Rule) (s : string * Z) : bool := (ListenPort rule =? s.2)%Z && protocolsOverlap (Protocol rule) s.1.
Definition free (cfg : Config) (S : list (string * Z)) : Prop :=
  cfg_Enabled cfg = true → ∀ rule s, rule ∈ Rules cfg → Enabled rule = true → s ∈ S → takes rule s = false.

(** Configurations whose rules differ in their targets at most *)
Definition alike (r r' : Rule) : Prop := Enabled r' = Enabled r ∧ Protocol r' = Protocol r ∧ ListenPort r' = ListenPort r.
Definition shape (c c' : Config) : Prop := cfg_Enabled c' = cfg_Enabled c ∧ Forall2 alike (Rules c) (Rules c').

#[export] Instance shape_refl : Reflexive shape.
Proof. intros c. split; [done|]. apply Forall2_same_length_lookup_2; [done|]. intros n x y Hx Hy. by assert (y = x) as -> by congruence. Qed.

Lemma free_shape c c' S : shape c c' → free c S → free c' S.
Proof.
  intros [He F] H E rule s Hr Hen Hs. apply list_elem_of_lookup_1 in Hr as [n Hn].
  destruct (Forall2_lookup_r _ _ _ _ _ F Hn) as (rule0 & H0 & E1 & E2 & E3). apply list_elem_of_lookup_2 in H0.
  unfold takes. rewrite E2, E3. apply (H ltac:(congruence) rule0); congruence || done.
Qed.

Section host.
Context {HostI : Host} {StateI : StateJson} {CaseI : UnicodeCase} {PrintI : UnicodePrint} {DigestI : SingBoxConfig.Digest}
        {SortI : SortSlice} {SetI : SetRange}.

Lemma free_listeners cfg config :
  free cfg (sockets config) ↔ (cfg_Enabled cfg = true →
    ∀ rule l, rule ∈ Rules cfg → Enabled rule = true → l ∈ ExtractCoreListeners RuntimeState.CoreTypeSingBox config → clashes rule l = false).
Proof.
  split; intros H E rule x Hr He Hx.
  - apply (H E rule (socket_of x) Hr He). unfold sockets. apply list_elem_of_fmap. eauto.
  - apply list_elem_of_fmap in Hx as (l & -> & Hl). by apply (H E rule l Hr He).
Qed.

Lemma guard_free w config : (ValidateCoreConfig RuntimeState.CoreTypeSingBox config w).2 = Ok tt → free (applied (svc w)) (sockets config).
Proof.
  unfold ValidateCoreConfig, mbind, proc_bind, gets, lift, validate_core. cbv beta iota. cbn [snd]. intros H.
  apply free_listeners. intros E. rewrite E in H. by apply core_conflict_ok.
Qed.

(** ** Synchronisation *)

Lemma sync_free cfg document desired w w' r :
  free (applied (svc w)) (sockets document) →
  SyncWithHash cfg (ExtractCoreListeners RuntimeState.CoreTypeSingBox document) desired w = (w', r) →
  free (applied (svc w')) (sockets document).
Proof.
  intros Hf E. destruct (applyLocked Request (normalizeConfig cfg) (ExtractCoreListeners RuntimeState.CoreTypeSingBox document) desired w) as [w1 [[]|e]] eqn:Ha.
  - destruct (sync_accepted _ _ _ _ _ Ha) as (w2 & st & E2 & _ & locals & p & A & Hap & _). rewrite E in E2. injection E2 as -> _.
    rewrite Hap. apply free_listeners. intros He rule l Hr Hen Hl. destruct (unused (config p)) eqn:Hu; [|by eapply acc_core].
    exfalso. unfold unused in Hu. rewrite He in Hu. cbn [negb orb] in Hu. apply Nat.eqb_eq in Hu. unfold enabledRuleCount, enabled_rules in Hu.
    apply nil_length_inv in Hu. assert (rule ∈ filter (λ r, Enabled r = true) (Rules (config p))) as Hin by (by apply list_elem_of_filter).
    rewrite Hu in Hin. by apply elem_of_nil in Hin.
  - destruct (sync_refused _ _ _ _ _ _ Ha) as (w2 & st & E2 & (Hs & _) & _). rewrite E in E2. injection E2 as -> _. by rewrite Hs.
Qed.

(** ** Refresh *)

Lemma alike_refl rules : Forall2 alike rules rules.
Proof. exact (proj2 (shape_refl {| cfg_Enabled := true; ListenInterface := ""; Rules := rules |})). Qed.

Lemma resolve_alike locals preferred i seen t rules w w' r :
  resolve_rules locals preferred i seen t rules w = (w', Ok r) → Forall2 alike rules (array r).
Proof.
  revert i seen t w r. induction rules as [|rule rest IH]; intros i seen t w r E; [by injection E as <- <-|].
  cbn [resolve_rules] in E. destruct (check_rule i seen rule) as [u|e]; [|injection E as <- <-; apply alike_refl].
  destruct (negb (Enabled rule)).
  - proc_as E w1 x H1. injection E as <- <-. constructor; [done|by eapply IH].
  - step_attempt E w1 a H1. destruct a as [address|e]; [|injection E as <- <-; apply alike_refl].
    case_bool_decide; [injection E as <- <-; apply alike_refl|]. proc_as E w2 x H2. injection E as <- <-. constructor; [done|by eapply IH].
Qed.

Lemma validate_shape own cfg ls w w' cfg' o : validateLocked own cfg ls w = (w', Ok (cfg', o)) → shape cfg cfg'.
Proof.
  intros E. unfold validateLocked in E. destruct (_ <? _)%nat; [by injection E as _ <- _|].
  proc_as E w1 locals H1. proc_as E w2 s H2. proc_as E w3 x H3. apply resolve_alike in H3. cbn zeta in E. proc_as E w4 u H4.
  assert (cfg' = with_rules (array x) cfg) as ->.
  { destruct (failed x); [by injection E as _ <- _|]. step_attempt E w5 p H5. by injection E as _ <- _. }
  by split.
Qed.

Lemma same_svc_shape w w' : svc w' = svc w → shape (applied (svc w)) (applied (svc w')).
Proof. by intros ->. Qed.

Lemma persist_current_svc w w' r : persistCurrentLocked w = (w', r) → svc w' = svc w.
Proof.
  intros E. unfold persistCurrentLocked in E. step E w1 s H1. injection H1 as <- <-. destruct (appliedAt _); [|by injection E as <- _].
  by apply persist_spec in E as (? & _).
Qed.

(** A procedure that leaves the applied configuration alone *)
Definition steady {A} (m : proc World A) : Prop := ∀ w, applied (svc (m w).1) = applied (svc w).
Lemma steady_run {A} (m : proc World A) w w' r : steady m → m w = (w', r) → applied (svc w') = applied (svc w).
Proof. intros H E. specialize (H w). by rewrite E in H. Qed.
Lemma steady_bind {A B} (m : proc World A) (f : A → proc World B) : steady m → (∀ a, steady (f a)) → steady (m ≫= f).
Proof.
  intros Hm Hf w. specialize (Hm w). unfold mbind, proc_bind. destruct (m w) as [w1 [a|e]]; [|exact Hm].
  etransitivity; [apply Hf|exact Hm].
Qed.
Lemma mute_steady {A} (m : proc World A) : mute m → steady m.
Proof. intros H w. destruct (H w) as (E & _). by rewrite E. Qed.
Lemma steady_attempt {A} (m : proc World A) : steady m → steady (attempt m).
Proof. intros H w. specialize (H w). unfold attempt. by destruct (m w). Qed.
Lemma steady_set f : (∀ s, applied (f s) = applied s) → steady (set_svc f).
Proof. intros H w. apply H. Qed.
Lemma steady_when b (m : proc World unit) : steady m → steady (when b m).
Proof. by destruct b. Qed.
Lemma steady_persist : steady persistCurrentLocked.
Proof. intros w. destruct (persistCurrentLocked w) as [w' r] eqn:E. apply persist_current_svc in E. cbn. by rewrite E. Qed.
Lemma steady_ret {A} (a : A) : steady (mret a).
Proof. done. Qed.
Lemma steady_throw {A} e : steady (throw e : proc World A).
Proof. done. Qed.
Hint Resolve steady_attempt steady_set steady_when steady_persist steady_ret steady_throw : core.

Lemma refresh_shape ls w w' r : RefreshDNS ls w = (w', r) → shape (applied (svc w)) (applied (svc w')).
Proof.
  intros E. unfold RefreshDNS in E. step E w1 s H1. injection H1 as <- <-. destruct (_ || _); [by injection E as <- _|].
  step E w2 v H2. pose proof H2 as (cfg' & o & -> & _ & S2 & V2)%validate_spec; [|done]. apply validate_shape in H2. cbn [fst snd] in E.
  assert (applied (svc w2) = cfg') as Ha by (by rewrite S2).
  assert (∀ m : proc World unit, steady m → m w2 = (w', r) → shape (applied (svc w)) (applied (svc w'))) as Hdone.
  { intros m Hm Em. apply (steady_run _ _ _ _ Hm) in Em. by rewrite Em, Ha. }
  destruct o as [p|e].
  - destruct (sameStringMap _ _).
    + eapply Hdone; [|exact E]. apply steady_bind; [apply mute_steady, now_mute|]. intros at_.
      apply steady_bind; [auto|]. intros _. apply steady_bind; [auto|auto].
    + step_attempt E w3 a H3. destruct V2 as [Hc _]. apply applyPrepared_spec in H3; [|done].
      assert (applied (svc w3) = cfg') as H3a. { destruct a as [u|e]; [destruct H3 as [-> _]; exact Hc|by destruct H3 as [-> _]]. }
      assert (applied (svc w') = applied (svc w3)) as ->; [|by rewrite H3a].
      destruct a as [u|e]; eapply steady_run; try exact E; [auto|]. unfold refresh_failed.
      apply steady_bind; [auto|]. intros _. apply steady_bind; auto.
  - eapply Hdone; [|exact E]. apply steady_bind; [auto|]. intros _. apply steady_bind; [auto|]. intros _. apply steady_bind; auto.
Qed.
End host.
