(* ===== verification/Agent.v ===== *)
(** * The agent: the components together ([internal/node/manager.go], [internal/httpapi])

    An [Agent] holds the state of every component; each request that the HTTP API accepts
    runs the operations of the components it is for, on the part of the state they share
    ([execute], [respond]).  The timers of [main.go] and the goroutines in the background
    are further activities ([act]).

    Every activity is one step.  [Manager.coreMu] makes it one for the handlers and timers
    that activate a configuration, change users or rules, store a plugin or seal usage; the
    others (an acknowledgement, a block of addresses, the audit, a look at the process) only
    hold the locks of single components, and are steps here as well.  What the outside
    answers during a step is its [Moment], besides the interfaces of the components. *)
From S2P Require Import Prelude GoStr GoTime GoNet GoAny GoSort Bolt UsageStore AccessAudit RuntimeState NodeConfig SingBoxConfig Users Activation Lifecycle Stats UsageCapture Plugin ForwardRules ForwardRender ForwardProbe Forwarding ForwardManager CoreApi Benchmark Connections Geocheck SystemStats SystemSnapshot Auth HttpApi.
Import NodeConfig Auth.

Module Agent.

(** What the outside answers during one step: the clock, the random number generator, the
    disk when a benchmark is recorded, the statistics of the core, the machine, and whether a
    geolocation check is running *)
Record Moment := {
  now : time; random : result string; saved : Benchmark.save_outcome;
  core_stats : Stats.StatsClient; core_system : result CoreApi.SystemStats;
  machine : SystemSnapshot.Machine; geocheck_running : bool }.

(** What a call answers.  The answers of calls that report a failure in a normal response
    hold it. *)
Definition answer (e : HttpApi.endpoint) : Type :=
  match e with
  | HttpApi.AuditConfig | HttpApi.AuditAck | HttpApi.AuditStatus => AccessAudit.Status
  | HttpApi.AuditPull => AccessAudit.Batch
  | HttpApi.BenchmarkStart | HttpApi.BenchmarkGet => Benchmark.Job
  | HttpApi.BenchmarkCancel => bool
  | HttpApi.CoreStart => Lifecycle.StartResponse
  | HttpApi.CoreStop => unit
  | HttpApi.CoreHealthcheck => FwManager.agentRuntimeStatus * option string * list SystemSnapshot.NetworkInterfaceInfo
  | HttpApi.ForwardingValidate => unit
  | HttpApi.ForwardingSync | HttpApi.ForwardingStatus => Service.Status
  | HttpApi.AddUser | HttpApi.RemoveUser | HttpApi.AddUsers | HttpApi.RemoveUsers => result unit
  | HttpApi.GetInboundUsers => list (string * string)
  | HttpApi.GetInboundUsersCount => nat
  | HttpApi.DropUsersConnections | HttpApi.DropIPs => unit
  | HttpApi.GetUserOnlineStatus => bool
  | HttpApi.GetSystemStats => CoreApi.SystemStats * SystemSnapshot.StatsOf
  | HttpApi.GetGeocheck => object
  | HttpApi.GetUsersStats => list (Stats.Traffic string)
  | HttpApi.GetUsersInboundStats => list (Stats.Traffic (string * string))
  | HttpApi.GetInboundStats | HttpApi.GetOutboundStats => Stats.Traffic string
  | HttpApi.GetAllInboundStats | HttpApi.GetAllOutboundStats => list (Stats.Traffic string)
  | HttpApi.GetCombinedStats => list (Stats.Traffic string) * list (Stats.Traffic string)
  | HttpApi.SnapshotsActivate | HttpApi.SnapshotsAck | HttpApi.SnapshotsStatus => UsageStore.Status
  | HttpApi.SnapshotsPull => UsageStore.PullResponse
  | HttpApi.GetUserIPList => list (string * string)
  | HttpApi.GetUsersIPList => list (string * list (string * string))
  | HttpApi.PluginSync => result string
  | HttpApi.PluginCompile => result RuntimeState.PluginState
  | HttpApi.BlockIPs | HttpApi.UnblockIPs | HttpApi.RecreateTables => bool
  end.

Section agent.
Context {EnvI : Activation.Env} {JsonI : Activation.Json} {DigestI : SingBoxConfig.Digest}.
Context {SortI : SortSlice} {RangeI : MapRange} {SetI : SetRange} {CaseI : UnicodeCase} {PrintI : UnicodePrint}.
Context {HostI : Service.Host} {StateI : Service.StateJson} {PluginI : Plugin.PluginEnv} {ConnI : Connections.ConnApi}.
Context {GeoI : Geocheck.GeoEnv} {JobI : Benchmark.JobJson} {UrlI : Benchmark.UrlParse}.
Context {B : Type} {BucketI : BucketOps B} {CodecI : Codec UsageStore.Snapshot} {TxI : TxOps (UsageStore.DB B)}.
Context {ConfigI : Codec AccessAudit.Config} {TargetsI : Codec (list AccessAudit.Target)} {RecordI : Codec AccessAudit.diskRecord}.
Context {AuditTxI : TxOps (AccessAudit.DB B)}.
Context (cfg : Config) (provider : Connections.Provider).

(** ** The state *)

Record Agent := {
  core : Activation.World;                           (* runtime state, files, core, restart marker *)
  fwd : Service.World;                               (* the forwarding service *)
  queue : UsageStore.Store B;                        (* the usage queue *)
  nft : list (Plugin.nft_cmd * bool); killed : list string; ticks : nat;   (* the plugin's *)
  audit : option (AccessAudit.Store B);       (* none when it could not be opened *)
  benchmarks : Benchmark.State;
  connections : list Connections.event;
  network : SystemStats.NetworkMonitor }.

Definition set_core (w : Activation.World) (a : Agent) : Agent :=
  {| core := w; fwd := fwd a; queue := queue a; nft := nft a; killed := killed a; ticks := ticks a; audit := audit a;
     benchmarks := benchmarks a; connections := connections a; network := network a |}.
Definition set_fwd (w : Service.World) (a : Agent) : Agent :=
  {| core := core a; fwd := w; queue := queue a; nft := nft a; killed := killed a; ticks := ticks a; audit := audit a;
     benchmarks := benchmarks a; connections := connections a; network := network a |}.
Definition set_usage (u : UsageCapture.Usage B) (a : Agent) : Agent :=
  {| core := Activation.set_restarted (UsageCapture.marker u) (core a); fwd := fwd a; queue := UsageCapture.store u; nft := nft a;
     killed := killed a; ticks := ticks a; audit := audit a; benchmarks := benchmarks a; connections := connections a;
     network := network a |}.
Definition set_plugin (w : Plugin.PluginWorld) (a : Agent) : Agent :=
  {| core := Activation.set_runtime (Plugin.p_runtime w) (core a); fwd := fwd a; queue := queue a; nft := Plugin.nft_log w;
     killed := Plugin.killed w; ticks := Plugin.ticks w; audit := audit a; benchmarks := benchmarks a;
     connections := connections a; network := network a |}.
Definition set_audit (s : option (AccessAudit.Store B)) (a : Agent) : Agent :=
  {| core := core a; fwd := fwd a; queue := queue a; nft := nft a; killed := killed a; ticks := ticks a; audit := s;
     benchmarks := benchmarks a; connections := connections a; network := network a |}.
Definition set_benchmarks (s : Benchmark.State) (a : Agent) : Agent :=
  {| core := core a; fwd := fwd a; queue := queue a; nft := nft a; killed := killed a; ticks := ticks a; audit := audit a;
     benchmarks := s; connections := connections a; network := network a |}.
Definition set_connections (l : list Connections.event) (a : Agent) : Agent :=
  {| core := core a; fwd := fwd a; queue := queue a; nft := nft a; killed := killed a; ticks := ticks a; audit := audit a;
     benchmarks := benchmarks a; connections := l; network := network a |}.
Definition set_network (n : SystemStats.NetworkMonitor) (a : Agent) : Agent :=
  {| core := core a; fwd := fwd a; queue := queue a; nft := nft a; killed := killed a; ticks := ticks a; audit := audit a;
     benchmarks := benchmarks a; connections := connections a; network := n |}.

(** The parts that components share: the runtime state is the core's, the plugin's and,
    to read, that of forwarding and usage; the restart marker is the core's and the usage's. *)
Definition runtime (a : Agent) : RuntimeState.Runtime := Activation.runtime (core a).
Definition usage_of (a : Agent) : UsageCapture.Usage B :=
  {| UsageCapture.store := queue a; UsageCapture.marker := Activation.usageCoreRestarted (core a) |}.
Definition node_of (a : Agent) : FwManager.Node (B := B) :=
  {| FwManager.fw := fwd a; FwManager.usage := usage_of a; FwManager.node_runtime := runtime a |}.
Definition plugin_of (a : Agent) : Plugin.PluginWorld :=
  {| Plugin.p_runtime := runtime a; Plugin.nft_log := nft a; Plugin.killed := killed a; Plugin.ticks := ticks a |}.

(** A procedure of a component, in the agent *)
Definition within {S A} (get : Agent → S) (put : S → Agent → Agent) (m : proc S A) : proc Agent A := λ a,
  let '(s, r) := m (get a) in (put s a, r).
Definition on_core {A} : proc Activation.World A → proc Agent A := within core set_core.
Definition on_usage {A} : proc (UsageCapture.Usage B) A → proc Agent A := within usage_of set_usage.
Definition on_plugin {A} : proc Plugin.PluginWorld A → proc Agent A := within plugin_of set_plugin.
Definition on_benchmarks {A} : proc Benchmark.State A → proc Agent A := within benchmarks set_benchmarks.
Definition on_connections {A} : proc (list Connections.event) A → proc Agent A := within connections set_connections.
Definition on_fwd {A} : proc Service.World A → proc Agent A := within fwd set_fwd.
(** The handlers of forwarding only read the runtime state. *)
Definition on_node {A} : proc (FwManager.Node (B := B)) A → proc Agent A :=
  within node_of (λ n a, set_usage (FwManager.usage n) (set_fwd (FwManager.fw n) a)).

Definition active (a : Agent) : bool := UsageCapture.UsageSnapshotActive (usage_of a).

(** ** Usage snapshots *)

Definition with_fwd {A} (m : Service.World → proc (UsageCapture.Usage B) A) : proc Agent A := λ a, on_usage (m (fwd a)) a.

(** The status of the queue asks the forwarding service for its summary when it is active. *)
Definition asked_summary (m : proc Agent UsageStore.Status) : proc Agent UsageStore.Status :=
  status ← m;
  _ ← (if UsageStore.Active status then _ ← on_fwd Service.RuntimeSummary_; mret tt else mret tt);
  mret status.

(** An activation reads the counters of the rules first; the summary comes later. *)
Definition sampled_source (w : Service.World) : UsageCapture.ForwardingUsage := {|
  UsageCapture.UsageCounters := @UsageCapture.UsageCounters (FwManager.usage_source w);
  UsageCapture.summary_State := @UsageCapture.summary_State (FwManager.usage_source (Service.UsageCounters w).1);
  UsageCapture.summary_EnabledRules := @UsageCapture.summary_EnabledRules (FwManager.usage_source (Service.UsageCounters w).1) |}.

Definition ActivateUsageSnapshots (m : Moment) : proc Agent UsageStore.Status :=
  asked_summary
    (r ← gets runtime;
     w ← gets fwd;
     _ ← attempt (on_fwd Service.UsageCounters);
     on_usage (UsageCapture.ActivateUsageSnapshots (ForwardingI := sampled_source w) (ClientI := core_stats m) (random m) r)).
Definition AckUsageSnapshots (request : UsageStore.AckRequest) : proc Agent UsageStore.Status :=
  asked_summary
    (r ← gets runtime; with_fwd (λ w, UsageCapture.AckUsageSnapshots (ForwardingI := FwManager.usage_source w) request r)).
Definition UsageSnapshotStatus : proc Agent UsageStore.Status :=
  asked_summary
    (r ← gets runtime; w ← gets fwd;
     gets (λ a, UsageCapture.UsageSnapshotStatus (ForwardingI := FwManager.usage_source w) r (usage_of a))).

(** ** Access audit *)

(** The store is there: [HttpApi.handler] answers otherwise. *)
Definition on_audit {A} (f : AccessAudit.Store B → AccessAudit.Store B * result A) : proc Agent A := λ a,
  match audit a with
  | None => (a, Err (ErrMsg "Access audit is unavailable"))
  | Some s => let '(s, r) := f s in (set_audit (Some s) a, r)
  end.
Definition audit_status (m : Moment) : proc Agent AccessAudit.Status :=
  on_audit (λ s, (s, Ok (AccessAudit.StatusOf (now m) s))).

(** ** Handlers that are not those of one component *)

Definition Start (request : Lifecycle.StartRequest) : proc Agent Lifecycle.StartResponse := λ a,
  on_core (Lifecycle.Start (GuardI := FwManager.core_guard (fwd a)) cfg (active a) request) a.

Definition Healthcheck (m : Moment) : proc Agent (FwManager.agentRuntimeStatus * option string * list SystemSnapshot.NetworkInterfaceInfo) :=
  _ ← on_core Activation.refreshOnlineStatus;
  has_audit ← gets (λ a, bool_decide (is_Some (audit a)));
  status ← on_node (FwManager.runtimeStatus has_audit (NodeAPISNIEnabled cfg));
  version ← gets (λ a, RuntimeState.CoreVersion (runtime a));
  mret (status, version, SystemSnapshot.NetworkInterfaces (MachineI := machine m)).

Definition GetSystemStats (m : Moment) : proc Agent (CoreApi.SystemStats * SystemSnapshot.StatsOf) :=
  r ← gets runtime;
  if bool_decide (RuntimeState.RunningCoreType r = "") || negb (RuntimeState.OnlineStatus r) then throw ErrCoreUnavailable
  else if negb (Stats.has_client r) then throw ErrCoreUnavailable
  else match core_system m with
       | Err _ => throw ErrCoreUnavailable
       | Ok stats => monitor ← gets network;
                     mret (stats, SystemSnapshot.Stats_ (SystemSnapshot.SystemSnapshot (MachineI := machine m) monitor))
       end.

(** The connections of the addresses that are left to cut off, in their order *)
Definition to_drop (before after : list Connections.event) : list string :=
  omap (λ e, match e with Connections.EvDrop ip => Some ip | _ => None end) (rev (take (length after - length before) after)).
Definition DropUsersConnections (userIDs : list string) : proc Agent unit :=
  before ← gets connections;
  _ ← on_connections (Connections.DropUsersConnections provider userIDs);
  after ← gets connections;
  on_plugin (proc_iter Plugin.dropConnections (to_drop before after)).

Definition CancelBenchmark (id : string) : proc Agent bool := λ a,
  let s := benchmarks a in
  let '(r, o) := Benchmark.Cancel id (Benchmark.runner s) in
  (set_benchmarks {| Benchmark.runner := r; Benchmark.disk := Benchmark.disk s |} a,
   match o with Some b => Ok b | None => Err Benchmark.nil_dereference end).

Definition accepted (m : proc Agent unit) : proc Agent bool := r ← attempt m; mret (is_ok r).

Definition InternalConfig (a : Agent) : object := RuntimeState.SingBoxConfig (runtime a).

(** ** Requests *)

(** [HttpApi.handler] gives a body to the endpoints that read one. *)
Definition with_body {T A} (f : T → proc Agent A) (b : option T) : proc Agent A :=
  match b with Some b => f b | None => throw ErrEOF end.

(** The call of an endpoint; [id] is the last segment of the path. *)
Definition execute (m : Moment) (id : string) (e : HttpApi.endpoint) : option (HttpApi.body_type e) → proc Agent (answer e) :=
  let query {A} (f : Stats.StatsClient → RuntimeState.Runtime → A) : proc Agent A := gets (λ a, f (core_stats m) (runtime a)) in
  match e return option (HttpApi.body_type e) → proc Agent (answer e) with
  | HttpApi.AuditConfig => with_body (λ c, _ ← on_audit (AccessAudit.Configure c (now m)); audit_status m)
  | HttpApi.AuditPull => with_body (λ limit, on_audit (λ s, (s, AccessAudit.Pull limit s)))
  | HttpApi.AuditAck => with_body (λ b, _ ← on_audit (AccessAudit.Ack b.1 b.2); audit_status m)
  | HttpApi.AuditStatus => λ _, audit_status m
  | HttpApi.BenchmarkStart => with_body (λ r, on_benchmarks (Benchmark.Start r (now m) (saved m)))
  | HttpApi.BenchmarkCancel => with_body CancelBenchmark
  | HttpApi.BenchmarkGet => λ _,
      job ← gets (λ a, Benchmark.Get id (Benchmark.runner (benchmarks a)));
      match job with Some j => mret j | None => throw (ErrMsg "Benchmark not found") end
  | HttpApi.CoreStart => with_body Start
  | HttpApi.CoreStop => λ _, on_core Lifecycle.Stop
  | HttpApi.CoreHealthcheck => λ _, Healthcheck m
  | HttpApi.ForwardingValidate => with_body (λ r, on_node (FwManager.ForwardingValidate r))
  | HttpApi.ForwardingSync => with_body (λ r,
      o ← on_node (FwManager.ForwardingSync (ClientI := core_stats m) (now m) r);
      match o with (status, None) => mret status | (_, Some e) => throw e end)
  | HttpApi.ForwardingStatus => λ _, on_node FwManager.ForwardingStatus
  | HttpApi.AddUser => with_body (λ r, attempt (on_core (Lifecycle.AddUser cfg r)))
  | HttpApi.GetInboundUsers => with_body (λ tag, gets (λ a, Users.GetInboundUsers tag (runtime a)))
  | HttpApi.RemoveUser => with_body (λ r, attempt (on_core (Lifecycle.RemoveUser cfg r)))
  | HttpApi.GetInboundUsersCount => with_body (λ tag, gets (λ a, Users.GetInboundUsersCount tag (runtime a)))
  | HttpApi.AddUsers => with_body (λ r, attempt (on_core (Lifecycle.AddUsers cfg r)))
  | HttpApi.RemoveUsers => with_body (λ r, attempt (on_core (Lifecycle.RemoveUsers cfg r)))
  | HttpApi.DropUsersConnections => with_body DropUsersConnections
  | HttpApi.DropIPs => with_body (λ ips, on_plugin (Plugin.DropIPs ips))
  | HttpApi.GetUserOnlineStatus => with_body (λ user, on_connections (Connections.GetUserOnlineStatus provider user))
  | HttpApi.GetSystemStats => λ _, GetSystemStats m
  | HttpApi.GetGeocheck => with_body (λ r, lift (Geocheck.Run (Geocheck.New Geocheck.DefaultBinaryPath) (geocheck_running m) r))
  | HttpApi.GetUsersStats => with_body (λ reset, query (λ c, Stats.GetUsersStats (ClientI := c) reset))
  | HttpApi.GetUsersInboundStats => with_body (λ reset, query (λ c, Stats.GetUsersInboundStats (ClientI := c) reset))
  | HttpApi.GetInboundStats => with_body (λ r, query (λ c, Stats.GetInboundStats (ClientI := c) r.1 r.2))
  | HttpApi.GetOutboundStats => with_body (λ r, query (λ c, Stats.GetOutboundStats (ClientI := c) r.1 r.2))
  | HttpApi.GetAllInboundStats => with_body (λ reset, query (λ c, Stats.GetAllInboundStats (ClientI := c) reset))
  | HttpApi.GetAllOutboundStats => with_body (λ reset, query (λ c, Stats.GetAllOutboundStats (ClientI := c) reset))
  | HttpApi.GetCombinedStats => with_body (λ reset, query (λ c, Stats.GetCombinedStats (ClientI := c) reset))
  | HttpApi.SnapshotsActivate => λ _, ActivateUsageSnapshots m
  | HttpApi.SnapshotsPull => with_body (λ r, on_usage (UsageCapture.PullUsageSnapshots r))
  | HttpApi.SnapshotsAck => with_body AckUsageSnapshots
  | HttpApi.SnapshotsStatus => λ _, UsageSnapshotStatus
  | HttpApi.GetUserIPList => with_body (λ user, on_connections (Connections.GetUserIPList provider user))
  | HttpApi.GetUsersIPList => λ _, on_connections (Connections.GetUsersIPList provider)
  | HttpApi.PluginSync => with_body (λ r, attempt (on_plugin (Plugin.SyncPlugin r)))
  | HttpApi.PluginCompile => with_body (λ r, attempt (on_plugin (Plugin.CompilePlugin r)))
  | HttpApi.BlockIPs => with_body (λ ips, accepted (on_plugin (Plugin.BlockIPs ips)))
  | HttpApi.UnblockIPs => with_body (λ ips, accepted (on_plugin (Plugin.UnblockIPs ips)))
  | HttpApi.RecreateTables => λ _, accepted (on_plugin Plugin.RecreateTables)
  end.

Inductive reply :=
| NotFound
| Refused (status : Z) (message : string)
| Failed (e : HttpApi.endpoint) (status : Z) (err : error)
| Answered (e : HttpApi.endpoint) (a : answer e).

Section http.
Context {K : Type} {KeysI : Keys K} {TokenI : TokenJson} {BodiesI : HttpApi.Bodies} (verifier : K).

Definition path_id (r : HttpApi.Request) : string := default "" (last (split_byte "/" (HttpApi.req_path r))).

(** A request from its arrival to its answer *)
Definition respond (m : Moment) (r : HttpApi.Request) (a : Agent) : Agent * reply :=
  match HttpApi.serve verifier (now m / second)%Z (bool_decide (is_Some (audit a))) (active a) r with
  | HttpApi.NoRoute => (a, NotFound)
  | HttpApi.Reply status message => (a, Refused status message)
  | HttpApi.Call e b =>
      let '(a', o) := execute m (path_id r) e b a in
      (a', match o with Ok x => Answered e x | Err err => Failed e (HttpApi.error_status e err) err end)
  end.

(** ** Timers and goroutines *)

Definition CaptureUsageSnapshot (m : Moment) : proc Agent unit :=
  _ ← attempt (on_node (FwManager.captureUsage (ClientI := core_stats m) (now m))); mret tt.
Definition RefreshForwardingDNS (m : Moment) : proc Agent unit :=
  sealed ← on_node (FwManager.refreshForwardingDNS (ClientI := core_stats m) (now m));
  if sealed : bool then on_plugin Plugin.refreshPluginDNS else mret tt.

(** [current] is what [/proc/net/dev] holds, [resolved] the interface of the default route. *)
Definition Tick (current : gmap string SystemStats.rawInterfaceStat) (resolved : string) : proc Agent unit :=
  _ ← modify (λ a, set_network (SystemStats.tick current resolved (network a)) a);
  on_core Lifecycle.SyncProcessStatus.

Inductive activity :=
| Request (m : Moment) (r : HttpApi.Request)
| TimerTick (current : gmap string SystemStats.rawInterfaceStat) (resolved : string)
| TimerCapture (m : Moment)
| TimerRefresh (m : Moment)
| BenchmarkStep (item : Benchmark.Item) (at_ : time) (o : Benchmark.save_outcome) (rm : string → bool)
| AuditApply (events : list AccessAudit.Event) (at_ : time)
| AuditRuntime (capturing : bool) (err : option error)
| AuditPrune (at_ : time).

(** The agent after an activity *)
Definition act (x : activity) (a : Agent) : Agent :=
  match x with
  | Request m r => (respond m r a).1
  | TimerTick current resolved => (Tick current resolved a).1
  | TimerCapture m => (CaptureUsageSnapshot m a).1
  | TimerRefresh m => (RefreshForwardingDNS m a).1
  | BenchmarkStep item at_ o rm => (on_benchmarks (Benchmark.work item at_ o rm) a).1
  | AuditApply events at_ => (on_audit (AccessAudit.Apply events at_) a).1
  | AuditRuntime capturing err => (on_audit (λ s, (AccessAudit.Runtime capturing err s, Ok tt)) a).1
  | AuditPrune at_ => (on_audit (AccessAudit.Prune at_) a).1
  end.
End http.
End agent.
End Agent.
