(* ===== verification/Boot.v ===== *)
(** * The life of the process ([cmd/remnawave-node-go/main.go], with the constructors and
    destructors of [internal/node/manager.go] and [internal/httpapi/server.go])

    What [main] opens, in which order, what it does when a step fails, and what it releases.
    A run is a list of [event]s, newest first; the surroundings say of every event whether it
    failed, in view of what came before ([BootEnv]).  While the servers run, requests, the
    timers and the servers themselves interleave as they like ([serving]).

    Requests that are still being answered while the servers shut down are left out.

    The versions and capabilities that the agent finds at its start are read here as well.

    [main_life]: what is open when a run serves, how every run ends, and that it leaves
    nothing open. *)
From S2P Require Import Prelude GoStr NodeConfig SingBoxConfig.
Import NodeConfig SingBoxConfig.

Module Boot.

(** ** Versions and capabilities *)

Definition trimVersionPrefix (value : string) : string := trim_prefix (trim_space value) "v".

(** [filepath.Base], for a path without a trailing separator *)
Definition base_name (path : string) : string := default path (last (split_byte "/" path)).

(** [getenv] is [SING_BOX_VERSION]. *)
Definition formatCoreVersion (getenv binary line : string) : string :=
  match fields (trim_space line) with
  | [] => ""
  | a :: rest =>
      match rest with
      | b :: c :: _ =>
          if bool_decide (base_name binary = "sing-box") && equal_fold a "sing-box" && equal_fold b "version" then
            let version := trimVersionPrefix c in
            let fallback := trimVersionPrefix getenv in
            if bool_decide (version = "unknown") && negb (bool_decide (fallback = "")) then fallback else version
          else trim_space line
      | _ => trim_space line
      end
  end.

(** [exists_] is [commandExists]; [output] is [CombinedOutput]. *)
Definition readVersion (exists_ : bool) (output : result string) (getenv binary : string) : option string :=
  if negb exists_ then None else
  match output with
  | Err _ => None
  | Ok text =>
      match split_byte (chr 10) (trim_space text) with
      | [] => None
      | line :: _ => if bool_decide (line = "") then None else Some (formatCoreVersion getenv binary line)
      end
  end.

(** A name with a separator is a file; another is looked up in the path. *)
Definition commandExists (stat lookPath : string → bool) (name : string) : bool :=
  if contains name "/" then stat name else lookPath name.

Definition hex_digit (c : ascii) : option Z :=
  let n := byte_of c in
  (if (48 <=? n) && (n <=? 57) then Some (n - 48) else if (97 <=? n) && (n <=? 102) then Some (n - 87)
   else if (65 <=? n) && (n <=? 70) then Some (n - 55) else None)%Z.
Fixpoint hex_value (acc : Z) (s : string) : option Z :=
  match s with
  | EmptyString => Some acc
  | String c rest => d ← hex_digit c; hex_value (acc * 16 + d)%Z rest
  end.
(** [strconv.ParseUint(s, 16, 64)] *)
Definition parse_hex (s : string) : option Z :=
  v ← (if bool_decide (s = "") then None else hex_value 0 s);
  if (v <? 2 ^ 64)%Z then Some v else None.

(** The first line [CapEff:] decides. *)
Fixpoint cap_lines (lines : list string) : bool :=
  match lines with
  | [] => false
  | line :: rest =>
      match strip_prefix "CapEff:" line with
      | None => cap_lines rest
      | Some v => match parse_hex (trim_space v) with Some v => Z.testbit v 12 | None => false end
      end
  end.
Definition hasNetAdmin (status : option string) : bool :=
  match status with None => false | Some text => cap_lines (split_byte (chr 10) text) end.

(** Whether the plugin filters can be loaded at all: [Manager.nftReady] *)
Definition nftReady (stat lookPath : string → bool) (status : option string) : bool :=
  commandExists stat lookPath "nft" && hasNetAdmin status.

Example version_examples :
  formatCoreVersion "" "/usr/local/bin/sing-box" "sing-box version v1.13.2" = "1.13.2" ∧
  formatCoreVersion "v1.12.0" "/usr/local/bin/sing-box" "sing-box version unknown" = "1.12.0" ∧
  readVersion true (Ok ("sing-box version 1.13.0" +:+ String (chr 10) "Environment: go1.24")) "" "/usr/local/bin/sing-box" = Some "1.13.0" ∧
  hasNetAdmin (Some ("Name: node" +:+ String (chr 10) "CapEff: 00000000a80435fb")) = true.
Proof. vm_compute. done. Qed.

(** ** Events *)

Inductive event :=
| LoadConfig
| DialStats (target : string)
| OpenUsage (path : string) (max : Z)
| RestoreForwarding
| OpenAudit (path : string) (max : Z)
| StartAudit (target secret : string)
| SyncEnvironment
| NewVerifier | KeyPair | AppendCA | ServerName | OpenBenchmarks (dir : string)
| ServeTLS (port : Z)
| MkdirSocket (path : string) | RemoveSocket (path : string) | ListenSocket (path : string) | ServeInternal
| Tick | CaptureUsage | RefreshDNS | Request                     (* while it serves *)
| CloseBenchmarks | ShutdownPublic | ShutdownInternal
| CloseAudit | CloseStats | CloseUsage
| Exit (code : Z).

#[export] Instance event_eq_dec : EqDecision event.
Proof. solve_decision. Defined.

Abbreviation log := (list event).

(** Whether the newest event of a log failed; the environment and the configuration *)
Class BootEnv := {
  reply : log → option error;
  config : Config;                               (* what [config.Load] returns, if it does not fail *)
  benchmark_env : string                         (* [BENCHMARK_STATE_PATH] *)
}.

Section boot.
Context {EnvI : BootEnv} {DigestI : Digest}.

Definition note (e : event) : proc log unit := modify (cons e).
Definition call (e : event) : proc log unit :=
  λ l, (e :: l, match reply (e :: l) with None => Ok tt | Some err => Err err end).

(** ** The manager *)

Definition has_audit : bool :=
  negb (bool_decide (AccessAuditDBPath config = "")) && (0 <? SingBoxAuditAPIPort config)%Z.

(** Returns whether there is an access audit.  A failed restoration and a failed audit are
    logged and nothing more. *)
Definition NewManager : proc log bool :=
  _ ← call (DialStats (local_address (singBoxV2RayAPIPort config)));
  opened ← attempt (call (OpenUsage (UsageSnapshotDBPath config) (UsageSnapshotMaxBytes config)));
  match opened with
  | Err e => _ ← attempt (call CloseStats); throw e
  | Ok _ =>
      _ ← attempt (call RestoreForwarding);
      if negb has_audit then mret false else
      opened ← attempt (call (OpenAudit (AccessAuditDBPath config) (2 ^ 25)));
      match opened with
      | Err _ => mret false
      | Ok _ => _ ← note (StartAudit (local_address (SingBoxAuditAPIPort config)) (auditAPISecret config)); mret true
      end
  end.

(** The first error, after everything was closed *)
Definition Close (audit : bool) : proc log unit :=
  first ← (if audit then attempt (call CloseAudit) else mret (Ok tt));
  second ← attempt (call CloseStats);
  third ← attempt (call CloseUsage);
  lift (match first with Err e => Err e | Ok _ => match second with Err e => Err e | Ok _ => third end end).

(** ** The server *)

Definition NewServer : proc log unit :=
  _ ← call NewVerifier;
  _ ← (r ← attempt (call KeyPair); match r with Err e => throw (ErrWrap "node TLS key pair is invalid" e) | Ok _ => mret tt end);
  _ ← (r ← attempt (call AppendCA); match r with Err _ => throw (ErrMsg "CA certificate pool is invalid") | Ok _ => mret tt end);
  _ ← (if NodeAPISNIEnabled config then
         r ← attempt (call ServerName); match r with Err e => throw (ErrWrap "derive Node API SNI" e) | Ok _ => mret tt end
       else mret tt);
  r ← attempt (call (OpenBenchmarks (if bool_decide (benchmark_env = "") then "/var/lib/remnanode/benchmarks" else benchmark_env)));
  match r with Err e => throw (ErrWrap "initialize benchmarks" e) | Ok _ => mret tt end.

(** It serves until its server is shut down or fails. *)
Definition ListenAndServeTLS : proc log unit := call (ServeTLS (NodePort config)).
Definition ListenAndServeInternal : proc log unit :=
  let path := InternalSocketPath config in
  if bool_decide (path = "") then throw (ErrMsg "INTERNAL_SOCKET_PATH is required") else
  _ ← call (MkdirSocket path);
  _ ← attempt (call (RemoveSocket path));
  _ ← call (ListenSocket path);
  call ServeInternal.

Definition Shutdown : proc log unit :=
  _ ← note CloseBenchmarks;
  _ ← attempt (call ShutdownPublic);
  _ ← attempt (call ShutdownInternal);
  if bool_decide (InternalSocketPath config = "") then mret tt
  else _ ← attempt (call (RemoveSocket (InternalSocketPath config))); mret tt.

(** ** [main] *)

(** Up to the start of the servers: whether there is an access audit *)
Definition start : proc log bool :=
  _ ← call LoadConfig;
  audit ← NewManager;
  _ ← note SyncEnvironment;
  _ ← NewServer;
  mret audit.

(** What may happen while the servers run: requests, timers, and the steps of the goroutines
    that serve *)
Definition is_serving (e : event) : Prop :=
  match e with
  | Tick | CaptureUsage | RefreshDNS | Request | ServeTLS _ | MkdirSocket _ | RemoveSocket _ | ListenSocket _ | ServeInternal => True
  | _ => False
  end.
Definition serving (l l' : log) : Prop := ∃ new, l' = new ++ l ∧ Forall is_serving new.

(** From the signal or the end of a server to the exit: the deferred calls run only when
    the shutdown did not fail. *)
Definition finish (audit : bool) : proc log Z :=
  r ← attempt Shutdown;
  match r with
  | Err _ => mret 1%Z
  | Ok _ => _ ← attempt (Close audit); mret 0%Z
  end.

(** A run of the program to its exit *)
Inductive run : log → Z → Prop :=
| run_failed l e : start [] = (l, Err e) → run (Exit 1 :: l) 1
| run_served l audit l1 l2 code :
    start [] = (l, Ok audit) → serving l l1 → finish audit l1 = (l2, Ok code) → run (Exit code :: l2) code.

(** ** What a run does *)

(** A resource is open after a log when its opening succeeded and no closing came after. *)
Fixpoint is_open (opens closes : event → bool) (l : log) : bool :=
  match l with
  | [] => false
  | e :: old => negb (closes e) && ((opens e && bool_decide (reply l = None)) || is_open opens closes old)
  end.
Definition stats_open : log → bool :=
  is_open (λ e, match e with DialStats _ => true | _ => false end) (λ e, match e with CloseStats => true | _ => false end).
Definition usage_open : log → bool :=
  is_open (λ e, match e with OpenUsage _ _ => true | _ => false end) (λ e, match e with CloseUsage => true | _ => false end).
Definition audit_open : log → bool :=
  is_open (λ e, match e with OpenAudit _ _ => true | _ => false end) (λ e, match e with CloseAudit => true | _ => false end).
Definition benchmarks_open : log → bool :=
  is_open (λ e, match e with OpenBenchmarks _ => true | _ => false end) (λ e, match e with CloseBenchmarks => true | _ => false end).

(** The closings of a run, newest first *)
Definition closings (audit : bool) : log :=
  [CloseUsage; CloseStats] ++ (if audit then [CloseAudit] else []) ++
  (if bool_decide (InternalSocketPath config = "") then [] else [RemoveSocket (InternalSocketPath config)]) ++
  [ShutdownInternal; ShutdownPublic; CloseBenchmarks].

Lemma Close_adds audit l : (Close audit l).1 = [CloseUsage; CloseStats] ++ (if audit then [CloseAudit] else []) ++ l.
Proof. by destruct audit. Qed.
Lemma Shutdown_adds l : Shutdown l =
  ((if bool_decide (InternalSocketPath config = "") then [] else [RemoveSocket (InternalSocketPath config)]) ++
   [ShutdownInternal; ShutdownPublic; CloseBenchmarks] ++ l, Ok tt).
Proof. unfold Shutdown. cbn. by destruct (bool_decide _). Qed.

Lemma ending_spec audit l : finish audit l = (closings audit ++ l, Ok 0%Z).
Proof.
  unfold finish. erewrite proc_bind_run; [|unfold attempt; rewrite Shutdown_adds; reflexivity]. cbv beta iota.
  set (l1 := _ ++ _). destruct (Close audit l1) as [l2 r] eqn:E.
  erewrite proc_bind_run; [|unfold attempt; rewrite E; reflexivity]. cbv beta iota. unfold mret, proc_ret. f_equal.
  pose proof (Close_adds audit l1) as H. rewrite E in H. cbn [fst] in H. rewrite H. unfold l1, closings. by rewrite <- !app_assoc.
Qed.

(** What the constructors do *)
Lemma call_inv e l l' (r : result unit) : call e l = (l', r) →
  l' = e :: l ∧ match r with Ok _ => reply (e :: l) = None | Err x => reply (e :: l) = Some x end.
Proof. unfold call. intros E. injection E as <- <-. by destruct (reply _). Qed.

Definition audit_events : log → bool → log → Prop := λ old audit new,
  new = [] ∧ audit = false ∨
  (∃ path max err, new = [OpenAudit path max] ∧ audit = false ∧ reply (OpenAudit path max :: old) = Some err) ∨
  (∃ path max target secret, new = [StartAudit target secret; OpenAudit path max] ∧ audit = true ∧ reply (OpenAudit path max :: old) = None).

Lemma NewManager_spec l l' r : NewManager l = (l', r) →
  match r with
  | Ok audit => ∃ new,
      let dialed := DialStats (local_address (singBoxV2RayAPIPort config)) :: l in
      let queue := OpenUsage (UsageSnapshotDBPath config) (UsageSnapshotMaxBytes config) :: dialed in
      l' = new ++ RestoreForwarding :: queue ∧ reply dialed = None ∧ reply queue = None ∧
      audit_events (RestoreForwarding :: queue) audit new
  | Err _ => ∃ target path max, l' = [DialStats target] ++ l ∧ reply l' ≠ None ∨
      l' = [CloseStats; OpenUsage path max; DialStats target] ++ l
  end.
Proof.
  intros E. unfold NewManager in E. set (target := local_address (singBoxV2RayAPIPort config)) in E.
  set (path := UsageSnapshotDBPath config) in E. set (max := UsageSnapshotMaxBytes config) in E.
  step E l1 a H1. apply call_inv in H1 as [-> H1]. destruct a as [u|e]; [|destruct E as [-> ->]].
  2: { exists target, path, max. left. split; [done|]. by rewrite H1. }
  step_attempt E l2 b H2. apply call_inv in H2 as [-> H2]. destruct b as [u2|e].
  2: { step_attempt E l3 c H3. apply call_inv in H3 as [-> _]. injection E as <- <-. exists target, path, max. by right. }
  step_attempt E l3 c H3. apply call_inv in H3 as [-> _]. destruct (negb has_audit).
  { injection E as <- <-. exists []. split_and!; try done. by left. }
  step_attempt E l4 d H4. apply call_inv in H4 as [-> H4]. destruct d as [u4|e].
  - step E l5 f H5. injection H5 as <- <-. injection E as <- <-. eexists [_; _]. split_and!; try done.
    right. right. by eexists _, _, _, _.
  - injection E as <- <-. eexists [_]. split_and!; try done. right. left. by eexists _, _, _.
Qed.

Definition server_event (e : event) : bool :=
  match e with NewVerifier | KeyPair | AppendCA | ServerName | OpenBenchmarks _ => true | _ => false end.

Lemma call_wrap_inv e (f : error → error) l l' (r : result unit) :
  (r ← attempt (call e); match r with Err x => throw (f x) | Ok _ => mret tt end) l = (l', r) → l' = e :: l ∧ (is_ok r = true → reply l' = None).
Proof.
  intros E. step_attempt E l1 a H1. apply call_inv in H1 as [-> H1].
  destruct a; injection E as <- <-; split; try done.
Qed.

Lemma NewServer_spec l l' r : NewServer l = (l', r) →
  ∃ new, l' = new ++ l ∧ forallb server_event new = true ∧
  (is_ok r = true → ∃ dir rest, new = OpenBenchmarks dir :: rest ∧ reply l' = None).
Proof.
  intros E. unfold NewServer in E. step E l1 a H1. apply call_inv in H1 as [-> _].
  destruct a as [u|e]; [|destruct E as [-> ->]; by exists [NewVerifier]].
  step E l2 b H2. apply call_wrap_inv in H2 as [-> _]. destruct b as [u2|e]; [|destruct E as [-> ->]; by exists [KeyPair; NewVerifier]].
  step E l3 c H3. apply (call_wrap_inv _ (λ _, _)) in H3 as [-> _].
  destruct c as [u3|e]; [|destruct E as [-> ->]; by exists [AppendCA; KeyPair; NewVerifier]].
  step E l4 d H4. assert (∃ new, l4 = new ++ [AppendCA; KeyPair; NewVerifier] ++ l ∧ forallb server_event new = true) as (new & -> & Hnew).
  { destruct (NodeAPISNIEnabled config); [apply call_wrap_inv in H4 as [-> _]; by exists [ServerName]|].
    injection H4 as <- <-. by exists []. }
  destruct d as [u4|e]; [|destruct E as [-> ->]; exists (new ++ [AppendCA; KeyPair; NewVerifier])].
  2: { rewrite <- app_assoc, forallb_app, Hnew. done. }
  apply call_wrap_inv in E as [-> E]. eexists (_ :: new ++ [AppendCA; KeyPair; NewVerifier]). split; [cbn; by rewrite <- app_assoc|].
  split; [cbn; by rewrite forallb_app, Hnew|]. intros Hr. eexists _, _. split; [done|auto].
Qed.

Lemma is_open_app opens closes new old : forallb (λ e, negb (opens e) && negb (closes e)) new = true →
  is_open opens closes (new ++ old) = is_open opens closes old.
Proof.
  induction new as [|e new IH]; cbn [forallb app is_open]; [done|]. intros [[H1%negb_true_iff ->]%andb_true_iff H]%andb_true_iff.
  by rewrite H1, (IH H).
Qed.
Lemma forallb_weaken {A} (p q : A → bool) l : (∀ x, p x = true → q x = true) → forallb p l = true → forallb q l = true.
Proof. rewrite !forallb_forall. auto. Qed.

(** The events before the servers run *)
Definition is_boot (e : event) : bool :=
  match e with
  | LoadConfig | DialStats _ | OpenUsage _ _ | RestoreForwarding | OpenAudit _ _ | StartAudit _ _ | SyncEnvironment
  | NewVerifier | KeyPair | AppendCA | ServerName | OpenBenchmarks _ | CloseStats => true
  | _ => false
  end.

(** What a start opens first, newest first: the statistics connection and the usage queue
    of the configuration, before it tries to restore the forwarding rules *)
Definition opened_first : log :=
  [RestoreForwarding; OpenUsage (UsageSnapshotDBPath config) (UsageSnapshotMaxBytes config);
   DialStats (local_address (singBoxV2RayAPIPort config)); LoadConfig].
Definition audit_event (e : event) : bool := match e with OpenAudit _ _ | StartAudit _ _ => true | _ => false end.

Lemma startup_spec l r : start [] = (l, r) →
  forallb is_boot l = true ∧
  match r with
  | Ok audit => ∃ server new, l = server ++ SyncEnvironment :: new ++ opened_first ∧ forallb server_event server = true ∧
      forallb audit_event new = true ∧
      stats_open l = true ∧ usage_open l = true ∧ benchmarks_open l = true ∧ audit_open l = audit
  | Err _ => stats_open l = true → usage_open l = true
  end.
Proof.
  intros E. unfold start in E. step E l1 a H1. apply call_inv in H1 as [-> H1]. destruct a as [u|e]; [|by destruct E as [-> ->]].
  step E l2 b H2. apply NewManager_spec in H2. destruct b as [audit|e].
  2: { destruct E as [-> ->]. destruct H2 as (t & p & m & [[-> Hr]| ->]); [|by split]. split; [done|].
       unfold stats_open. cbn in *. by rewrite bool_decide_false. }
  cbn zeta in H2. destruct H2 as (new & -> & Hdial & Husage & Haudit). fold opened_first in *.
  set (old := opened_first) in *.
  assert (forallb audit_event new = true ∧ audit_open (new ++ old) = audit) as [Hnew Hopen].
  { destruct Haudit as [[-> ->]|[(pa & ma & x & -> & -> & Hx)|(pa & ma & ta & sa & -> & -> & Hx)]]; (split; [done|]); unfold audit_open; cbn; [done| |].
    - rewrite Hx. by rewrite bool_decide_false.
    - by rewrite Hx, bool_decide_true by done. }
  assert (stats_open old = true ∧ usage_open old = true) as [Hs Hu].
  { unfold stats_open, usage_open, old, opened_first. cbn [is_open negb andb orb]. by rewrite Hdial, Husage, !bool_decide_true by done. }
  step E l3 c H3. injection H3 as <- <-. step E l4 d H4. apply NewServer_spec in H4 as (server & -> & Hserver & Hok).
  assert (forallb is_boot (server ++ SyncEnvironment :: new ++ old) = true) as Hboot.
  { rewrite forallb_app, (forallb_weaken server_event) by (done || by intros []). cbn [forallb andb is_boot].
    rewrite forallb_app, (forallb_weaken audit_event) by (done || by intros []). done. }
  assert (∀ opens closes, (∀ e, server_event e = true → opens e = false ∧ closes e = false) → opens SyncEnvironment = false → closes SyncEnvironment = false →
    is_open opens closes (server ++ SyncEnvironment :: new ++ old) = is_open opens closes (new ++ old)) as Hserv.
  { intros opens closes H Ho Hc. rewrite is_open_app; [cbn; by rewrite Ho, Hc|]. eapply forallb_weaken, Hserver.
    intros x Hx. by destruct (H x Hx) as [-> ->]. }
  assert (∀ opens closes, (∀ e, audit_event e = true → opens e = false ∧ closes e = false) →
    is_open opens closes (new ++ old) = is_open opens closes old) as Hmid.
  { intros opens closes H. apply is_open_app. eapply forallb_weaken, Hnew. intros x Hx. by destruct (H x Hx) as [-> ->]. }
  assert (stats_open (server ++ SyncEnvironment :: new ++ old) = true) as Hs'.
  { unfold stats_open. rewrite Hserv, Hmid; try done; by intros []. }
  assert (usage_open (server ++ SyncEnvironment :: new ++ old) = true) as Hu'.
  { unfold usage_open. rewrite Hserv, Hmid; try done; by intros []. }
  destruct d as [u4|e]; [|by destruct E as [-> ->]]. injection E as <- <-. split; [exact Hboot|].
  exists server, new. split_and!; try done.
  - destruct (Hok eq_refl) as (dir & rest & -> & Hr). unfold benchmarks_open. cbn in Hr |- *. rewrite Hr. by rewrite bool_decide_true.
  - unfold audit_open. rewrite Hserv; try done; by intros [].
Qed.

End boot.

Module BootDemo.

Definition demo : Config :=
  {| NodePort := 2222; SecretKey := "s"; DisableHashCheck := false; SingBoxAPIPort := 61001; SingBoxV2RayAPIPort := 61002;
     SingBoxAuditAPIPort := 61003; AccessAuditDBPath := "/data/audit.db"; InternalRESTToken := "t";
     InternalSocketPath := "/run/internal.sock"; SupervisordSocket := ""; SupervisordPIDPath := ""; SupervisordUser := "";
     SupervisordPass := ""; SingBoxConfigPath := ""; SingBoxBinaryPath := ""; SingBoxLastGoodPath := "";
     Payload := {| CACertPEM := ""; JWTPublicKey := ""; NodeCertPEM := ""; NodeKeyPEM := "" |}; NodeVersion := "3";
     UsageSnapshotDBPath := "/data/stats.db"; UsageSnapshotInterval := 10; UsageSnapshotMaxBytes := 1024;
     ForwardingStatePath := ""; NodeAPISNIEnabled := false |}.

(** Forwarding cannot be restored, and the usage queue cannot be closed. *)
#[local] Instance env : BootEnv := {|
  reply := λ l, match l with RestoreForwarding :: _ | CloseUsage :: _ => Some (ErrMsg "failed") | _ => None end;
  config := demo; benchmark_env := "" |}.
#[local] Instance digest : Digest := λ s, s.

Definition booted : log := (start []).1.
Definition served : log := [CaptureUsage; Request; ServeTLS 2222].
Definition ended : log := Exit 0 :: (finish true (served ++ booted)).1.

Lemma demo_run : run ended 0.
Proof.
  apply (run_served booted true (served ++ booted)); [reflexivity| |reflexivity]. exists served. split; [done|]. by repeat constructor.
Qed.

End BootDemo.
End Boot.
