(* ===== verification/ApiSpec.v ===== *)
(** * What passes the HTTP API

    [verify_exact]: which tokens are accepted.  [validate_exact]: which requests pass
    validation, and that no request with a user of AnyTLS, Hysteria2 or TUIC does.
    [serve_exact]: which requests reach the manager, and with what. *)
From S2P Require Import Prelude GoStr GoTime GoNet Base64 GoAny UsageStore AccessAudit SingBoxConfig Users Lifecycle Plugin ForwardRules ForwardRender Forwarding ForwardManager Benchmark Geocheck Auth HttpApi.
Import Auth HttpApi.

(** ** Splitting *)

Definition without (sep : ascii) (s : string) : Prop := all_bytes (λ c, negb (Ascii.eqb c sep)) s = true.

Lemma split_byte_app sep a r : without sep a → split_byte sep (a +:+ String sep r) = a :: split_byte sep r.
Proof.
  unfold without. induction a as [|c a IH]; cbn [all_bytes String.append split_byte]; [by rewrite Ascii.eqb_refl|].
  intros [Hc Ha]%andb_true_iff. apply negb_true_iff in Hc. rewrite Hc, (IH Ha). done.
Qed.
Lemma split_byte_one sep a : without sep a → split_byte sep a = [a].
Proof.
  unfold without. induction a as [|c a IH]; cbn [all_bytes split_byte]; [done|].
  intros [Hc Ha]%andb_true_iff. apply negb_true_iff in Hc. by rewrite Hc, (IH Ha).
Qed.
Lemma split_byte_cons sep s a b l : split_byte sep s = a :: b :: l → ∃ r, s = a +:+ String sep r ∧ split_byte sep r = b :: l.
Proof.
  revert a. induction s as [|c s IH]; intros a; cbn [split_byte]; [done|]. destruct (Ascii.eqb_spec c sep) as [->|].
  - intros [= <- E]. by exists s.
  - destruct (split_byte sep s) as [|w ws] eqn:Es; [done|]. intros [= <- ->]. destruct (IH w eq_refl) as (r & -> & Hr). by exists r.
Qed.
Lemma split_byte_last sep s a : split_byte sep s = [a] → s = a.
Proof.
  revert a. induction s as [|c s IH]; intros a; cbn [split_byte]; [by intros [= ->]|]. destruct (Ascii.eqb c sep).
  - intros [= _ E]. by destruct (split_byte_nonempty sep s).
  - destruct (split_byte sep s) as [|w ws] eqn:Es; [by destruct (split_byte_nonempty sep s)|]. intros [= <- ->]. by rewrite (IH w).
Qed.

Lemma split_three sep s a b c :
  split_byte sep s = [a; b; c] ↔ s = a +:+ String sep (b +:+ String sep c) ∧ without sep a ∧ without sep b ∧ without sep c.
Proof.
  split.
  - intros E. assert (∀ w, w ∈ [a; b; c] → without sep w) as Hw by (intros w; rewrite <- E; apply split_byte_no_sep).
    apply split_byte_cons in E as (r & -> & E). apply split_byte_cons in E as (r' & -> & ->%split_byte_last).
    split_and!; [done|apply Hw; left|apply Hw; right; left|apply Hw; right; right; left].
  - intros (-> & Ha & Hb & Hc). by rewrite split_byte_app, split_byte_app, split_byte_one.
Qed.

(** ** Tokens *)

Section auth.
Context {K : Type} {KeysI : Keys K} {TokenI : TokenJson}.

(** A token of three parts without dots, the header and the payload and the signature in
    base64, signed by the key *)
Definition signed (key : K) (token payload : string) : Prop :=
  ∃ h p s header signature,
    token = h +:+ "." +:+ p +:+ "." +:+ s ∧ without "." h ∧ without "." p ∧ without "." s ∧
    b64_decode h = Some header ∧ header_alg header = Ok "RS256" ∧
    b64_decode s = Some signature ∧ rsa_ok key (h +:+ "." +:+ p) signature = true ∧ b64_decode p = Some payload.

Definition in_force (claims : object) (now : Z) : Prop :=
  (∀ exp, numericClaim (field claims "exp") = Some exp → (now < exp)%Z) ∧
  (∀ nbf, numericClaim (field claims "nbf") = Some nbf → (nbf ≤ now)%Z).

Lemma check_times_ok claims now u : check_times claims now = Ok u ↔ in_force claims now.
Proof.
  unfold check_times, in_force. destruct u. rewrite bind_ok. split.
  - intros (u & H1 & H2). destruct (numericClaim (field claims "exp")) as [exp|]; [apply fail_if_ok in H1|];
      (destruct (numericClaim (field claims "nbf")) as [nbf|]; [apply fail_if_ok in H2|]); split; intros ? [=]; lia.
  - intros [H1 H2]. exists tt. split.
    + destruct (numericClaim _) as [exp|]; [|done]. apply fail_if_ok. specialize (H1 exp eq_refl). lia.
    + destruct (numericClaim (field claims "nbf")) as [nbf|]; [|done]. apply fail_if_ok. specialize (H2 nbf eq_refl). lia.
Qed.

Lemma decode_part_ok part what raw : decode_part part what = Ok raw ↔ b64_decode part = Some raw.
Proof. unfold decode_part. destruct (b64_decode part); split; congruence. Qed.
Lemma or_msg_ok {A} (r : result A) msg x : or_msg r msg = Ok x ↔ r = Ok x.
Proof. destruct r; cbn; split; congruence. Qed.

(** C20: a token is accepted exactly when it is signed by the key of the panel with RS256,
    its payload decodes to these claims, it has not expired, and its time has come. *)
Theorem verify_exact key now token claims :
  Verify key now token = Ok claims ↔ ∃ payload, signed key token payload ∧ token_claims payload = Ok claims ∧ in_force claims now.
Proof.
  unfold Verify, signed. split.
  - destruct (split_byte "." token) as [|p0 [|p1 [|p2 [|]]]] eqn:Es; try done. apply split_three in Es as (-> & D0 & D1 & D2). intros E.
    bind_as E header H1. bind_as E alg H2. bind_as E u H3. bind_as E sig H4. bind_as E u2 H5. bind_as E payload H6. bind_as E c H7. bind_as E u3 H8.
    injection E as <-. apply decode_part_ok in H1, H4, H6. apply or_msg_ok in H2, H7. apply fail_if_ok, negb_false_iff in H3, H5.
    apply bool_decide_eq_true in H3 as ->. apply check_times_ok in H8. exists payload. split; [|done]. exists p0, p1, p2, header, sig. by split_and!.
  - intros (payload & (p0 & p1 & p2 & header & sig & -> & D0 & D1 & D2 & H1 & H2 & H4 & H5 & H6) & H7 & H8).
    change (p0 +:+ "." +:+ p1 +:+ "." +:+ p2) with (p0 +:+ String "." (p1 +:+ String "." p2)).
    rewrite (proj2 (split_three "." _ p0 p1 p2)) by done.
    unfold mbind, result_bind. rewrite (proj2 (decode_part_ok p0 "header" header)) by done. rewrite H2. cbn [or_msg].
    rewrite bool_decide_eq_true_2 by done. cbn [negb fail_if]. rewrite (proj2 (decode_part_ok p2 "signature" sig)) by done.
    rewrite H5. cbn [negb fail_if]. rewrite (proj2 (decode_part_ok p1 "payload" payload)) by done. rewrite H7. cbn [or_msg].
    by rewrite (proj2 (check_times_ok claims now tt)).
Qed.
End auth.

(** ** Requests *)

(** The types of users that requests may carry *)
Definition accepted_type (ty : string) : Prop :=
  ty = "trojan" ∨ ty = "vless" ∨ ty = "shadowsocks" ∨ ty = "shadowsocks22" ∨ ty = "hysteria".
(** Those that README.md and plan.md name as supported: AnyTLS, Hysteria2 and TUIC *)
Definition documented_type (ty : string) : Prop := ty = "anytls" ∨ ty = "hysteria2" ∨ ty = "tuic".

(** What each endpoint may rely on *)
Definition well_formed (e : endpoint) : body_type e → Prop :=
  match e with
  | CoreStart => λ r, equal_fold (Lifecycle.CoreType r) "SING_BOX" = true ∧ Lifecycle.req_SingBoxConfig r ≠ ∅
  | AddUser => λ r, ∀ u, u ∈ Users.Data r →
      accepted_type (SingBoxConfig.Type_ u) ∧ SingBoxConfig.Tag u ≠ "" ∧ SingBoxConfig.Username u ≠ "" ∧
      (SingBoxConfig.Type_ u = "vless" → SingBoxConfig.UUID u ≠ "" ∧ SingBoxConfig.Flow u ∈ [""; "xtls-rprx-vision"])
  | RemoveUser => λ r, Users.rm_Username r ≠ ""
  | AddUsers => λ r, ∀ u, u ∈ Users.add_Users r →
      Users.ud_UserID (Users.UserData u) ≠ "" ∧
      ∀ i, i ∈ Users.InboundData u → accepted_type (Users.in_Type i) ∧ Users.in_Tag i ≠ ""
  | RemoveUsers => λ r, ∀ u, u ∈ Users.remove_Users r → Users.ru_UserID u ≠ ""
  | GetInboundUsers | GetInboundUsersCount | GetUserOnlineStatus | GetUserIPList => λ s, s ≠ ""
  | DropUsersConnections => λ l, ∀ id, id ∈ l → id ≠ ""
  | DropIPs | UnblockIPs => λ l, ∀ s, s ∈ l → is_Some (parse_ip s)
  | GetInboundStats | GetOutboundStats => λ r, r.1 ≠ ""
  | BlockIPs => λ l, ∀ b, b ∈ l → is_Some (parse_ip (Users.bi_IP b)) ∧ (0 ≤ Users.bi_Timeout b)%Z
  | _ => λ _, True
  end.

Lemma bind_unit (m : result unit) (f : result unit) : (_ ← m; f) = Ok tt ↔ m = Ok tt ∧ f = Ok tt.
Proof. rewrite bind_ok. split; [by intros ([] & ? & ?)|intros []; eauto]. Qed.
Lemma fail_if_unit b e : fail_if b e = Ok tt ↔ b = false.
Proof. apply fail_if_ok. Qed.
Lemma is_empty_false s : Users.is_empty s = false ↔ s ≠ "".
Proof. unfold Users.is_empty. apply bool_decide_eq_false. Qed.

Lemma validate_all_iff {A} (check : A → result unit) l : Users.validate_all check l = Ok tt ↔ ∀ x, x ∈ l → check x = Ok tt.
Proof.
  unfold Users.validate_all. induction l as [|x l IH]; cbn [foldr_result].
  { split; [|done]. by intros _ x ?%elem_of_nil. }
  rewrite bind_ok. split.
  - intros ([] & Hx & Hl) y [->|Hy]%elem_of_cons; [done|]. by apply IH.
  - intros H. exists tt. split; [apply H; left|]. apply IH. intros. apply H. by right.
Qed.
Lemma validate_ips_iff l : Users.validateIPs l = Ok tt ↔ ∀ s, s ∈ l → is_Some (parse_ip s).
Proof.
  unfold Users.validateIPs. rewrite validate_all_iff. split; intros H s Hs; specialize (H s Hs).
  - apply fail_if_unit, bool_decide_eq_false in H. by destruct (parse_ip s).
  - apply fail_if_unit, bool_decide_eq_false. destruct H as [? ->]. done.
Qed.
Lemma require_iff s m : require s m = Ok tt ↔ s ≠ "".
Proof. unfold require. by rewrite fail_if_unit, bool_decide_eq_false. Qed.

Lemma accepted_iff ty : ty ∈ Users.validUserTypes ↔ accepted_type ty.
Proof. unfold Users.validUserTypes, accepted_type. rewrite !elem_of_cons, elem_of_nil. tauto. Qed.

Lemma documented_refused ty : documented_type ty → ¬ accepted_type ty.
Proof. unfold documented_type, accepted_type. intros [->|[->| ->]]; intuition discriminate. Qed.

Lemma validate_item_iff u :
  Users.validate_item u = Ok tt ↔ accepted_type (SingBoxConfig.Type_ u) ∧ SingBoxConfig.Tag u ≠ "" ∧ SingBoxConfig.Username u ≠ "" ∧
    (SingBoxConfig.Type_ u = "vless" → SingBoxConfig.UUID u ≠ "" ∧ SingBoxConfig.Flow u ∈ [""; "xtls-rprx-vision"]).
Proof.
  rewrite <- accepted_iff. unfold Users.validate_item. rewrite !bind_unit, !fail_if_unit, orb_false_iff, !is_empty_false, negb_false_iff, bool_decide_eq_true.
  rewrite andb_false_iff, orb_false_iff, bool_decide_eq_false, andb_false_iff, is_empty_false, !negb_false_iff, bool_decide_eq_true.
  unfold Users.is_empty. rewrite bool_decide_eq_true, !elem_of_cons, elem_of_nil.
  destruct (decide (SingBoxConfig.Type_ u = "vless")); tauto.
Qed.

Lemma validate_iff e (b : body_type e) : validate e b = Ok tt ↔ well_formed e b.
Proof.
  destruct e; cbn [validate well_formed body_type] in b |- *; try done; try apply require_iff; try apply validate_ips_iff.
  - unfold Users.validate_start. by rewrite bind_unit, !fail_if_unit, negb_false_iff, bool_decide_eq_false.
  - unfold Users.validate_add_user. rewrite validate_all_iff. by setoid_rewrite validate_item_iff.
  - unfold Users.validate_add_users. rewrite validate_all_iff. unfold Users.validate_bulk. setoid_rewrite bind_unit. setoid_rewrite fail_if_unit.
    setoid_rewrite is_empty_false. setoid_rewrite validate_all_iff. setoid_rewrite fail_if_unit. setoid_rewrite orb_false_iff.
    setoid_rewrite is_empty_false. setoid_rewrite negb_false_iff. setoid_rewrite bool_decide_eq_true. by setoid_rewrite accepted_iff.
  - unfold Users.validate_remove_users. rewrite validate_all_iff. setoid_rewrite fail_if_unit. by setoid_rewrite is_empty_false.
  - unfold Users.validate_drop_users. rewrite validate_all_iff. setoid_rewrite fail_if_unit. by setoid_rewrite is_empty_false.
  - unfold Users.validate_block_ips. rewrite validate_all_iff. setoid_rewrite bind_unit. setoid_rewrite validate_ips_iff. setoid_rewrite fail_if_unit.
    split; intros H x Hx; destruct (H x Hx) as [H1 H2]; (split; [|lia]).
    + apply H1. left.
    + by intros s ->%list_elem_of_singleton.
Qed.

(** C33: validation accepts exactly the well-formed requests, in which a user is of one of
    five types.  The users of AnyTLS, Hysteria2 and TUIC, which the documents name as
    supported, are none of these: every request to add one, alone or in bulk, is refused. *)
Theorem validate_exact e (b : body_type e) :
  (validate e b = Ok tt ↔ well_formed e b) ∧
  (∀ (r : body_type AddUser) u, u ∈ Users.Data r → documented_type (SingBoxConfig.Type_ u) → validate AddUser r ≠ Ok tt) ∧
  (∀ (r : body_type AddUsers) u i, u ∈ Users.add_Users r → i ∈ Users.InboundData u → documented_type (Users.in_Type i) →
     validate AddUsers r ≠ Ok tt).
Proof.
  split; [apply validate_iff|]. split.
  - intros r u Hu Ht%documented_refused Hv%validate_iff. by destruct (Hv u Hu).
  - intros r u i Hu Hi Ht%documented_refused Hv%validate_iff. destruct (Hv u Hu) as [_ H]. by destruct (H i Hi).
Qed.

(** ** From the request to the manager *)

Section api.
Context {K : Type} {KeysI : Keys K} {TokenI : TokenJson} {CaseI : UnicodeCase} {PrintI : UnicodePrint} {BodiesI : Bodies}.

Lemma call_inj e b e' b' : Call e b = Call e' b' → ∃ H : e = e', eq_rect e (λ e, option (body_type e)) b e' H = b'.
Proof.
  intros E. assert (existT e b = existT e' b' :> {e & option (body_type e)}) as X.
  { refine (f_equal (λ o, match o with Call e b => existT e b | _ => existT e b end) E). }
  exists (eq_sigT_fst X). exact (eq_sigT_snd X).
Qed.

Lemma bearer header token : trim_prefix header "Bearer " = token → token ≠ header ↔ header = "Bearer " +:+ token.
Proof.
  intros <-. unfold trim_prefix. destruct (strip_prefix "Bearer " header) as [r|] eqn:E; cbn [from_option id].
  - apply strip_prefix_spec in E as ->. split; [done|]. intros _ H. apply (f_equal slen) in H. rewrite slen_app in H.
    change (slen "Bearer ") with 7%Z in H. lia.
  - split; [done|]. intros H. rewrite H, strip_prefix_app in E. done.
Qed.

(** The header carries an accepted token. *)
Definition authorized (key : K) (now : Z) (header : string) : Prop :=
  ∃ token claims, header = "Bearer " +:+ token ∧ token ≠ "" ∧ Verify key now token = Ok claims.

Lemma require_jwt_ok key now header u : requireJWT key now header = Ok u ↔ authorized key now header.
Proof.
  unfold requireJWT, authorized. destruct u. set (token := trim_prefix header "Bearer ").
  pose proof (bearer header token eq_refl) as Hb. split.
  - intros E. destruct (bool_decide (token = header)) eqn:E1; [done|]. destruct (bool_decide (token = "")) eqn:E2; [done|]. cbn [orb] in E.
    bind_as E claims Hc. apply bool_decide_eq_false in E1, E2. exists token, claims. split_and!; [by apply Hb|done..].
  - intros (t & claims & -> & Hne & Hv). assert (token = t) as -> by apply trim_prefix_app.
    rewrite (bool_decide_eq_false_2 (t = _)) by (by apply Hb). rewrite bool_decide_eq_false_2 by done. cbn [orb]. by rewrite Hv.
Qed.

(** The body that a handler reads: it decodes, within the limits, to a valid request. *)
Definition reads (r : Request) (e : endpoint) (b : body_type e) : Prop :=
  ∃ payload, decodeRequestBody (body_limit e) (Content_Encoding r) (body r) = Ok payload ∧ unmarshal e payload = Ok b ∧ validate e b = Ok tt.

Lemma decode_json_ok e r b : decodeJSON e r = inl b ↔ reads r e b.
Proof.
  unfold decodeJSON, reads. destruct (decodeRequestBody _ _ _) as [payload|err]; cbn [mbind result_bind].
  - destruct (unmarshal e payload) as [b'|err] eqn:Hu.
    + destruct (validate e b') as [[]|err] eqn:Hv; split; try done.
      * intros [= <-]. by exists payload.
      * intros (p & [= <-] & E & _). congruence.
      * intros (p & [= <-] & E & Hv'). congruence.
    + split; [done|]. intros (p & [= <-] & E & _). congruence.
  - split; [done|]. by intros (p & ? & _).
Qed.

(** C11: a call reaches the manager exactly when the request is for a route of that endpoint
    with an accepted token, the access audit exists if it is asked for, and the body, where
    one is read, decodes to a valid request that does not reset statistics while usage
    snapshots are active. *)
Theorem serve_exact key now has_audit snapshots_active r e b :
  serve key now has_audit snapshots_active r = Call e b ↔
  ∃ route, find_route (req_method r) (req_path r) = Some route ∧ calls route = e ∧ authorized key now (Authorization r) ∧
  (is_audit e = true → has_audit = true) ∧
  match b with
  | None => reads_body route = false
  | Some x => reads_body route = true ∧ reads r e x ∧ (is_reset e x = true → snapshots_active = false)
  end.
Proof.
  unfold serve. destruct (find_route _ _) as [route|]; [|split; [done|by intros (? & ? & _)]]. split.
  - intros E. exists route. destruct (requireJWT _ _ _) as [u|] eqn:Ha; [|done]. apply require_jwt_ok in Ha. unfold handler in E.
    destruct (is_audit (calls route) && negb has_audit) eqn:Hau; [done|].
    assert (is_audit (calls route) = true → has_audit = true) as Hau' by (intros H; rewrite H in Hau; by apply negb_false_iff in Hau).
    destruct (reads_body route) eqn:Hr; cbn [negb] in E.
    + destruct (decodeJSON (calls route) r) as [x|msg] eqn:Hd; [|done]. apply decode_json_ok in Hd.
      destruct (is_reset (calls route) x && snapshots_active) eqn:Hs; [done|]. apply call_inj in E as [H E]. destruct H. cbn in E. subst b.
      split_and!; try done. intros H. by rewrite H in Hs.
    + apply call_inj in E as [H E]. destruct H. cbn in E. by subst b.
  - intros (route' & [= <-] & <- & Ha & Hau & Hb). rewrite (proj2 (require_jwt_ok key now _ tt) Ha). unfold handler.
    assert (is_audit (calls route) && negb has_audit = false) as -> by (destruct (is_audit _); [by rewrite Hau|done]).
    destruct b as [x|]; [|by rewrite Hb]. destruct Hb as (-> & Hx & Hs). cbn [negb]. rewrite (proj2 (decode_json_ok _ _ _) Hx).
    assert (is_reset (calls route) x && snapshots_active = false) as -> by (destruct (is_reset _ x); [by rewrite Hs|done]). done.
Qed.
End api.

(** ** Examples *)

Module ApiDemo.
#[local] Instance keys : Keys string := {
  pem_decode := Some; cert_key _ := None; pkcs1_key := Some; pkix_key _ := Ok None; marshal_pkix := Ok; parse_cert := Ok;
  rsa_ok k m s := bool_decide (s = k +:+ m) }.
Definition base : object := {["sub" := AStr "panel"]}.
#[local] Instance tokens : TokenJson := {
  header_alg s := Ok s;
  token_claims s := match atoi s with Some n => Ok (<["exp" := AInt n]> base) | None => Ok base end }.
#[local] Instance case : UnicodeCase := { lower_rune := ascii_lower; upper_rune := ascii_upper }.
#[local] Instance printable : UnicodePrint := λ _, true.

Definition unit_body (e : endpoint) : result (body_type e) :=
  match e with
  | GetUsersStats => Ok true
  | GetInboundUsers => Ok ""
  | RemoveUser => Ok {| Users.rm_Username := "alice"; Users.rm_VLESSUUID := "" |}
  | _ => Err (ErrMsg "not in this example")
  end.
#[local] Instance bodies : Bodies := { zstd_decode := Ok; unmarshal e _ := unit_body e }.

Definition token (exp : string) : string :=
  let input := b64_encode "RS256" +:+ "." +:+ b64_encode exp in input +:+ "." +:+ b64_encode ("key" +:+ input).
Definition request (m p exp : string) : Request :=
  {| req_method := m; req_path := p; Authorization := "Bearer " +:+ token exp; Content_Encoding := ""; body := "{}"; RemoteAddr := "192.0.2.1:5" |}.

Example api_examples :
  serve "key" 50 false false (request "POST" "/node/handler/remove-user" "100") =
    Call RemoveUser (Some {| Users.rm_Username := "alice"; Users.rm_VLESSUUID := "" |}) ∧
  serve "key" 100 false false (request "POST" "/node/handler/remove-user" "100") = Reply 401 "jwt expired" ∧
  serve "other" 50 false false (request "POST" "/node/handler/remove-user" "100") = Reply 401 "jwt signature verification failed" ∧
  serve "key" 50 false false (request "POST" "/node/handler/get-inbound-users" "100") = Reply 400 "tag is required" ∧
  serve "key" 50 false true (request "POST" "/node/stats/get-users-stats" "100") =
    Reply 409 "reset-based statistics are disabled while usage_snapshot_v1 is active" ∧
  serve "key" 50 false true (request "GET" "/node/benchmarks/7" "100") = Call BenchmarkGet None ∧
  serve "key" 50 false true (request "GET" "/node/access-audit/status" "100") = Reply 501 "Access audit is unavailable" ∧
  serve "key" 50 false true (request "GET" "/node/core/start" "100") = NoRoute.
Proof. vm_compute. by split_and!. Qed.
End ApiDemo.
