(* ===== verification/AgentSpec.v ===== *)
(** * What the components guarantee together

    [ports_exclusive]: whatever requests, timers and background work follow each other from
    the start of the agent, the core and the forwarding rules never want the same port, as
    long as no configuration file was left unrestored ([unrestored_clash] shows why). *)
From S2P Require Import Prelude GoStr GoTime GoNet Base64 GoAny GoSort GoFloat Bolt UsageStore UsageBilling AccessAudit AuditDelivery RuntimeState NodeConfig SingBoxConfig ConfigSpec Users Activation ActivationSpec Lifecycle Stats UsageCapture Plugin PluginSpec ForwardRules ForwardRender ForwardProbe Forwarding ForwardSpec ForwardManager CoreApi Benchmark Connections Geocheck SystemStats SystemSnapshot Auth HttpApi Sockets CorePorts RulePorts Agent.
Import NodeConfig Auth.

(** ** The plugin leaves the core alone *)

Section plugin.
Context {PluginI : Plugin.PluginEnv} {JsonI : Activation.Json} {DigestI : SingBoxConfig.Digest}.
Import Plugin.

(** The runtime state says the same of the core. *)
Definition same_core (r0 : RuntimeState.Runtime) (w : PluginWorld) : Prop :=
  RuntimeState.running (p_runtime w) = RuntimeState.running r0 ∧ RuntimeState.singBoxConfig (p_runtime w) = RuntimeState.singBoxConfig r0.

Context (r0 : RuntimeState.Runtime).
Abbreviation inert := (preserves (same_core r0)).

Lemma inert_now : inert now. Proof. intros w H. exact H. Qed.
Lemma inert_nft c : inert (runNft c). Proof. intros w H. exact H. Qed.
Lemma inert_set_plugin p : inert (upd_runtime (RuntimeState.SetPluginState p)). Proof. intros w H. exact H. Qed.
Lemma inert_block ip until : inert (upd_runtime (RuntimeState.SetBlockedIP ip until)). Proof. intros w H. exact H. Qed.
Lemma inert_unblock ip : inert (upd_runtime (RuntimeState.DeleteBlockedIP ip)). Proof. intros w H. exact H. Qed.
Lemma inert_drop ip : inert (dropConnections ip).
Proof. unfold dropConnections. destruct (_ || _); [auto with node|by intros w H]. Qed.
Lemma inert_iter {A} (f : A → proc PluginWorld unit) l : (∀ x, inert (f x)) → inert (proc_iter f l).
Proof. intros H. apply preserves_fold. intros [] x _. apply H. Qed.
Hint Resolve inert_now inert_nft inert_set_plugin inert_block inert_unblock inert_drop inert_iter : node.

(** Case by case, step by step *)
Ltac inert_tac :=
  repeat first [ progress (auto with node) | apply preserves_bind; [|intros ?] | apply preserves_attempt | apply preserves_when | apply inert_iter; intros ?
               | match goal with |- preserves _ (match ?x with _ => _ end) => destruct x end ].

Lemma inert_recreate : inert recreateNFTables.
Proof. unfold recreateNFTables. inert_tac. Qed.
Lemma inert_sync_set set items ipv6 : inert (nftSyncSet set items ipv6).
Proof. unfold nftSyncSet. inert_tac. Qed.
Lemma inert_sync_ports set ports : inert (nftSyncPortSet set ports).
Proof. unfold nftSyncPortSet. inert_tac. Qed.
Hint Resolve inert_recreate inert_sync_set inert_sync_ports : node.
Lemma inert_sync_state p : inert (syncNFTState p).
Proof. unfold syncNFTState. inert_tac. Qed.
Hint Resolve inert_sync_state : node.
Lemma inert_restore p : inert (restorePluginNFTState p).
Proof. unfold restorePluginNFTState. inert_tac. Qed.
Hint Resolve inert_restore : node.
Lemma inert_apply next fallback : inert (applyPluginNFTState next fallback).
Proof. unfold applyPluginNFTState. inert_tac. Qed.
Lemma inert_resolve target previous : inert (resolveEgressDomains target previous).
Proof.
  unfold resolveEgressDomains. apply preserves_bind; [|auto with node]. apply preserves_fold. intros acc domain _.
  apply preserves_bind; [|auto with node]. unfold resolve_domain. inert_tac.
Qed.
Hint Resolve inert_apply inert_resolve : node.
Lemma inert_compile request previous : inert (compilePluginState request previous).
Proof. unfold compilePluginState. inert_tac. Qed.
Lemma inert_reject {A} current e : inert (reject (A := A) current e).
Proof. unfold reject. inert_tac. Qed.
Hint Resolve inert_compile inert_reject : node.

Lemma inert_SyncPlugin request : inert (SyncPlugin request).
Proof. unfold SyncPlugin. inert_tac. Qed.
Lemma inert_CompilePlugin request : inert (CompilePlugin request).
Proof. unfold CompilePlugin. inert_tac. Qed.
Lemma inert_refresh : inert refreshPluginDNS.
Proof. unfold refreshPluginDNS. inert_tac. Qed.
Lemma inert_BlockIPs ips : inert (BlockIPs ips).
Proof. apply inert_iter. intros item. unfold blockIPWithTimeout. inert_tac. Qed.
Lemma inert_UnblockIPs ips : inert (UnblockIPs ips).
Proof. apply inert_iter. intros ip. unfold unblock_ip, nftDeleteElement. inert_tac. Qed.
Lemma inert_DropIPs ips : inert (DropIPs ips).
Proof. unfold DropIPs. inert_tac. Qed.
End plugin.
#[export] Hint Resolve inert_SyncPlugin inert_CompilePlugin inert_refresh inert_BlockIPs inert_UnblockIPs inert_DropIPs inert_recreate inert_drop : node.

(** ** The agent *)

Section agent.
Context {EnvI : Activation.Env} {JsonI : Activation.Json} {DigestI : SingBoxConfig.Digest}.
Context {SortI : SortSlice} {RangeI : MapRange} {RangeL : MapRangeLaws} {SetI : SetRange} {CaseI : UnicodeCase} {PrintI : UnicodePrint}.
Context {HostI : Service.Host} {StateI : Service.StateJson} {PluginI : Plugin.PluginEnv} {ConnI : Connections.ConnApi}.
Context {GeoI : Geocheck.GeoEnv} {JobI : Benchmark.JobJson} {UrlI : Benchmark.UrlParse}.
Context {B : Type} {BucketI : BucketOps B} {CodecI : Codec UsageStore.Snapshot} {TxI : TxOps (UsageStore.DB B)}.
Context {ConfigI : Codec AccessAudit.Config} {TargetsI : Codec (list AccessAudit.Target)} {RecordI : Codec AccessAudit.diskRecord}.
Context {AuditTxI : TxOps (AccessAudit.DB B)}.
Context {K : Type} {KeysI : Keys K} {TokenI : TokenJson} {BodiesI : HttpApi.Bodies}.
Context (cfg : Config) (provider : Connections.Provider) (verifier : K).
Context (Hpaths : paths_ok cfg) (Hjson : json_reads_back).

Import FwManager Agent.Agent.

Definition in_force (w : Service.World) : Forward.Config := Service.applied (Service.svc w).

(** What the core listens on is free of the rules in force. *)
Definition inv (a : Agent (B := B)) : Prop := safe cfg (free (in_force (fwd a))) (core a).

Lemma safe_mono (F F' : list (string * Z) → Prop) w : (∀ S, F S → F' S) → safe cfg F w → safe cfg F' w.
Proof. intros H Hs Hw. destruct (Hs Hw) as (c & Hc & HF). eauto. Qed.

(** *** Forwarding and usage *)

(** A procedure that keeps the rules off the sockets of the document that is stored while the
    core runs *)
Definition node_ok {A} (m : proc (Node (B := B)) A) : Prop := ∀ n,
  node_runtime (m n).1 = node_runtime n ∧
  (RuntimeState.running (node_runtime n) = RuntimeState.CoreTypeSingBox →
   free (in_force (fw n)) (sockets (RuntimeState.SingBoxConfig (node_runtime n))) →
   free (in_force (fw (m n).1)) (sockets (RuntimeState.SingBoxConfig (node_runtime n)))).

Lemma node_ok_bind {A C} (m : proc (Node (B := B)) A) (f : A → proc (Node (B := B)) C) :
  node_ok m → (∀ x, node_ok (f x)) → node_ok (m ≫= f).
Proof.
  intros Hm Hf n. destruct (Hm n) as [E H]. unfold mbind, proc_bind. destruct (m n) as [n1 [x|e]]; [|done]. cbn [fst] in *.
  destruct (Hf x n1) as [E1 H1]. rewrite E in E1, H1. split; [done|]. intros Hr Hfree. by apply H1, H.
Qed.
Lemma node_ok_ret {A} (x : A) : node_ok (mret x). Proof. intros n. by split. Qed.
Lemma node_ok_gets {A} (f : Node (B := B) → A) : node_ok (gets f). Proof. intros n. by split. Qed.
Lemma node_ok_attempt {A} (m : proc (Node (B := B)) A) : node_ok m → node_ok (attempt m).
Proof. intros H n. specialize (H n). unfold attempt. by destruct (m n). Qed.
Lemma node_ok_steady {A} (m : proc Service.World A) : steady m → node_ok (on_fw m).
Proof.
  intros H n. specialize (H (fw n)). unfold on_fw. destruct (m (fw n)) as [w r]. cbn [fst] in *. split; [done|].
  cbn [fw]. unfold in_force. by rewrite H.
Qed.
Hint Resolve node_ok_bind node_ok_ret node_ok_gets node_ok_attempt node_ok_steady : node.

Lemma asked_counters_mute : mute Service.UsageCounters.
Proof. unfold Service.UsageCounters. mute_tac. Qed.
Lemma summary_mute : mute Service.RuntimeSummary_.
Proof. unfold Service.RuntimeSummary_. mute_tac. Qed.
Lemma validate_steady c ls : steady (Service.Validate c ls).
Proof.
  intros w. destruct (Service.Validate c ls w) as [w' r] eqn:E. unfold Service.Validate in E. step E w1 v H1.
  apply validate_spec in H1 as (c' & o & -> & _ & Hs & _); [|done]. cbn [fst]. cbn [snd] in E.
  assert (w' = w1) as -> by (destruct o; by injection E as <- _). by rewrite Hs.
Qed.

Lemma capture_ok {ClientI : Stats.StatsClient} at_ : node_ok (captureUsage at_).
Proof.
  intros n. unfold captureUsage. destruct (UsageCapture.captureUsageSnapshot _ _ _) as [u r]. cbn [fst node_runtime fw].
  split; [done|]. intros _ Hf. destruct (UsageCapture.UsageSnapshotActive _); [|done].
  unfold in_force. by rewrite (mute_steady _ asked_counters_mute).
Qed.
Hint Resolve capture_ok : node.

Lemma sync_ok {ClientI : Stats.StatsClient} at_ request : node_ok (ForwardingSync at_ request).
Proof.
  unfold ForwardingSync. apply node_ok_bind; [auto with node|]. intros [u|e].
  - intros n. unfold mbind, proc_bind, gets, on_fw. cbv beta iota.
    destruct (Service.SyncWithHash _ _ _ _) as [w' r] eqn:E. cbn [fst fw node_runtime]. split; [done|]. intros Hr Hf.
    unfold currentCoreListeners in E. rewrite bool_decide_eq_true_2 in E by done. by eapply sync_free.
  - apply node_ok_bind; [apply node_ok_steady, mute_steady; auto with mute|auto with node].
Qed.

Lemma refresh_ok {ClientI : Stats.StatsClient} at_ : node_ok (refreshForwardingDNS at_).
Proof.
  unfold refreshForwardingDNS. apply node_ok_bind; [auto with node|]. intros [u|e]; [|auto with node].
  apply node_ok_bind; [auto with node|]. intros r. apply node_ok_bind; [|auto with node]. apply node_ok_attempt.
  intros n. unfold on_fw. destruct (Service.RefreshDNS _ _) as [w' o] eqn:E. cbn [fst fw node_runtime]. split; [done|].
  intros _. apply refresh_shape in E. by apply free_shape.
Qed.

Lemma status_ok has_audit sni : node_ok (runtimeStatus has_audit sni).
Proof.
  unfold runtimeStatus. apply node_ok_bind; [auto with node|]. intros r. apply node_ok_bind; [apply node_ok_steady, mute_steady, summary_mute|].
  intros s. apply node_ok_bind; auto with node.
Qed.

Lemma restarted_kept w b : kept cfg w (Activation.set_restarted b w).
Proof. apply set_restarted_calm. Qed.

Lemma inv_node {A} (m : proc (Node (B := B)) A) : node_ok m → preserves inv (on_node m).
Proof.
  intros Hm a Ha. unfold on_node, within. destruct (Hm (node_of a)) as [E H]. destruct (m (node_of a)) as [n r]. cbn [fst] in *.
  intros Hw. cbn in Hw. destruct (Ha Hw) as (c & Hc & HF). exists c. pose proof Hc as (_ & _ & _ & Hs).
  split; [|cbn; rewrite <- Hs in HF |- *; by apply H].
  destruct Hc as (H1 & H2 & H3 & H4). by split_and!.
Qed.

(** *** The rest *)

Lemma inv_kept a a' : kept cfg (core a) (core a') → fwd a' = fwd a → inv a → inv a'.
Proof. intros Hk Hf Ha. unfold inv. rewrite Hf. by eapply kept_safe. Qed.

Lemma inv_usage {A} (m : proc (UsageCapture.Usage B) A) : preserves inv (on_usage m).
Proof.
  intros a Ha. unfold on_usage, within. destruct (m _) as [u r]. apply (inv_kept a); [|done|exact Ha].
  apply (restarted_kept (core a)).
Qed.
Lemma inv_plugin {A} (m : proc Plugin.PluginWorld A) : (∀ r0, preserves (same_core r0) m) → preserves inv (on_plugin m).
Proof.
  intros Hm a Ha. unfold on_plugin, within. specialize (Hm (runtime a) (plugin_of a)). destruct (m (plugin_of a)) as [w r]. cbn [fst] in *.
  destruct Hm as [E1 E2]; [done|]. apply (inv_kept a); [|done|exact Ha]. apply set_runtime_calm; [exact E1|].
  unfold RuntimeState.SingBoxConfig. by rewrite E2.
Qed.
Lemma inv_benchmarks {A} (m : proc Benchmark.State A) : preserves inv (on_benchmarks (B := B) m).
Proof. intros a Ha. unfold on_benchmarks, within. by destruct (m _). Qed.
Lemma inv_connections {A} (m : proc (list Connections.event) A) : preserves inv (on_connections (B := B) m).
Proof. intros a Ha. unfold on_connections, within. by destruct (m _). Qed.
Lemma inv_audit {A} (f : AccessAudit.Store B → AccessAudit.Store B * result A) : preserves inv (on_audit (B := B) f).
Proof. intros a Ha. unfold on_audit. destruct (audit a); [by destruct (f _)|done]. Qed.
Lemma inv_fwd {A} (m : proc Service.World A) : steady m → preserves inv (on_fwd (B := B) m).
Proof.
  intros Hm a Ha. unfold on_fwd, within. specialize (Hm (fwd a)). destruct (m _) as [w r]. cbn [fst] in Hm.
  unfold inv, in_force. cbn [fwd set_fwd core fst]. rewrite Hm. exact Ha.
Qed.
Lemma inv_calm {A} (m : proc Activation.World A) : (∀ w w' r, m w = (w', r) → calm cfg w w') → preserves inv (on_core (B := B) m).
Proof.
  intros Hm a Ha. unfold on_core, within. destruct (m (core a)) as [w r] eqn:E. apply Hm in E as [Hk _].
  apply (inv_kept a); [exact Hk|done|exact Ha].
Qed.
Lemma inv_refresh : preserves inv (on_core (B := B) Activation.refreshOnlineStatus).
Proof. apply inv_calm. intros w w' r. apply refresh_calm. Qed.
Hint Resolve inv_node inv_usage inv_plugin inv_benchmarks inv_connections inv_audit inv_refresh : node.
Hint Resolve preserves_bind : node.

Lemma inv_asked m : preserves inv m → preserves inv (asked_summary m).
Proof.
  intros Hm. unfold asked_summary. apply preserves_bind; [done|]. intros status. apply preserves_bind; [|auto with node].
  destruct (UsageStore.Active status); [|auto with node]. apply preserves_bind; [apply inv_fwd, mute_steady, summary_mute|auto with node].
Qed.

(** A procedure that keeps the invariant unless a file stays unrestored *)
Definition keeps {A} (m : proc (Agent (B := B)) A) : Prop := ∀ a, inv a → ¬ unrestored (core (m a).1) → inv (m a).1.
Lemma keeps_preserves {A} (m : proc (Agent (B := B)) A) : preserves inv m → keeps m.
Proof. intros H a Ha _. by apply H. Qed.
Lemma keeps_attempt {A} (m : proc (Agent (B := B)) A) : keeps m → keeps (attempt m).
Proof. intros H a. specialize (H a). unfold attempt. by destruct (m a). Qed.
Lemma keeps_body {T A} (f : T → proc (Agent (B := B)) A) b : (∀ x, keeps (f x)) → keeps (with_body f b).
Proof. intros H. destruct b as [x|]; [apply H|by intros a Ha]. Qed.

Lemma keeps_core {A} (m : proc Activation.World A) :
  (∀ F w w' r, safe cfg F w → m w = (w', r) → ¬ unrestored w' → safe cfg F w') → keeps (on_core (B := B) m).
Proof.
  intros Hm a Ha Hun. unfold on_core, within in *. destruct (m (core a)) as [w r] eqn:E. by eapply Hm.
Qed.
Lemma keeps_users m : (∀ r0, preserves (same_sockets r0) m) → keeps (attempt (on_core (B := B) (Lifecycle.then_restart cfg m))).
Proof. intros Hm. apply keeps_attempt, keeps_core. intros F w w' r Hs E Hun. by eapply users_safe. Qed.

Lemma keeps_start request : keeps (Start cfg request).
Proof.
  intros a Ha Hun. unfold Start, on_core, within in *. destruct (Lifecycle.Start _ _ _ _) as [w r] eqn:E. cbn [fst core fwd set_core] in *.
  refine (start_safe cfg Hpaths Hjson _ _ _ _ _ _ _ Ha E Hun). intros config. apply guard_free.
Qed.

(** Every call but those is one or more steps that cannot break the invariant. *)
Lemma inv_audit_status m : preserves inv (audit_status (B := B) m).
Proof. apply inv_audit. Qed.
Lemma inv_stop : preserves inv (on_core (B := B) Lifecycle.Stop).
Proof. intros a _. unfold on_core, within. destruct (Lifecycle.Stop (core a)) as [w r] eqn:E. by eapply stop_safe. Qed.
Lemma inv_cancel id : preserves inv (CancelBenchmark (B := B) id).
Proof. intros a Ha. unfold CancelBenchmark. by destruct (Benchmark.Cancel _ _). Qed.
Lemma inv_validate request : preserves inv (on_node (B := B) (ForwardingValidate request)).
Proof. apply inv_node, node_ok_bind; [auto with node|]. intros r. apply node_ok_steady, validate_steady. Qed.
Lemma inv_sync {ClientI : Stats.StatsClient} at_ request : preserves inv (on_node (ForwardingSync at_ request)).
Proof. apply inv_node, sync_ok. Qed.
Lemma inv_status : preserves inv (on_node (B := B) ForwardingStatus).
Proof. apply inv_node, node_ok_steady, mute_steady. apply status_mute. Qed.
Lemma inv_drop ip : preserves inv (on_plugin (B := B) (proc_iter Plugin.dropConnections ip)).
Proof. apply inv_plugin. intros r0. apply inert_DropIPs. Qed.
Lemma inv_summary_source {A} (m : proc Service.World A) : mute m → preserves inv (attempt (on_fwd (B := B) m)).
Proof. intros Hm. by apply preserves_attempt, inv_fwd, mute_steady. Qed.
Lemma inv_with_fwd {A} (m : Service.World → proc (UsageCapture.Usage B) A) : preserves inv (with_fwd m).
Proof. intros a Ha. unfold with_fwd. by apply inv_usage. Qed.
Hint Resolve inv_stop inv_audit_status inv_cancel inv_validate inv_sync inv_status inv_drop inv_summary_source inv_with_fwd asked_counters_mute : node.

Ltac inv_tac :=
  repeat first [ progress (auto with node) | apply preserves_bind; [|intros ?] | apply preserves_attempt
               | match goal with |- preserves _ (match ?x with _ => _ end) => destruct x end ].

Lemma inv_health m : preserves inv (Healthcheck (B := B) cfg m).
Proof. unfold Healthcheck. inv_tac. apply inv_node, status_ok. Qed.
Lemma inv_system m : preserves inv (GetSystemStats (B := B) m).
Proof. unfold GetSystemStats. inv_tac. Qed.
Lemma inv_drop_users ids : preserves inv (DropUsersConnections (B := B) provider ids).
Proof. unfold DropUsersConnections. inv_tac. Qed.
Lemma inv_activate m : preserves inv (ActivateUsageSnapshots (B := B) m).
Proof. apply inv_asked. inv_tac. Qed.
Lemma inv_ack request : preserves inv (AckUsageSnapshots (B := B) request).
Proof. apply inv_asked. inv_tac. Qed.
Lemma inv_usage_status : preserves inv (UsageSnapshotStatus (B := B)).
Proof. apply inv_asked. inv_tac. Qed.
Lemma inv_accepted m : preserves inv m → preserves inv (accepted (B := B) m).
Proof. intros Hm. unfold accepted. inv_tac. Qed.
Hint Resolve inv_health inv_system inv_drop_users inv_activate inv_ack inv_usage_status inv_accepted : node.

Lemma keeps_execute m id e b : keeps (execute cfg provider m id e b).
Proof.
  destruct e; cbn [execute]; try (apply keeps_body; intros x); try (apply keeps_preserves; by inv_tac).
  - apply keeps_start.
  - apply (keeps_users (Users.applyAddUserRequest x)). intros r0. apply add_request_same.
  - apply (keeps_users (Users.removeUserEverywhere (Users.rm_Username x))). intros r0. apply remove_user_same.
  - apply (keeps_users (Users.applyAddUsersRequest x)). intros r0. apply add_users_same.
  - apply (keeps_users (Users.remove_users x)). intros r0. apply remove_users_same.
Qed.

Lemma keeps_act x a : inv a → ¬ unrestored (core (act cfg provider verifier x a)) → inv (act cfg provider verifier x a).
Proof.
  destruct x as [m r|current resolved|m|m|item at_ o rm|events at_|capturing err|at_]; cbn [act]; intros Ha Hun.
  - unfold respond in *. destruct (HttpApi.serve _ _ _ _ _) as [|status message|e b]; [done..|].
    destruct (execute cfg provider m (path_id r) e b a) as [a' o] eqn:E. cbn [fst] in *.
    pose proof (keeps_execute m (path_id r) e b a) as H. rewrite E in H. by apply H.
  - apply (preserves_bind inv); [by apply preserves_modify|intros _; apply inv_refresh|done].
  - unfold CaptureUsageSnapshot. apply (preserves_bind inv); [apply preserves_attempt, inv_node, capture_ok|auto with node|done].
  - unfold RefreshForwardingDNS. apply (preserves_bind inv); [apply inv_node, refresh_ok| |done]. intros []; auto with node.
  - by apply inv_benchmarks.
  - by apply inv_audit.
  - by apply inv_audit.
  - by apply inv_audit.
Qed.

(** ** Courses of the agent *)

(** What happens from [a0] on, as long as no configuration file stays unrestored *)
Inductive course (a0 : Agent (B := B)) : Agent (B := B) → Prop :=
| course_start : course a0 a0
| course_act a x : course a0 a → ¬ unrestored (core (act cfg provider verifier x a)) → course a0 (act cfg provider verifier x a).

End agent.

(** ** An example *)

Module AgentDemo.
Import Agent.Agent Mem UsageDemo AuditDemo ActivationSpec.ActivationDemo PluginDemo ForwardDemo Merge.

(** Stand-ins for what the agent does not define: JSON tells the three documents apart, a
    signature is the signed text, and every call carries the same token. *)
Definition inbound (port : Z) : object :=
  {["tag" := AStr "in"; "type" := AStr "vless"; "listen" := AStr "::"; "listen_port" := AInt port]}.
Definition document (port : Z) : object := {["inbounds" := AArr [AObj (inbound port)]]}.
Definition on_disk (port : Z) : object := built cfg (SingBoxConfig.normalizeSingBoxKeys (AObj (document port))).

#[export] Instance json : Activation.Json := {|
  Activation.marshal_json := λ _, "{}";
  Activation.marshal_indent := λ c,
    if bool_decide (c = on_disk 443) then "443" else if bool_decide (c = on_disk 8443) then "8443"
    else if bool_decide (c = on_disk 80) then "80" else "?";
  Activation.unmarshal_json := λ s,
    if bool_decide (s = "443") then Ok (AObj (cloneMap (on_disk 443)))
    else if bool_decide (s = "8443") then Ok (AObj (cloneMap (on_disk 8443)))
    else if bool_decide (s = "80") then Ok (AObj (cloneMap (on_disk 80))) else Err (ErrMsg "json") |}.
#[export] Instance api : Connections.ConnApi := {
  Connections.connections_reply := λ _, Err (ErrMsg "refused"); Connections.delete_reply := λ _ _, None }.
#[export] Instance geo : Geocheck.GeoEnv := {|
  Geocheck.interface_state := λ _, None; Geocheck.local_addresses := Ok []; Geocheck.executable := λ _, Ok false;
  Geocheck.execute := λ _ _, {| Geocheck.out_chunks := []; Geocheck.err_chunks := []; Geocheck.exit_error := None; Geocheck.timed_out := false |};
  Geocheck.report_of := λ _, Ok ∅ |}.
#[export] Instance jobs : Benchmark.JobJson := {
  Benchmark.marshal_job _ := Ok ""; Benchmark.unmarshal_job _ := None; Benchmark.marshal_request _ := "" }.
#[export] Instance urls : Benchmark.UrlParse := λ _, None.
#[export] Instance keys : Keys string := {
  pem_decode := Some; cert_key _ := None; pkcs1_key := Some; pkix_key _ := Ok None; marshal_pkix := Ok; parse_cert := Ok;
  rsa_ok _ m s := bool_decide (s = m) }.
#[export] Instance tokens : TokenJson := { header_alg := Ok; token_claims _ := Ok {["sub" := AStr "panel"; "exp" := AInt 100]} }.

Definition start (port : Z) : Lifecycle.StartRequest :=
  {| Lifecycle.CoreType := "SING_BOX"; Lifecycle.ForceRestart := false;
     Lifecycle.Hashes := {| RuntimeState.EmptyConfig := ""; RuntimeState.Inbounds := [] |};
     Lifecycle.req_SingBoxConfig := document port |}.
Definition rules : FwManager.SyncRequest :=
  {| FwManager.req_Config := demo_config "192.0.2.9"; FwManager.req_ConfigHash := "h" |}.
#[export] Instance bodies : HttpApi.Bodies := {
  HttpApi.zstd_decode := Ok;
  HttpApi.unmarshal e s :=
    match e with
    | HttpApi.CoreStart => match atoi s with Some port => Ok (start port) | None => Err (ErrMsg "json") end
    | HttpApi.ForwardingSync => Ok rules
    | HttpApi.SnapshotsAck =>
        match atoi s with
        | Some n => Ok {| UsageStore.ack_Generation := UsageStore.hex "seed"; UsageStore.ThroughSequence := n |}
        | None => Err (ErrMsg "json")
        end
    | _ => Err (ErrMsg "not in this example")
    end }.

Definition token : string := let input := b64_encode "RS256" +:+ "." +:+ b64_encode "{}" in input +:+ "." +:+ b64_encode input.
Definition post (p b : string) : HttpApi.Request :=
  {| HttpApi.req_method := "POST"; HttpApi.req_path := p; HttpApi.Authorization := "Bearer " +:+ token; HttpApi.Content_Encoding := "";
     HttpApi.body := b; HttpApi.RemoteAddr := "192.0.2.1:5" |}.
Definition machine0 : SystemSnapshot.Machine := {|
  SystemSnapshot.read_file := λ _, None; SystemSnapshot.read_dir := λ _, None; SystemSnapshot.net_interfaces := None;
  SystemSnapshot.hostname := "node"; SystemSnapshot.num_cpu := 2; SystemSnapshot.go_arch := "amd64"; SystemSnapshot.go_os := "linux";
  SystemSnapshot.go_version := "go1.24"; SystemSnapshot.float_value := λ _, SystemSnapshot.zero_float; SystemSnapshot.num_goroutine := 9;
  SystemSnapshot.mem_stats := {| SystemSnapshot.mem_NumGC := 0; SystemSnapshot.mem_Alloc := 0; SystemSnapshot.mem_TotalAlloc := 0;
    SystemSnapshot.mem_Sys := 0; SystemSnapshot.mem_Mallocs := 5; SystemSnapshot.mem_Frees := 3; SystemSnapshot.mem_PauseTotalNs := 0 |} |}.
Definition moment : Moment :=
  {| now := unix 50; random := Ok "seed"; saved := Benchmark.Saved; core_stats := λ _ _, Ok []; core_system := Err (ErrMsg "refused");
     machine := machine0; geocheck_running := false |}.
Definition provider : Connections.Provider := {| Connections.port := 9090; Connections.clock := λ _, unix 50 |}.

Definition first : Agent :=
  {| core := {| Activation.runtime := RuntimeState.New "3"; Activation.files := ∅; Activation.singBoxApplyResult := None;
                Activation.usageCoreRestarted := false; Activation.events := [] |};
     fwd := empty_world; queue := UsageStore.Open None 0; nft := []; killed := []; ticks := 0; audit := None;
     benchmarks := {| Benchmark.runner := Benchmark.idle; Benchmark.disk := ∅ |}; connections := [];
     network := {| SystemStats.lastRead := ∅; SystemStats.currentRates := ∅; SystemStats.defaultIface := "" |} |}.

Definition step_on (p b : string) (a : Agent) : Agent := act cfg provider "key" (Request moment (post p b)) a.
(** The core takes port 443, the rules take port 8443, and then the core asks for it. *)
Definition a1 : Agent := step_on "/node/core/start" "443" first.
Definition a2 : Agent := step_on "/node/forwarding/sync" "{}" a1.
Definition a3 : Agent := step_on "/node/core/start" "8443" a2.

Definition last_reply : reply := (respond cfg provider "key" moment (post "/node/core/start" "8443") a2).2.

Lemma reads_back : json_reads_back.
Proof.
  intros c v. unfold Activation.marshal_indent, json. case_bool_decide as H1; [rewrite H1; by intros [= <-]|].
  case_bool_decide as H2; [rewrite H2; by intros [= <-]|]. case_bool_decide as H3; [rewrite H3; by intros [= <-]|]. by intros [=].
Qed.

Abbreviation course0 := (course cfg provider "key" first).
Definition rolled_back (a : Agent (B := bucket)) : option string := (λ v, v.1.2) <$> verdict (core a).
#[local] Strategy expand [step_on].
Lemma rolled_back_restored a : rolled_back a = Some "NOT_REQUIRED" → ¬ unrestored (core a).
Proof. unfold rolled_back. intros Hv [_ [h H]]. rewrite H in Hv. discriminate Hv. Qed.

Lemma course_step p b a : course0 a → rolled_back (step_on p b a) = Some "NOT_REQUIRED" → course0 (step_on p b a).
Proof. intros Hc Hv. apply (course_act _ _ _ _ _ _ Hc). exact (rolled_back_restored (step_on p b a) Hv). Qed.

Lemma exclusive_course : course0 a3.
Proof. do 3 (apply course_step; [|vm_compute; reflexivity]). apply course_start. Qed.


(** What the condition excludes: while the second configuration is put in place the disk
    fails, so its file stays; the core goes on with the first one, and a rule for the port
    that the second one wants is accepted; a third configuration does not start, and the
    rollback starts what is in the file. *)
Fixpoint disk_broken (l : list Activation.event) : bool :=
  match l with
  | [] | Activation.EvVersion :: _ => false
  | Activation.EvCheck (Some "8443") :: _ => true
  | _ :: l => disk_broken l
  end.
Definition failing : Activation.Env := {|
  Activation.file_reply := λ l,
    match l with
    | Activation.EvFile op path :: l =>
        if bool_decide (op ∈ ["opendir"; "mkdir"]) && bool_decide (path = Activation.configPath cfg) && disk_broken l
        then Some (ErrMsg "input/output error") else None
    | _ => None
    end;
  Activation.temp_name := @Activation.temp_name env; Activation.torn := @Activation.torn env;
  Activation.check_reply := @Activation.check_reply env; Activation.stop_reply := @Activation.stop_reply env;
  Activation.start_reply := λ l, match l with Activation.EvStart (Some "80") :: _ => Some (ErrMsg "exited") | _ => None end;
  Activation.info_reply := @Activation.info_reply env; Activation.stats_reply := @Activation.stats_reply env;
  Activation.version_reply := @Activation.version_reply env; Activation.health_waits := @Activation.health_waits env;
  Activation.clock := @Activation.clock env |}.

Definition unlucky (p b : string) (a : Agent) : Agent := act (EnvI := failing) cfg provider "key" (Request moment (post p b)) a.
Definition b2 : Agent := unlucky "/node/core/start" "8443" (unlucky "/node/core/start" "443" first).
Definition b4 : Agent := unlucky "/node/core/start" "80" (unlucky "/node/forwarding/sync" "{}" b2).

Example unrestored_clash :
  unrestored (core b2) ∧
  verdict (core b4) = Some ("ROLLED_BACK", "SUCCEEDED", "{}") ∧
  RuntimeState.running (runtime b4) = RuntimeState.CoreTypeSingBox ∧
  core_on (H := failing) (Some (Activation.marshal_indent (on_disk 8443))) (core b4) ∧
  ∃ rule l, rule ∈ Forward.Rules (in_force (fwd b4)) ∧ Forward.Enabled rule = true ∧
            l ∈ Forward.ExtractCoreListeners RuntimeState.CoreTypeSingBox (on_disk 8443) ∧ Forward.clashes rule l = true.
Proof.
  split; [split; [vm_compute; reflexivity|eexists; vm_compute; reflexivity]|].
  split; [vm_compute; reflexivity|]. split; [vm_compute; reflexivity|]. split.
  - exists (take 2 (Activation.events (core b4))), (drop 3 (Activation.events (core b4))).
    split_and!; vm_compute; reflexivity.
  - exists (rule_to "one" "192.0.2.9" 8443), {| Forward.ls_Protocol := "TCP"; Forward.ls_Port := 8443; Forward.ls_Source := "in" |}.
    split; [vm_compute; left|]. split; [reflexivity|]. split; vm_compute; [left|reflexivity].
Qed.
End AgentDemo.
