(* ===== verification/AgentQueue.v ===== *)
(** * The usage queue, through everything that the agent does

    [sealed_until_acked]: whatever requests, timers and background work follow each other, a
    snapshot that was sealed is never changed, and leaves the queue only when the panel has
    acknowledged it. *)
From S2P Require Import Prelude GoStr GoTime GoNet Base64 GoAny GoSort GoFloat Bolt UsageStore AccessAudit AuditDelivery UsageSpec UsageBilling RuntimeState NodeConfig SingBoxConfig Users Activation ActivationSpec Lifecycle Stats StatsSpec UsageCapture CaptureSpec Plugin PluginSpec ForwardRules ForwardRender ForwardProbe Forwarding ForwardSpec ForwardManager ForwardManagerSpec CoreApi Benchmark Connections Geocheck SystemStats SystemSnapshot Auth HttpApi Agent AgentSpec.
Import NodeConfig Auth.

(** ** Usage and forwarding *)

Abbreviation kept_usage m := (∀ u, preserves (λ n, FwManager.usage n = u) m).

Section usage.
Context {SortI : SortSlice} {RangeI : MapRange} {SetI : SetRange} {CaseI : UnicodeCase} {PrintI : UnicodePrint}.
Context {HostI : Service.Host} {StateI : Service.StateJson} {DigestI : SingBoxConfig.Digest}.
Context {B : Type} {BucketI : BucketOps B} {BucketL : BucketLaws B}.
Context {CodecI : Codec UsageStore.Snapshot} {CodecL : CodecLaws UsageStore.Snapshot}.
Context {TxI : TxOps (UsageStore.DB B)} {TxL : TxLaws (UsageStore.DB B)}.

(** A step of the queue: none, or one operation of those that it may do *)
Definition acts_as (may : op → Prop) (s s' : UsageStore.Store B) : Prop :=
  s' = s ∨ ∃ o, may o ∧ (exec o s).1 = s'.

Lemma acts_as_exec (may : op → Prop) o s : may o → acts_as may s (exec o s).1.
Proof. right. eauto. Qed.

Definition capture_of {ClientI : Stats.StatsClient} {ForwardingI : UsageCapture.ForwardingUsage}
    (at_ : time) (r : RuntimeState.Runtime) (o : op) : Prop :=
  ∃ counters complete restarted, UsageCapture.currentUsageCounters r = Ok (counters, true, complete) ∧
    o = OpCapture (core_name r) counters at_ restarted.

Lemma capture_acts {ClientI : Stats.StatsClient} {ForwardingI : UsageCapture.ForwardingUsage} at_ r (u : UsageCapture.Usage B) :
  acts_as (capture_of at_ r) (UsageCapture.store u) (UsageCapture.store (UsageCapture.captureUsageSnapshot at_ r u).1).
Proof.
  destruct (UsageCapture.captureUsageSnapshot at_ r u) as [u' res] eqn:E. cbn [fst].
  destruct (capture_step {| src_client := ClientI; src_forwarding := ForwardingI |} at_ r u u' res E) as (Hoff & _ & Hon).
  unfold sampled in Hon. cbn [src_client src_forwarding] in Hon. destruct (UsageCapture.UsageSnapshotActive u) eqn:Hact; [|left; by destruct Hoff as [-> _]].
  unfold UsageCapture.captureUsageSnapshot in E. step E u0 active H0. injection H0 as <- <-. rewrite Hact in E. cbn [negb] in E.
  step E u0 sample H0. injection H0 as <- <-.
  destruct (UsageCapture.currentUsageCounters r) as [[[counters []] complete]|e] eqn:Hs; [|injection E as <- <-; by left|destruct E as [-> _]; by left].
  destruct (Hon counters complete eq_refl eq_refl) as (a & Hc & _). right.
  exists (OpCapture (core_name r) counters at_ (complete && UsageCapture.marker u)).
  split; [by repeat eexists|]. cbn [exec]. by rewrite Hc.
Qed.

Lemma activate_acts {ClientI : Stats.StatsClient} {ForwardingI : UsageCapture.ForwardingUsage} random r (u : UsageCapture.Usage B) :
  acts_as (λ o, ∃ counters capturing, UsageCapture.currentUsageCounters r = Ok (counters, capturing, true) ∧ o = OpActivate random counters)
    (UsageCapture.store u) (UsageCapture.store (UsageCapture.ActivateUsageSnapshots random r u).1).
Proof.
  unfold UsageCapture.ActivateUsageSnapshots, mbind, proc_bind, lift.
  destruct (UsageCapture.currentUsageCounters r) as [[[counters capturing] []]|e] eqn:Hs; [|by left..].
  right. exists (OpActivate random counters). split; [by exists counters, capturing|].
  cbn -[UsageStore.Activate]. unfold UsageCapture.on_store. by destruct (UsageStore.Activate _ _ _) as [s [st|e]].
Qed.
Lemma ack_acts {ForwardingI : UsageCapture.ForwardingUsage} request r (u : UsageCapture.Usage B) :
  acts_as (λ o, o = OpAck request) (UsageCapture.store u) (UsageCapture.store (UsageCapture.AckUsageSnapshots request r u).1).
Proof.
  right. exists (OpAck request). split; [done|]. unfold UsageCapture.AckUsageSnapshots, mbind, proc_bind, UsageCapture.on_store.
  cbn -[UsageStore.Ack]. by destruct (UsageStore.Ack _ _) as [s [st|e]].
Qed.

Import FwManager.
Lemma usage_on_fw {A} (m : proc Service.World A) : kept_usage (on_fw (B := B) m).
Proof. intros u n Hn. unfold on_fw. by destruct (m (fw n)). Qed.

(** Everything that starts by sealing the usage, and leaves it alone afterwards *)
Lemma sealing_acts {A} {ClientI : Stats.StatsClient} at_ (f : result unit → proc (Node (B := B)) A) n :
  (∀ x, kept_usage (f x)) →
  acts_as (capture_of (ForwardingI := usage_source (fw n)) at_ (node_runtime n)) (UsageCapture.store (usage n))
    (UsageCapture.store (usage ((attempt (captureUsage at_) ≫= f) n).1)).
Proof.
  intros Hf. pose proof (capture_acts (ForwardingI := usage_source (fw n)) at_ (node_runtime n) (usage n)) as Hc.
  destruct (captureUsage at_ n) as [n1 r] eqn:E.
  assert (usage n1 = (UsageCapture.captureUsageSnapshot (ForwardingI := usage_source (fw n)) at_ (node_runtime n) (usage n)).1) as Hu.
  { unfold captureUsage in E. destruct (UsageCapture.captureUsageSnapshot _ _ _) as [u' r']. by injection E as <- _. }
  assert (usage ((attempt (captureUsage at_) ≫= f) n).1 = usage n1) as ->; [|by rewrite Hu].
  unfold mbind, proc_bind, attempt. rewrite E. by apply Hf.
Qed.
End usage.
#[export] Hint Resolve usage_on_fw preserves_bind : node.

(** ** The agent *)

Section agent.
Context {EnvI : Activation.Env} {JsonI : Activation.Json} {DigestI : SingBoxConfig.Digest}.
Context {SortI : SortSlice} {RangeI : MapRange} {SetI : SetRange} {CaseI : UnicodeCase} {PrintI : UnicodePrint}.
Context {HostI : Service.Host} {StateI : Service.StateJson} {PluginI : Plugin.PluginEnv} {ConnI : Connections.ConnApi}.
Context {GeoI : Geocheck.GeoEnv} {JobI : Benchmark.JobJson} {UrlI : Benchmark.UrlParse}.
Context {B : Type} {BucketI : BucketOps B} {BucketL : BucketLaws B}.
Context {CodecI : Codec UsageStore.Snapshot} {CodecL : CodecLaws UsageStore.Snapshot}.
Context {TxI : TxOps (UsageStore.DB B)} {TxL : TxLaws (UsageStore.DB B)}.
Context {ConfigI : Codec AccessAudit.Config} {TargetsI : Codec (list AccessAudit.Target)} {RecordI : Codec AccessAudit.diskRecord}.
Context {AuditTxI : TxOps (AccessAudit.DB B)}.
Context {K : Type} {KeysI : Keys K} {TokenI : TokenJson} {BodiesI : HttpApi.Bodies}.
Context (cfg : Config) (provider : Connections.Provider) (verifier : K).
Import FwManager Agent.Agent.

(** *** What leaves the queue alone *)

Definition still {A} (m : proc (Agent (B := B)) A) : Prop := ∀ q, preserves (λ a, queue a = q) m.

Lemma still_bind {A A'} (m : proc (Agent (B := B)) A) (f : A → proc (Agent (B := B)) A') :
  still m → (∀ x, still (f x)) → still (m ≫= f).
Proof. intros Hm Hf q. apply preserves_bind; [apply Hm|intros x; apply Hf]. Qed.
Lemma still_pure {A} (m : proc (Agent (B := B)) A) : (∀ a, (m a).1 = a) → still m.
Proof. intros H q a Ha. by rewrite H. Qed.
Lemma still_attempt {A} (m : proc (Agent (B := B)) A) : still m → still (attempt m).
Proof. intros H q. by apply preserves_attempt. Qed.
Lemma still_put {S A} (get : Agent (B := B) → S) put (m : proc S A) : (∀ s a, queue (put s a) = queue a) → still (within get put m).
Proof. intros H q a Ha. unfold within. destruct (m (get a)). cbn. by rewrite H. Qed.
Lemma still_core {A} (m : proc Activation.World A) : still (on_core m). Proof. by apply still_put. Qed.
Lemma still_plugin {A} (m : proc Plugin.PluginWorld A) : still (on_plugin m). Proof. by apply still_put. Qed.
Lemma still_benchmarks {A} (m : proc Benchmark.State A) : still (on_benchmarks m). Proof. by apply still_put. Qed.
Lemma still_connections {A} (m : proc (list Connections.event) A) : still (on_connections m). Proof. by apply still_put. Qed.
Lemma still_fwd {A} (m : proc Service.World A) : still (on_fwd m). Proof. by apply still_put. Qed.
Lemma still_audit {A} (f : AccessAudit.Store B → AccessAudit.Store B * result A) : still (on_audit f).
Proof. intros q a Ha. unfold on_audit. destruct (audit a) as [s|]; [|done]. by destruct (f s). Qed.
Lemma still_node {A} (m : proc (Node (B := B)) A) : kept_usage m → still (on_node m).
Proof. intros H q a Ha. unfold on_node, within. specialize (H _ (node_of a) eq_refl). destruct (m (node_of a)). cbn in *. by rewrite H. Qed.
Lemma still_gets {A} (f : Agent (B := B) → A) : still (gets f). Proof. by apply still_pure. Qed.
Lemma still_ret {A} (x : A) : still (mret x). Proof. by apply still_pure. Qed.
Lemma still_throw {A} e : still (throw e : proc _ A). Proof. by apply still_pure. Qed.
Lemma still_lift {A} (r : result A) : still (lift r). Proof. by apply still_pure. Qed.
Lemma still_body {T A} (f : T → proc (Agent (B := B)) A) b : (∀ x, still (f x)) → still (with_body f b).
Proof. intros H. destruct b; [apply H|apply still_throw]. Qed.
Hint Resolve still_bind still_attempt still_core still_plugin still_benchmarks still_connections still_fwd still_audit still_gets still_ret
  still_throw still_lift still_body : node.

Ltac still_tac :=
  repeat first [ progress (auto with node) | apply still_bind; [|intros ?] | apply still_body; intros ?
               | match goal with |- still (match ?x with _ => _ end) => destruct x end ].

(** The end of a call that leaves the queue alone *)
Lemma still_after {A A'} (m : proc (Agent (B := B)) A) (f : A → proc (Agent (B := B)) A') a :
  (∀ x, still (f x)) → queue ((m ≫= f) a).1 = queue (m a).1.
Proof. intros Hf. unfold mbind, proc_bind. destruct (m a) as [a1 [x|e]]; [by apply Hf|done]. Qed.

Lemma still_forwarding (request : SyncRequest) : kept_usage (ForwardingValidate (B := B) request).
Proof. intros u. unfold ForwardingValidate. auto with node. Qed.
Lemma still_runtime_status b1 b2 : kept_usage (runtimeStatus (B := B) b1 b2).
Proof. intros u. unfold runtimeStatus. repeat (apply preserves_bind; [auto with node|intros ?]). auto with node. Qed.
Hint Resolve still_forwarding still_runtime_status : node.
Lemma still_health m : still (Healthcheck (B := B) cfg m).
Proof. unfold Healthcheck. still_tac. apply still_node, still_runtime_status. Qed.
Lemma still_system m : still (GetSystemStats (B := B) m).
Proof. unfold GetSystemStats. still_tac. Qed.
Lemma still_drop ids : still (DropUsersConnections (B := B) provider ids).
Proof. unfold DropUsersConnections. still_tac. Qed.
Lemma still_status : still (UsageSnapshotStatus (B := B)).
Proof. unfold UsageSnapshotStatus, asked_summary. still_tac. Qed.
Lemma still_pull request : still (on_usage (UsageCapture.PullUsageSnapshots (B := B) request)).
Proof. by intros q a Ha. Qed.
Lemma still_cancel id : still (CancelBenchmark (B := B) id).
Proof. intros q a Ha. unfold CancelBenchmark. by destruct (Benchmark.Cancel _ _). Qed.
Lemma still_audit_status m : still (audit_status (B := B) m).
Proof. apply still_audit. Qed.
Lemma still_start request : still (Start (B := B) cfg request).
Proof. intros q a Ha. by apply still_core. Qed.
Lemma still_validate request : still (on_node (B := B) (ForwardingValidate request)).
Proof. apply still_node, still_forwarding. Qed.
Lemma still_forwarding_status : still (on_node (B := B) ForwardingStatus).
Proof. apply still_node, usage_on_fw. Qed.
Hint Resolve still_health still_system still_drop still_status still_pull still_cancel still_audit_status still_start still_validate
  still_forwarding_status : node.

(** *** What may change it *)

Definition sampled_at (m : Moment) (a : Agent (B := B)) (counters : list UsageStore.Counter) (complete : bool) (capturing : bool) : Prop :=
  UsageCapture.currentUsageCounters (ClientI := core_stats m) (ForwardingI := usage_source (fwd a)) (runtime a) = Ok (counters, capturing, complete).
Definition captured (m : Moment) (a : Agent (B := B)) : op → Prop :=
  capture_of (ClientI := core_stats m) (ForwardingI := usage_source (fwd a)) (now m) (runtime a).

(** The operations that a call may do on the queue *)
Definition call_ops (m : Moment) (a : Agent (B := B)) (e : HttpApi.endpoint) : option (HttpApi.body_type e) → op → Prop :=
  match e return option (HttpApi.body_type e) → op → Prop with
  | HttpApi.ForwardingSync => λ _, captured m a
  | HttpApi.SnapshotsActivate => λ _ o, ∃ counters capturing, sampled_at m a counters true capturing ∧ o = OpActivate (random m) counters
  | HttpApi.SnapshotsAck => λ b o, ∃ request, b = Some request ∧ o = OpAck request
  | _ => λ _ _, False
  end.

Lemma capture_call {A} (m : Moment) (f : result unit → proc (Node (B := B)) A) a : (∀ x, kept_usage (f x)) →
  acts_as (captured m a) (queue a) (queue (on_node (attempt (captureUsage (ClientI := core_stats m) (now m)) ≫= f) a).1).
Proof.
  intros Hf. pose proof (sealing_acts (ClientI := core_stats m) (now m) f (node_of a) Hf) as H. unfold on_node, within.
  destruct ((attempt _ ≫= f) (node_of a)) as [n r]. exact H.
Qed.

Lemma activate_call m a : acts_as (λ o, ∃ counters capturing, sampled_at m a counters true capturing ∧ o = OpActivate (random m) counters)
  (queue a) (queue (ActivateUsageSnapshots m a).1).
Proof.
  unfold ActivateUsageSnapshots, asked_summary. rewrite still_after by (intros; still_tac).
  unfold mbind, proc_bind, gets, attempt, on_fwd, on_usage, within. destruct (Service.UsageCounters (fwd a)) as [w1 x] eqn:Ew.
  pose proof (activate_acts (ClientI := core_stats m) (ForwardingI := sampled_source (fwd a)) (random m) (runtime a) (usage_of a)) as H.
  change (usage_of (set_fwd w1 a)) with (usage_of a). destruct (UsageCapture.ActivateUsageSnapshots _ _ _) as [u r]. exact H.
Qed.
Lemma ack_call request a : acts_as (λ o, o = OpAck request) (queue a) (queue (AckUsageSnapshots request a).1).
Proof.
  unfold AckUsageSnapshots, asked_summary. rewrite still_after by (intros; still_tac).
  pose proof (ack_acts (ForwardingI := usage_source (fwd a)) request (runtime a) (usage_of a)) as H.
  unfold mbind, proc_bind, gets, with_fwd, on_usage, within. by destruct (UsageCapture.AckUsageSnapshots _ _ _).
Qed.

Lemma acts_as_still may (q q' : UsageStore.Store B) : q' = q → acts_as may q q'.
Proof. by left. Qed.
Lemma acts_as_mono (may may' : op → Prop) (q q' : UsageStore.Store B) : (∀ o, may o → may' o) → acts_as may q q' → acts_as may' q q'.
Proof. intros H [->|(o & Ho & <-)]; [by left|right; eauto]. Qed.

(** The calls that do *)
Definition is_usage (e : HttpApi.endpoint) : bool :=
  match e with HttpApi.ForwardingSync | HttpApi.SnapshotsActivate | HttpApi.SnapshotsAck => true | _ => false end.
Lemma execute_still m id e b : is_usage e = false → still (execute cfg provider m id e b).
Proof.
  intros He. destruct e; try discriminate He; cbn [execute]; still_tac.
Qed.

Lemma execute_queue m id e b a : acts_as (call_ops m a e b) (queue a) (queue (execute cfg provider m id e b a).1).
Proof.
  destruct (is_usage e) eqn:He; [|by apply acts_as_still, execute_still].
  destruct e; try discriminate He; cbn [execute call_ops].
  - destruct b as [request|]; [|by left]. cbn [with_body]. rewrite still_after by (intros [status [e|]]; still_tac). apply capture_call.
    intros [x|e] u; repeat (apply preserves_bind; [auto with node|intros ?]); auto with node.
  - apply activate_call.
  - destruct b as [request|]; [|by left]. eapply acts_as_mono; [|apply ack_call]. intros o ->. eauto.
Qed.

(** The operations that an activity may do *)
Definition may (x : activity) (a : Agent (B := B)) : op → Prop :=
  match x with
  | Request m r =>
      match HttpApi.serve verifier (now m / second)%Z (bool_decide (is_Some (audit a))) (active a) r with
      | HttpApi.Call e b => call_ops m a e b
      | _ => λ _, False
      end
  | TimerCapture m | TimerRefresh m => captured m a
  | _ => λ _, False
  end.

Lemma act_queue x a : acts_as (may x a) (queue a) (queue (act cfg provider verifier x a)).
Proof.
  destruct x as [m r|current resolved|m|m|item at_ o rm|events at_|capturing err|at_]; cbn [act may].
  - unfold respond. destruct (HttpApi.serve _ _ _ _ _) as [|status message|e b]; [by left..|].
    pose proof (execute_queue m (path_id r) e b a) as H. by destruct (execute _ _ _ _ _ _ _).
  - apply acts_as_still. apply still_core. done.
  - pose proof (capture_call m (λ _, mret tt) a (λ _ _, preserves_ret _ _)) as H. unfold CaptureUsageSnapshot, on_node, within, attempt, mbind, proc_bind in *.
    by destruct (captureUsage _ _).
  - unfold RefreshForwardingDNS. rewrite still_after by (intros []; still_tac). apply capture_call.
    intros [x|e] u; repeat (apply preserves_bind; [auto with node|intros ?]); auto with node.
  - by apply acts_as_still, still_benchmarks.
  - by apply acts_as_still, still_audit.
  - by apply acts_as_still, still_audit.
  - by apply acts_as_still, still_audit.
Qed.

(** *** Courses of the agent *)

(** The sequence that an accepted request acknowledges *)
Definition acked_by (x : activity) (a : Agent (B := B)) : list Z :=
  match x with
  | Request m r =>
      match HttpApi.serve verifier (now m / second)%Z (bool_decide (is_Some (audit a))) (active a) r with
      | HttpApi.Call HttpApi.SnapshotsAck (Some request) => [UsageStore.ThroughSequence request]
      | _ => []
      end
  | _ => []
  end.
Lemma may_ack x a request : may x a (OpAck request) → acked_by x a = [UsageStore.ThroughSequence request].
Proof.
  destruct x as [m r| |m|m| | | |]; cbn [may acked_by]; try done; [|by intros (? & ? & ? & ? & ?)..].
  destruct (HttpApi.serve _ _ _ _ _) as [|status message|e b]; [done..|]. destruct e; cbn [call_ops]; try done.
  - by intros (? & ? & ? & ? & ?).
  - by intros (? & ? & ? & ?).
  - by intros (q & -> & [= <-]).
Qed.

(** What happens from [a0] on, in [n] activities, with the acknowledgements among them.
    Whatever is sampled is in range ([op_ok]). *)
Inductive usage_course (a0 : Agent (B := B)) : list Z → nat → Agent (B := B) → Prop :=
| usage_start : usage_course a0 [] 0 a0
| usage_act acks n a x : usage_course a0 acks n a → (∀ o, may x a o → op_ok o) →
    usage_course a0 (acked_by x a ++ acks) (S n) (act cfg provider verifier x a).

(** From [A0] to [A], with these acknowledgements *)
Definition later (A0 A : AStore) (acks : list Z) : Prop :=
  a_active A = true ∧ a_gen A = a_gen A0 ∧ a_history A0 `prefix_of` a_history A ∧ (a_acked A ≤ foldr Z.max (a_acked A0) acks)%Z.

Lemma later_exec A0 A acks o new : later A0 A acks → (∀ request, o = OpAck request → new = [UsageStore.ThroughSequence request]) →
  later A0 (a_exec o A) (new ++ acks).
Proof.
  intros (Ha & Hg & Hh & Hk) Hnew.
  assert (a_acked A ≤ foldr Z.max (a_acked A0) (new ++ acks))%Z as Hk'.
  { rewrite foldr_app. etransitivity; [exact Hk|]. clear. induction new as [|z l IH]; cbn; lia. }
  destruct o as [random counters|name counters t reset|request]; cbn [a_exec].
  - unfold a_activate. rewrite Ha. done.
  - split_and!; [done..| |done]. by apply prefix_app_r.
  - rewrite (Hnew _ eq_refl) in *. split_and!; [done..|]. cbn in *. lia.
Qed.

Lemma course_later a0 A0 acks n a :
  rep (UsageStore.db (queue a0)) A0 → a_active A0 = true → usage_course a0 acks n a → (a_latest A0 + Z.of_nat n + 2 < 2 ^ 64)%Z →
  ∃ A, rep (UsageStore.db (queue a)) A ∧ later A0 A acks ∧ (a_latest A ≤ a_latest A0 + Z.of_nat n)%Z.
Proof.
  intros Hrep Hact Hc. induction Hc as [|acks n a x _ IH Hok]; intros Hroom.
  { exists A0. split_and!; [done|split_and!; [done..|cbn; lia]|lia]. }
  destruct IH as (A & HA & Hl & Hn); [lia|].
  assert (later A0 A (acked_by x a ++ acks)) as Hsame.
  { destruct Hl as (? & ? & ? & Hk). split_and!; [done..|]. rewrite foldr_app. etransitivity; [exact Hk|].
    generalize (foldr Z.max (a_acked A0) acks). clear. induction (acked_by x a) as [|z l IH]; intros k; cbn; [lia|]. specialize (IH k). lia. }
  destruct (act_queue x a) as [->|(o & Ho & <-)]; [exists A; split_and!; [done..|lia]|].
  destruct (exec_refines_aux o (queue a) A HA (Hok o Ho) ltac:(lia)) as [[e ->]|(d' & -> & Hrep')]; [exists A; split_and!; [done..|lia]|].
  exists (a_exec o A). split; [exact Hrep'|]. split; [|pose proof (a_exec_latest o A); lia].
  apply later_exec; [exact Hl|]. intros request ->. by apply may_ack.
Qed.

(** C5: a sealed snapshot is never changed or lost.  Whatever requests, timers and background
    work follow each other and however they fail, the queue keeps its generation, only adds
    to its history, and still holds every snapshot, old or new, unless a request that was
    accepted has acknowledged its sequence or a later one. *)
Theorem sealed_until_acked a0 A0 acks n a :
  rep (UsageStore.db (queue a0)) A0 → a_active A0 = true → usage_course a0 acks n a →
  (a_latest A0 + Z.of_nat n + 2 < 2 ^ 64)%Z →
  ∃ A new, rep (UsageStore.db (queue a)) A ∧ a_active A = true ∧ a_gen A = a_gen A0 ∧ a_history A = a_history A0 ++ new ∧
    ∀ sn, sn ∈ a_history A → (a_acked A0 < UsageStore.Sequence sn)%Z → (∀ z, z ∈ acks → (z < UsageStore.Sequence sn)%Z) →
      sn ∈ a_queue A.
Proof.
  intros Hrep Hact Hc Hroom. destruct (course_later a0 A0 acks n a Hrep Hact Hc Hroom) as (A & HA & (Ha & Hg & [new Hh] & Hk) & _).
  exists A, new. split_and!; [done..|]. intros sn Hin Hlo Hacks. destruct (rep_live _ _ HA Ha) as [_ _ _ Hb _ _ Hseq].
  apply list_elem_of_lookup in Hin as [i Hi].
  assert (UsageStore.Sequence sn = Z.of_nat i + 1)%Z as Hs.
  { assert ((UsageStore.Sequence <$> a_history A) !! i = Some (UsageStore.Sequence sn)) as H by (by rewrite list_lookup_fmap, Hi).
    rewrite Hseq in H. apply lookup_seqZ in H. lia. }
  assert (foldr Z.max (a_acked A0) acks < UsageStore.Sequence sn)%Z as Hmax.
  { clear -Hlo Hacks. induction acks as [|z l IH]; cbn; [done|].
    apply Z.max_lub_lt; [apply Hacks; left|]. apply IH. intros z' Hz. apply Hacks. by right. }
  unfold a_queue. apply list_elem_of_lookup. exists (i - Z.to_nat (a_acked A)). rewrite lookup_drop.
  replace (Z.to_nat (a_acked A) + (i - Z.to_nat (a_acked A))) with i by lia. done.
Qed.
End agent.

(** ** An example *)

Module QueueDemo.
Import Agent.Agent Mem UsageDemo AuditDemo ActivationSpec.ActivationDemo PluginDemo ForwardDemo Merge AgentDemo.

(** Two snapshots are sealed; the next capture seals a third one, with the traffic of a rule,
    and then the panel acknowledges the first. *)
Definition capture2 : op := OpCapture "sing-box" [counter 30] 6%Z false.
Definition q0 : UsageStore.Store bucket := (exec capture2 UsageDemo.s3).1.
Definition A0 : AStore := a_exec capture2 UsageDemo.a3.
Lemma rep0 : rep (UsageStore.db q0) A0.
Proof. apply (exec_ok_rep capture2 UsageDemo.s3 UsageDemo.a3); [exact rep3|by apply sample_demo|done|vm_compute; reflexivity]. Qed.
Definition second : UsageStore.Snapshot :=
  {| UsageStore.Generation := UsageStore.hex "seed"; UsageStore.Sequence := 2; UsageStore.CapturedAt := 6%Z; UsageStore.Core := "sing-box";
     UsageStore.Counters := [counter 20] |}.

Definition d0 : Agent (B := bucket) := set_usage {| UsageCapture.store := q0; UsageCapture.marker := false |} (set_fwd synced first).
Definition d1 : Agent := act cfg provider "key" (TimerCapture moment) d0.
Definition acknowledge : activity := Request moment (post "/node/stats/usage-snapshots/ack" "1").
Definition d2 : Agent := act cfg provider "key" acknowledge d1.

Lemma demo_acks : acked_by "key" acknowledge d1 = [1%Z].
Proof. vm_compute. reflexivity. Qed.

(** What the first step samples: the counters of the rule *)
Definition rule_sample : list UsageStore.Counter :=
  match UsageCapture.currentUsageCounters (ClientI := core_stats moment) (ForwardingI := FwManager.usage_source (fwd d0)) (runtime d0) with
  | Ok (counters, _, _) => counters
  | Err _ => []
  end.
Lemma rule_sample_ok : counters_ok rule_sample.
Proof.
  intros c Hc.
  assert (forallb (λ c, (0 <=? UsageStore.Value c)%Z && (UsageStore.Value c <? 2 ^ 63)%Z) rule_sample = true) as H by (vm_compute; reflexivity).
  rewrite forallb_elem_of in H. specialize (H c Hc). lia.
Qed.

Lemma op1 o : may "key" (TimerCapture moment) d0 o → op_ok o.
Proof.
  intros (counters & complete & restarted & E & ->). split; [|by intros].
  pose proof rule_sample_ok as H. unfold rule_sample in H. by rewrite E in H.
Qed.
Lemma op2 o : may "key" acknowledge d1 o → op_ok o.
Proof.
  unfold may, acknowledge.
  replace (HttpApi.serve _ _ _ _ _) with
    (HttpApi.Call HttpApi.SnapshotsAck (Some {| UsageStore.ack_Generation := UsageStore.hex "seed"; UsageStore.ThroughSequence := 1 |}))
    by (vm_compute; reflexivity).
  by intros (q & [= <-] & ->).
Qed.

Lemma demo_queue_course : usage_course cfg provider "key" d0 [1%Z] 2 d2.
Proof.
  change [1%Z] with ([1%Z] ++ []). rewrite <-demo_acks. change (@nil Z) with (acked_by "key" (TimerCapture moment) d0 ++ []).
  apply usage_act; [|exact op2]. apply usage_act; [apply usage_start|exact op1].
Qed.

Lemma sealed_until_acked_witness :
  a_active A0 = true ∧
  UsageStore.Pending (UsageStore.StatusOf (UsageStore.db (queue d2))) = 2%Z ∧
  ∃ A, rep (UsageStore.db (queue d2)) A ∧ second ∈ a_queue A.
Proof.
  split; [vm_compute; reflexivity|]. split; [vm_compute; reflexivity|].
  destruct (sealed_until_acked cfg provider "key" d0 A0 [1%Z] 2 d2) as (A & new & HA & _ & _ & Hh & Hq);
    [exact rep0|vm_compute; reflexivity|exact demo_queue_course|vm_compute; reflexivity|].
  exists A. split; [exact HA|]. apply Hq; [|vm_compute; reflexivity|by intros z ->%list_elem_of_singleton].
  rewrite Hh. apply elem_of_app. left. assert (a_history A0 !! 1 = Some second) as H by (vm_compute; reflexivity).
  by apply list_elem_of_lookup_2 in H.
Defined.
End QueueDemo.
